(* ===== verification/_CoqProject ===== *)
-Q . S2P
Prelude.v
GoStd.v
Dates.v
Float.v
Job.v
Regex.v
Words.v
Pii.v
Validate.v
Gin.v
Net.v
Obs.v
Web.v
Service.v
Logger.v
Imaging.v
Circuit.v
Lru.v
Sha256.v
Crypto.v
Webhook.v
SqlSpec.v
Tenant.v
Db.v
Idempotency.v
IdemHttp.v
RedisSpec.v
RedisLocks.v
Scheduler.v
RedisData.v
RuntimeGuard.v
RateLimit.v
Events.v
Consumers.v
Delivery.v
Rbac.v
Auth.v
Notify.v
Files.v
Storage.v
Gates.v
Flows.v
