(* ===== verification/Prelude.v ===== *)
(** * synapse-go: a verification library

    synapse-go is a Go toolkit of small packages that services are built from.  This library
    models nearly all of them: the circuit breaker, the caches, the Redis locks, limiters and
    counters, the task scheduler, idempotent request handling, the transactional outbox, tenant
    scoping of database statements, webhook signatures, tokens, one-time codes and permissions,
    jobs, redaction of personal data, upload keys and file storage, notifications, and the
    request middleware and responses around them.  Definitions follow the Go functions branch by
    branch and are executable; every [Example] and every witness evaluates them on concrete
    inputs.

    ** Parts of the program and the files that model them

    Foundations:
    - [Prelude] (this file): Go's [(value, error)] pairs as [res], the notation [x <-? m; k],
      the hint databases [go] and [go_rw], and the shared tactics.
    - [GoStd]: the language and its standard library as far as the sources use them: int64 and
      uint64 with wrap-around, [time], [strings], [strconv], [encoding/hex], UTF-8 decoding,
      [math.Pow] and float64 (the IEEE 754 arithmetic of [SpecFloat]), calendar dates, and [call],
      a round trip to a server that may fail before or after the server acts ([fault]).
    - [Dates]: the calendar, time zones and RFC 3339 parsing of package [time], with
      timeutil.ParseDateRange.  [Float]: the rounding error of float64 arithmetic.
    - [Regex]: Go's leftmost-first matching and replacement; [Words]: words over byte classes
      and what of a text survives a replacement.
    - [Gin]: request contexts and Gin as the classes [Gin] and [GinLaws], with the instance
      [MemGin].  [SqlSpec]: the tables behind GORM, as [Entity], [Table] and [TableLaws].
      [RedisSpec]: the Redis server, as [Redis] and [RedisLaws], and the command language of the
      Lua scripts.

    Requests and text:
    - [Pii]: pii/pii.go.  [Validate]: validate/validate.go, utils/phone.go, notification/.
    - [Net]: utils/ip.go and ginutil/ip.go, with [net.ParseIP] and address printing.
    - [Obs]: obs/.  [Web]: resp/ ([Resp]), bizerr/ ([Bizerr]), the rest of ginutil/ ([Ginutil]),
      and in [Mw] middleware/cors.go, middleware/requestid.go, the request-scoped parts of
      middleware/platform.go, and audit/middleware.go.
    - [Service]: config/ ([Config]), healthcheck/ ([Health]), event/bus.go ([Bus]),
      graceful/server.go ([Graceful]), migrate/migrate.go ([Migrate]).
    - [Logger]: logger/logger.go, with its callers interleaved at the atomic operations.
    - [Imaging]: imaging/imaging.go.  [Notify]: mailer/ and notify/.

    State and stores:
    - [Circuit]: circuitbreaker/breaker.go.  [Breaker] is the code, [Spec] the
      closed/open/half-open automaton it implements per key, [Documented] the one its comments
      describe, with one probe at a time while half-open.
    - [Lru]: cache/lru.go.  [Lru] keeps the linked list, the map and the heap of entries apart
      as the code does; [LruSpec] is the recency-ordered list.
    - [Tenant]: tenant/ (context values, middleware, and the GORM callbacks on [Table]).
    - [Db]: db/db.go, redis/redis.go and the ready-made health checks ([Conn]), db/hooks.go
      ([Hooks]), audit/store.go ([Audit]).
    - [Idempotency], [IdemHttp]: idempotency/idempotency.go (keys and hashes), model.go, repo.go
      ([Repo], on [Table]), service.go ([Begin], [Complete], ... on the class [Repository], which
      [Repo_laws] discharges), and middleware.go.
    - [RedisLocks]: lock/lock.go, lock/distributed.go, the lock manager and store of
      runtimeguard/redis.go, idempotent/idempotent.go.
    - [Scheduler]: scheduler/, as a step relation of the goroutines over the lock model.
    - [RedisData]: sequence/sequence.go and cache/cache.go.
    - [RuntimeGuard]: runtimeguard/limiter.go, lock.go, and the limiter of redis.go.
    - [RateLimit]: ratelimit/ (limits, Lua scripts, limiter, token estimator).
    - [Events]: outbox/ ([Outbox]) and reliableevents/ ([Reliable]).  [Consumers]: concurrent
      calls of MarkProcessed, cut at their round trips.  [Delivery]: the contract of
      reliableevents/service.go, a ledger of letters that wait, are delivered or are abandoned
      ([Ledger]), and the service as its implementation.
    - [Job]: job/job.go, job/cronguard.go, jobpayload/payload.go, utils/backoff.go,
      timeutil/backoff.go.
    - [Files]: files/files.go.  [Storage]: storage/, on the class [FileSystem] with the instance
      [MemFiles].

    Security:
    - [Sha256], [Webhook]: an executable SHA-256/HMAC, and webhook/webhook.go over it.
    - [Crypto]: crypto/ (random codes, and one-time passwords over an executable SHA-1 and Base32).
    - [Rbac]: rbac/rbac.go, middleware/permission.go, middleware/role.go.
    - [Auth], [Gates]: auth/auth.go; middleware/platform.go and middleware/auth.go over it, and the
      limiter keys runtimeguard/limiter.go builds from claims.
    - [Flows]: packages composed, the tenant middleware with the statements of its handlers, the
      token gate with the limiter behind it, and a token from its issue through the gate to the
      log lines, metadata and limiter key of the request.

    The packages meet in few places: the middleware calls the token service and Redis; the
    idempotency middleware calls its service, the service its repository, the repository a
    table; locks, limiters, counters, the scheduler and the cache share the Redis interface; the
    outbox, reliable events and tenant callbacks share the table interface; redaction sits behind
    logging and notification.  These meetings are the classes named above: a client's theorems are
    proved from the class's laws, and the implementation (or, for servers, a concrete [MemRedis],
    [MemTable], [MemGin] or [MemFiles]) satisfies them.

    ** How the code is rendered

    A struct is a [Record] with the Go field names, an error variable a constructor, a method a
    function on the state it may change.  A mutex-protected structure is used by whole
    operations, so an execution is a sequence of calls.  Clocks, random bytes, UUIDs and
    server times are arguments; a function that reads the clock twice takes two readings.
    Each request to Redis or to the database takes a [fault] of its own.  Where concurrency
    crosses several round trips the operation is cut at them: [Idempotency.IdemProps.interleave]
    schedules any number of [Begin] calls statement by statement (with [begin_is_its_steps]
    relating the steps to the function), [RedisData.Sequence.issue] the round trips of [Next], and
    [Scheduler] interleaves the goroutines of the tasks, the shutdown and the expiry of locks.
    Goroutines that only report under a mutex are the sequence of their reports, in any order.

    Go strings are byte sequences.  Integers are [Z]; where the width matters the wrap-around is
    written out ([wrap64]) or the theorem carries the range.

    ** What the theorems show

    - Refinement: the breaker answers as its automaton (and as the documented one on histories in
      which nobody asks while a probe is out), the LRU cache as the recency
      list, the concurrency slots as a counting semaphore, the repository as its interface, the
      whole reliable-events service, failing round trips included, as the ledger.
    - Exclusion: an unexpired Redis or in-process lock is not taken, removed or shortened by
      others; a locked task runs in one scheduler at a time while its lock lasts; one idempotency
      scope is started at most once by concurrent calls; sequence numbers never repeat.
    - Progress: a cancelled scheduler comes to rest, its wait group counting the goroutines that
      run at every moment; notification retries end, at the first success or after the last
      attempt allowed; concurrent users of the shared logger all return, with a logger that was
      stored (which need not be the configured one: [Logger] shows how that is lost).
    - Isolation: statements under a tenant whose conditions are chained by Where read and change
      that tenant's rows only (conditions chained by Or defeat the filter); object keys
      and stored files stay under their tenant and their root; limiter keys of different
      principals differ.  End to end, a request's tenant header decides which rows its handler
      can reach, a caller's limiter answers do not depend on other callers, and a request is
      attributed to the tenant and principal its token was issued for.
    - Replay: until its record expires a completed request is answered from it with the handlers
      not run, whatever other requests and garbage collection do meanwhile; different
      scopes share a storage key only if their own framings collide under SHA-256.
    - Limits: bounds on admitted calls of the in-process limiter, exact decisions and roll-back
      of the Redis limits, honest retry times, and what faults do to each.
    - Events: delivery at least once (an event not marked sent comes back until its sixth
      failure), oldest-first pending batches, once-only processing (also by concurrent
      consumers), the retry schedule, dispatch.
    - Rows: creation, update and clock stay in order under the timestamp hooks; the audit
      trail holds one entry for each write request when its saves succeed.
    - Security: webhook headers verify exactly what was signed; tokens are confined to their
      kind, audience and lifetime; one-time codes are accepted exactly in their window and
      generated secrets are always usable; gates and permission checks let through exactly what
      they should; no card, tax, Chinese mobile or identity number stands as a word of a text
      redacted by the rules for it.
    - Requests: a request id reaches the response, the handlers, outbound calls and logs; errors
      map to the documented answers; IPv4 addresses are read back as printed and classified as
      private exactly by their ranges; migration URLs are canonical.
    - Parsing and arithmetic: the cron guard is exact (where its zone ends in a space), the backoff
      schedules are the documented ones on float64 as far as int64 reaches, decimal printing agrees with the standard library's; payload
      integers are the numbers their values stand for; the default date range is the calendar
      month and a range is read back as printed; resized images fit their box.

    ** Bounds and fuel

    Recursion is structural except in [GoStd.fields_go], [trim_by], the regular-expression
    matcher and the like, whose fuel is the length of the string plus one (each step consumes a
    byte); [math.Pow], whose loop has a step for each of the 64 bits the exponent can have;
    decimal printing, with a step for each of the 20 digits of a uint64; IPv6 parsing, with one
    for each of the 8 groups; and the retry loops, which turn at most the configured number of
    times plus one.  Theorems on counters ask that values stay in int64, or below [2^53] where a
    Lua script reads them (Lua numbers are float64).  The default backoff is evaluated for every
    retry count up to 1000.  Image sides and their limits are below [2^31], where the rounding
    errors of float64 cannot add up to a pixel; dates are printed and read for the years 0 to
    9999, which RFC 3339 can write.

    ** Assumptions

    [RedisLaws] states the documented effect of each command on the keyspace; scripts are
    atomic.  [TableLaws] states INSERT with a unique key, SELECT, UPDATE and DELETE; text is
    compared byte by byte.  [WhereLaws] states what GORM documents of chained conditions: Where
    joins by AND, Or begins an alternative.  [GinLaws]
    states that context values and headers are read back as set; [FileSystemLaws] what the
    operating system's file calls do to the tree, in which distinct paths are distinct files (no links).  [JwtLaws] states that verification accepts what
    the same secret signed, until it expires, [MapJwtLaws] the same for free-form claims.
    [StampedLaws] states that setting one column leaves the others; [EntryTableLaws] that an
    INSERT into the audit table adds its entry.  [Drivers] and [Migrator] are what database drivers and
    golang-migrate answer, without laws.  [UnicodeCase] and [UnicodeCategory] stand for the
    Unicode tables.  No cryptographic hardness is assumed: statements that need it exhibit the
    collision.

    ** Not modelled

    auth/provider.go declares an interface and no code; the doc.go files hold comments.  Image
    decoding, scaling and encoding belong to the image libraries: the sizes are modelled, the
    pixels are not.  The timestamp hooks are modelled for statements on one row, not for GORM's
    batches, and Create for a plain INSERT: upserts (an ON CONFLICT clause, Save of a row whose id
    exists) are outside the theorems on tenants and timestamps.  Log lines are left out where nothing depends on them.  What is left of e-mail
    addresses and Russian phone numbers after redaction is computed by the model, with no theorem but
    [Pii.PiiProps.ru_mobile_survives]. *)
From stdpp Require Export base decidable strings gmap list fin_maps pretty.
From Stdlib Require Export ZArith Lia Sorting.Sorted.
From Stdlib Require Strings.String Strings.Ascii.
Export (notations) Stdlib.Strings.Ascii.

Abbreviation list_ascii_of_string := Stdlib.Strings.String.list_ascii_of_string.
Abbreviation string_of_list_ascii := Stdlib.Strings.String.string_of_list_ascii.
Abbreviation nat_of_ascii := Stdlib.Strings.Ascii.nat_of_ascii.
Abbreviation ascii_of_nat := Stdlib.Strings.Ascii.ascii_of_nat.
Abbreviation ascii := Stdlib.Strings.Ascii.ascii.

#[export] Set Warnings "-clear-no-such-hyp".

Declare Scope go_scope.
Delimit Scope go_scope with go.
#[global] Open Scope Z_scope.

(** ** Fallible code: Go's [(value, error)] pairs. *)
Inductive res (E A : Type) : Type :=
| Ok (a : A)
| Err (e : E).
Arguments Ok {E A} a.
Arguments Err {E A} e.

Definition res_bind {E A B} (m : res E A) (f : A -> res E B) : res E B :=
  match m with Ok a => f a | Err e => Err e end.

Notation "x <-? m ; k" := (res_bind m (fun x => k))
  (at level 20, m at level 100, k at level 200, right associativity) : go_scope.

Definition is_ok {E A} (m : res E A) : bool :=
  match m with Ok _ => true | Err _ => false end.

(** ** Automation *)
Create HintDb go.
Create Rewrite HintDb go_rw.

(** Discharge the leading conjuncts that are immediate. *)
Ltac conj_done := repeat match goal with |- _ /\ _ => split; [done|] end.

(** Decide the integer comparisons of the goal that the context settles. *)
Ltac zdec :=
  repeat match goal with
  | |- context [?a <=? ?b] =>
      first [rewrite (proj2 (Z.leb_le a b)) by lia | rewrite (proj2 (Z.leb_gt a b)) by lia]
  | |- context [?a <? ?b] =>
      first [rewrite (proj2 (Z.ltb_lt a b)) by lia | rewrite (proj2 (Z.ltb_ge a b)) by lia]
  | |- context [?a =? ?b] =>
      first [rewrite (proj2 (Z.eqb_eq a b)) by lia | rewrite (proj2 (Z.eqb_neq a b)) by lia]
  end; cbn [negb andb orb].

(** Membership in a list that is written out, and simplification by [go_rw]. *)
Ltac in_list := rewrite ?elem_of_cons, ?elem_of_nil in *; naive_solver.
Ltac go_simpl := autorewrite with go_rw; cbn [negb andb orb].

(** ** Sums over a list, and updates by index *)
Definition zsum {A} (f : A -> Z) (l : list A) : Z := foldr (fun x n => f x + n) 0 l.
Lemma zsum_app {A} (f : A -> Z) l k : zsum f (l ++ k) = zsum f l + zsum f k.
Proof. induction l as [|x l IH]; simpl; [done|]. unfold zsum in *. simpl. lia. Qed.
Lemma zsum_insert {A} (f : A -> Z) l j x y :
  l !! j = Some x -> zsum f (<[j := y]> l) = zsum f l - f x + f y.
Proof.
  revert j. induction l as [|z l IH]; intros [|j] Hj; simplify_eq/=; unfold zsum in *; simpl; [lia|].
  rewrite (IH j Hj). lia.
Qed.
Lemma zsum_nonneg {A} (f : A -> Z) l : (forall x, 0 <= f x) -> 0 <= zsum f l.
Proof. intros Hf. induction l as [|x l IH]; unfold zsum in *; simpl; [lia|]. specialize (Hf x). lia. Qed.
Lemma zsum_zero {A} (f : A -> Z) l :
  (forall x, 0 <= f x) -> zsum f l = 0 <-> Forall (fun x => f x = 0) l.
Proof.
  intros Hf. induction l as [|x l IH]; [by split|]. rewrite Forall_cons, <- IH.
  unfold zsum. simpl. fold (zsum f l). pose proof (Hf x). pose proof (zsum_nonneg f l Hf). lia.
Qed.
Lemma zsum_le {A} (f : A -> Z) l c : (forall x, f x <= c) -> zsum f l <= c * Z.of_nat (length l).
Proof. intros Hf. induction l as [|x l IH]; unfold zsum in *; simpl in *; [lia|]. specialize (Hf x). lia. Qed.
