(* ===== verification/GoStd.v ===== *)
(** * The Go language and standard library used by synapse-go

    Machine integers with their wrap-around, [time.Time] and [time.Duration],
    the [strings], [strconv], [hex] and [unicode] functions the packages call, float64 with
    [math.Pow], calendar dates, and faulty round trips.  Go strings are byte sequences: a Rocq
    [string] is one, an [ascii] is a byte.  *)
From S2P Require Import Prelude.
From Stdlib Require Floats.SpecFloat.

(** ** Integers: [int] and [int64] are 64 bits wide *)
Definition maxInt64 : Z := 9223372036854775807.
Definition minInt64 : Z := -9223372036854775808.
Definition maxUint64 : Z := 18446744073709551615.

Definition wrap64 (z : Z) : Z := (z + 2 ^ 63) mod 2 ^ 64 - 2 ^ 63.
Definition wrapu64 (z : Z) : Z := z mod 2 ^ 64.
Definition in_int64 (z : Z) : Prop := minInt64 <= z <= maxInt64.
(** Range side conditions. *)
Ltac int64 := unfold in_int64, minInt64, maxInt64 in *; lia.
#[export] Hint Extern 1 (in_int64 _) => int64 : go.

Lemma wrap64_id z : in_int64 z -> wrap64 z = z.
Proof.
  unfold in_int64, wrap64, minInt64, maxInt64. intros H.
  rewrite Z.mod_small; lia.
Qed.

Lemma wrap64_range z : in_int64 (wrap64 z).
Proof.
  unfold in_int64, wrap64, minInt64, maxInt64.
  pose proof (Z.mod_pos_bound (z + 2 ^ 63) (2 ^ 64)). lia.
Qed.

(** [clamp64] is the saturation [time.Time.Sub] documents. *)
Definition clamp64 (z : Z) : Z := Z.max minInt64 (Z.min maxInt64 z).

(** ** Time: nanoseconds since the zero [time.Time] (January 1, year 1, UTC) *)
Abbreviation Time := Z (only parsing).
Abbreviation Duration := Z (only parsing).

Definition Millisecond : Duration := 1000000.
Definition Second : Duration := 1000000000.
Definition Minute : Duration := 60 * Second.
Definition Hour : Duration := 60 * Minute.

Definition zeroTime : Time := 0.
Definition IsZero (t : Time) : bool := t =? 0.
Definition Add (t : Time) (d : Duration) : Time := t + d.
Definition Sub (t u : Time) : Duration := clamp64 (t - u).
Definition After (t u : Time) : bool := u <? t.
Definition Before (t u : Time) : bool := t <? u.
Definition unixToInternal : Z := 62135596800.
(** [time.Unix(sec, 0)]; the seconds field is an [int64] and wraps. *)
Definition time_Unix (sec : Z) : Time := wrap64 (sec + unixToInternal) * Second.
(** [t.Unix()] *)
Definition Unix (t : Time) : Z := wrap64 (t / Second - unixToInternal).

(** ** Strings *)
Definition str_rev (s : string) : string :=
  string_of_list_ascii (rev (list_ascii_of_string s)).

Fixpoint str_all (p : ascii -> bool) (s : string) : bool :=
  match s with
  | "" => true
  | String c s' => p c && str_all p s'
  end.

(** [str_strip p s] is [Some t] when [s = p ++ t]. *)
Fixpoint str_strip (p s : string) : option string :=
  match p, s with
  | "", _ => Some s
  | String a p', String b s' => if Ascii.eqb a b then str_strip p' s' else None
  | String _ _, "" => None
  end.

Definition HasPrefix (s p : string) : bool := bool_decide (is_Some (str_strip p s)).
Definition TrimPrefix (s p : string) : string := default s (str_strip p s).
Definition HasSuffix (s p : string) : bool := HasPrefix (str_rev s) (str_rev p).
Definition TrimSuffix (s p : string) : string :=
  match str_strip (str_rev p) (str_rev s) with
  | Some t => str_rev t
  | None => s
  end.

(** White space of [unicode.IsSpace], each rune as its UTF-8 bytes. *)
Definition bytes (l : list nat) : string := string_of_list_ascii (ascii_of_nat <$> l).
Definition space_seqs : list string := bytes <$>
  [ [9]; [10]; [11]; [12]; [13]; [32];                      (* \t \n \v \f \r and space *)
    [194; 133]; [194; 160];                                 (* U+0085 U+00A0 *)
    [225; 154; 128];                                        (* U+1680 *)
    [226; 128; 128]; [226; 128; 129]; [226; 128; 130]; [226; 128; 131];
    [226; 128; 132]; [226; 128; 133]; [226; 128; 134]; [226; 128; 135];
    [226; 128; 136]; [226; 128; 137]; [226; 128; 138];      (* U+2000 .. U+200A *)
    [226; 128; 168]; [226; 128; 169]; [226; 128; 175];      (* U+2028 U+2029 U+202F *)
    [226; 129; 159]; [227; 128; 128] ]%nat.                 (* U+205F U+3000 *)

(** Remove one of the sequences [ws] from the front of [s]. *)
Fixpoint strip_one (ws : list string) (s : string) : option string :=
  match ws with
  | [] => None
  | w :: ws' => match str_strip w s with Some t => Some t | None => strip_one ws' s end
  end.

(** Remove sequences of [ws] from the front while there is one; every sequence is
    non-empty, so [String.length s] rounds are enough. *)
Fixpoint trim_by (ws : list string) (n : nat) (s : string) : string :=
  match n with
  | O => s
  | S n' => match strip_one ws s with Some t => trim_by ws n' t | None => s end
  end.
Definition trim_left (ws : list string) (s : string) : string :=
  trim_by ws (String.length s) s.
Definition trim_right (ws : list string) (s : string) : string :=
  str_rev (trim_left (str_rev <$> ws) (str_rev s)).
Definition trim_both (ws : list string) (s : string) : string :=
  trim_right ws (trim_left ws s).

(** [strings.TrimSpace] and [strings.Trim] with a one-byte cut set. *)
Definition TrimSpace (s : string) : string := trim_both space_seqs s.
Definition Trim (s : string) (cut : ascii) : string := trim_both [String cut ""] s.

(** [strings.Contains(s, string(c))] for an ASCII [c]. *)
Fixpoint ContainsByte (s : string) (c : ascii) : bool :=
  match s with
  | "" => false
  | String a s' => Ascii.eqb a c || ContainsByte s' c
  end.

(** Cut at the first [c]: [Some (s[:i], s[i+1:])] with [i = IndexByte(s, c)]. *)
Fixpoint cut_at (c : ascii) (s : string) : option (string * string) :=
  match s with
  | "" => None
  | String a s' =>
      if Ascii.eqb a c then Some ("", s')
      else match cut_at c s' with Some (l, r) => Some (String a l, r) | None => None end
  end.

(** [strings.Split(s, string(c))] *)
Fixpoint Split (s : string) (c : ascii) : list string :=
  match s with
  | "" => [""]
  | String a s' =>
      if Ascii.eqb a c then "" :: Split s' c
      else match Split s' c with
           | [] => [String a ""]
           | h :: t => String a h :: t
           end
  end.

(** [strings.Fields]: maximal runs of bytes that start no white space rune. *)
Fixpoint fields_go (n : nat) (cur s : string) : list string :=
  let emit := if String.eqb cur "" then [] else [cur] in
  match n with
  | O => emit
  | S n' =>
      match strip_one space_seqs s with
      | Some t => emit ++ fields_go n' "" t
      | None =>
          match s with
          | "" => emit
          | String a s' => fields_go n' (cur +:+ String a "") s'
          end
      end
  end.
Definition Fields (s : string) : list string := fields_go (S (String.length s)) "" s.

Fixpoint Join (l : list string) (sep : string) : string :=
  match l with
  | [] => ""
  | [x] => x
  | x :: l' => x +:+ sep +:+ Join l' sep
  end.

(** *** Case mapping: ASCII strings byte by byte, others by the Unicode tables. *)
Class UnicodeCase := { uni_upper : string -> string; uni_lower : string -> string }.

(** Tables that leave non-ASCII strings alone, for concrete runs. *)
Definition plain_case : UnicodeCase := {| uni_upper s := s; uni_lower s := s |}.

Definition is_ascii (c : ascii) : bool := (nat_of_ascii c <? 128)%nat.
Definition upper_byte (c : ascii) : ascii :=
  let n := nat_of_ascii c in
  if ((97 <=? n) && (n <=? 122))%nat then ascii_of_nat (n - 32) else c.
Definition lower_byte (c : ascii) : ascii :=
  let n := nat_of_ascii c in
  if ((65 <=? n) && (n <=? 90))%nat then ascii_of_nat (n + 32) else c.
Fixpoint str_map (f : ascii -> ascii) (s : string) : string :=
  match s with "" => "" | String c s' => String (f c) (str_map f s') end.
Definition ToUpper `{UnicodeCase} (s : string) : string :=
  if str_all is_ascii s then str_map upper_byte s else uni_upper s.
Definition ToLower `{UnicodeCase} (s : string) : string :=
  if str_all is_ascii s then str_map lower_byte s else uni_lower s.

(** ** strconv *)
Inductive NumError := ErrSyntax | ErrRange.

Definition digit_val (c : ascii) : option Z :=
  let n := Z.of_nat (nat_of_ascii c) in
  if (48 <=? n) && (n <=? 57) then Some (n - 48) else None.
Definition is_digit (c : ascii) : bool := bool_decide (is_Some (digit_val c)).

Fixpoint parse_digits (n : Z) (s : string) : Z * option NumError :=
  match s with
  | "" => (n, None)
  | String c s' =>
      match digit_val c with
      | None => (0, Some ErrSyntax)
      | Some d =>
          let n1 := n * 10 + d in
          if maxUint64 <? n1 then (maxUint64, Some ErrRange) else parse_digits n1 s'
      end
  end.

(** [strconv.ParseUint(s, 10, 64)] *)
Definition ParseUint (s : string) : Z * option NumError :=
  if String.eqb s "" then (0, Some ErrSyntax) else parse_digits 0 s.

Definition parse_signed (neg : bool) (s : string) : Z * option NumError :=
  match ParseUint s with
  | (_, Some ErrSyntax) => (0, Some ErrSyntax)
  | (un, _) =>
      if negb neg && (2 ^ 63 <=? un) then (maxInt64, Some ErrRange)
      else if neg && (2 ^ 63 <? un) then (minInt64, Some ErrRange)
      else (if neg then - un else un, None)
  end.

(** [strconv.ParseInt(s, 10, 64)] *)
Definition ParseInt (s : string) : Z * option NumError :=
  match s with
  | "" => (0, Some ErrSyntax)
  | String c s' =>
      if Ascii.eqb c "+"%char then parse_signed false s'
      else if Ascii.eqb c "-"%char then parse_signed true s'
      else parse_signed false s
  end.

(** [strconv.FormatInt(z, 10)], [strconv.Itoa] and the [%d] verb. *)
Definition FormatInt (z : Z) : string := pretty z.

(** ** String facts *)
Lemma sapp_cons c (a b : string) : String c a +:+ b = String c (a +:+ b).
Proof. done. Qed.
Lemma sapp_nil_l (s : string) : "" +:+ s = s.
Proof. done. Qed.
Lemma sapp_nil_r (s : string) : s +:+ "" = s.
Proof. induction s as [|c s IH]; [done|]. by rewrite sapp_cons, IH. Qed.
Lemma sapp_assoc (a b c : string) : a +:+ (b +:+ c) = (a +:+ b) +:+ c.
Proof. induction a as [|x a IH]; [done|]. by rewrite !sapp_cons, IH. Qed.
Lemma slen_app (a b : string) :
  String.length (a +:+ b) = (String.length a + String.length b)%nat.
Proof. induction a as [|x a IH]; [done|]. rewrite sapp_cons. simpl. by rewrite IH. Qed.
Lemma sapp_inj_l (a b c : string) : a +:+ b = a +:+ c -> b = c.
Proof. induction a as [|x a IH]; [done|]. rewrite !sapp_cons. intros [= H]; auto. Qed.
Lemma slen_zero (s : string) : String.length s = 0%nat -> s = "".
Proof. by destruct s. Qed.

Lemma lasc_app (a b : string) :
  list_ascii_of_string (a +:+ b) = list_ascii_of_string a ++ list_ascii_of_string b.
Proof. induction a as [|x a IH]; [done|]. rewrite sapp_cons. simpl. by rewrite IH. Qed.
Lemma soa_app (a b : list ascii) :
  string_of_list_ascii (a ++ b) = string_of_list_ascii a +:+ string_of_list_ascii b.
Proof. induction a as [|x a IH]; simpl; [done | by rewrite IH]. Qed.
Lemma lasc_length (s : string) : length (list_ascii_of_string s) = String.length s.
Proof. induction s as [|x a IH]; simpl; [done | by rewrite IH]. Qed.

Lemma str_rev_app a b : str_rev (a +:+ b) = str_rev b +:+ str_rev a.
Proof. unfold str_rev. by rewrite lasc_app, rev_app_distr, soa_app. Qed.
Lemma str_rev_involutive s : str_rev (str_rev s) = s.
Proof.
  unfold str_rev. rewrite Stdlib.Strings.String.list_ascii_of_string_of_list_ascii,
    rev_involutive. apply Stdlib.Strings.String.string_of_list_ascii_of_string.
Qed.
Lemma str_rev_inj a b : str_rev a = str_rev b -> a = b.
Proof. intros H. by rewrite <- (str_rev_involutive a), H, str_rev_involutive. Qed.
Lemma str_rev_length s : String.length (str_rev s) = String.length s.
Proof.
  unfold str_rev. rewrite <- lasc_length,
    Stdlib.Strings.String.list_ascii_of_string_of_list_ascii, length_rev.
  apply lasc_length.
Qed.
Lemma str_rev_nil s : str_rev s = "" <-> s = "".
Proof.
  split; [|by intros ->]. intros H. by rewrite <- (str_rev_involutive s), H.
Qed.

Lemma str_strip_Some p s t : str_strip p s = Some t <-> s = p +:+ t.
Proof.
  revert s. induction p as [|a p IH]; intros s; simpl.
  { rewrite sapp_nil_l. naive_solver. }
  rewrite sapp_cons. destruct s as [|b s]; [naive_solver|].
  destruct (Stdlib.Strings.Ascii.eqb_spec a b) as [->|Hne]; [rewrite IH|]; naive_solver.
Qed.
Lemma str_strip_app p t : str_strip p (p +:+ t) = Some t.
Proof. by apply str_strip_Some. Qed.
Lemma str_strip_None p s : str_strip p s = None <-> forall t, s <> p +:+ t.
Proof.
  split.
  - intros H t ->. by rewrite str_strip_app in H.
  - intros H. destruct (str_strip p s) as [t|] eqn:E; [|done].
    apply str_strip_Some in E. by destruct (H t).
Qed.

Lemma HasPrefix_iff s p : HasPrefix s p = true <-> exists t, s = p +:+ t.
Proof.
  unfold HasPrefix. rewrite bool_decide_eq_true.
  split; intros [t H]; exists t; by apply str_strip_Some.
Qed.
Lemma HasPrefix_app p t : HasPrefix (p +:+ t) p = true.
Proof. apply HasPrefix_iff. by exists t. Qed.
Lemma TrimPrefix_app p t : TrimPrefix (p +:+ t) p = t.
Proof. unfold TrimPrefix. by rewrite str_strip_app. Qed.
Lemma HasSuffix_iff s p : HasSuffix s p = true <-> exists t, s = t +:+ p.
Proof.
  unfold HasSuffix. rewrite HasPrefix_iff. split; intros [t H].
  - exists (str_rev t). apply str_rev_inj. by rewrite str_rev_app, str_rev_involutive.
  - exists (str_rev t). by rewrite H, str_rev_app.
Qed.
Lemma TrimSuffix_app t p : TrimSuffix (t +:+ p) p = t.
Proof.
  unfold TrimSuffix. rewrite str_rev_app, str_strip_app. apply str_rev_involutive.
Qed.

(** *** Trimming *)
Lemma strip_one_Some ws s t :
  strip_one ws s = Some t -> exists w, w ∈ ws /\ s = w +:+ t.
Proof.
  induction ws as [|w ws IH]; simpl; [done|].
  destruct (str_strip w s) as [t'|] eqn:E; intros H; simplify_eq.
  - exists w. split; [set_solver|]. by apply str_strip_Some.
  - destruct (IH H) as (w' & ? & ?). exists w'. split; [set_solver|done].
Qed.
Lemma strip_one_None ws s :
  strip_one ws s = None <-> forall w t, w ∈ ws -> s <> w +:+ t.
Proof.
  induction ws as [|w ws IH]; simpl.
  { split; [|done]. intros _ w t H. by apply not_elem_of_nil in H. }
  destruct (str_strip w s) as [t'|] eqn:E.
  - split; [done|]. intros H. apply str_strip_Some in E. destruct (H w t'); set_solver.
  - rewrite IH. rewrite str_strip_None in E. set_solver.
Qed.

Definition nonempty_seqs (ws : list string) : Prop := "" ∉ ws.

Lemma strip_one_length ws s t :
  nonempty_seqs ws -> strip_one ws s = Some t -> (String.length t < String.length s)%nat.
Proof.
  intros Hne (w & Hw & ->)%strip_one_Some. rewrite slen_app.
  destruct w; [done|]. simpl. lia.
Qed.
Lemma trim_by_None ws n s :
  nonempty_seqs ws -> (String.length s <= n)%nat -> strip_one ws (trim_by ws n s) = None.
Proof.
  intros Hne. revert s. induction n as [|n IH]; intros s Hn; simpl.
  - destruct s; [|simpl in Hn; lia]. apply strip_one_None. intros w t Hw H.
    destruct w; [by apply Hne|done].
  - destruct (strip_one ws s) as [t|] eqn:E; [|done].
    apply IH. pose proof (strip_one_length _ _ _ Hne E). lia.
Qed.
Lemma trim_by_suffix ws n s : exists p, s = p +:+ trim_by ws n s.
Proof.
  revert s. induction n as [|n IH]; intros s; simpl; [by exists ""|].
  destruct (strip_one ws s) as [t|] eqn:E; [|by exists ""].
  apply strip_one_Some in E as (w & _ & ->). destruct (IH t) as [p Hp].
  exists (w +:+ p). by rewrite <- sapp_assoc, <- Hp.
Qed.
Lemma trim_by_fix ws n s : strip_one ws s = None -> trim_by ws n s = s.
Proof. intros H. destruct n; simpl; [done|]. by rewrite H. Qed.

Lemma nonempty_seqs_rev ws : nonempty_seqs ws -> nonempty_seqs (str_rev <$> ws).
Proof.
  unfold nonempty_seqs. rewrite list_elem_of_fmap.
  intros H (y & Hy & ?). symmetry in Hy. apply str_rev_nil in Hy as ->. by apply H.
Qed.

Definition no_lead (ws : list string) (s : string) : Prop := strip_one ws s = None.
Definition no_trail (ws : list string) (s : string) : Prop :=
  strip_one (str_rev <$> ws) (str_rev s) = None.

Lemma no_lead_prefix ws p q : no_lead ws (p +:+ q) -> no_lead ws p.
Proof.
  unfold no_lead. rewrite !strip_one_None. intros H w t Hw ->.
  apply (H w (t +:+ q) Hw). by rewrite sapp_assoc.
Qed.
Lemma trim_right_prefix ws s : exists q, s = trim_right ws s +:+ q.
Proof.
  unfold trim_right, trim_left.
  destruct (trim_by_suffix (str_rev <$> ws) (String.length (str_rev s)) (str_rev s)) as [p Hp].
  exists (str_rev p). apply str_rev_inj. by rewrite str_rev_app, !str_rev_involutive.
Qed.
Lemma trim_both_clean ws s :
  nonempty_seqs ws -> no_lead ws (trim_both ws s) /\ no_trail ws (trim_both ws s).
Proof.
  intros Hne. split.
  - destruct (trim_right_prefix ws (trim_left ws s)) as [q Hq].
    apply (no_lead_prefix _ _ q). unfold trim_both. rewrite <- Hq.
    by apply trim_by_None.
  - unfold no_trail, trim_both, trim_right. rewrite str_rev_involutive.
    apply trim_by_None; [by apply nonempty_seqs_rev | done].
Qed.
Lemma trim_both_fix ws s : no_lead ws s -> no_trail ws s -> trim_both ws s = s.
Proof.
  intros Hl Ht. unfold trim_both, trim_right, trim_left.
  rewrite (trim_by_fix ws), (trim_by_fix (str_rev <$> ws)) by done.
  apply str_rev_involutive.
Qed.

Lemma space_seqs_nonempty : nonempty_seqs space_seqs.
Proof. by apply (bool_decide_unpack _). Qed.
Lemma TrimSpace_clean s :
  no_lead space_seqs (TrimSpace s) /\ no_trail space_seqs (TrimSpace s).
Proof. apply trim_both_clean, space_seqs_nonempty. Qed.
Lemma TrimSpace_fix s :
  no_lead space_seqs s -> no_trail space_seqs s -> TrimSpace s = s.
Proof. apply trim_both_fix. Qed.
Lemma TrimSpace_idem s : TrimSpace (TrimSpace s) = TrimSpace s.
Proof. apply TrimSpace_fix; apply TrimSpace_clean. Qed.
#[export] Hint Rewrite TrimSpace_idem : go_rw.
Lemma TrimSpace_infix s : exists p q, s = p +:+ TrimSpace s +:+ q.
Proof.
  destruct (trim_by_suffix space_seqs (String.length s) s) as [p Hp].
  destruct (trim_right_prefix space_seqs (trim_left space_seqs s)) as [q Hq].
  exists p, q. unfold TrimSpace, trim_both. rewrite <- Hq. done.
Qed.

(** *** Splitting *)
Lemma Split_nonnil s c : Split s c <> [].
Proof.
  destruct s as [|a s]; simpl; [done|]. destruct (Ascii.eqb a c); [done|].
  by destruct (Split s c).
Qed.
Lemma Split_none s c : ContainsByte s c = false -> Split s c = [s].
Proof.
  induction s as [|a s IH]; simpl; [done|].
  destruct (Ascii.eqb a c); simpl; [done|]. intros H. by rewrite IH.
Qed.
Lemma Split_app s t c :
  ContainsByte s c = false -> Split (s +:+ String c t) c = s :: Split t c.
Proof.
  induction s as [|a s IH].
  { intros _. change ("" +:+ ?x) with x. simpl. by rewrite Stdlib.Strings.Ascii.eqb_refl. }
  rewrite sapp_cons. simpl. destruct (Ascii.eqb a c); simpl; [done|].
  intros H. by rewrite IH.
Qed.
Lemma cut_at_Some c s l r :
  cut_at c s = Some (l, r) -> s = l +:+ String c r /\ ContainsByte l c = false.
Proof.
  revert l. induction s as [|a s IH]; intros l; simpl; [done|].
  destruct (Stdlib.Strings.Ascii.eqb_spec a c) as [->|Hne]; [by intros [= <- <-]|].
  destruct (cut_at c s) as [[l' r']|]; [|done]. intros [= <- ->].
  destruct (IH l' eq_refl) as [-> Hl]. split; [done|]. simpl. rewrite Hl, orb_false_r.
  by apply Stdlib.Strings.Ascii.eqb_neq.
Qed.
Lemma cut_at_app c l r :
  ContainsByte l c = false -> cut_at c (l +:+ String c r) = Some (l, r).
Proof.
  induction l as [|a l IH].
  { intros _. change ("" +:+ ?x) with x. simpl. by rewrite Stdlib.Strings.Ascii.eqb_refl. }
  rewrite sapp_cons. simpl. intros [-> Hl]%orb_false_iff. by rewrite IH.
Qed.
Lemma cut_at_None c s : cut_at c s = None <-> ContainsByte s c = false.
Proof.
  induction s as [|a s IH]; simpl; [done|]. destruct (Ascii.eqb a c); simpl; [done|].
  destruct (cut_at c s) as [[??]|]; [|naive_solver]. split; [done|]. intros H.
  by apply IH in H.
Qed.

Lemma ContainsByte_app s t c : ContainsByte (s +:+ t) c = ContainsByte s c || ContainsByte t c.
Proof.
  induction s as [|a s IH]; [done|]. rewrite sapp_cons. simpl.
  rewrite IH. by destruct (Ascii.eqb a c).
Qed.
Lemma str_all_app p s t : str_all p (s +:+ t) = str_all p s && str_all p t.
Proof.
  induction s as [|a s IH]; [done|]. rewrite sapp_cons. simpl. rewrite IH.
  by destruct (p a).
Qed.
Lemma str_all_ContainsByte p s c : p c = false -> str_all p s = true -> ContainsByte s c = false.
Proof.
  intros Hp. induction s as [|a s IH]; simpl; [done|].
  intros [Ha Hs]%andb_prop. rewrite (IH Hs).
  destruct (Stdlib.Strings.Ascii.eqb_spec a c) as [->|]; [congruence|done].
Qed.
Lemma str_all_impl (p q : ascii -> bool) s :
  (forall c, p c = true -> q c = true) -> str_all p s = true -> str_all q s = true.
Proof.
  intros H. induction s as [|a s IH]; simpl; [done|].
  intros [Ha Hs]%andb_prop. by rewrite H, IH.
Qed.

(** ASCII bytes above the space character never start or end white space, so a
    string made of them is its own trim. *)
Definition visible (c : ascii) : bool := (33 <=? nat_of_ascii c)%nat && is_ascii c.

Lemma strip_one_visible ws c s :
  (forall w, w ∈ ws -> match w with String a _ => negb (visible a) | "" => false end = true) ->
  visible c = true -> strip_one ws (String c s) = None.
Proof.
  intros Hws Hc. apply strip_one_None. intros w t Hw H. specialize (Hws w Hw).
  destruct w as [|a w]; [done|]. rewrite sapp_cons in H. simplify_eq. by rewrite Hc in Hws.
Qed.
Lemma space_lead_not_visible w :
  w ∈ space_seqs -> match w with String a _ => negb (visible a) | "" => false end = true.
Proof. revert w. apply Forall_forall. repeat constructor. Qed.
Lemma space_trail_not_visible w :
  w ∈ str_rev <$> space_seqs -> match w with String a _ => negb (visible a) | "" => false end = true.
Proof. revert w. apply Forall_forall. repeat constructor. Qed.
Lemma no_lead_visible c s : visible c = true -> no_lead space_seqs (String c s).
Proof. apply strip_one_visible, space_lead_not_visible. Qed.
Lemma no_trail_visible s c : visible c = true -> no_trail space_seqs (s +:+ String c "").
Proof.
  intros Hc. unfold no_trail. rewrite str_rev_app.
  apply strip_one_visible; [apply space_trail_not_visible | done].
Qed.
Lemma str_snoc (s : string) : s <> "" -> exists t c, s = t +:+ String c "".
Proof.
  intros Hs. destruct (str_rev s) as [|c r] eqn:E.
  { apply str_rev_nil in E as ->. by destruct Hs. }
  exists (str_rev r), c. apply str_rev_inj. rewrite str_rev_app, str_rev_involutive, E. done.
Qed.
Lemma TrimSpace_visible s : str_all visible s = true -> TrimSpace s = s.
Proof.
  intros Hs. destruct (decide (s = "")) as [->|Hne]; [done|].
  apply TrimSpace_fix.
  - destruct s; [done|]. apply andb_prop in Hs as [? ?]. by apply no_lead_visible.
  - destruct (str_snoc s Hne) as (t & c & ->). apply no_trail_visible.
    rewrite str_all_app in Hs. apply andb_prop in Hs as [_ Hs].
    by apply andb_prop in Hs as [? _].
Qed.

(** *** Decimal round trip *)
Definition strN (n : Z) : string := pretty (Z.to_N n).

Lemma digit_val_pretty d : 0 <= d < 10 -> digit_val (pretty_N_char (Z.to_N d)) = Some d.
Proof.
  intros H. assert (d = 0 \/ d = 1 \/ d = 2 \/ d = 3 \/ d = 4 \/ d = 5 \/ d = 6 \/ d = 7
    \/ d = 8 \/ d = 9) as Hd by lia.
  repeat destruct Hd as [->|Hd]; try reflexivity. by subst.
Qed.

(** Printing [n] in front of [s] and reading it back from accumulator 0 is reading
    [s] from accumulator [n]. *)
Lemma parse_digits_go n s :
  0 <= n <= maxUint64 ->
  parse_digits 0 (pretty_N_go (Z.to_N n) s) = parse_digits n s.
Proof.
  intros [H0 H1]. revert s H1. pattern n. apply Zlt_0_ind; [|done]. clear n H0.
  intros n IH H0 s H1. destruct (decide (n = 0)) as [->|Hn].
  { change (Z.to_N 0) with 0%N. by rewrite pretty_N_go_0. }
  rewrite pretty_N_go_step by lia.
  replace (Z.to_N n / 10)%N with (Z.to_N (n / 10)) by (rewrite Z2N.inj_div; lia || done).
  replace (Z.to_N n mod 10)%N with (Z.to_N (n mod 10)) by (rewrite Z2N.inj_mod; lia || done).
  assert (0 <= n / 10 < n) by (split; [apply Z.div_pos; lia | apply Z.div_lt; lia]).
  rewrite IH by lia. simpl.
  rewrite digit_val_pretty by (apply Z.mod_pos_bound; lia).
  replace (n / 10 * 10 + n mod 10) with n by (rewrite (Z.div_mod n 10) at 1; lia).
  destruct (Z.ltb_spec maxUint64 n); [lia | done].
Qed.

Lemma pretty_N_unfold (x : N) : pretty x = if decide (x = 0)%N then "0" else pretty_N_go x "".
Proof. done. Qed.
Lemma strN_nonempty n : strN n <> "".
Proof.
  unfold strN. rewrite pretty_N_unfold. case_decide; [done|].
  intros Hz. rewrite pretty_N_go_step in Hz by lia.
  assert (forall x s, s <> "" -> pretty_N_go x s <> "") as Hgo; [|by apply Hgo in Hz].
  clear. intros x. pattern x. apply (well_founded_induction N.lt_wf_0). clear x.
  intros x IH s Hs. destruct (decide (x = 0)%N) as [->|]; [by rewrite pretty_N_go_0|].
  rewrite pretty_N_go_step by lia. apply IH; [|done]. apply N.div_lt; lia.
Qed.
Lemma ParseUint_strN n : 0 <= n <= maxUint64 -> ParseUint (strN n) = (n, None).
Proof.
  intros Hn. unfold ParseUint. destruct (String.eqb_spec (strN n) "") as [E|_].
  { by apply strN_nonempty in E. }
  unfold strN. rewrite pretty_N_unfold. case_decide as Hz.
  - assert (n = 0) as -> by lia. done.
  - by rewrite parse_digits_go.
Qed.

Lemma parse_digits_range n s z e :
  0 <= n <= maxUint64 -> parse_digits n s = (z, e) -> 0 <= z <= maxUint64.
Proof.
  revert n. induction s as [|c s IH]; simpl; intros n Hn; [by intros [= <- _]|].
  unfold digit_val. destruct (_ && _) eqn:Ed; [|intros [= <- _]; unfold maxUint64; lia].
  destruct (Z.ltb_spec maxUint64 (n * 10 + (Z.of_nat (nat_of_ascii c) - 48))); [intros [= <- _]; lia|].
  apply IH. lia.
Qed.
Lemma ParseUint_range s z e : ParseUint s = (z, e) -> 0 <= z <= maxUint64.
Proof.
  unfold ParseUint. destruct (String.eqb s ""); [intros [= <- _]; unfold maxUint64; lia|].
  apply parse_digits_range. unfold maxUint64. lia.
Qed.

Lemma parse_signed_range neg s : in_int64 (parse_signed neg s).1.
Proof.
  unfold parse_signed, in_int64, minInt64, maxInt64. destruct (ParseUint s) as [un e] eqn:E.
  apply ParseUint_range in E. destruct neg; cbn [negb andb].
  - destruct (Z.ltb_spec (2 ^ 63) un), e as [[]|]; simpl; lia.
  - destruct (Z.leb_spec (2 ^ 63) un), e as [[]|]; simpl; lia.
Qed.
Lemma ParseInt_range s : in_int64 (ParseInt s).1.
Proof.
  destruct s as [|c s]; [by vm_compute|]. cbn [ParseInt].
  destruct (Ascii.eqb c "+"); [|destruct (Ascii.eqb c "-")]; apply parse_signed_range.
Qed.

Lemma is_digit_pretty d : 0 <= d < 10 -> is_digit (pretty_N_char (Z.to_N d)) = true.
Proof. intros H. unfold is_digit. rewrite digit_val_pretty by done. done. Qed.
Lemma str_all_digits_go n s :
  0 <= n -> str_all is_digit s = true -> str_all is_digit (pretty_N_go (Z.to_N n) s) = true.
Proof.
  intros H0. revert s. pattern n. apply Zlt_0_ind; [|done]. clear n H0.
  intros n IH H0 s Hs. destruct (decide (n = 0)) as [->|Hn].
  { change (Z.to_N 0) with 0%N. by rewrite pretty_N_go_0. }
  rewrite pretty_N_go_step by lia.
  replace (Z.to_N n / 10)%N with (Z.to_N (n / 10)) by (rewrite Z2N.inj_div; lia || done).
  replace (Z.to_N n mod 10)%N with (Z.to_N (n mod 10)) by (rewrite Z2N.inj_mod; lia || done).
  apply IH; [split; [apply Z.div_pos; lia | apply Z.div_lt; lia]|].
  cbn [str_all]. rewrite Hs, is_digit_pretty; [done|]. apply Z.mod_pos_bound. lia.
Qed.
Lemma strN_digits n : 0 <= n -> str_all is_digit (strN n) = true.
Proof.
  intros Hn. unfold strN. rewrite pretty_N_unfold. case_decide; [done|].
  by apply str_all_digits_go.
Qed.

Lemma FormatInt_nonneg z : 0 <= z -> FormatInt z = strN z.
Proof. intros Hz. destruct z as [|p|p]; [done|done|lia]. Qed.
Lemma FormatInt_neg z : z < 0 -> FormatInt z = "-" +:+ strN (- z).
Proof. intros Hz. destruct z as [|p|p]; [lia|lia|done]. Qed.

Lemma is_digit_not_sign c : is_digit c = true -> Ascii.eqb c "+" = false /\ Ascii.eqb c "-" = false.
Proof.
  intros Hd. split; apply Stdlib.Strings.Ascii.eqb_neq; intros ->; done.
Qed.
Lemma ParseInt_digits s :
  s <> "" -> str_all is_digit s = true -> ParseInt s = parse_signed false s.
Proof.
  destruct s as [|c s]; [done|]. intros _ [Hc _]%andb_prop.
  destruct (is_digit_not_sign c Hc) as [H1 H2]. unfold ParseInt. by rewrite H1, H2.
Qed.

(** [strconv.ParseInt] reads back what [strconv.FormatInt] prints. *)
Lemma ParseInt_FormatInt z : in_int64 z -> ParseInt (FormatInt z) = (z, None).
Proof.
  unfold in_int64, minInt64, maxInt64. intros Hz. destruct (Z.le_gt_cases 0 z) as [H|H].
  - rewrite FormatInt_nonneg, ParseInt_digits by (done || apply strN_nonempty || by apply strN_digits).
    unfold parse_signed. rewrite ParseUint_strN by (unfold maxUint64; lia). simpl.
    destruct (Z.leb_spec (2 ^ 63) z); [lia | done].
  - rewrite FormatInt_neg by done. change (ParseInt ("-" +:+ strN (- z)))
      with (parse_signed true (strN (- z))).
    unfold parse_signed. rewrite ParseUint_strN by (unfold maxUint64; lia).
    zdec. simpl. f_equal. lia.
Qed.
Lemma FormatInt_no_colon z : 0 <= z -> ContainsByte (FormatInt z) ":" = false.
Proof.
  intros Hz. rewrite FormatInt_nonneg by done.
  eapply str_all_ContainsByte; [|by apply strN_digits]. done.
Qed.
(** What precedes the first occurrence of a byte, and what follows it, are determined. *)
Lemma first_cut_inj c l1 l2 r1 r2 :
  ContainsByte l1 c = false -> ContainsByte l2 c = false ->
  l1 +:+ String c r1 = l2 +:+ String c r2 -> l1 = l2 /\ r1 = r2.
Proof.
  intros H1%(fun H => cut_at_app c l1 r1 H) H2%(fun H => cut_at_app c l2 r2 H) E. rewrite E in H1. naive_solver.
Qed.
Lemma FormatInt_inj a b : in_int64 a -> in_int64 b -> FormatInt a = FormatInt b -> a = b.
Proof.
  intros Ha Hb H. apply ParseInt_FormatInt in Ha, Hb. rewrite H in Ha. congruence.
Qed.

(** ** encoding/hex *)
Definition hex_char (n : nat) : ascii :=
  ascii_of_nat (if (n <? 10)%nat then 48 + n else 87 + n)%nat.
Fixpoint hexEncode (s : string) : string :=
  match s with
  | "" => ""
  | String c s' =>
      let n := nat_of_ascii c in
      String (hex_char (n / 16)) (String (hex_char (n mod 16)) (hexEncode s'))
  end.
Definition is_hex (c : ascii) : bool :=
  let n := nat_of_ascii c in
  ((48 <=? n) && (n <=? 57) || (97 <=? n) && (n <=? 102) || (65 <=? n) && (n <=? 70))%nat.
(** [hex.DecodeString] succeeds on an even number of hexadecimal digits. *)
Fixpoint hex_ok (s : string) : bool :=
  match s with
  | "" => true
  | String a (String b s') => is_hex a && is_hex b && hex_ok s'
  | String _ "" => false
  end.

Lemma ascii_bound c : (nat_of_ascii c < 256)%nat.
Proof. apply Stdlib.Strings.Ascii.nat_ascii_bounded. Qed.
Definition lower_hex (c : ascii) : bool :=
  let n := nat_of_ascii c in ((48 <=? n) && (n <=? 57) || (97 <=? n) && (n <=? 102))%nat.
Lemma hex_char_lower n : (n < 16)%nat -> lower_hex (hex_char n) = true.
Proof. intros H. do 16 (destruct n as [|n]; [done|]). lia. Qed.
Lemma digit_visible c : is_digit c = true -> visible c = true.
Proof.
  unfold is_digit, digit_val, visible, is_ascii. destruct (_ && _) eqn:E; [intros _|done].
  apply andb_prop in E as [H1%Z.leb_le H2%Z.leb_le]. apply andb_true_intro.
  rewrite Nat.leb_le, Nat.ltb_lt. lia.
Qed.
Lemma hexEncode_lower s : str_all lower_hex (hexEncode s) = true.
Proof.
  induction s as [|c s IH]; [done|]. cbn [hexEncode str_all]. rewrite IH.
  pose proof (ascii_bound c). rewrite !hex_char_lower; [done|..].
  - pose proof (Nat.mod_upper_bound (nat_of_ascii c) 16). lia.
  - apply Nat.Div0.div_lt_upper_bound. lia.
Qed.
Lemma lower_hex_is_hex c : lower_hex c = true -> is_hex c = true.
Proof. unfold lower_hex, is_hex. intros ->. done. Qed.
Lemma hexEncode_ok s : hex_ok (hexEncode s) = true.
Proof.
  induction s as [|c s IH]; [done|]. pose proof (hexEncode_lower (String c s)) as Hl.
  cbn [hexEncode str_all hex_ok] in *. apply andb_prop in Hl as [H1 [H2 _]%andb_prop].
  by rewrite !lower_hex_is_hex, IH.
Qed.
Lemma hexEncode_length s : String.length (hexEncode s) = (2 * String.length s)%nat.
Proof. induction s as [|c s IH]; [done|]. cbn [hexEncode String.length]. rewrite IH. lia. Qed.
Lemma hex_char_inj a b : (a < 16)%nat -> (b < 16)%nat -> hex_char a = hex_char b -> a = b.
Proof.
  intros Ha Hb.
  assert (forallb (fun x => forallb (fun y => negb (Ascii.eqb (hex_char x) (hex_char y)) || Nat.eqb x y)
            (seq 0 16)) (seq 0 16) = true) as Hall by reflexivity.
  rewrite forallb_forall in Hall.
  specialize (Hall a ltac:(apply in_seq; lia)). rewrite forallb_forall in Hall.
  specialize (Hall b ltac:(apply in_seq; lia)). intros Heq.
  rewrite Heq, Stdlib.Strings.Ascii.eqb_refl in Hall. by apply Nat.eqb_eq.
Qed.
Lemma hexEncode_inj a b : hexEncode a = hexEncode b -> a = b.
Proof.
  revert b. induction a as [|x a IH]; intros [|y b]; cbn [hexEncode]; try done.
  intros Hxy.
  assert (hex_char (nat_of_ascii x / 16) = hex_char (nat_of_ascii y / 16)) as H1 by congruence.
  assert (hex_char (nat_of_ascii x mod 16) = hex_char (nat_of_ascii y mod 16)) as H2 by congruence.
  assert (hexEncode a = hexEncode b) as H3 by congruence. pose proof (ascii_bound x). pose proof (ascii_bound y).
  apply hex_char_inj in H1; [|apply Nat.Div0.div_lt_upper_bound; lia..].
  apply hex_char_inj in H2; [|apply Nat.mod_upper_bound; lia..].
  f_equal; [|by apply IH].
  rewrite <- (Stdlib.Strings.Ascii.ascii_nat_embedding x), <- (Stdlib.Strings.Ascii.ascii_nat_embedding y). f_equal.
  rewrite (Nat.div_mod_eq (nat_of_ascii x) 16), (Nat.div_mod_eq (nat_of_ascii y) 16), H1, H2. done.
Qed.
Lemma lower_hex_visible c : lower_hex c = true -> visible c = true.
Proof.
  unfold lower_hex, visible, is_ascii. rewrite !orb_true_iff, !andb_true_iff.
  rewrite !Nat.leb_le, Nat.ltb_lt. lia.
Qed.

(** ** float64: IEEE 754 binary64 on the executable specification of the Standard Library *)
Import Stdlib.Floats.SpecFloat.
Definition f64 : Set := spec_float.
Definition f64_of_Z (z : Z) : f64 := binary_normalize 53 1024 z 0 false.
Definition f64_add (a b : f64) : f64 := SFadd 53 1024 a b.
Definition f64_mul (a b : f64) : f64 := SFmul 53 1024 a b.
Definition f64_div (a b : f64) : f64 := SFdiv 53 1024 a b.
(** Conversion to an integer type truncates toward zero; [None] when the value is not
    finite (the language leaves out-of-range conversions to the implementation). *)
Definition f64_trunc (a : f64) : option Z :=
  match a with
  | S754_zero _ => Some 0
  | S754_finite s m e =>
      let v := if 0 <=? e then Zpos m * 2 ^ e else Zpos m / 2 ^ (- e) in
      Some (if s then - v else v)
  | _ => None
  end.
Definition f64_ltb (a b : f64) : bool := SFltb a b.
Definition f64_leb (a b : f64) : bool := SFleb a b.
Definition f64_eqb (a b : f64) : bool := SFeqb a b.

(** [math.Pow(x, y)] for an integral [y]: the standard library's special cases, then its loop
    over the bits of [|y|] on [x = x1 * 2^xe], stopped early once the exponent is hopelessly
    large.  64 turns cover every int64. *)
Fixpoint pow_loop (n : nat) (i : Z) (x1 : f64) (xe : Z) (a1 : f64) (ae : Z) : f64 * Z :=
  match n with
  | O => (a1, ae)
  | S n' =>
      if i =? 0 then (a1, ae)
      else if (xe <? -4096) || (4096 <? xe) then (a1, ae + xe)
      else
        let '(a1, ae) := if Z.odd i then (f64_mul a1 x1, ae + xe) else (a1, ae) in
        let x2 := f64_mul x1 x1 in
        let '(x2, xe2) := if f64_ltb x2 (f64_div (f64_of_Z 1) (f64_of_Z 2))
                          then (f64_add x2 x2, 2 * xe - 1) else (x2, 2 * xe) in
        pow_loop n' (i / 2) x2 xe2 a1 ae
  end.
Definition f64_abs (x : f64) : f64 :=
  match x with
  | S754_finite _ m e => S754_finite false m e
  | S754_zero _ => S754_zero false
  | S754_infinity _ => S754_infinity false
  | S754_nan => S754_nan
  end.
Definition Pow (x : f64) (y : Z) : f64 :=
  let one := f64_of_Z 1 in
  if (y =? 0) || f64_eqb x one then one
  else if y =? 1 then x
  else match x with
       | S754_nan => S754_nan
       | S754_zero s => if y <? 0 then S754_infinity (s && Z.odd y) else S754_zero (s && Z.odd y)
       | S754_infinity s => if y <? 0 then S754_zero (s && Z.odd y) else S754_infinity (s && Z.odd y)
       | S754_finite _ _ _ =>
           let yi := Z.abs (default 0 (f64_trunc (f64_of_Z y))) in
           if 2 ^ 63 <=? yi then
             if f64_eqb x (f64_of_Z (-1)) then one
             else if Bool.eqb (f64_ltb (f64_abs x) one) (0 <? y) then S754_zero false
             else S754_infinity false
           else let '(x1, xe) := SFfrexp 53 1024 x in
                let '(a1, ae) := pow_loop 64 yi x1 xe one 0 in
                let '(a1, ae) := if y <? 0 then (f64_div one a1, - ae) else (a1, ae) in
                SFldexp 53 1024 a1 ae
       end.
(** [d.Seconds()] *)
Definition Seconds (d : Duration) : f64 :=
  f64_add (f64_of_Z (Z.quot d Second))
          (f64_div (f64_of_Z (Z.rem d Second)) (f64_of_Z 1000000000)).

(** ** Round trips
    One request to a server whose state is [s]: it may fail before or after the server acts. *)
Inductive fault := NoFault | LostRequest (e : string) | LostReply (e : string).

Definition call {S A} (f : fault) (body : S -> A * S) (s : S) : res string A * S :=
  match f with
  | NoFault => let '(a, s') := body s in (Ok a, s')
  | LostRequest e => (Err e, s)
  | LostReply e => (Err e, (body s).2)
  end.

(** ** Runes: [for _, r := range s] decodes UTF-8; an invalid byte is U+FFFD, one byte wide. *)
Definition RuneError : Z := 65533.
Definition byte_in (lo hi : Z) (c : ascii) : bool :=
  let n := Z.of_nat (nat_of_ascii c) in (lo <=? n) && (n <=? hi).
Definition cont (c : ascii) : bool := byte_in 128 191 c.
Definition low6 (c : ascii) : Z := Z.of_nat (nat_of_ascii c) - 128.
(** The second byte a lead byte of a three- or four-byte sequence accepts. *)
Definition second3 (a b : ascii) : bool :=
  if byte_in 224 224 a then byte_in 160 191 b
  else if byte_in 237 237 a then byte_in 128 159 b
  else byte_in 225 239 a && cont b.
Definition second4 (a b : ascii) : bool :=
  if byte_in 240 240 a then byte_in 144 191 b
  else if byte_in 244 244 a then byte_in 128 143 b
  else byte_in 241 243 a && cont b.
(** A rune with the bytes it was decoded from. *)
Definition token : Type := Z * string.
Fixpoint rune_toks (s : string) : list token :=
  match s with
  | "" => []
  | String a s1 =>
      let n := Z.of_nat (nat_of_ascii a) in
      if n <? 128 then (n, String a "") :: rune_toks s1 else
      let bad := (RuneError, String a "") :: rune_toks s1 in
      match s1 with
      | String b s2 =>
          if byte_in 194 223 a && cont b
          then ((n - 192) * 64 + low6 b, String a (String b "")) :: rune_toks s2 else
          match s2 with
          | String c s3 =>
              if second3 a b && cont c
              then ((n - 224) * 4096 + low6 b * 64 + low6 c, String a (String b (String c ""))) :: rune_toks s3 else
              match s3 with
              | String d s4 =>
                  if second4 a b && cont c && cont d
                  then ((n - 240) * 262144 + low6 b * 4096 + low6 c * 64 + low6 d,
                        String a (String b (String c (String d "")))) :: rune_toks s4
                  else bad
              | "" => bad
              end
          | "" => bad
          end
      | "" => bad
      end
  end.
Definition runes (s : string) : list Z := fst <$> rune_toks s.
(** The bytes of a run of tokens. *)
Fixpoint toks_str (ts : list token) : string :=
  match ts with [] => "" | t :: ts' => t.2 +:+ toks_str ts' end.

(** [unicode.IsControl] and [unicode.IsSpace] *)
Definition IsControl (r : Z) : bool := (r <? 32) || (127 <=? r) && (r <? 160).
Definition IsSpace (r : Z) : bool :=
  (9 <=? r) && (r <=? 13) || (r =? 32) || (r =? 133) || (r =? 160) || (r =? 5760) ||
  (8192 <=? r) && (r <=? 8202) || (r =? 8232) || (r =? 8233) || (r =? 8239) || (r =? 8287) || (r =? 12288).

(** [strings.Contains] *)
Fixpoint Contains (s sub : string) : bool :=
  HasPrefix s sub || match s with "" => false | String _ s' => Contains s' sub end.
Lemma Contains_self sub t : Contains (sub +:+ t) sub = true.
Proof. pose proof (HasPrefix_app sub t) as H. destruct (sub +:+ t); simpl; by rewrite H. Qed.
Lemma Contains_app_r a s sub : Contains s sub = true -> Contains (a +:+ s) sub = true.
Proof.
  intros H. induction a as [|c a IH]; [done|]. rewrite sapp_cons. cbn [Contains]. rewrite IH. apply orb_true_r.
Qed.

(** [len(s)] *)
Definition slen (s : string) : Z := Z.of_nat (String.length s).

(** ** Calendar dates of a time, and zero-padded decimals *)
Definition is_leap (y : Z) : bool := (y mod 4 =? 0) && (negb (y mod 100 =? 0) || (y mod 400 =? 0)).
Definition month_days (y : Z) : list Z :=
  [31; if is_leap y then 29 else 28; 31; 30; 31; 30; 31; 31; 30; 31; 30; 31].
Fixpoint month_of (m : Z) (yday : Z) (ds : list Z) : Z * Z :=
  match ds with
  | [] => (m, yday + 1)
  | d :: ds' => if yday <? d then (m, yday + 1) else month_of (m + 1) (yday - d) ds'
  end.
Definition civil (t : Time) : Z * Z * Z :=
  let n := t / (24 * Hour) in
  let y400 := n / 146097 in let n := n mod 146097 in
  let y100 := Z.min (n / 36524) 3 in let n := n - y100 * 36524 in
  let y4 := n / 1461 in let n := n mod 1461 in
  let y1 := Z.min (n / 365) 3 in let n := n - y1 * 365 in
  let y := 400 * y400 + 100 * y100 + 4 * y4 + y1 + 1 in
  let '(m, d) := month_of 1 n (month_days y) in (y, m, d).
Fixpoint zeros (n : nat) : string := match n with O => "" | S n' => String "0" (zeros n') end.
Definition zero_pad (w : nat) (z : Z) : string :=
  let s := strN z in zeros (w - String.length s) +:+ s.
(** The [%03d] verb: the sign counts towards the width. *)
Definition fmt_03d (z : Z) : string := if z <? 0 then "-" +:+ zero_pad 2 (- z) else zero_pad 3 z.

Lemma zeros_digits n : str_all is_digit (zeros n) = true.
Proof. by induction n. Qed.
Lemma zeros_length n : String.length (zeros n) = n.
Proof. induction n as [|n IH]; simpl; congruence. Qed.

Lemma parse_zeros n s : parse_digits 0 (zeros n +:+ s) = parse_digits 0 s.
Proof. by induction n. Qed.
Lemma zero_pad_inj w a b :
  0 <= a <= maxUint64 -> 0 <= b <= maxUint64 -> zero_pad w a = zero_pad w b -> a = b.
Proof.
  assert (forall z, 0 <= z <= maxUint64 -> parse_digits 0 (zero_pad w z) = (z, None)) as Hz.
  { intros z Hz. unfold zero_pad. rewrite parse_zeros. pose proof (ParseUint_strN z Hz) as E.
    unfold ParseUint in E. by destruct (String.eqb _ _). }
  intros Ha Hb E. apply Hz in Ha, Hb. congruence.
Qed.

Lemma pretty_N_go_length (w : nat) n s :
  0 <= n < 10 ^ Z.of_nat w -> (String.length (pretty_N_go (Z.to_N n) s) <= w + String.length s)%nat.
Proof.
  revert n s. induction w as [|w IH]; intros n s Hn.
  { assert (n = 0) as -> by (simpl in Hn; lia). change (Z.to_N 0) with 0%N. by rewrite pretty_N_go_0. }
  destruct (decide (n = 0)) as [->|Hne].
  { change (Z.to_N 0) with 0%N. rewrite pretty_N_go_0. lia. }
  rewrite pretty_N_go_step by lia.
  replace (Z.to_N n / 10)%N with (Z.to_N (n / 10)) by (rewrite Z2N.inj_div; lia || done).
  rewrite Nat2Z.inj_succ, Z.pow_succ_r in Hn by lia.
  etrans; [apply IH|simpl; lia]. split; [apply Z.div_pos; lia|apply Z.div_lt_upper_bound; lia].
Qed.
Lemma zero_pad_length (w : nat) z :
  (0 < w)%nat -> 0 <= z < 10 ^ Z.of_nat w -> String.length (zero_pad w z) = w.
Proof.
  intros Hw Hz. unfold zero_pad. rewrite slen_app, zeros_length.
  assert (String.length (strN z) <= w)%nat; [|lia].
  unfold strN. rewrite pretty_N_unfold. case_decide; [simpl; lia|].
  etrans; [by apply pretty_N_go_length|simpl; lia].
Qed.

Lemma month_of_bounds m n ds :
  0 <= n -> 1 <= m -> Forall (fun d => d <= 31) ds ->
  n <= foldr Z.add 0 ds ->
  let '(m', d) := month_of m n ds in m <= m' <= m + Z.of_nat (length ds) /\ 1 <= d <= 31.
Proof.
  revert m n. induction ds as [|x ds IH]; intros m n Hn Hm Hd Hs; simpl in *; [lia|].
  apply Forall_cons in Hd as [Hx Hd]. destruct (Z.ltb_spec n x) as [Hl|Hl]; [lia|].
  specialize (IH (m + 1) (n - x) ltac:(lia) ltac:(lia) Hd ltac:(lia)).
  destruct (month_of (m + 1) (n - x) ds). lia.
Qed.
Lemma civil_bounds t : let '(y, m, d) := civil t in 1 <= m <= 13 /\ 1 <= d <= 31.
Proof.
  unfold civil. set (n := _ mod 146097 - _). set (y := 400 * _ + _ + _ + _ + _).
  assert (0 <= n mod 1461 - Z.min (n mod 1461 / 365) 3 * 365 <= 365) as Hn.
  { pose proof (Z.mod_pos_bound n 1461 ltac:(lia)). Z.to_euclidean_division_equations. lia. }
  pose proof (month_of_bounds 1 (n mod 1461 - Z.min (n mod 1461 / 365) 3 * 365) (month_days y)) as Hb.
  destruct (month_of _ _ _) as [m d]. simpl in Hb.
  destruct Hb as [Hm Hd]; [lia..| | |lia]; unfold month_days.
  - repeat constructor; try lia. destruct (is_leap y); lia.
  - destruct (is_leap y); lia.
Qed.

(** ** Slices [s[:n]] and [s[n:]], for [n] within the string *)
Fixpoint stake (n : nat) (s : string) : string :=
  match n, s with S n', String c s' => String c (stake n' s') | _, _ => "" end.
Fixpoint sdrop (n : nat) (s : string) : string :=
  match n, s with S n', String _ s' => sdrop n' s' | _, _ => s end.

Lemma stake_sdrop n s : stake n s +:+ sdrop n s = s.
Proof. revert s. induction n as [|n IH]; intros [|c s]; try done. simpl. by rewrite sapp_cons, IH. Qed.
Lemma stake_length n s : String.length (stake n s) = Nat.min n (String.length s).
Proof. revert s. induction n as [|n IH]; intros [|c s]; try done. simpl. by rewrite IH. Qed.
Lemma sdrop_length n s : String.length (sdrop n s) = (String.length s - n)%nat.
Proof. revert s. induction n as [|n IH]; intros [|c s]; try done. simpl. apply IH. Qed.
Lemma str_all_stake p n s : str_all p s = true -> str_all p (stake n s) = true.
Proof. intros Hs. rewrite <- (stake_sdrop n s), str_all_app in Hs. by apply andb_prop in Hs as [? _]. Qed.
Lemma str_all_sdrop p n s : str_all p s = true -> str_all p (sdrop n s) = true.
Proof. intros Hs. rewrite <- (stake_sdrop n s), str_all_app in Hs. by apply andb_prop in Hs as [_ ?]. Qed.

Lemma Join_Split s c : Join (Split s c) (String c "") = s.
Proof.
  induction s as [|a s IH]; [done|]. simpl. destruct (Stdlib.Strings.Ascii.eqb_spec a c) as [->|].
  - pose proof (Split_nonnil s c). destruct (Split s c) as [|x l]; [done|]. cbn [Join] in *.
    rewrite IH. done.
  - pose proof (Split_nonnil s c). destruct (Split s c) as [|x [|y l]]; [done|..]; cbn [Join] in *;
      rewrite <- IH; done.
Qed.
