(* ===== verification/Dates.v ===== *)
(** * timeutil/timeutil.go: date ranges, over the calendar and time zones of package time

    A [time.Time] is its instant; the location a function works in is an argument.  A location
    answers, for a Unix time, the zone in use: its offset and the bounds of its validity. *)
From S2P Require Import Prelude GoStd.
Open Scope go_scope.

(** ** The proleptic Gregorian calendar, as a day number: day 0 is January 1, year 1 *)
Definition daysIn (m y : Z) : Z := nth (Z.to_nat (m - 1)) (month_days y) 0.
Definition year_start (y : Z) : Z := 365 * (y - 1) + (y - 1) / 4 - (y - 1) / 100 + (y - 1) / 400.
Definition month_start (y m : Z) : Z := foldr Z.add 0 (take (Z.to_nat (m - 1)) (month_days y)).
Definition day_number (y m d : Z) : Z := year_start y + month_start y m + (d - 1).

(** ** Package time *)
Record Location := mkLocation { lookup_zone : Z -> Z * Z * Z }.
Definition UTC : Location := mkLocation (fun _ => (0, minInt64, maxInt64)).
Definition FixedZone (offset : Z) : Location := mkLocation (fun _ => (offset, minInt64, maxInt64)).

Definition zone_offset (loc : Location) (unix : Z) : Z := (lookup_zone loc unix).1.1.
(** The wall clock of an instant, as the instant that shows it in UTC. *)
Definition wall (loc : Location) (t : Time) : Time :=
  t + zone_offset loc (t / Second - unixToInternal) * Second.

(** [time.Date]: months outside 1 to 12 run over into the years, the other fields into the days.
    The zone is looked up first as if the wall clock were UTC, again when that was not valid. *)
Definition Date (year month day hour min sec nsec : Z) (loc : Location) : Time :=
  let days := day_number (year + (month - 1) / 12) ((month - 1) mod 12 + 1) day in
  let unix := days * 86400 + hour * 3600 + min * 60 + sec - unixToInternal in
  let '(offset, start, end_) := lookup_zone loc unix in
  let unix :=
    if offset =? 0 then unix else
    let utc := unix - offset in
    let offset := if (utc <? start) || (end_ <=? utc) then zone_offset loc utc else offset in
    unix - offset in
  (unix + unixToInternal) * Second + nsec.

Definition AddDate (loc : Location) (t : Time) (years months days : Z) : Time :=
  let w := wall loc t in
  let '(year, month, day) := civil w in
  let r := w mod (24 * Hour) in
  Date (year + years) (month + months) (day + days)
    (r / Hour) (r mod Hour / Minute) (r mod Minute / Second) (r mod Second) loc.

(** *** [time.Parse] with the layout 2006-01-02T15:04:05Z07:00
    [getnum fixed] takes two digits, or one where [fixed] is not set. *)
Definition getnum (fixed : bool) (s : string) : option (Z * string) :=
  match s with
  | "" => None
  | String a s1 =>
      x ← digit_val a;
      match s1 with
      | "" => if fixed then None else Some (x, s1)
      | String b s2 =>
          match digit_val b with
          | Some y => Some (x * 10 + y, s2)
          | None => if fixed then None else Some (x, s1)
          end
      end
  end.
Definition skip (c : ascii) (s : string) : option string :=
  match s with String a s' => if Ascii.eqb a c then Some s' else None | "" => None end.
Definition in_range (lo hi : Z) (r : option (Z * string)) : option (Z * string) :=
  '(x, s) ← r; if (lo <=? x) && (x <=? hi) then Some (x, s) else None.
Definition getyear (s : string) : option (Z * string) :=
  if (4 <=? String.length s)%nat && str_all is_digit (stake 4 s)
  then Some ((parse_digits 0 (stake 4 s)).1, sdrop 4 s) else None.

Fixpoint digit_run (s : string) : string * string :=
  match s with
  | String c s' => if is_digit c then let '(l, r) := digit_run s' in (String c l, r) else ("", s)
  | "" => ("", "")
  end.
(** A fraction of any length may follow the seconds; nine digits of it count. *)
Definition getnsec (s : string) : Z * string :=
  match s with
  | String p (String c s') =>
      if (Ascii.eqb p "." || Ascii.eqb p ",") && is_digit c then
        let '(ds, rest) := digit_run (String c s') in
        let ds := stake 9 ds in
        ((parse_digits 0 ds).1 * 10 ^ (9 - slen ds), rest)
      else (0, s)
  | _ => (0, s)
  end.
(** The offset in seconds. *)
Definition getzone (s : string) : option (Z * string) :=
  match s with
  | String z s1 =>
      if Ascii.eqb z "Z" then Some (0, s1) else
      '(hr, s2) ← in_range 0 24 (getnum true s1);
      s3 ← skip ":" s2;
      '(mm, s4) ← in_range 0 60 (getnum true s3);
      if Ascii.eqb z "+" then Some ((hr * 60 + mm) * 60, s4)
      else if Ascii.eqb z "-" then Some (- ((hr * 60 + mm) * 60), s4)
      else None
  | "" => None
  end.
Definition Parse (value : string) : option Time :=
  '(year, s) ← getyear value; s ← skip "-" s;
  '(month, s) ← in_range 1 12 (getnum true s); s ← skip "-" s;
  '(day, s) ← getnum true s; s ← skip "T" s;
  '(hour, s) ← in_range 0 23 (getnum false s); s ← skip ":" s;
  '(min, s) ← in_range 0 59 (getnum true s); s ← skip ":" s;
  '(sec, s) ← in_range 0 59 (getnum true s);
  let '(nsec, s) := getnsec s in
  '(offset, s) ← getzone s;
  if negb (String.eqb s "") then None else
  if (day <? 1) || (daysIn month year <? day) then None else
  Some (Date year month day hour min sec nsec UTC - offset * Second).

(** ** timeutil.go
    [from], [to] and the error; [loc] is the location of the clock. *)
Definition ParseDateRange (loc : Location) (now : Time) (fromStr toStr : string)
  : (Time * Time) * res string unit :=
  let '(year, month, _) := civil (wall loc now) in
  let from := Date year month 1 0 0 0 0 loc in
  let to := Add (AddDate loc from 0 1 0) (- Second) in
  match (if String.eqb fromStr "" then Some from else Parse fromStr) with
  | None => ((from, to), Err "invalid from format, use RFC3339")
  | Some from =>
      match (if String.eqb toStr "" then Some to else Parse toStr) with
      | None => ((from, to), Err "invalid to format, use RFC3339")
      | Some to => ((from, to), Ok ())
      end
  end.

Example parse_ex : Parse "2024-01-31T23:59:59.5+08:00" = Some (Date 2024 1 31 15 59 59 500000000 UTC).
Proof. reflexivity. Qed.
Example parse_one_digit_hour : Parse "2024-01-31T3:59:59Z" = Some (Date 2024 1 31 3 59 59 0 UTC).
Proof. reflexivity. Qed.
Example parse_bad_day : Parse "2023-02-29T00:00:00Z" = None.
Proof. reflexivity. Qed.
Example parse_date_only : Parse "2024-01-15" = None.
Proof. reflexivity. Qed.

Module DateFacts.
(** *** The calendar: [civil] and [day_number] are inverse *)
Definition year_days (y : Z) : Z := if is_leap y then 366 else 365.
Definition valid_date (y m d : Z) : Prop := 1 <= m <= 12 /\ 1 <= d <= daysIn m y.

Lemma year_start_succ y : year_start (y + 1) = year_start y + year_days y.
Proof.
  unfold year_start, year_days, is_leap.
  destruct (Z.eqb_spec (y mod 4) 0), (Z.eqb_spec (y mod 100) 0), (Z.eqb_spec (y mod 400) 0); simpl;
    Z.to_euclidean_division_equations; lia.
Qed.
Lemma year_days_bounds y : 365 <= year_days y <= 366.
Proof. unfold year_days. destruct (is_leap y); lia. Qed.
Lemma year_start_lt y y' : y < y' -> year_start y + year_days y <= year_start y'.
Proof.
  intros H. pattern y'. apply Zlt_lower_bound_ind with (z := y + 1); [|lia]. clear y' H. intros y' IH Hy.
  destruct (decide (y' = y + 1)) as [->|]; [rewrite year_start_succ; lia|].
  specialize (IH (y' - 1) ltac:(lia)). pose proof (year_start_succ (y' - 1)) as Hs.
  pose proof (year_days_bounds (y' - 1)). replace (y' - 1 + 1) with y' in Hs by lia. lia.
Qed.
Lemma year_unique y y' n :
  year_start y <= n < year_start y + year_days y ->
  year_start y' <= n < year_start y' + year_days y' -> y = y'.
Proof.
  intros H1 H2. destruct (Z.lt_trichotomy y y') as [H|[H|H]]; [|done|]; apply year_start_lt in H; lia.
Qed.

(** The year of a day, computed as [civil] does. *)
Definition year_of (n : Z) : Z * Z :=
  let y400 := n / 146097 in let n := n mod 146097 in
  let y100 := Z.min (n / 36524) 3 in let n := n - y100 * 36524 in
  let y4 := n / 1461 in let n := n mod 1461 in
  let y1 := Z.min (n / 365) 3 in let n := n - y1 * 365 in
  (400 * y400 + 100 * y100 + 4 * y4 + y1 + 1, n).
Lemma civil_year t :
  civil t = let '(y, n) := year_of (t / (24 * Hour)) in let '(m, d) := month_of 1 n (month_days y) in (y, m, d).
Proof. reflexivity. Qed.

Lemma year_of_spec n :
  let '(y, r) := year_of n in year_start y + r = n /\ 0 <= r < year_days y.
Proof.
  unfold year_of. set (a := n / 146097). set (n1 := n mod 146097). set (b := Z.min (n1 / 36524) 3).
  set (n2 := n1 - b * 36524). set (c := n2 / 1461). set (n3 := n2 mod 1461). set (e := Z.min (n3 / 365) 3).
  assert (0 <= n1 < 146097 /\ n = 146097 * a + n1) as [H1 E1] by (subst a n1; Z.to_euclidean_division_equations; lia).
  assert (0 <= b <= 3 /\ 0 <= n2 <= 36524 /\ (b < 3 -> n2 < 36524)) as (Hb & H2 & H2')
    by (subst b n2; Z.to_euclidean_division_equations; lia).
  assert (0 <= c <= 24 /\ 0 <= n3 <= 1460 /\ n2 = 1461 * c + n3) as (Hc & H3 & E3)
    by (subst c n3; Z.to_euclidean_division_equations; lia).
  assert (0 <= e <= 3 /\ 0 <= n3 - e * 365 <= 365 /\ (e < 3 -> n3 - e * 365 < 365)) as (He & H4 & H4')
    by (subst e; Z.to_euclidean_division_equations; lia).
  assert (n2 = n1 - b * 36524) as E2 by done. clearbody a n1 b n2 c n3 e.
  assert ((400 * a + 100 * b + 4 * c + e) / 4 = 100 * a + 25 * b + c) as D4 by (Z.to_euclidean_division_equations; lia).
  assert ((400 * a + 100 * b + 4 * c + e) / 100 = 4 * a + b) as D100 by (Z.to_euclidean_division_equations; lia).
  assert ((400 * a + 100 * b + 4 * c + e) / 400 = a) as D400 by (Z.to_euclidean_division_equations; lia).
  split.
  - unfold year_start. replace (400 * a + 100 * b + 4 * c + e + 1 - 1) with (400 * a + 100 * b + 4 * c + e) by lia.
    rewrite D4, D100, D400. lia.
  - split; [lia|]. unfold year_days, is_leap.
    destruct (Z.eqb_spec ((400 * a + 100 * b + 4 * c + e + 1) mod 4) 0),
      (Z.eqb_spec ((400 * a + 100 * b + 4 * c + e + 1) mod 100) 0),
      (Z.eqb_spec ((400 * a + 100 * b + 4 * c + e + 1) mod 400) 0); simpl;
      Z.to_euclidean_division_equations; lia.
Qed.

Lemma month_of_inv m r ds :
  0 <= r < foldr Z.add 0 ds ->
  exists k, month_of m r ds = (m + Z.of_nat k, r - foldr Z.add 0 (take k ds) + 1) /\ (k < length ds)%nat /\
    0 <= r - foldr Z.add 0 (take k ds) < nth k ds 0.
Proof.
  revert m r. induction ds as [|x ds IH]; intros m r Hr; simpl in *; [lia|].
  destruct (Z.ltb_spec r x).
  { exists 0%nat. simpl. split_and!; [f_equal; lia|lia..]. }
  destruct (IH (m + 1) (r - x) ltac:(lia)) as (k & -> & Hk & Hd). exists (S k). simpl.
  split_and!; [f_equal; lia|lia..].
Qed.
Lemma month_of_start m k r ds :
  Forall (fun x => 0 <= x) ds -> (k < length ds)%nat -> 0 <= r < nth k ds 0 ->
  month_of m (foldr Z.add 0 (take k ds) + r) ds = (m + Z.of_nat k, r + 1).
Proof.
  revert m k. induction ds as [|x ds IH]; intros m k Hp Hk Hr; simpl in *; [lia|].
  apply Forall_cons in Hp as [Hx Hp]. destruct k as [|k]; simpl in *.
  { rewrite (proj2 (Z.ltb_lt _ x)) by lia. f_equal; lia. }
  assert (0 <= foldr Z.add 0 (take k ds)).
  { clear -Hp. revert k. induction Hp; intros [|k]; simpl; try lia. specialize (IHHp k). lia. }
  rewrite (proj2 (Z.ltb_ge _ x)) by lia.
  replace (x + _ + r - x) with (foldr Z.add 0 (take k ds) + r) by lia.
  rewrite IH by (done || lia). f_equal; lia.
Qed.
Lemma month_days_pos y : Forall (fun x => 0 <= x) (month_days y).
Proof. unfold month_days. repeat constructor; destruct (is_leap y); lia. Qed.
Lemma month_days_sum y : foldr Z.add 0 (month_days y) = year_days y.
Proof. unfold month_days, year_days. simpl. destruct (is_leap y); lia. Qed.

(** A month has as many days as lie between its start and the next month's. *)
Lemma month_start_succ y m : 1 <= m <= 12 -> month_start y (m + 1) = month_start y m + daysIn m y.
Proof.
  intros Hm. assert (exists k, m = Z.of_nat (S k) /\ (k < 12)%nat) as (k & -> & Hk)
    by (exists (Z.to_nat (m - 1)); lia).
  unfold month_start, daysIn. replace (Z.to_nat (Z.of_nat (S k) + 1 - 1)) with (S k) by lia.
  replace (Z.to_nat (Z.of_nat (S k) - 1)) with k by lia.
  do 12 (destruct k as [|k]; [simpl; lia|]). lia.
Qed.
Lemma month_start_1 y : month_start y 1 = 0.
Proof. reflexivity. Qed.
Lemma month_start_13 y : month_start y 13 = year_days y.
Proof. apply month_days_sum. Qed.
Lemma daysIn_bounds m y : 1 <= m <= 12 -> 28 <= daysIn m y <= 31.
Proof.
  intros Hm. unfold daysIn. assert (Z.to_nat (m - 1) < 12)%nat as Hk by lia.
  generalize dependent (Z.to_nat (m - 1)). intros k Hk.
  do 12 (destruct k as [|k]; [simpl; try destruct (is_leap y); lia|]). lia.
Qed.

Lemma civil_day_number y m d r :
  valid_date y m d -> 0 <= r < 24 * Hour -> civil (day_number y m d * (24 * Hour) + r) = (y, m, d).
Proof.
  intros [Hm Hd] Hr. rewrite civil_year.
  replace ((day_number y m d * (24 * Hour) + r) / (24 * Hour)) with (day_number y m d)
    by (rewrite Z.div_add_l, Z.div_small; lia || done).
  pose proof (year_of_spec (day_number y m d)) as Hy. destruct (year_of _) as [y' n] eqn:Ey.
  assert (exists k, m = Z.of_nat (S k) /\ (k < 12)%nat) as (k & -> & Hk) by (exists (Z.to_nat (m - 1)); lia).
  assert (0 <= month_start y (Z.of_nat (S k)) /\
          month_start y (Z.of_nat (S k)) + daysIn (Z.of_nat (S k)) y <= year_days y) as Hms.
  { unfold month_start, daysIn, year_days. replace (Z.to_nat (Z.of_nat (S k) - 1)) with k by lia.
    do 12 (destruct k as [|k]; [simpl; destruct (is_leap y); lia|]). lia. }
  assert (y' = y) as -> by (apply (year_unique y' y (day_number y (Z.of_nat (S k)) d)); unfold day_number in *; lia).
  assert (n = month_start y (Z.of_nat (S k)) + (d - 1)) as -> by (unfold day_number in *; lia).
  unfold month_start, daysIn in *. replace (Z.to_nat (Z.of_nat (S k) - 1)) with k in * by lia.
  rewrite month_of_start; [f_equal; [f_equal|]; lia|apply month_days_pos|done|lia].
Qed.

Lemma day_number_civil t :
  let '(y, m, d) := civil t in valid_date y m d /\ day_number y m d = t / (24 * Hour).
Proof.
  rewrite civil_year. pose proof (year_of_spec (t / (24 * Hour))) as Hy.
  destruct (year_of _) as [y n]. destruct Hy as [Hy Hn]. rewrite <- month_days_sum in Hn.
  destruct (month_of_inv 1 n (month_days y) Hn) as (k & -> & Hk & Hd). simpl in Hk.
  unfold valid_date, day_number, month_start, daysIn.
  replace (Z.to_nat (1 + Z.of_nat k - 1)) with k by lia. lia.
Qed.

Lemma month_norm m : 1 <= m <= 12 -> (m - 1) / 12 = 0 /\ (m - 1) mod 12 + 1 = m.
Proof. intros Hm. Z.to_euclidean_division_equations. lia. Qed.

(** *** Zones *)
Definition midnight (y m d : Z) : Time := day_number y m d * (24 * Hour).
Definition next_month (y m : Z) : Time := midnight y m 1 + daysIn m y * (24 * Hour).

Lemma civil_midnight y m d : valid_date y m d -> civil (midnight y m d) = (y, m, d).
Proof.
  intros Hv. rewrite <- (civil_day_number y m d 0 Hv) by (unfold Hour, Minute, Second; lia).
  unfold midnight. f_equal. lia.
Qed.
Lemma next_month_midnight y m :
  1 <= m <= 12 -> midnight (y + m / 12) (m mod 12 + 1) 1 = next_month y m.
Proof.
  intros Hm. unfold next_month, midnight, day_number. destruct (decide (m = 12)) as [->|].
  - change (12 / 12) with 1. change (12 mod 12 + 1) with 1. rewrite year_start_succ, month_start_1.
    pose proof (month_start_succ y 12 ltac:(lia)) as Hs. change (12 + 1) with 13 in Hs.
    rewrite month_start_13 in Hs. unfold Hour, Minute, Second. lia.
  - rewrite Z.div_small, Z.mod_small, month_start_succ by lia. unfold Hour, Minute, Second.
    replace (y + 0) with y by lia. lia.
Qed.

(** The zone of a wall-clock time is [o] for a day around it. *)
Definition settled (loc : Location) (w : Time) (o : Z) : Prop :=
  Z.abs o < 86400 /\
  forall u, Z.abs (u - (w / Second - unixToInternal)) <= 86400 -> zone_offset loc u = o.

Lemma settled_wall loc w o t :
  settled loc w o -> t + o * Second = w \/ t + o * Second = w - Second ->
  wall loc t = t + o * Second.
Proof.
  intros [Ho Hs] Ht. unfold wall. rewrite Hs; [done|].
  assert (t / Second = w / Second - o \/ t / Second = w / Second - o - 1) as [->| ->]; [|lia|lia].
  destruct Ht as [Ht|Ht]; [left|right].
  - replace t with (w + - o * Second) by lia. rewrite Z.div_add; [lia|done].
  - replace t with (w + (- o - 1) * Second) by lia. rewrite Z.div_add; [lia|done].
Qed.

Lemma Date_settled y m d loc o :
  let w := midnight (y + (m - 1) / 12) ((m - 1) mod 12 + 1) d in
  settled loc w o -> Date y m d 0 0 0 0 loc = w - o * Second.
Proof.
  intros w [Ho Hs]. unfold Date. set (n := day_number _ _ d) in *.
  assert (w / Second = n * 86400) as Hw.
  { subst w. unfold midnight. fold n. change (24 * Hour) with (86400 * Second).
    rewrite Z.mul_assoc, Z.div_mul; done. }
  rewrite Hw in Hs. pose proof (Hs (n * 86400 + 0 * 3600 + 0 * 60 + 0 - unixToInternal) ltac:(lia)) as E0.
  unfold zone_offset in E0. destruct (lookup_zone loc _) as [[off st] en]. simpl in E0. subst off.
  assert (w = n * 86400 * Second) as -> by (subst w n; unfold midnight, Hour, Minute; lia).
  destruct (Z.eqb_spec o 0) as [->|]; [lia|]. rewrite (Hs (n * 86400 + 0 * 3600 + 0 * 60 + 0 - unixToInternal - o)) by lia.
  destruct (_ || _); lia.
Qed.

(** The instants a month's wall clock shows. *)
Lemma month_instants y m w :
  1 <= m <= 12 -> (civil w).1 = (y, m) <-> midnight y m 1 <= w < next_month y m.
Proof.
  intros Hm. pose proof (Z.div_mod w (24 * Hour) ltac:(done)) as Hw.
  pose proof (Z.mod_pos_bound w (24 * Hour) ltac:(done)) as Hr. unfold next_month, midnight.
  set (r := w mod (24 * Hour)) in *. split.
  - pose proof (day_number_civil w) as Hd. destruct (civil w) as [[y' m'] d]. simpl. intros [= -> ->].
    destruct Hd as [[_ Hd] Hn]. rewrite <- Hn in Hw.
    assert (day_number y m d = day_number y m 1 + (d - 1)) by (unfold day_number; lia). nia.
  - intros Hb. set (n := w / (24 * Hour)) in *.
    assert (n < day_number y m 1 + daysIn m y) by nia. assert (day_number y m 1 <= n) by nia.
    replace w with (day_number y m (n - day_number y m 1 + 1) * (24 * Hour) + r) by (unfold day_number in *; lia).
    rewrite civil_day_number; [done|split; [done|lia]|done].
Qed.

(** The two bounds [ParseDateRange] starts from. *)
Lemma month_bounds loc y m o1 o2 :
  1 <= m <= 12 -> settled loc (midnight y m 1) o1 -> settled loc (next_month y m) o2 ->
  let from := Date y m 1 0 0 0 0 loc in
  from = midnight y m 1 - o1 * Second /\ wall loc from = midnight y m 1 /\
  AddDate loc from 0 1 0 = next_month y m - o2 * Second.
Proof.
  intros Hm H1 H2 from. pose proof (daysIn_bounds m y Hm) as Hdi.
  destruct (month_norm m Hm) as [Em Em'].
  pose proof (Date_settled y m 1 loc o1) as D1. cbv zeta in D1. rewrite Em, Em', Z.add_0_r in D1.
  specialize (D1 H1). fold from in D1.
  pose proof (settled_wall loc _ o1 from H1 ltac:(left; lia)) as W1.
  replace (from + o1 * Second) with (midnight y m 1) in W1 by lia. split_and!; [done..|].
  unfold AddDate. rewrite W1, civil_midnight by (unfold valid_date; lia).
  replace (midnight y m 1 mod (24 * Hour)) with 0 by (unfold midnight; rewrite Z.mod_mul; done).
  pose proof (Date_settled (y + 0) (m + 1) (1 + 0) loc o2) as D. cbv zeta in D.
  replace (m + 1 - 1) with m in D by lia. replace (y + 0) with y in * by lia.
  change (1 + 0) with 1 in *. rewrite next_month_midnight in D by done. apply D, H2.
Qed.

(** *** Printing: [t.Format(time.RFC3339)] in a zone [off] seconds east of Greenwich *)
Definition zone_text (off : Z) : string :=
  if off =? 0 then "Z" else
  (if 0 <? off then "+" else "-") +:+ zero_pad 2 (Z.abs off / 3600) +:+ ":" +:+ zero_pad 2 (Z.abs off mod 3600 / 60).
Definition FormatRFC3339 (off : Z) (t : Time) : string :=
  let w := t + off * Second in
  let '(y, m, d) := civil w in
  let r := w mod (24 * Hour) in
  zero_pad 4 y +:+ "-" +:+ zero_pad 2 m +:+ "-" +:+ zero_pad 2 d +:+ "T" +:+
  zero_pad 2 (r / Hour) +:+ ":" +:+ zero_pad 2 (r mod Hour / Minute) +:+ ":" +:+
  zero_pad 2 (r mod Minute / Second) +:+ zone_text off.

Lemma zero_pad_2 z : 0 <= z < 100 ->
  exists a b, zero_pad 2 z = String a (String b "") /\ digit_val a = Some (z / 10) /\ digit_val b = Some (z mod 10).
Proof.
  intros Hz.
  assert (forallb (fun n => match zero_pad 2 (Z.of_nat n) with
    | String a (String b "") => bool_decide (digit_val a = Some (Z.of_nat n / 10)) && bool_decide (digit_val b = Some (Z.of_nat n mod 10))
    | _ => false end) (seq 0 100) = true) as H by (vm_compute; reflexivity).
  rewrite forallb_forall in H. specialize (H (Z.to_nat z) ltac:(apply in_seq; lia)).
  rewrite Z2Nat.id in H by lia.
  destruct (zero_pad 2 z) as [|a [|b [|]]]; try done. apply andb_prop in H as [H1 H2].
  rewrite !bool_decide_eq_true in *. eauto.
Qed.
Lemma getnum_pad fixed z rest : 0 <= z < 100 -> getnum fixed (zero_pad 2 z +:+ rest) = Some (z, rest).
Proof.
  intros Hz. destruct (zero_pad_2 z Hz) as (a & b & -> & Ha & Hb). rewrite !sapp_cons, sapp_nil_l.
  cbn [getnum]. rewrite Ha, Hb. cbn. do 2 f_equal. pose proof (Z.div_mod z 10). lia.
Qed.
Lemma in_range_ok lo hi z s : lo <= z <= hi -> in_range lo hi (Some (z, s)) = Some (z, s).
Proof. intros H. unfold in_range. cbn. by rewrite !(proj2 (Z.leb_le _ _)) by lia. Qed.
Lemma stake_app a b : stake (String.length a) (a +:+ b) = a /\ sdrop (String.length a) (a +:+ b) = b.
Proof. induction a as [|c a [IH1 IH2]]; [by destruct b|]. rewrite sapp_cons. simpl. by rewrite IH1, IH2. Qed.
Lemma zero_pad_parse w z : 0 <= z <= maxUint64 -> parse_digits 0 (zero_pad w z) = (z, None).
Proof.
  intros Hz. unfold zero_pad. rewrite parse_zeros. pose proof (ParseUint_strN z Hz) as E.
  unfold ParseUint in E. by destruct (String.eqb _ _).
Qed.
Lemma getyear_pad y rest : 0 <= y <= 9999 -> getyear (zero_pad 4 y +:+ rest) = Some (y, rest).
Proof.
  intros Hy. pose proof (zero_pad_length 4 y ltac:(lia) ltac:(lia)) as Hl.
  destruct (stake_app (zero_pad 4 y) rest) as [E1 E2]. rewrite Hl in E1, E2. unfold getyear.
  rewrite E1, E2, slen_app, Hl, zero_pad_parse by (unfold maxUint64; lia).
  unfold zero_pad. rewrite str_all_app, zeros_digits, strN_digits by lia. done.
Qed.
Lemma getzone_text off :
  off mod 60 = 0 -> Z.abs off < 86400 ->
  getnsec (zone_text off) = (0, zone_text off) /\ getzone (zone_text off) = Some (off, "").
Proof.
  intros Hm Ha. unfold zone_text. destruct (Z.eqb_spec off 0) as [->|Hne]; [done|].
  assert (0 <= Z.abs off / 3600 <= 23 /\ 0 <= Z.abs off mod 3600 / 60 <= 59 /\
          (Z.abs off / 3600 * 60 + Z.abs off mod 3600 / 60) * 60 = Z.abs off) as (H1 & H2 & H3)
    by (Z.to_euclidean_division_equations; lia).
  set (h := Z.abs off / 3600) in *. set (mm := Z.abs off mod 3600 / 60) in *.
  assert (forall c, getzone (String c (zero_pad 2 h +:+ ":" +:+ zero_pad 2 mm)) =
    if Ascii.eqb c "Z" then Some (0, zero_pad 2 h +:+ ":" +:+ zero_pad 2 mm)
    else if Ascii.eqb c "+" then Some (Z.abs off, "") else if Ascii.eqb c "-" then Some (- Z.abs off, "") else None) as Hz.
  { intros c. unfold getzone. destruct (Ascii.eqb c "Z"); [done|]. rewrite getnum_pad, in_range_ok by lia. cbn.
    pose proof (getnum_pad true mm "" ltac:(lia)) as Hg. rewrite sapp_nil_r in Hg.
    change (skip ":" (":" +:+ zero_pad 2 mm)) with (Some (zero_pad 2 mm)). cbn.
    rewrite Hg, in_range_ok by lia. cbn. by rewrite H3. }
  destruct (Z.ltb_spec 0 off); rewrite sapp_cons, sapp_nil_l, Hz; split.
  - destruct (zero_pad_2 h) as (a & b & -> & _ & _); [lia|]. done.
  - simpl. do 2 f_equal. lia.
  - destruct (zero_pad_2 h) as (a & b & -> & _ & _); [lia|]. done.
  - simpl. do 2 f_equal. lia.
Qed.

(** A printed time reads back as the time to the second. *)
Lemma Parse_Format off t :
  off mod 60 = 0 -> Z.abs off < 86400 -> 0 <= (civil (t + off * Second)).1.1 <= 9999 ->
  Parse (FormatRFC3339 off t) = Some (t - t mod Second).
Proof.
  intros Hm Ha Hy. unfold FormatRFC3339. set (w := t + off * Second) in *.
  pose proof (day_number_civil w) as Hv. destruct (civil w) as [[y m] d]. simpl in Hy. destruct Hv as [[Hmo Hd] Hn].
  pose proof (daysIn_bounds m y Hmo).
  pose proof (Z.mod_pos_bound w (24 * Hour) ltac:(done)) as Hr. set (r := w mod (24 * Hour)) in *.
  assert (0 <= r / Hour <= 23 /\ 0 <= r mod Hour / Minute <= 59 /\ 0 <= r mod Minute / Second <= 59 /\
    r / Hour * Hour + r mod Hour / Minute * Minute + r mod Minute / Second * Second = r - r mod Second) as (Hh & Hmi & Hs & Hsum)
    by (unfold Hour, Minute, Second in *; Z.to_euclidean_division_equations; lia).
  unfold Parse. rewrite getyear_pad by done. cbn [mbind option_bind skip Ascii.eqb].
  repeat (rewrite sapp_cons, sapp_nil_l; cbn [skip mbind option_bind]; rewrite ?Stdlib.Strings.Ascii.eqb_refl;
    cbn [mbind option_bind]; rewrite getnum_pad, ?in_range_ok by lia; cbn [mbind option_bind]).
  destruct (getzone_text off Hm Ha) as [-> ->]. cbn [mbind option_bind negb String.eqb].
  rewrite (proj2 (Z.ltb_ge d 1)), (proj2 (Z.ltb_ge _ d)) by lia. cbn [orb]. f_equal.
  unfold Date, UTC. cbn [lookup_zone Z.eqb].
  destruct (month_norm m Hmo) as [-> ->].
  replace (y + 0) with y by lia. rewrite Hn. assert (w mod Second = t mod Second /\ r mod Second = w mod Second) as [E1 E2].
  { subst w r. split; [apply Z.mod_add; done|]. apply Z.mod_mod_divide. by exists 86400. }
  pose proof (Z.div_mod w (24 * Hour) ltac:(done)) as Hw. fold r in Hw. rewrite E2, E1 in Hsum.
  assert (w = t + off * Second) as Ew by done. clear -Hsum Hw Ew. clearbody r w.
  generalize dependent (r / Hour). generalize dependent (r mod Hour / Minute). generalize dependent (r mod Minute / Second).
  generalize dependent (w / (24 * Hour)). generalize dependent (t mod Second).
  intros ns n Hn s mi h Hsum. unfold Hour, Minute, Second in *. lia.
Qed.
End DateFacts.

Module DateProps.
Import DateFacts.

(** C37. The default range is the calendar month: with [y] and [m] the year and month the clock shows in
    its location, the range runs from midnight of the first to 23:59:59 of the last day, by the
    wall clock of that location, as long as no zone change falls within a day of either end; and
    in a zone with one offset the instants of that month are exactly those from its start to less
    than a second after its end. *)
Theorem default_range_is_month loc now y m d o1 o2 :
  civil (wall loc now) = (y, m, d) ->
  settled loc (midnight y m 1) o1 -> settled loc (next_month y m) o2 ->
  let '((from, to), r) := ParseDateRange loc now "" "" in
  r = Ok () /\ civil (wall loc from) = (y, m, 1) /\ wall loc from = midnight y m 1 /\
  civil (wall loc to) = (y, m, daysIn m y) /\ wall loc to = next_month y m - Second /\
  ((forall u, zone_offset loc u = o1) ->
   forall t, (civil (wall loc t)).1 = (y, m) <-> from <= t < to + Second).
Proof.
  intros Hc H1 H2. unfold ParseDateRange. rewrite Hc. cbn [String.eqb].
  pose proof (day_number_civil (wall loc now)) as Hv. rewrite Hc in Hv. destruct Hv as [[Hm _] _].
  destruct (month_bounds loc y m o1 o2 Hm H1 H2) as (D1 & W1 & D2). pose proof (daysIn_bounds m y Hm) as Hdi.
  set (from := Date _ _ _ _ _ _ _ _) in *. rewrite D2. unfold Add. set (to := _ + - Second).
  pose proof (settled_wall loc _ o2 to H2 ltac:(right; lia)) as W2.
  replace (to + o2 * Second) with (next_month y m - Second) in W2 by lia.
  split_and!; try done.
  - rewrite W1. apply civil_midnight. unfold valid_date. lia.
  - rewrite W2. rewrite <- (civil_day_number y m (daysIn m y) (24 * Hour - Second)); [|unfold valid_date; lia|done].
    f_equal. unfold next_month, midnight, day_number. lia.
  - intros Hall t. rewrite month_instants by done. unfold wall. rewrite Hall.
    assert (o2 = o1) as -> by (rewrite <- (proj2 H2 (next_month y m / Second - unixToInternal)); [done|lia]). lia.
Qed.

(** A zone with daylight saving time: one hour ahead, two from March 31, 2024, 01:00 UTC, to
    October 27, 2024, 01:00 UTC. *)
Definition summer : Z := 1711846800.
Definition winter : Z := 1729990800.
Definition Berlin : Location := mkLocation (fun u =>
  if u <? summer then (3600, minInt64, summer) else if u <? winter then (7200, summer, winter)
  else (3600, winter, maxInt64)).
Lemma default_range_is_month_witness :
  let now := Date 2024 10 15 12 0 0 0 Berlin in
  let '((from, to), _) := ParseDateRange Berlin now "" "" in
  wall Berlin from = midnight 2024 10 1 /\ wall Berlin to = next_month 2024 10 - Second /\
  to + Second - from = (31 * 24 + 1) * Hour.
Proof.
  intros now.
  pose proof (default_range_is_month Berlin now 2024 10 15 7200 3600 ltac:(reflexivity)) as H.
  destruct (ParseDateRange Berlin now "" "") as [[from to] r] eqn:E.
  destruct H as (_ & _ & H1 & _ & H2 & _).
  - split; [done|]. intros u Hu. change (midnight 2024 10 1 / Second - unixToInternal) with 1727740800 in Hu.
    unfold zone_offset, Berlin, summer, winter. simpl. rewrite (proj2 (Z.ltb_ge u _)), (proj2 (Z.ltb_lt u _)) by lia. done.
  - split; [done|]. intros u Hu. change (next_month 2024 10 / Second - unixToInternal) with 1730419200 in Hu.
    unfold zone_offset, Berlin, summer, winter. simpl. rewrite !(proj2 (Z.ltb_ge u _)) by lia. done.
  - split_and!; [done..|]. vm_compute in E. by simplify_eq.
Defined.

(** What is asked for is what is returned: bounds printed in RFC 3339, in any zones of whole minutes
    and in years 0 to 9999, give back their instants to the second, whatever the clock shows. *)
Theorem date_range_roundtrip loc now off1 off2 t1 t2 :
  off1 mod 60 = 0 -> Z.abs off1 < 86400 -> 0 <= (civil (t1 + off1 * Second)).1.1 <= 9999 ->
  off2 mod 60 = 0 -> Z.abs off2 < 86400 -> 0 <= (civil (t2 + off2 * Second)).1.1 <= 9999 ->
  ParseDateRange loc now (FormatRFC3339 off1 t1) (FormatRFC3339 off2 t2) =
    ((t1 - t1 mod Second, t2 - t2 mod Second), Ok ()).
Proof.
  intros A1 A2 A3 B1 B2 B3. unfold ParseDateRange. destruct (civil (wall loc now)) as [[y m] d].
  assert (forall off t, String.eqb (FormatRFC3339 off t) "" = false) as Hne.
  { intros off t. unfold FormatRFC3339. destruct (civil (t + _)) as [[y' m'] d'].
    destruct (zero_pad 4 y'); [rewrite sapp_nil_l, sapp_cons|rewrite sapp_cons]; done. }
  by rewrite !Hne, !Parse_Format.
Qed.
Lemma date_range_roundtrip_witness :
  let t := Date 2024 2 29 23 59 59 5 UTC in
  FormatRFC3339 (- 16200) t = "2024-02-29T19:29:59-04:30" /\
  ParseDateRange UTC 0 (FormatRFC3339 (- 16200) t) (FormatRFC3339 0 t) = ((t - 5, t - 5), Ok ()).
Proof.
  intros t. split; [reflexivity|]. change (t - 5) with (t - t mod Second).
  apply (date_range_roundtrip UTC 0 (- 16200) 0 t t); vm_compute; split; discriminate || reflexivity.
Defined.
End DateProps.
