(* ===== verification/Float.v ===== *)
(** * Rounding of float64

    What the arithmetic of [GoStd]'s float64 guarantees of results in the normal range: conversion of
    an integer below 2^53 is exact, and a product or a quotient is off by at most one part in 2^53.
    A positive float [S754_finite false m e] of 53 digits is [m * 2^e]; bounds are stated on
    integers, with the power of two multiplied out. *)
From Stdlib Require Import Floats.SpecFloat.
From S2P Require Import Prelude GoStd.
Open Scope go_scope.

Module Float.

(** ** Digits *)
Lemma digits2_bounds p : 2 ^ (Zpos (digits2_pos p) - 1) <= Zpos p < 2 ^ Zpos (digits2_pos p).
Proof.
  induction p as [p IH|p IH|]; cbn [digits2_pos]; [| |done];
    rewrite Pos2Z.inj_succ; replace (Z.succ (Zpos (digits2_pos p)) - 1) with (Zpos (digits2_pos p)) by lia;
    rewrite Z.pow_succ_r by lia; replace (2 ^ Zpos (digits2_pos p)) with (2 * 2 ^ (Zpos (digits2_pos p) - 1)) in *
      by (rewrite <- Z.pow_succ_r by lia; f_equal; lia); lia.
Qed.
Lemma digits_unique z k : 0 <= k -> 2 ^ k <= z < 2 ^ (k + 1) -> Zdigits2 z = k + 1.
Proof.
  intros Hk Hz. assert (0 < 2 ^ k) by lia. destruct z as [|p|p]; [lia| |lia]. cbn [Zdigits2].
  pose proof (digits2_bounds p) as Hd. set (d := Zpos (digits2_pos p)) in *.
  assert (0 < d) by (subst d; lia).
  destruct (Z.lt_trichotomy d (k + 1)) as [H1|[H1|H1]]; [|done|].
  - assert (2 ^ d <= 2 ^ k) by (apply Z.pow_le_mono_r; lia). lia.
  - assert (2 ^ (k + 1) <= 2 ^ (d - 1)) by (apply Z.pow_le_mono_r; lia). lia.
Qed.

(** ** Shifting
    [rep m r s A B]: [m] is the quotient of [A] by [B], and the bits [r] and [s] say where the
    remainder lies: nothing, below, at or above one half. *)
Definition rep (m : Z) (r s : bool) (A B : Z) : Prop :=
  0 < B /\ 0 <= m /\
  let rem := A - m * B in
  0 <= rem < B /\
  match r, s with
  | false, false => rem = 0
  | false, true => 0 < rem /\ 2 * rem < B
  | true, false => 2 * rem = B
  | true, true => B < 2 * rem
  end.
Definition rep_rec (x : shr_record) (A B : Z) : Prop := rep (shr_m x) (shr_r x) (shr_s x) A B.

Lemma shr_1_rep x A B : rep_rec x A B -> rep_rec (shr_1 x) A (2 * B).
Proof.
  destruct x as [m r s]. unfold rep_rec, rep. cbn [shr_m shr_r shr_s]. cbv zeta. intros (HB & Hm & Hr & Hc).
  destruct m as [|[p|p|]|p]; cbn [shr_1 shr_m shr_r shr_s]; [| | | |lia].
  - destruct r, s; cbn [orb]; lia.
  - assert (Zpos p~1 = 2 * Zpos p + 1) as E by lia. rewrite E in *. replace ((2 * Zpos p + 1) * B) with (2 * (Zpos p * B) + B) in * by lia.
    replace (Zpos p * (2 * B)) with (2 * (Zpos p * B)) by lia. set (t := Zpos p * B) in *.
    clearbody t. destruct r, s; cbn [orb]; lia.
  - assert (Zpos p~0 = 2 * Zpos p) as E by lia. rewrite E in *. replace (2 * Zpos p * B) with (2 * (Zpos p * B)) in * by lia.
    replace (Zpos p * (2 * B)) with (2 * (Zpos p * B)) by lia. set (t := Zpos p * B) in *.
    clearbody t. destruct r, s; cbn [orb]; lia.
  - destruct r, s; cbn [orb]; lia.
Qed.
Lemma iter_rep p x A B : rep_rec x A B -> rep_rec (SpecFloat.iter_pos shr_1 p x) A (2 ^ Zpos p * B).
Proof.
  revert x B. induction p as [p IH|p IH|]; intros x B Hx; cbn [SpecFloat.iter_pos].
  - apply shr_1_rep, IH, IH in Hx. replace (2 ^ Zpos p~1 * B) with (2 ^ Zpos p * (2 ^ Zpos p * (2 * B))); [done|].
    replace (Zpos p~1) with (Zpos p + Zpos p + 1) by lia. rewrite !Z.pow_add_r by lia. lia.
  - apply IH, IH in Hx. replace (2 ^ Zpos p~0 * B) with (2 ^ Zpos p * (2 ^ Zpos p * B)); [done|].
    replace (Zpos p~0) with (Zpos p + Zpos p) by lia. rewrite !Z.pow_add_r by lia. lia.
  - apply shr_1_rep in Hx. done.
Qed.
Lemma shr_rep x e n A B :
  0 <= n -> rep_rec x A B -> rep_rec (shr x e n).1 A (2 ^ n * B) /\ (shr x e n).2 = e + n.
Proof.
  intros Hn Hx. destruct n as [|p|p]; [|by split; [apply iter_rep|]|lia].
  cbn [shr fst snd]. rewrite Z.pow_0_r, Z.mul_1_l. split; [done|lia].
Qed.

(** ** Rounding to nearest, ties to even: off by at most half a unit *)
Lemma round_rep x A B :
  rep_rec x A B -> let N := round_nearest_even (shr_m x) (loc_of_shr_record x) in
  2 * Z.abs (N * B - A) <= B /\ shr_m x <= N <= shr_m x + 1.
Proof.
  destruct x as [m r s]. unfold rep_rec, rep. cbn [shr_m shr_r shr_s loc_of_shr_record].
  intros (HB & Hm & Hr & Hc). destruct r, s; cbn [round_nearest_even]; try destruct (Z.even m);
    rewrite ?Z.mul_add_distr_r; lia.
Qed.

(** The location a quotient and its remainder give. *)
Definition loc_rep (m : Z) (l : location) (A B : Z) : Prop := rep_rec (shr_record_of_loc m l) A B.
Lemma exact_rep m : 0 <= m -> loc_rep m loc_Exact m 1.
Proof. unfold loc_rep, rep_rec, rep. simpl. lia. Qed.
Lemma new_location_rep A B : 0 < B -> 0 <= A -> loc_rep (A / B) (new_location B (A mod B)) A B.
Proof.
  intros HB HA. pose proof (Z.div_mod A B ltac:(lia)) as E. pose proof (Z.mod_pos_bound A B HB) as Hr.
  pose proof (Z.div_pos A B HA HB) as Hq. set (q := A / B) in *. set (r := A mod B) in *.
  clearbody q r.
  unfold new_location, new_location_even, new_location_odd. destruct (Z.even B) eqn:Eb.
  - destruct (Z.eqb_spec r 0); [|destruct (Z.compare_spec (2 * r) B)];
      unfold loc_rep, rep_rec, rep; cbn [shr_record_of_loc shr_m shr_r shr_s]; lia.
  - assert (B <> 2 * r) by (intros E'; by rewrite E', Z.even_mul in Eb).
    destruct (Z.eqb_spec r 0); [|destruct (Z.compare_spec (2 * r + 1) B)];
      unfold loc_rep, rep_rec, rep; cbn [shr_record_of_loc shr_m shr_r shr_s]; lia.
Qed.

(** ** A rounded value
    [mx], of [53 + k] digits, and its location stand for [A / B] in units of [2^ex]; the result is
    the float nearest to it. *)
Lemma round_value mx ex lx A B k :
  loc_rep mx lx A B -> 0 <= k -> 2 ^ (52 + k) <= mx < 2 ^ (53 + k) -> -1074 <= ex -> ex + k + 1 <= 971 ->
  exists m e, binary_round_aux 53 1024 false mx ex lx = S754_finite false (Z.to_pos m) e /\
    2 ^ 52 <= m < 2 ^ 53 /\ (e = ex + k \/ e = ex + k + 1) /\
    2 * Z.abs (m * 2 ^ (e - (ex + k)) * (2 ^ k * B) - A) <= 2 ^ k * B.
Proof.
  intros Hl Hk Hm He1 He2. unfold binary_round_aux, shr_fexp at 1.
  assert (Zdigits2 mx = 53 + k) as Hd by (rewrite (digits_unique mx (52 + k)); [lia|lia|];
    replace (52 + k + 1) with (53 + k) by lia; done).
  assert (fexp 53 1024 (Zdigits2 mx + ex) - ex = k) as -> by (unfold fexp, emin; lia).
  destruct (shr_rep _ ex k A B Hk Hl) as [Hr1 E1]. destruct (shr _ ex k) as [x e1]. simpl in Hr1, E1. subst e1.
  assert (2 ^ 52 <= shr_m x < 2 ^ 53) as Hx.
  { destruct Hl as (HB & _ & Hrem & _), Hr1 as (HB' & _ & Hrem' & _).
    assert (shr_m (shr_record_of_loc mx lx) = mx) as Emx by (by destruct lx as [|[| |]]). rewrite Emx in Hrem.
    rewrite !Z.pow_add_r in Hm by lia. assert (0 < 2 ^ k) as Hp by (apply Z.pow_pos_nonneg; lia).
    set (K := 2 ^ k) in *. clearbody K. split; apply Z.nlt_ge || apply Z.nle_gt; intros Hn; nia. }
  destruct (round_rep x A (2 ^ k * B) Hr1) as [HN HN']. set (N := round_nearest_even _ _) in *.
  unfold shr_fexp. destruct (decide (N = 2 ^ 53)) as [EN|NN].
  - rewrite EN in *. exists (2 ^ 52), (ex + k + 1).
    assert (fexp 53 1024 (Zdigits2 (2 ^ 53) + (ex + k)) - (ex + k) = 1) as ->
      by (change (Zdigits2 (2 ^ 53)) with 54; unfold fexp, emin; lia).
    change (shr _ (ex + k) 1) with (Build_shr_record (2 ^ 52) false false, ex + k + 1). cbn [shr_m].
    change (2 ^ 52) with (Zpos (2 ^ 52)) at 1. cbn iota. rewrite (proj2 (Z.leb_le _ _)) by lia.
    split_and!; [done|done|done|lia|]. replace (ex + k + 1 - (ex + k)) with 1 by lia. exact HN.
  - assert (Zdigits2 N = 53) as HdN by (apply (digits_unique N 52); [lia|]; change (52 + 1) with 53; lia).
    assert (fexp 53 1024 (Zdigits2 N + (ex + k)) - (ex + k) = 0) as -> by (unfold fexp, emin; lia).
    cbn [shr shr_m shr_record_of_loc]. exists N, (ex + k). destruct N as [|p|p] eqn:Ep; [lia| |lia].
    rewrite (proj2 (Z.leb_le _ _)) by lia. split_and!; [done|lia|lia|lia|].
    replace (ex + k - (ex + k)) with 0 by lia. rewrite Z.pow_0_r, Z.mul_1_r. exact HN.
Qed.
(** The same as a relative error: one part in 2^53. *)
Lemma round_rel mx ex lx A B k :
  loc_rep mx lx A B -> 0 <= k -> 2 ^ (52 + k) <= mx < 2 ^ (53 + k) -> -1074 <= ex -> ex + k + 1 <= 971 ->
  exists m e, binary_round_aux 53 1024 false mx ex lx = S754_finite false (Z.to_pos m) e /\
    2 ^ 52 <= m < 2 ^ 53 /\ (e = ex + k \/ e = ex + k + 1) /\ 2 ^ 53 * Z.abs (m * 2 ^ (e - ex) * B - A) <= A.
Proof.
  intros Hl Hk Hm He1 He2. destruct (round_value mx ex lx A B k Hl Hk Hm He1 He2) as (m & e & -> & Hm' & He & Hr).
  exists m, e. split_and!; [done|lia|lia|done|].
  replace (m * 2 ^ (e - ex) * B) with (m * 2 ^ (e - (ex + k)) * (2 ^ k * B)).
  2: { replace (e - ex) with (e - (ex + k) + k) by lia. rewrite (Z.pow_add_r 2 (e - (ex + k)) k) by lia. lia. }
  destruct Hl as (HB & _ & Hrem & _).
  assert (shr_m (shr_record_of_loc mx lx) = mx) as Emx by (by destruct lx as [|[| |]]). rewrite Emx in Hrem.
  rewrite !Z.pow_add_r in Hm by lia. set (D := Z.abs _) in *. clearbody D. set (K := 2 ^ k) in *. clearbody K.
  assert (2 ^ 52 * (K * B) <= A) by nia. lia.
Qed.

(** ** Normal floats below 2^53, as [m / 2^k] *)
Definition is_float (f : f64) (m k : Z) : Prop := f = S754_finite false (Z.to_pos m) (- k) /\ 2 ^ 52 <= m < 2 ^ 53.

Lemma pos_shift p d : Zpos (Pos.iter xO p d) = Zpos p * 2 ^ Zpos d.
Proof.
  revert p. induction d as [|d IH] using Pos.peano_ind; intros p; [simpl; lia|].
  rewrite Pos.iter_succ, Pos2Z.inj_succ, Z.pow_succ_r by lia. specialize (IH p). lia.
Qed.
Lemma binary_round_scaled p d :
  Zpos (digits2_pos p) = d -> d <= 53 ->
  binary_round 53 1024 false p 0 = binary_round_aux 53 1024 false (Zpos p * 2 ^ (53 - d)) (d - 53) loc_Exact.
Proof.
  intros Hd Hle. unfold binary_round. rewrite Hd. assert (0 < d) by lia.
  replace (fexp 53 1024 (d + 0)) with (d - 53) by (unfold fexp, emin; lia). unfold shl_align.
  destruct (d - 53 - 0) as [|q|q] eqn:E; [|lia|].
  - replace (53 - d) with 0 by lia. replace (d - 53) with 0 by lia. by rewrite Z.pow_0_r, Z.mul_1_r.
  - rewrite pos_shift. replace (53 - d) with (Zpos q) by lia. done.
Qed.
Lemma of_Z_exact n : 0 < n < 2 ^ 53 ->
  exists k, 0 <= k <= 52 /\ is_float (f64_of_Z n) (n * 2 ^ k) k /\ (forall b, 0 < b -> 2 ^ b <= n -> k <= 52 - b).
Proof.
  intros Hn. destruct n as [|p|p]; [lia| |lia]. unfold f64_of_Z, binary_normalize.
  pose proof (digits2_bounds p) as Hd. remember (Zpos (digits2_pos p)) as d eqn:Ed. assert (0 < d) by lia.
  assert (d <= 53). { apply Z.nlt_ge. intros Hn'. assert (2 ^ 53 <= 2 ^ (d - 1)) by (apply Z.pow_le_mono_r; lia). lia. }
  rewrite (binary_round_scaled p d) by lia. set (m := Zpos p * 2 ^ (53 - d)).
  assert (2 ^ 52 <= m < 2 ^ 53) as Hm.
  { subst m. assert (0 < 2 ^ (53 - d)) by (apply Z.pow_pos_nonneg; lia).
    replace (2 ^ 52) with (2 ^ (d - 1) * 2 ^ (53 - d)) by (rewrite <- Z.pow_add_r by lia; f_equal; lia).
    replace (2 ^ 53) with (2 ^ d * 2 ^ (53 - d)) by (rewrite <- Z.pow_add_r by lia; f_equal; lia). nia. }
  destruct (round_value m (d - 53) loc_Exact m 1 0) as (m' & e & E & Hm' & He & Hr);
    [apply exact_rep; lia|lia|simpl; lia|lia|lia|].
  rewrite Z.pow_0_r, Z.mul_1_r in Hr. exists (53 - d). split; [lia|]. split; [split; [|done]|].
  - destruct He as [-> | ->].
    + replace (d - 53 + 0 - (d - 53 + 0)) with 0 in Hr by lia. rewrite Z.pow_0_r, !Z.mul_1_r in Hr.
      assert (m' = m) as -> by lia. rewrite E. f_equal. lia.
    + replace (d - 53 + 0 + 1 - (d - 53 + 0)) with 1 in Hr by lia. lia.
  - intros b Hb Hp. apply Z.nlt_ge. intros Hlt.
    assert (2 ^ d <= 2 ^ b) by (apply Z.pow_le_mono_r; lia). lia.
Qed.

(** The quotient of two integers, [a <= b]: a ratio of at most one. *)
Lemma div_ratio a b : 0 < a <= b -> b < 2 ^ 31 ->
  exists m k, is_float (f64_div (f64_of_Z a) (f64_of_Z b)) m k /\ 51 <= k <= 105 /\
    2 ^ 53 * Z.abs (m * b - a * 2 ^ k) <= a * 2 ^ k.
Proof.
  intros Ha Hb. destruct (of_Z_exact a ltac:(lia)) as (k1 & Hk1 & [-> Hm1] & _).
  destruct (of_Z_exact b ltac:(lia)) as (k2 & Hk2 & [-> Hm2] & _).
  assert (k2 <= k1) as Hkk.
  { apply Z.nlt_ge. intros Hlt. assert (2 ^ k1 * 2 <= 2 ^ k2).
    { replace (2 ^ k1 * 2) with (2 ^ (k1 + 1)) by (rewrite Z.pow_add_r by lia; done). apply Z.pow_le_mono_r; lia. }
    assert (0 < 2 ^ k1) by (apply Z.pow_pos_nonneg; lia). nia. }
  set (m1 := a * 2 ^ k1) in *. set (m2 := b * 2 ^ k2) in *.
  unfold f64_div, SFdiv. cbn [xorb]. rewrite !Z2Pos.id by lia. unfold SFdiv_core_binary.
  rewrite (digits_unique m1 52), (digits_unique m2 52) by (lia || (change (52 + 1) with 53; lia)).
  replace (Z.min (fexp 53 1024 (52 + 1 + - k1 - (52 + 1 + - k2))) (- k1 - - k2)) with (k2 - k1 - 53) by (unfold fexp, emin; lia).
  replace (- k1 - - k2 - (k2 - k1 - 53)) with 53 by lia. rewrite Z.shiftl_mul_pow2 by lia.
  pose proof (new_location_rep (m1 * 2 ^ 53) m2 ltac:(lia) ltac:(lia)) as Hl.
  unfold Z.div, Z.modulo in Hl. destruct (Z.div_eucl (m1 * 2 ^ 53) m2) as [q r] eqn:Eq.
  assert (2 ^ 52 <= q < 2 ^ 54) as Hq.
  { pose proof (Z_div_mod (m1 * 2 ^ 53) m2 ltac:(lia)) as Hdm. rewrite Eq in Hdm. nia. }
  assert (exists kk, 0 <= kk <= 1 /\ 2 ^ (52 + kk) <= q < 2 ^ (53 + kk)) as (kk & Hkk' & Hq').
  { destruct (decide (q < 2 ^ 53)); [exists 0|exists 1]; simpl; lia. }
  destruct (round_rel q (k2 - k1 - 53) _ _ _ kk Hl) as (m & e & -> & Hm & He & Hr); [lia|done|lia|lia|].
  exists m, (- e). split; [split; [f_equal; lia|done]|]. split; [lia|].
  set (j := e - (k2 - k1 - 53)) in *. assert (0 <= j <= 2) as Hj by (subst j; lia).
  assert (2 ^ j * 2 ^ k2 * 2 ^ (- e) = 2 ^ k1 * 2 ^ 53) as Ep.
  { rewrite <- !Z.pow_add_r by lia. f_equal. subst j. lia. }
  assert (0 < 2 ^ j * 2 ^ k2) as Hpos by (apply Z.mul_pos_pos; apply Z.pow_pos_nonneg; lia).
  replace (m * 2 ^ j * m2 - m1 * 2 ^ 53) with ((2 ^ j * 2 ^ k2) * (m * b - a * 2 ^ (- e))) in Hr by (subst m1 m2; lia).
  replace (m1 * 2 ^ 53) with ((2 ^ j * 2 ^ k2) * (a * 2 ^ (- e))) in Hr by (subst m1; lia).
  rewrite Z.abs_mul, (Z.abs_eq (2 ^ j * 2 ^ k2)) in Hr by lia. set (P := 2 ^ j * 2 ^ k2) in *. clearbody P.
  apply (Z.mul_le_mono_pos_l _ _ P); [done|]. lia.
Qed.

(** An integer times such a ratio. *)
Lemma mul_ratio n r m k : 0 < n < 2 ^ 31 -> is_float r m k -> 51 <= k <= 105 ->
  exists m' k', is_float (f64_mul (f64_of_Z n) r) m' k' /\ 18 <= k' /\
    f64_trunc (f64_mul (f64_of_Z n) r) = Some (m' / 2 ^ k') /\
    2 ^ 53 * Z.abs (m' * 2 ^ k - n * m * 2 ^ k') <= n * m * 2 ^ k'.
Proof.
  intros Hn [-> Hm] Hk. destruct (of_Z_exact n ltac:(lia)) as (kn & Hkn & [-> Hmn] & Hd).
  assert (22 <= kn) as Hkn'.
  { apply Z.nlt_ge. intros Hlt. assert (2 ^ kn <= 2 ^ 21) by (apply Z.pow_le_mono_r; lia). nia. }
  unfold f64_mul, SFmul. cbn [xorb]. rewrite Pos2Z.inj_mul, !Z2Pos.id by lia.
  set (mn := n * 2 ^ kn) in *. assert (2 ^ 104 <= mn * m < 2 ^ 106) as Hp by nia.
  assert (exists kk, 52 <= kk <= 53 /\ 2 ^ (52 + kk) <= mn * m < 2 ^ (53 + kk)) as (kk & Hkk & Hq).
  { destruct (decide (mn * m < 2 ^ 105)); [exists 52|exists 53]; simpl; lia. }
  destruct (round_rel (mn * m) (- kn + - k) loc_Exact _ _ kk (exact_rep (mn * m) ltac:(lia))) as (m' & e & -> & Hm' & He & Hr);
    [lia|done|lia|lia|].
  exists m', (- e). split; [split; [f_equal; lia|done]|]. split; [lia|]. split.
  { unfold f64_trunc. rewrite (proj2 (Z.leb_gt 0 e)), Z2Pos.id by lia. done. }
  set (j := e - (- kn + - k)) in *. assert (0 <= j) as Hj by (subst j; lia).
  assert (2 ^ j * 2 ^ (- e) = 2 ^ kn * 2 ^ k) as Ep.
  { rewrite <- !Z.pow_add_r by lia. f_equal. subst j. lia. }
  rewrite Z.mul_1_r in Hr. assert (0 < 2 ^ kn) by (apply Z.pow_pos_nonneg; lia). assert (0 < 2 ^ j) by (apply Z.pow_pos_nonneg; lia).
  assert (0 < 2 ^ k) by (apply Z.pow_pos_nonneg; lia). assert (0 < 2 ^ (- e)) by (apply Z.pow_pos_nonneg; lia).
  assert (2 ^ j * (m' * 2 ^ k - n * m * 2 ^ (- e)) = 2 ^ k * (m' * 2 ^ j - mn * m)) as E1 by (subst mn; nia).
  assert (2 ^ j * (n * m * 2 ^ (- e)) = 2 ^ k * (mn * m)) as E2 by (subst mn; nia).
  apply (Z.mul_le_mono_pos_l _ _ (2 ^ j)); [done|].
  replace (2 ^ j * (2 ^ 53 * Z.abs (m' * 2 ^ k - n * m * 2 ^ (- e)))) with (2 ^ 53 * Z.abs (2 ^ j * (m' * 2 ^ k - n * m * 2 ^ (- e))))
    by (rewrite Z.abs_mul, (Z.abs_eq (2 ^ j)) by lia; lia).
  rewrite E1, E2, Z.abs_mul, (Z.abs_eq (2 ^ k)) by lia. nia.
Qed.

(** Multiplying by one changes nothing. *)
Lemma mul_one n : 0 < n < 2 ^ 53 -> f64_trunc (f64_mul (f64_of_Z n) (f64_of_Z 1)) = Some n.
Proof.
  intros Hn. destruct (of_Z_exact n Hn) as (k & Hk & [-> Hm] & _).
  change (f64_of_Z 1) with (S754_finite false (2 ^ 52) (-52)). unfold f64_mul, SFmul. cbn [xorb].
  rewrite Pos2Z.inj_mul, Z2Pos.id by lia. change (Zpos (2 ^ 52)) with (2 ^ 52). set (mn := n * 2 ^ k) in *.
  destruct (round_value (mn * 2 ^ 52) (- k + -52) loc_Exact (mn * 2 ^ 52) 1 52) as (m & e & -> & Hm' & He & Hr);
    [apply exact_rep; lia|lia|simpl; lia|lia|lia|].
  assert (m = mn /\ e = - k) as [-> ->].
  { destruct He as [-> | ->].
    - replace (- k + -52 + 52 - (- k + -52 + 52)) with 0 in Hr by lia. rewrite Z.pow_0_r in Hr. lia.
    - replace (- k + -52 + 52 + 1 - (- k + -52 + 52)) with 1 in Hr by lia. lia. }
  unfold f64_trunc. rewrite Z2Pos.id by lia. subst mn. assert (0 < 2 ^ k) by (apply Z.pow_pos_nonneg; lia).
  destruct (Z.leb_spec 0 (- k)).
  - assert (k = 0) as -> by lia. f_equal. simpl. lia.
  - rewrite Z.opp_involutive, Z.div_mul by lia. done.
Qed.

(** The order of floats is that of their values. *)
Lemma ltb_value f1 m1 k1 f2 m2 k2 :
  is_float f1 m1 k1 -> is_float f2 m2 k2 -> 0 <= k1 -> 0 <= k2 ->
  f64_ltb f1 f2 = true <-> m1 * 2 ^ k2 < m2 * 2 ^ k1.
Proof.
  intros [-> H1] [-> H2] Hk1 Hk2. unfold f64_ltb, SFltb, SFcompare.
  assert (forall a b, a < b -> 0 <= a -> 2 * 2 ^ a <= 2 ^ b) as Hpow.
  { intros a b Hab Ha. rewrite <- Z.pow_succ_r by lia. apply Z.pow_le_mono_r; lia. }
  assert (0 < 2 ^ k1) by (apply Z.pow_pos_nonneg; lia). assert (0 < 2 ^ k2) by (apply Z.pow_pos_nonneg; lia).
  destruct (Z.compare_spec (- k1) (- k2)) as [E|E|E].
  - assert (k1 = k2) as -> by lia. change (Pos.compare_cont Eq) with Pos.compare.
    rewrite Pos2Z.inj_compare, !Z2Pos.id by lia. destruct (Z.compare_spec m1 m2); split; try done; nia.
  - specialize (Hpow k2 k1 ltac:(lia) Hk2). split; [intros _|done]. nia.
  - specialize (Hpow k1 k2 ltac:(lia) Hk1). split; [done|]. nia.
Qed.
End Float.
