(* ===== verification/Job.v ===== *)
(** * job/, jobpayload/, utils/backoff.go and timeutil/backoff.go

    Leases, exponential backoff on float64, the cron guard, and integers of job payloads. *)
From S2P Require Import Prelude GoStd Float.
From Stdlib Require Import Floats.SpecFloat.
Open Scope go_scope.

(** ** job.go: leases *)
Inductive jobErr := ErrInvalidLease | ErrInvalidBackoffPolicy | ErrNegativeRetryCount.

Record Lease := mkLease { JobName : string; Owner : string; AcquiredAt : Time; ExpiresAt : Time }.

Definition NewLease (jobName owner : string) (now : Time) (ttl : Duration) : res jobErr Lease :=
  if String.eqb (TrimSpace jobName) "" || String.eqb (TrimSpace owner) "" || (ttl <=? 0) || IsZero now
  then Err ErrInvalidLease
  else Ok (mkLease (TrimSpace jobName) (TrimSpace owner) now (Add now ttl)).

Definition Expired (l : Lease) (now : Time) : bool := negb (Before now (ExpiresAt l)).
Definition HeldBy (l : Lease) (owner : string) (now : Time) : bool :=
  String.eqb (TrimSpace owner) (Owner l) && negb (Expired l now).
Definition CanAcquire (existing : option Lease) (owner : string) (now : Time) : bool :=
  let owner := TrimSpace owner in
  if String.eqb owner "" then false else
  match existing with
  | None => true
  | Some l => HeldBy l owner now || Expired l now
  end.

(** ** job.go: backoff *)
#[export] Instance jobErr_eq_dec : EqDecision jobErr.
Proof. solve_decision. Defined.
#[export] Instance res_eq_dec {E A} `{EqDecision E} `{EqDecision A} : EqDecision (res E A).
Proof. solve_decision. Defined.

Record BackoffPolicy := mkPolicy { Base : Duration; Max : Duration; Multiplier : f64 }.

Definition DefaultBackoffPolicy : BackoffPolicy := mkPolicy Second (5 * Minute) (f64_of_Z 2).
Definition WithDefaults (p : BackoffPolicy) : BackoffPolicy :=
  let d := DefaultBackoffPolicy in
  mkPolicy (if Base p =? 0 then Base d else Base p) (if Max p =? 0 then Max d else Max p)
    (if f64_eqb (Multiplier p) (f64_of_Z 0) then Multiplier d else Multiplier p).
Definition Validate (p : BackoffPolicy) : res jobErr unit :=
  let p := WithDefaults p in
  if (Base p <=? 0) || (Max p <=? 0) || f64_ltb (Multiplier p) (f64_of_Z 1) || (Max p <? Base p)
  then Err ErrInvalidBackoffPolicy else Ok ().

(** Conversion of a float to an int64; [oor] is what the platform gives out of range. *)
Definition f64_int64 (oor : Z) (a : f64) : Z :=
  match f64_trunc a with
  | Some z => if (minInt64 <=? z) && (z <=? maxInt64) then z else oor
  | None => oor
  end.

Definition Delay (oor : Z) (p : BackoffPolicy) (attempt : Z) : res jobErr Duration :=
  let p := WithDefaults p in
  _ <-? Validate p;
  let attempt := if attempt <? 0 then 0 else attempt in
  let delay := f64_of_Z (Base p) in
  let delay := if 0 <? attempt then f64_mul delay (Pow (Multiplier p) attempt) else delay in
  if f64_leb (f64_of_Z (Max p)) delay then Ok (Max p) else Ok (f64_int64 oor delay).
Definition NextRunAfter (oor : Z) (p : BackoffPolicy) (now : Time) (attempt : Z) : res jobErr Time :=
  delay <-? Delay oor p attempt; Ok (Add now delay).

(** ** utils/backoff.go *)
Definition DefaultInitialInterval : Duration := 10 * Minute.
Definition DefaultMaxRetryCount : Z := 5.
Definition defaultMax : Duration := 100 * 365 * 24 * Hour.
Record Calculator := mkCalculator { policy : BackoffPolicy; maxRetry : Z }.
Definition DefaultCalculator : Calculator :=
  mkCalculator (mkPolicy DefaultInitialInterval defaultMax (f64_of_Z 2)) DefaultMaxRetryCount.
Definition NewCalculator (initial : Duration) (multiplier : f64) (maxCap : Duration) (maxRetry : Z)
  : res jobErr Calculator :=
  if maxRetry <? 0 then Err ErrNegativeRetryCount else
  let p := mkPolicy initial maxCap multiplier in
  _ <-? Validate p; Ok (mkCalculator p maxRetry).
Definition CalculateBackoff (oor : Z) (c : Calculator) (retryCount : Z) : res jobErr Duration :=
  if retryCount <? 0 then Err ErrNegativeRetryCount else
  let attempt := retryCount - 1 in
  Delay oor (policy c) (if attempt <? 0 then 0 else attempt).
(** [now] is the clock, read only when there was no last retry. *)
Definition CalculateNextRetryTime (oor : Z) (c : Calculator) (now lastRetryTime : Time) (retryCount : Z)
  : res jobErr Time :=
  delay <-? CalculateBackoff oor c retryCount;
  Ok (Add (if IsZero lastRetryTime then now else lastRetryTime) delay).
Definition ShouldRetry (c : Calculator) (retryCount : Z) : bool :=
  (if retryCount <? 0 then 0 else retryCount) <? maxRetry c.
Definition IsPermanentFailure (c : Calculator) (retryCount : Z) : bool :=
  maxRetry c <=? (if retryCount <? 0 then 0 else retryCount).

(** ** timeutil/backoff.go *)
Definition timeutil_Backoff (oor : Z) (attempt : Z) (initialInterval maxInterval : Duration) : Duration :=
  let d := f64_int64 oor (f64_mul (f64_of_Z initialInterval) (Pow (f64_of_Z 2) attempt)) in
  if maxInterval <? d then maxInterval else d.
Definition timeutil_ShouldRetry (attempt maxRetries : Z) : bool := attempt <? maxRetries.

(** ** jobpayload.Int *)
Inductive pvalue :=
| PInt (z : Z) | PInt64 (z : Z) | PFloat64 (a : f64) | PNumber (s : string) | POther.

(** [math.Trunc(v) == v]: the value, when it is a finite integer. *)
Definition f64_integral (a : f64) : option Z :=
  match a with
  | S754_zero _ => Some 0
  | S754_finite s m e =>
      if 0 <=? e then f64_trunc a
      else if Zpos m mod 2 ^ (- e) =? 0 then f64_trunc a else None
  | _ => None
  end.

(** [payload] is the map (None: nil); a missing key behaves as another type. *)
Definition Int (oor : Z) (payload : option (gmap string pvalue)) (key : string) (def : Z) : Z :=
  match payload with
  | None => def
  | Some m =>
      match m !! key with
      | Some (PInt z) => z
      | Some (PInt64 z) => z
      | Some (PFloat64 a) =>
          match f64_integral a with
          | Some _ => if f64_leb (f64_of_Z minInt64) a && f64_leb a (f64_of_Z maxInt64)
                      then f64_int64 oor a else def
          | None => def
          end
      | Some (PNumber s) => match ParseInt s with (n, None) => n | _ => def end
      | _ => def
      end
  end.

(** ** cronguard.go *)
Inductive cronErr := ErrCronSixField | ErrCronQuartzChar | ErrCronMissingTZ.

Definition quartz_chars : list ascii := ["?"; "L"; "W"; "#"]%char.

Definition Normalize (expr : string) : res cronErr string :=
  let expr := TrimSpace expr in
  let hasTZPrefix := HasPrefix expr "CRON_TZ=" in
  part <-? (if hasTZPrefix then
              let rest := TrimPrefix expr "CRON_TZ=" in
              match cut_at " " rest with
              | None => Err ErrCronMissingTZ
              | Some (tz, r) => if String.eqb (TrimSpace tz) "" then Err ErrCronMissingTZ else Ok r
              end
            else Ok expr);
  if existsb (fun ch => ContainsByte part ch) quartz_chars then Err ErrCronQuartzChar else
  let fields := Fields part in
  if negb (length fields =? 5)%nat then Err ErrCronSixField else
  if negb hasTZPrefix then Err ErrCronMissingTZ else
  (* expr[:strings.Index(expr, " ")] *)
  match cut_at " " expr with
  | Some (tzPart, _) => Ok (tzPart +:+ " " +:+ Join fields " ")
  | None => Err ErrCronMissingTZ
  end.

(** ** Facts about fields *)
Module JobFacts.

(** No white space starts anywhere in [f]. *)
Definition no_space (f : string) : Prop := forall a b, f = a +:+ b -> strip_one space_seqs b = None.
Definition clean_field (f : string) : Prop := f <> "" /\ no_space f.

Lemma strip_one_prefix ws a b : strip_one ws (a +:+ b) = None -> strip_one ws a = None.
Proof.
  induction ws as [|w ws IH]; simpl; [done|]. destruct (str_strip w (a +:+ b)) eqn:E; [done|].
  destruct (str_strip w a) as [t|] eqn:E'; [|done]. apply str_strip_Some in E' as ->.
  by rewrite <- sapp_assoc, str_strip_app in E.
Qed.

(** The loop of [Fields]: [cur] is a part of the input with no white space starting in it. *)
Lemma fields_go_clean n cur s :
  (forall a b, cur = a +:+ b -> b <> "" -> strip_one space_seqs (b +:+ s) = None) ->
  Forall clean_field (fields_go n cur s).
Proof.
  revert cur s. induction n as [|n IH]; intros cur s Hc; cbn [fields_go].
  - destruct (String.eqb_spec cur ""); repeat constructor; [done|].
    intros a b ->. destruct (decide (b = "")) as [->|Hb]; [done|].
    by apply (strip_one_prefix _ b s), (Hc a).
  - assert (Forall clean_field (if String.eqb cur "" then [] else [cur])) as Hemit.
    { destruct (String.eqb_spec cur ""); repeat constructor; [done|].
      intros a b ->. destruct (decide (b = "")) as [->|Hb]; [done|].
      by apply (strip_one_prefix _ b s), (Hc a). }
    destruct (strip_one space_seqs s) as [t|] eqn:E.
    + apply Forall_app. split; [done|]. apply IH. intros a b Hab Hb.
      by destruct a, b.
    + destruct s as [|x s']; [done|]. apply IH. intros a b Hab Hb.
      destruct (str_snoc b Hb) as (b' & y & ->).
      rewrite sapp_assoc in Hab.
      assert (cur = a +:+ b' /\ x = y) as [Hcur ->].
      { apply (f_equal list_ascii_of_string) in Hab. rewrite !lasc_app in Hab. simpl in Hab.
        apply app_inj_tail in Hab as [Hab ->]. split; [|done].
        rewrite <- lasc_app in Hab. apply (f_equal string_of_list_ascii) in Hab.
        by rewrite !Stdlib.Strings.String.string_of_list_ascii_of_string in Hab. }
      rewrite <- sapp_assoc. change (String y "" +:+ s') with (String y s').
      destruct (decide (b' = "")) as [->|Hb']; [done|]. by apply (Hc a).
Qed.
Lemma Fields_clean s : Forall clean_field (Fields s).
Proof. apply fields_go_clean. intros a b Hab Hb. by destruct a, b. Qed.

(** Every white space sequence but the space itself is free of spaces. *)
Lemma space_seqs_space w : w ∈ space_seqs -> w = " " \/ ContainsByte w " " = false.
Proof.
  intros Hw. assert (forallb (fun w => String.eqb w " " || negb (ContainsByte w " ")) space_seqs = true)
    as Hall by (vm_compute; reflexivity).
  rewrite forallb_forall in Hall. specialize (Hall w). rewrite <- list_elem_of_In in Hall.
  specialize (Hall Hw). apply orb_prop in Hall as [->%String.eqb_eq|Hn%negb_true_iff]; auto.
Qed.

(** A sequence without spaces that starts [x ++ " " ++ y] starts [x]. *)
Lemma prefix_before_space w x y t :
  ContainsByte w " " = false -> x +:+ String " " y = w +:+ t -> exists t', x = w +:+ t'.
Proof.
  revert x. induction w as [|c w IH]; intros x Hw E; [by exists x|].
  simpl in Hw. apply orb_false_iff in Hw as [Hc Hw].
  destruct x as [|c' x].
  - change ("" +:+ String " " y) with (String " " y) in E. rewrite sapp_cons in E. injection E as <- _.
    done.
  - rewrite !sapp_cons in E. injection E as -> E. destruct (IH x Hw E) as [t' ->]. by exists t'.
Qed.

Lemma no_strip_iff ws s : strip_one ws s = None <-> forall w, w ∈ ws -> str_strip w s = None.
Proof.
  induction ws as [|w ws IH]; simpl.
  - split; [|done]. by intros _ w Hw%elem_of_nil.
  - destruct (str_strip w s) eqn:E.
    + split; [done|]. intros Hall. specialize (Hall w ltac:(left)). congruence.
    + rewrite IH. split.
      * intros Hall w' [->|Hw]%elem_of_cons; [done|by apply Hall].
      * intros Hall w' Hw. apply Hall. by right.
Qed.

Lemma strip_one_field f y :
  f <> "" -> strip_one space_seqs f = None -> strip_one space_seqs (f +:+ String " " y) = None.
Proof.
  intros Hf Hn. rewrite no_strip_iff in *. intros w Hw.
  destruct (str_strip w (f +:+ String " " y)) as [t|] eqn:E; [|done]. apply str_strip_Some in E.
  destruct (space_seqs_space w Hw) as [->|Hs].
  - destruct f as [|c f]; [done|]. rewrite sapp_cons in E.
    change (" " +:+ t) with (String " " t) in E. injection E as -> _.
    specialize (Hn " " Hw). by change (Some f = None) in Hn.
  - destruct (prefix_before_space w f y t Hs E) as [t' ->]. specialize (Hn w Hw).
    by rewrite str_strip_app in Hn.
Qed.

(** One field of the input, moved to [cur] byte by byte. *)
Lemma fields_go_field n cur f rest :
  (String.length f <= n)%nat ->
  (forall a b, f = a +:+ b -> b <> "" -> strip_one space_seqs (b +:+ rest) = None) ->
  fields_go n cur (f +:+ rest) = fields_go (n - String.length f) (cur +:+ f) rest.
Proof.
  revert n cur. induction f as [|c f IH]; intros n cur Hn Hf.
  - rewrite sapp_nil_r. change ("" +:+ rest) with rest. by rewrite Nat.sub_0_r.
  - destruct n as [|n]; [simpl in Hn; lia|]. cbn [fields_go].
    rewrite (Hf "" (String c f)) by done. rewrite sapp_cons.
    rewrite IH.
    + cbn [String.length]. rewrite <- sapp_assoc. done.
    + simpl in Hn. lia.
    + intros a b -> Hb. by apply (Hf (String c a) b).
Qed.

Lemma Fields_Join fs : Forall clean_field fs -> Fields (Join fs " ") = fs.
Proof.
  assert (forall fs n, Forall clean_field fs -> fs <> [] -> (String.length (Join fs " ") < n)%nat ->
    fields_go n "" (Join fs " ") = fs) as Hgo.
  2: { intros Hfs. destruct fs as [|f fs]; [done|]. by apply Hgo; [..|lia]. }
  clear fs. induction fs as [|f fs IH]; intros n Hfs Hne Hn; [done|].
  apply Forall_cons in Hfs as [[Hf Hns] Hfs]. destruct fs as [|f2 fs].
  - cbn [Join] in *. rewrite <- (sapp_nil_r f) at 1. rewrite fields_go_field.
    + change ("" +:+ f) with f. destruct (n - String.length f)%nat; cbn [fields_go];
        [|change (strip_one space_seqs "") with (@None string)];
        destruct (String.eqb_spec f ""); done.
    + lia.
    + intros a b -> Hb. rewrite sapp_nil_r. by apply (Hns a).
  - cbn [Join] in *. change (" " +:+ Join (f2 :: fs) " ") with (String " " (Join (f2 :: fs) " ")) in *.
    rewrite slen_app in Hn. cbn [String.length] in Hn.
    rewrite fields_go_field.
    + change ("" +:+ f) with f.
      destruct (n - String.length f)%nat as [|m] eqn:Em; [lia|]. cbn [fields_go].
      change (strip_one space_seqs (String " " (Join (f2 :: fs) " "))) with (Some (Join (f2 :: fs) " ")).
      destruct (String.eqb_spec f ""); [done|]. cbn [app]. f_equal. apply IH; [done..|].
      rewrite slen_app in Hn. change (String.length " ") with 1%nat in Hn. cbn [Join]. lia.
    + lia.
    + intros a b -> Hb. apply strip_one_field; [done|]. by apply (Hns a).
Qed.

Lemma sapp_eq_cases (a b c d : string) :
  a +:+ b = c +:+ d -> (exists e, c = a +:+ e /\ b = e +:+ d) \/ (exists e, a = c +:+ e /\ d = e +:+ b).
Proof.
  revert c. induction a as [|x a IH]; intros c E.
  - left. by exists c.
  - destruct c as [|y c]; [right; by exists (String x a)|].
    rewrite !sapp_cons in E. injection E as -> E.
    destruct (IH c E) as [(e & -> & ->)|(e & -> & ->)]; [left|right]; by exists e.
Qed.

Lemma no_trail_field pre f : clean_field f -> no_trail space_seqs (pre +:+ String " " f).
Proof.
  intros [Hf Hns]. unfold no_trail.
  destruct (strip_one _ _) as [t|] eqn:E; [|done]. exfalso.
  apply strip_one_Some in E as (w' & (w & -> & Hw)%list_elem_of_fmap & E).
  apply (f_equal str_rev) in E. rewrite str_rev_involutive, str_rev_app, str_rev_involutive in E.
  change (String " " f) with (" " +:+ f) in E. rewrite sapp_assoc in E.
  assert (forall x, strip_one space_seqs (w +:+ x) <> None) as Hstrip.
  { intros x Hn. rewrite no_strip_iff in Hn. specialize (Hn w Hw). by rewrite str_strip_app in Hn. }
  symmetry in E. apply sapp_eq_cases in E as [(e & E1 & E2)|(e & E1 & E2)].
  - (* the sequence begins before the last field *)
    destruct (decide (e = "")) as [->|He].
    + change ("" +:+ f) with f in E2. subst w. apply (Hstrip ""). rewrite sapp_nil_r. by apply (Hns "").
    + destruct (str_snoc e He) as (e' & c & ->). rewrite sapp_assoc in E1.
      assert (c = " "%char) as ->.
      { apply (f_equal list_ascii_of_string) in E1. rewrite !lasc_app in E1. simpl in E1.
        by apply app_inj_tail in E1 as [_ ->]. }
      destruct (space_seqs_space w Hw) as [Hs|Hs].
      * rewrite E2 in Hs. apply (f_equal String.length) in Hs. rewrite !slen_app in Hs. simpl in Hs.
        apply Hf, slen_zero. lia.
      * rewrite E2, !ContainsByte_app in Hs. simpl in Hs. by rewrite orb_true_r in Hs.
  - apply (Hstrip ""). rewrite sapp_nil_r. by apply (Hns e).
Qed.

Lemma fields_go_without c n cur s :
  ContainsByte cur c = false -> ContainsByte s c = false ->
  Forall (fun f => ContainsByte f c = false) (fields_go n cur s).
Proof.
  revert cur s. induction n as [|n IH]; intros cur s Hc Hs; cbn [fields_go].
  - destruct (String.eqb cur ""); by repeat constructor.
  - assert (Forall (fun f => ContainsByte f c = false) (if String.eqb cur "" then [] else [cur])) as He
      by (destruct (String.eqb cur ""); by repeat constructor).
    destruct (strip_one space_seqs s) as [t|] eqn:E.
    + apply strip_one_Some in E as (w & _ & ->). rewrite ContainsByte_app in Hs.
      apply orb_false_iff in Hs as [_ Hs]. apply Forall_app. split; [done|]. by apply IH.
    + destruct s as [|a s']; [done|]. simpl in Hs. apply orb_false_iff in Hs as [Ha Hs].
      apply IH; [|done]. rewrite ContainsByte_app, Hc. simpl. by rewrite Ha.
Qed.
Lemma Join_without c fs :
  Forall (fun f => ContainsByte f c = false) fs -> Ascii.eqb " " c = false ->
  ContainsByte (Join fs " ") c = false.
Proof.
  intros Hf Hc. induction Hf as [|f fs Hf Hfs IH]; [done|]. cbn [Join].
  destruct fs as [|f2 fs]; [done|]. rewrite !ContainsByte_app, Hf, IH. cbn [ContainsByte orb].
  by rewrite Hc.
Qed.
Lemma fields_without_quartz part :
  existsb (fun ch => ContainsByte part ch) quartz_chars = false ->
  Forall (fun f => Forall (fun ch => ContainsByte f ch = false) quartz_chars) (Fields part).
Proof.
  intros Eq. apply Forall_forall. intros f Hf. apply Forall_forall. intros ch Hch.
  assert (ContainsByte part ch = false) as Hno.
  { destruct (ContainsByte part ch) eqn:E; [|done].
    assert (existsb (fun ch => ContainsByte part ch) quartz_chars = true); [|congruence].
    apply existsb_exists. exists ch. split; [by apply list_elem_of_In|done]. }
  pose proof (fields_go_without ch (S (String.length part)) "" part eq_refl Hno) as Hall.
  rewrite Forall_forall in Hall. by apply Hall.
Qed.
(** The form of accepted expressions. *)
Definition canonical (n : string) : Prop :=
  exists tz fs, n = "CRON_TZ=" +:+ tz +:+ " " +:+ Join fs " " /\
    ContainsByte tz " " = false /\ TrimSpace tz <> "" /\ length fs = 5%nat /\
    Forall clean_field fs /\
    Forall (fun f => Forall (fun ch => ContainsByte f ch = false) quartz_chars) fs.

Lemma normalize_form expr n : Normalize expr = Ok n -> canonical n.
Proof.
  unfold Normalize. destruct (HasPrefix (TrimSpace expr) "CRON_TZ=") eqn:Ep.
  2: { cbn [res_bind negb]. destruct (existsb _ _); [done|]. by destruct (negb _). }
  apply HasPrefix_iff in Ep as [rest Ep]. rewrite Ep, TrimPrefix_app.
  destruct (cut_at " " rest) as [[tz part]|] eqn:Ec; [|done].
  destruct (String.eqb_spec (TrimSpace tz) "") as [|Htz]; [done|]. cbn [res_bind negb].
  apply cut_at_Some in Ec as [-> Hsp].
  destruct (existsb _ quartz_chars) eqn:Eq; [done|].
  destruct (length (Fields part) =? 5)%nat eqn:El; [|done]. cbn [negb].
  rewrite sapp_assoc, cut_at_app by (by rewrite ContainsByte_app, Hsp). intros [= <-].
  exists tz, (Fields part). rewrite <- sapp_assoc.
  split_and!; [done..|by apply Nat.eqb_eq|apply Fields_clean|by apply fields_without_quartz].
Qed.

Lemma normalize_fix n : canonical n -> Normalize n = Ok n.
Proof.
  intros (tz & fs & -> & Hsp & Htz & Hlen & Hclean & Hq).
  unfold Normalize.
  assert (TrimSpace ("CRON_TZ=" +:+ tz +:+ " " +:+ Join fs " ") = "CRON_TZ=" +:+ tz +:+ " " +:+ Join fs " ") as ->.
  { apply TrimSpace_fix; [by apply no_lead_visible|].
    destruct fs as [|f1 [|f2 [|f3 [|f4 [|f5 [|? ?]]]]]]; try done.
    assert (exists pre, "CRON_TZ=" +:+ tz +:+ " " +:+ Join [f1; f2; f3; f4; f5] " "
      = pre +:+ String " " f5) as [pre ->].
    { exists ("CRON_TZ=" +:+ tz +:+ " " +:+ f1 +:+ " " +:+ f2 +:+ " " +:+ f3 +:+ " " +:+ f4).
      cbn [Join]. change (String " " f5) with (" " +:+ f5). by rewrite <- !sapp_assoc. }
    apply no_trail_field. by do 5 apply Forall_cons in Hclean as [? Hclean]. }
  rewrite HasPrefix_app, TrimPrefix_app.
  change (" " +:+ Join fs " ") with (String " " (Join fs " ")).
  rewrite cut_at_app by done. destruct (String.eqb_spec (TrimSpace tz) ""); [done|].
  cbn [res_bind negb].
  assert (existsb (fun ch => ContainsByte (Join fs " ") ch) quartz_chars = false) as ->.
  { apply not_true_iff_false. intros (ch & Hch & Hc)%existsb_exists.
    rewrite Join_without in Hc; [done| |].
    - eapply Forall_impl; [exact Hq|]. intros f Hf. rewrite Forall_forall in Hf.
      apply Hf. by apply list_elem_of_In.
    - simpl in Hch. by destruct Hch as [<-|[<-|[<-|[<-|[]]]]]. }
  rewrite Fields_Join by done. rewrite Hlen. cbn [negb Nat.eqb].
  rewrite sapp_assoc, cut_at_app by (by rewrite ContainsByte_app, Hsp). done.
Qed.

(** *** Expressions whose first white space is a space *)
Lemma TrimSpace_field f : clean_field f -> TrimSpace f = f.
Proof.
  intros [_ Hns]. apply TrimSpace_fix; [by apply (Hns "")|]. unfold no_trail.
  destruct (strip_one _ _) as [t|] eqn:E; [|done]. exfalso.
  apply strip_one_Some in E as (w' & (w & -> & Hw)%list_elem_of_fmap & E).
  apply (f_equal str_rev) in E. rewrite str_rev_involutive, str_rev_app, str_rev_involutive in E.
  pose proof (Hns _ _ E) as Hn. rewrite no_strip_iff in Hn. specialize (Hn w Hw).
  rewrite <- (sapp_nil_r w) in Hn at 2. by rewrite str_strip_app in Hn.
Qed.
Lemma clean_tail p f : clean_field (p +:+ f) -> f <> "" -> clean_field f.
Proof. intros [_ Hns] Hf. split; [done|]. intros a b ->. apply (Hns (p +:+ a)). by rewrite sapp_assoc. Qed.

Lemma Fields_head h t : clean_field h -> Fields (h +:+ String " " t) = h :: Fields t.
Proof.
  intros [Hh Hns]. unfold Fields. rewrite slen_app. cbn [String.length].
  rewrite fields_go_field; [|lia|].
  - change ("" +:+ h) with h. replace (S (String.length h + S (String.length t)) - String.length h)%nat
      with (S (S (String.length t))) by lia. cbn [fields_go].
    change (strip_one space_seqs (String " " t)) with (Some t). by destruct (String.eqb_spec h "").
  - intros a b -> Hb. apply strip_one_field; [done|]. by apply (Hns a).
Qed.

(** A byte that is in no white space is in the text exactly if it is in a field. *)
Lemma fields_go_keep c n cur s :
  (forall w, w ∈ space_seqs -> ContainsByte w c = false) -> (String.length s <= n)%nat ->
  ContainsByte cur c || ContainsByte s c = true -> Exists (fun f => ContainsByte f c = true) (fields_go n cur s).
Proof.
  intros Hw. revert cur s. induction n as [|n IH]; intros cur s Hn Hc; cbn [fields_go].
  - destruct s; [|simpl in Hn; lia]. rewrite orb_false_r in Hc.
    destruct (String.eqb_spec cur ""); [by subst|by left].
  - assert (ContainsByte cur c = true -> Exists (fun f => ContainsByte f c = true) (if String.eqb cur "" then [] else [cur])) as He.
    { intros Hcur. destruct (String.eqb_spec cur ""); [by subst|by left]. }
    destruct (strip_one space_seqs s) as [t|] eqn:E.
    + pose proof (strip_one_length space_seqs s t space_seqs_nonempty E) as Hl.
      apply strip_one_Some in E as (w & Hin & ->). rewrite ContainsByte_app, (Hw w Hin) in Hc. simpl in Hc.
      apply Exists_app. destruct (ContainsByte cur c) eqn:Ec; [left; by apply He|right]. apply IH; [lia|done].
    + destruct s as [|a s']; [rewrite orb_false_r in Hc; by apply He|]. simpl in Hn. apply IH; [lia|].
      rewrite ContainsByte_app. simpl in *. rewrite orb_false_r. rewrite <- Hc. by rewrite orb_assoc.
Qed.
Lemma quartz_fields t :
  Forall (fun f => Forall (fun ch => ContainsByte f ch = false) quartz_chars) (Fields t) ->
  existsb (fun ch => ContainsByte t ch) quartz_chars = false.
Proof.
  intros Hf. apply not_true_iff_false. intros (ch & Hch & Hc)%existsb_exists.
  assert (forall w, w ∈ space_seqs -> ContainsByte w ch = false) as Hw.
  { assert (forallb (fun ch => forallb (fun w => negb (ContainsByte w ch)) space_seqs) quartz_chars = true) as Hall
      by (vm_compute; reflexivity).
    rewrite forallb_forall in Hall. specialize (Hall ch Hch). rewrite forallb_forall in Hall.
    intros w Hin. apply negb_true_iff, Hall. by apply list_elem_of_In. }
  pose proof (fields_go_keep ch (S (String.length t)) "" t Hw ltac:(lia) Hc) as He. change (fields_go _ _ _) with (Fields t) in He.
  apply Exists_exists in He as (f & Hin & Hcf). rewrite Forall_forall in Hf. specialize (Hf f Hin).
  rewrite Forall_forall in Hf. specialize (Hf ch ltac:(by apply list_elem_of_In)). congruence.
Qed.

(** What the guard accepts, read off the white-space separated fields. *)
Definition well_formed (fields : list string) (tz : string) (fs : list string) : Prop :=
  fields = ("CRON_TZ=" +:+ tz) :: fs /\ tz <> "" /\ length fs = 5%nat /\
  Forall (fun f => Forall (fun ch => ContainsByte f ch = false) quartz_chars) fs.
Lemma normalize_iff expr h t n :
  cut_at " " (TrimSpace expr) = Some (h, t) -> clean_field h ->
  Normalize expr = Ok n <->
  exists tz fs, well_formed (Fields (TrimSpace expr)) tz fs /\ n = Join (Fields (TrimSpace expr)) " ".
Proof.
  intros Hcut Hh. pose proof (cut_at_Some _ _ _ _ Hcut) as [E Hsp]. rewrite E, Fields_head by done.
  assert (forall fs, Join (h :: fs) " " = if fs is [] then h else h +:+ " " +:+ Join fs " ") as HJ by (by intros []).
  split.
  - intros HN. unfold Normalize in HN. destruct (HasPrefix (TrimSpace expr) "CRON_TZ=") eqn:Ep.
    2: { cbn [res_bind negb] in HN. destruct (existsb _ _); [done|]. by destruct (negb _). }
    pose proof Ep as [rest Er]%HasPrefix_iff. rewrite Er, TrimPrefix_app in HN.
    destruct (cut_at " " rest) as [[tz' part]|] eqn:Ec; [|done].
    destruct (String.eqb_spec (TrimSpace tz') "") as [|Htz']; [done|]. cbn [res_bind negb] in HN.
    apply cut_at_Some in Ec as [-> Hsp']. rewrite sapp_assoc in Er.
    rewrite Er, cut_at_app in Hcut by (by rewrite ContainsByte_app, Hsp'). injection Hcut as <- <-.
    destruct (existsb _ quartz_chars) eqn:Eq; [done|]. destruct (length (Fields part) =? 5)%nat eqn:El; [|done]. cbn [negb] in HN.
    rewrite sapp_assoc, cut_at_app in HN by (by rewrite ContainsByte_app, Hsp'). injection HN as HN.
    exists tz', (Fields part). rewrite HJ. apply Nat.eqb_eq in El. split.
    + split_and!; [done|by intros ->|done|by apply fields_without_quartz].
    + by destruct (Fields part).
  - intros (tz & fs & (Hf & Htz & Hlen & Hq) & ->). injection Hf as -> Hfs. rewrite <- Hfs in *.
    unfold Normalize. rewrite E, <- sapp_assoc, HasPrefix_app, TrimPrefix_app.
    rewrite ContainsByte_app in Hsp. apply orb_false_iff in Hsp as [_ Hsp].
    rewrite cut_at_app by done. rewrite TrimSpace_field by (by apply (clean_tail "CRON_TZ=")).
    destruct (String.eqb_spec tz ""); [done|]. cbn [res_bind negb]. rewrite quartz_fields by done. rewrite Hlen. cbn [Nat.eqb negb].
    rewrite sapp_assoc, cut_at_app by (by rewrite ContainsByte_app, Hsp). rewrite HJ. by destruct (Fields t).
Qed.
End JobFacts.
Import JobFacts.

Module JobProps.



(** The documented table: the default calculator waits ten minutes before the first retry and
    doubles from there, exactly (no rounding) and capped, on every platform. *)
Theorem default_backoff_doubles oor n :
  0 <= n <= 1000 ->
  CalculateBackoff oor DefaultCalculator n =
  Ok (Z.min defaultMax (DefaultInitialInterval * 2 ^ Z.max 0 (n - 1))).
Proof.
  intros Hn.
  assert (Forall (fun n => CalculateBackoff oor DefaultCalculator n =
    Ok (Z.min defaultMax (DefaultInitialInterval * 2 ^ Z.max 0 (n - 1)))) (seqZ 0 1001)) as Hall.
  { apply (Forall_impl (fun n => bool_decide (CalculateBackoff oor DefaultCalculator n =
      Ok (Z.min defaultMax (DefaultInitialInterval * 2 ^ Z.max 0 (n - 1)))) = true)).
    - apply Forall_forall. intros x Hx. apply list_elem_of_In in Hx. revert x Hx.
      apply forallb_forall. vm_compute. reflexivity.
    - intros x. apply bool_decide_eq_true. }
  rewrite Forall_forall in Hall. apply Hall. apply elem_of_seqZ. lia.
Qed.

Lemma default_backoff_doubles_witness :
  CalculateBackoff 0 DefaultCalculator 5 = Ok (160 * Minute).
Proof. apply (default_backoff_doubles 0 5). lia. Defined.

(** [timeutil.Backoff] converts before it caps: where the platform turns an out-of-range
    float into the smallest integer, a large attempt gives a negative wait. *)
Lemma timeutil_backoff_overflows : timeutil_Backoff minInt64 40 Second Minute = minInt64.
Proof. vm_compute. reflexivity. Qed.

(** *** Integers of payloads *)
(** The number a value stands for; of a json.Number, the one it writes as a plain decimal integer ("1e3" and
    "5.0" are read as no integer, as strconv.ParseInt does). *)
Definition denotes (v : pvalue) : option Z :=
  match v with
  | PInt z | PInt64 z => Some z
  | PFloat64 a => f64_integral a
  | PNumber s => match ParseInt s with (n, None) => Some n | _ => None end
  | POther => None
  end.
(** Values as the language has them: integers in range, floats in normal form. *)
Definition typed (v : pvalue) : Prop :=
  match v with
  | PInt z | PInt64 z => in_int64 z
  | PFloat64 a => valid_binary 53 1024 a = true
  | _ => True
  end.

Lemma normal_mantissa m e : canonical_mantissa 53 1024 m e = true -> -1074 < e -> 2 ^ 52 <= Zpos m < 2 ^ 53.
Proof.
  unfold canonical_mantissa, fexp, emin. intros H%Z.eqb_eq He. pose proof (Float.digits2_bounds m) as Hd.
  replace (Zpos (digits2_pos m)) with 53 in Hd by lia. exact Hd.
Qed.
Lemma small_mantissa m e : canonical_mantissa 53 1024 m e = true -> Zpos m < 2 ^ 53.
Proof.
  unfold canonical_mantissa, fexp, emin. intros H%Z.eqb_eq. pose proof (Float.digits2_bounds m) as Hd.
  assert (2 ^ Zpos (digits2_pos m) <= 2 ^ 53) by (apply Z.pow_le_mono_r; lia). lia.
Qed.
Lemma f64_minInt64 : f64_of_Z minInt64 = S754_finite true 4503599627370496 11.
Proof. vm_compute. reflexivity. Qed.
Lemma f64_maxInt64 : f64_of_Z maxInt64 = S754_finite false 4503599627370496 11.
Proof. vm_compute. reflexivity. Qed.
(** The size of an integral float, by its exponent. *)
Lemma integral_size s m e z :
  canonical_mantissa 53 1024 m e = true -> f64_integral (S754_finite s m e) = Some z ->
  exists v, z = (if s then - v else v) /\ 0 <= v /\
    ((e < 11 /\ v < 2 ^ 63) \/ (e = 11 /\ v = Zpos m * 2 ^ 11) \/ (11 < e /\ 2 ^ 63 < v)).
Proof.
  intros Hc Hz. cbn [f64_integral f64_trunc] in Hz. pose proof (small_mantissa m e Hc) as Hs. destruct (Z.leb_spec 0 e) as [He|He].
  - injection Hz as <-. exists (Zpos m * 2 ^ e). split; [done|]. assert (0 < 2 ^ e) by (apply Z.pow_pos_nonneg; lia). split; [lia|].
    destruct (Z.lt_trichotomy e 11) as [H1|[->|H1]]; [left|right; by left|right; right]; (split; [done|]).
    + assert (2 ^ e <= 1024) by (change 1024 with (2 ^ 10); apply Z.pow_le_mono_r; lia). nia.
    + pose proof (normal_mantissa m e Hc ltac:(lia)). assert (4096 <= 2 ^ e) by (change 4096 with (2 ^ 12); apply Z.pow_le_mono_r; lia). nia.
  - destruct (_ =? 0); [|done]. injection Hz as <-. exists (Zpos m / 2 ^ (- e)). split; [done|].
    assert (0 < 2 ^ (- e)) by (apply Z.pow_pos_nonneg; lia). assert (0 <= Zpos m / 2 ^ (- e) <= Zpos m).
    { split; [apply Z.div_pos; lia|]. apply Z.div_le_upper_bound; nia. }
    lia.
Qed.
Lemma mantissa_compare p q : Pos.compare_cont Eq p q = (Zpos p ?= Zpos q).
Proof. reflexivity. Qed.
(** The range check, on a float that is an integer [z]: it lets 2^63 itself pass. *)
Lemma range_check a z :
  valid_binary 53 1024 a = true -> f64_integral a = Some z ->
  f64_leb (f64_of_Z minInt64) a && f64_leb a (f64_of_Z maxInt64) = true <-> - 2 ^ 63 <= z <= 2 ^ 63.
Proof.
  rewrite f64_minInt64, f64_maxInt64. destruct a as [s|s| |s m e]; try done.
  { intros _ [= <-]. split; [lia|done]. }
  intros Hv Hz. apply andb_prop in Hv as [Hc _]. destruct (integral_size s m e z Hc Hz) as (v & -> & Hv0 & Hcase). clear Hz.
  unfold f64_leb, SFleb, SFcompare.
  destruct Hcase as [[H1 H2]|[[-> ->]|[H1 H2]]].
  - rewrite (proj2 (Z.compare_lt_iff e 11) H1), (proj2 (Z.compare_gt_iff 11 e) H1). destruct s; cbn [andb]; lia.
  - pose proof (normal_mantissa m 11 Hc ltac:(lia)) as Hn. rewrite Z.compare_refl.
    rewrite !mantissa_compare. generalize 4503599627370496%positive, (eq_refl : Zpos 4503599627370496 = 2 ^ 52).
    intros q Hq. destruct s; cbn [andb];
      (destruct (Z.compare_spec (Zpos m) (Zpos q)) as [E|E|E]; destruct (Z.compare_spec (Zpos q) (Zpos m)) as [E'|E'|E']; cbn [CompOpp]; lia).
  - rewrite (proj2 (Z.compare_gt_iff e 11) H1), (proj2 (Z.compare_lt_iff 11 e) H1). destruct s; cbn [andb]; lia.
Qed.
Lemma integral_trunc a z : f64_integral a = Some z -> f64_trunc a = Some z.
Proof. destruct a as [s|s| |s m e]; try done. cbn [f64_integral]. by repeat case_match. Qed.

(** C35. Reading an integer of a payload is type-safe: whatever the map holds under the key, the result is
    an int; it is the number the value stands for, in any of the accepted representations, when an
    int can hold that number; and the default when the value stands for no such number.  A
    json.Number stands for the plain decimal integer it writes, and for none with a fraction or an
    exponent.  The one exception is the float64 2^63. *)
Theorem payload_int_typed oor payload key def :
  in_int64 oor -> in_int64 def -> map_Forall (fun _ v => typed v) payload ->
  let r := Int oor (Some payload) key def in
  let z := payload !! key ≫= denotes in
  in_int64 r /\ (forall n, z = Some n -> in_int64 n -> r = n) /\
  (~ (exists n, z = Some n /\ in_int64 n) -> z <> Some (2 ^ 63) -> r = def).
Proof.
  intros Ho Hd Hp r z. subst r z. unfold Int. destruct (payload !! key) as [v|] eqn:E; [|naive_solver].
  pose proof (map_Forall_lookup_1 _ _ _ _ Hp E) as Hv. destruct v as [n|n|a|s|]; cbn [mbind option_bind denotes] in *.
  - naive_solver.
  - naive_solver.
  - destruct (f64_integral a) as [n|] eqn:Ei; [|naive_solver]. pose proof (range_check a n Hv Ei) as Hr.
    unfold f64_int64. rewrite (integral_trunc a n Ei).
    destruct (_ && f64_leb a _) eqn:Eb.
    + apply proj1 in Hr. specialize (Hr eq_refl). destruct (_ && (n <=? maxInt64)) eqn:Ec.
      * apply andb_prop in Ec as [H1%Z.leb_le H2%Z.leb_le]. assert (in_int64 n) by (split; done).
        split; [done|]. split; [by intros ? [= ->]|]. intros Hn _. destruct Hn. eauto.
      * assert (n = 2 ^ 63) as -> by (unfold minInt64, maxInt64 in Ec; lia).
        split; [done|]. split; [|by intros]. intros n [= <-] Hn. unfold in_int64, maxInt64 in Hn. lia.
    + split; [done|]. split; [|done]. intros n' [= <-] Hn. unfold in_int64, minInt64, maxInt64 in Hn.
      apply proj2 in Hr. assert (false = true) by (apply Hr; lia). done.
  - pose proof (ParseInt_range s) as Hs. destruct (ParseInt s) as [n [e|]]; [naive_solver|].
    simpl in Hs. naive_solver.
  - naive_solver.
Qed.
Lemma payload_int_typed_witness :
  let p := {["a" := PFloat64 (f64_of_Z 42); "b" := PNumber "1e3"; "c" := PInt64 (-7)]} in
  Int 0 (Some p) "a" 5 = 42 /\ Int 0 (Some p) "b" 5 = 5 /\ Int 0 (Some p) "c" 5 = -7.
Proof.
  intros p.
  assert (map_Forall (fun _ v => typed v) p) as Hp.
  { repeat apply map_Forall_insert_2; [vm_compute; reflexivity|exact I| |apply map_Forall_empty].
    vm_compute. split; discriminate. }
  pose proof (fun key => payload_int_typed 0 p key 5 ltac:(vm_compute; split; discriminate) ltac:(vm_compute; split; discriminate) Hp) as H.
  split; [|split].
  - apply (proj1 (proj2 (H "a"))); [vm_compute; reflexivity|vm_compute; split; discriminate].
  - apply (proj2 (proj2 (H "b"))); [|discriminate]. intros (n & E & _). vm_compute in E. discriminate.
  - apply (proj1 (proj2 (H "c"))); [vm_compute; reflexivity|vm_compute; split; discriminate].
Defined.

(** A float64 of 2^63 passes [Int]'s range check although no int holds it. *)
Lemma payload_int_out_of_range oor :
  Int oor (Some {[ "n" := PFloat64 (f64_of_Z (2 ^ 63)) ]}) "n" 7 = oor.
Proof. vm_compute. reflexivity. Qed.

(** With a tab after the time zone, the first field is read as part of the zone: six fields
    pass the guard. *)
Lemma tab_hides_a_field :
  let six := "CRON_TZ=UTC" +:+ String (ascii_of_nat 9) "0 0 1 * * *" in Normalize six = Ok six.
Proof. vm_compute. reflexivity. Qed.
End JobProps.
