(* ===== verification/Regex.v ===== *)
(** * The regular expressions of pii/, validate/, utils/ and notification/

    The part of Go's regexp syntax the sources use: character classes, greedy repetitions of a
    class, concatenation, alternation, word boundaries and anchors.  [match_at] is the
    leftmost-first search from one position, [MatchString] and [ReplaceAllStringFunc] the
    package's entry points.  [prio] lists every match in the order of preference and [Mt]
    says what a match is; the module [RegexFacts] relates the three. *)
From S2P Require Import Prelude GoStd.

Module Regex.

Definition class : Type := Z -> bool.

Inductive re :=
| REmpty
| RChar (c : class)
| RRep (c : class) (min : nat) (max : option nat)      (* greedy; [None] is no upper bound *)
| RCat (a b : re)
| RAlt (a b : re)
| RWordB                                               (* \b, on ASCII word characters *)
| RBegin
| REnd.

Definition range (lo hi : Z) : class := fun r => (lo <=? r) && (r <=? hi).
Definition digit : class := range 48 57.
Definition alpha : class := fun r => range 65 90 r || range 97 122 r.
Definition alnum : class := fun r => alpha r || digit r.
Definition one (c : Z) : class := Z.eqb c.
(** \s *)
Definition space : class := fun r => (r =? 9) || (r =? 10) || (r =? 12) || (r =? 13) || (r =? 32).
Definition word : class := fun r => alnum r || (r =? 95).

(** A literal, and a sequence of expressions. *)
Definition lit (c : ascii) : re := RChar (one (Z.of_nat (nat_of_ascii c))).
Fixpoint seqs (l : list re) : re :=
  match l with [] => REmpty | [r] => r | r :: l' => RCat r (seqs l') end.

Definition opt_word (p : option Z) : bool := match p with Some r => word r | None => false end.
Definition next_word (s : list token) : bool := opt_word (fst <$> head s).
(** The rune before the rest, after reading [w]. *)
Definition after (p : option Z) (w : list token) : option Z :=
  match last w with Some t => Some t.1 | None => p end.

(** ** The search *)
Section search.
Context {R : Type}.
Fixpoint rep (c : class) (min : nat) (max : option nat) (k : option Z -> list token -> option R)
    (p : option Z) (s : list token) {struct s} : option R :=
  let stop := match min with O => k p s | S _ => None end in
  match s with
  | [] => stop
  | t :: s' =>
      if c t.1 && negb (bool_decide (max = Some O)) then
        match rep c (pred min) (pred <$> max) k (Some t.1) s' with
        | Some r => Some r
        | None => stop
        end
      else stop
  end.

Fixpoint search (r : re) (k : option Z -> list token -> option R) (p : option Z) (s : list token) : option R :=
  match r with
  | REmpty => k p s
  | RChar c => match s with t :: s' => if c t.1 then k (Some t.1) s' else None | [] => None end
  | RRep c min max => rep c min max k p s
  | RCat a b => search a (search b k) p s
  | RAlt a b => match search a k p s with Some x => Some x | None => search b k p s end
  | RWordB => if xorb (opt_word p) (next_word s) then k p s else None
  | RBegin => match p with None => k p s | Some _ => None end
  | REnd => match s with [] => k p s | _ :: _ => None end
  end.
End search.

(** The rest behind the preferred match that starts here. *)
Definition match_at (r : re) (p : option Z) (s : list token) : option (list token) :=
  search r (fun _ s' => Some s') p s.

Fixpoint find_from (r : re) (p : option Z) (s : list token) : bool :=
  match match_at r p s with
  | Some _ => true
  | None => match s with [] => false | t :: s' => find_from r (Some t.1) s' end
  end.
Definition MatchString (r : re) (s : string) : bool := find_from r None (rune_toks s).

(** ReplaceAllStringFunc for an expression that does not match the empty string: the matches
    from left to right, without overlap. *)
Fixpoint replace_go (n : nat) (r : re) (f : string -> string) (p : option Z) (s : list token) : string :=
  match n with
  | O => toks_str s
  | S n' =>
      match s with
      | [] => ""
      | t :: s' =>
          match match_at r p s with
          | Some rest =>
              let w := take (length s - length rest) s in
              f (toks_str w) +:+ replace_go n' r f (after p w) rest
          | None => t.2 +:+ replace_go n' r f (Some t.1) s'
          end
      end
  end.
Definition ReplaceAllStringFunc (r : re) (f : string -> string) (s : string) : string :=
  replace_go (length (rune_toks s)) r f None (rune_toks s).

(** ** What a match is *)
Definition within (min : nat) (max : option nat) (n : nat) : Prop :=
  (min <= n)%nat /\ match max with Some m => (n <= m)%nat | None => True end.

(** [Mt r p w rest]: between the rune [p] and the text [rest], [w] matches [r]. *)
Inductive Mt : re -> option Z -> list token -> list token -> Prop :=
| Mt_empty p rest : Mt REmpty p [] rest
| Mt_char c p t rest : c t.1 = true -> Mt (RChar c) p [t] rest
| Mt_rep c min max p w rest :
    Forall (fun t => c t.1 = true) w -> within min max (length w) -> Mt (RRep c min max) p w rest
| Mt_cat a b p w1 w2 rest :
    Mt a p w1 (w2 ++ rest) -> Mt b (after p w1) w2 rest -> Mt (RCat a b) p (w1 ++ w2) rest
| Mt_alt_l a b p w rest : Mt a p w rest -> Mt (RAlt a b) p w rest
| Mt_alt_r a b p w rest : Mt b p w rest -> Mt (RAlt a b) p w rest
| Mt_wordb p rest : xorb (opt_word p) (next_word rest) = true -> Mt RWordB p [] rest
| Mt_begin rest : Mt RBegin None [] rest
| Mt_end p : Mt REnd p [] [].

(** ** Every match, in the order of preference: left alternatives before right ones, more
    repetitions before fewer. *)
Fixpoint prio_rep (c : class) (min : nat) (max : option nat) (p : option Z) (s : list token)
  : list (option Z * list token) :=
  let stop := match min with O => [(p, s)] | S _ => [] end in
  match s with
  | [] => stop
  | t :: s' =>
      if c t.1 && negb (bool_decide (max = Some O))
      then prio_rep c (pred min) (pred <$> max) (Some t.1) s' ++ stop
      else stop
  end.
Fixpoint prio (r : re) (p : option Z) (s : list token) : list (option Z * list token) :=
  match r with
  | REmpty => [(p, s)]
  | RChar c => match s with t :: s' => if c t.1 then [(Some t.1, s')] else [] | [] => [] end
  | RRep c min max => prio_rep c min max p s
  | RCat a b => prio a p s ≫= (fun x => prio b x.1 x.2)
  | RAlt a b => prio a p s ++ prio b p s
  | RWordB => if xorb (opt_word p) (next_word s) then [(p, s)] else []
  | RBegin => match p with None => [(p, s)] | Some _ => [] end
  | REnd => match s with [] => [(p, s)] | _ :: _ => [] end
  end.
(** The first success of [k]. *)
Fixpoint first_some {A R} (k : A -> option R) (l : list A) : option R :=
  match l with [] => None | x :: l' => match k x with Some r => Some r | None => first_some k l' end end.
End Regex.
Import Regex.

Module RegexFacts.

Lemma first_some_app {A R} (k : A -> option R) l l' :
  first_some k (l ++ l') = match first_some k l with Some r => Some r | None => first_some k l' end.
Proof. induction l as [|x l IH]; [done|]. simpl. destruct (k x); [done|]. exact IH. Qed.
Lemma first_some_bind {A B R} (k : B -> option R) (f : A -> list B) l :
  first_some k (l ≫= f) = first_some (fun x => first_some k (f x)) l.
Proof.
  induction l as [|x l IH]; [done|]. rewrite bind_cons, first_some_app. simpl.
  destruct (first_some k (f x)); [done|]. exact IH.
Qed.

Lemma rep_prio {R} c min max (k : option Z -> list token -> option R) p s :
  rep c min max k p s = first_some (fun x => k x.1 x.2) (prio_rep c min max p s).
Proof.
  revert min max p. induction s as [|t s IH]; intros min max p; simpl.
  - destruct min; simpl; [|done]. by destruct (k p []).
  - destruct (c t.1 && _).
    + rewrite first_some_app, <- IH. destruct (rep c _ _ k _ s); [done|]. destruct min; simpl; [|done].
      by destruct (k p (t :: s)).
    + destruct min; simpl; [|done]. by destruct (k p (t :: s)).
Qed.
(** The search tries the matches in the order of preference. *)
Lemma search_prio {R} r (k : option Z -> list token -> option R) p s :
  search r k p s = first_some (fun x => k x.1 x.2) (prio r p s).
Proof.
  revert k p s. induction r as [|c|c min max|a IHa b IHb|a IHa b IHb| | |]; intros k p s; simpl.
  - by destruct (k p s).
  - destruct s as [|t s]; [done|]. destruct (c t.1); simpl; [|done]. by destruct (k _ s).
  - apply rep_prio.
  - rewrite first_some_bind, IHa. generalize (prio a p s). intros l.
    induction l as [|x l IH]; [done|]. simpl. by rewrite IHb, IH.
  - by rewrite first_some_app, <- IHa, <- IHb.
  - destruct (xorb _ _); simpl; [|done]. by destruct (k p s).
  - destruct p; simpl; [done|]. by destruct (k _ s).
  - destruct s; simpl; [|done]. by destruct (k p []).
Qed.

Lemma after_cons p t w : after p (t :: w) = after (Some t.1) w.
Proof. unfold after. destruct w as [|u w]; [done|]. rewrite last_cons_cons. destruct (last (u :: w)) eqn:E; [done|]. by apply last_None in E. Qed.
Lemma after_app p a b : after p (a ++ b) = after (after p a) b.
Proof. revert p. induction a as [|t a IH]; intros p; [done|]. simpl app. by rewrite !after_cons, IH. Qed.
Lemma after_nil p : after p [] = p.
Proof. done. Qed.

Lemma within_none max : within 0 max 0.
Proof. split; [done|]. destruct max; [lia|done]. Qed.
Lemma within_S min max n :
  max <> Some O -> within min max (S n) <-> within (pred min) (pred <$> max) n.
Proof.
  intros Hm. unfold within. destruct max as [[|m]|]; simpl; [done|lia|]. split; intros []; split; done || lia.
Qed.

Lemma prio_rep_iff c min max p s q rest :
  (q, rest) ∈ prio_rep c min max p s <->
  exists w, s = w ++ rest /\ q = after p w /\ Forall (fun t => c t.1 = true) w /\ within min max (length w).
Proof.
  revert min max p. induction s as [|t s IH]; intros min max p; simpl.
  - destruct min; simpl; [rewrite list_elem_of_singleton|rewrite elem_of_nil]; split.
    + intros [= -> ->]. exists []. eauto using within_none.
    + intros (w & E & -> & _). symmetry in E. apply app_eq_nil in E as [-> ->]. done.
    + done.
    + intros (w & E & _ & _ & Hw & _). symmetry in E. apply app_eq_nil in E as [-> ->]. simpl in Hw. lia.
  - assert ((q, rest) ∈ (match min with O => [(p, t :: s)] | S _ => [] end : list (option Z * list token))
            <-> min = O /\ q = p /\ rest = t :: s) as Hstop.
    { destruct min; simpl; [rewrite list_elem_of_singleton|rewrite elem_of_nil]; naive_solver. }
    assert (min = O /\ q = p /\ rest = t :: s ->
      exists w, t :: s = w ++ rest /\ q = after p w /\ Forall (fun t => c t.1 = true) w /\ within min max (length w))
      as Hnil by (intros (-> & -> & ->); exists []; eauto using within_none).
    destruct (c t.1 && negb (bool_decide (max = Some O))) eqn:Hc.
    + apply andb_prop in Hc as [Hc Hm%negb_true_iff%bool_decide_eq_false].
      rewrite elem_of_app, IH, Hstop. split.
      * intros [(w & -> & -> & Hw & Hn)|?]; [|by apply Hnil].
        exists (t :: w). split_and!; [done|by rewrite after_cons|by constructor|by apply within_S].
      * intros (w & E & -> & Hw & Hn). destruct w as [|u w].
        -- right. simpl in *. destruct Hn as [Hn _]. split_and!; [lia|done..].
        -- left. simpl in E. injection E as <- ->. exists w. apply Forall_cons in Hw as [_ Hw].
           split_and!; [done|by rewrite after_cons|done|by apply within_S].
    + rewrite Hstop. split; [done|]. intros (w & E & -> & Hw & Hn1 & Hn2). destruct w as [|u w].
      * simpl in *. split_and!; [lia|done..].
      * simpl in E. injection E as <- ->. apply Forall_cons in Hw as [Hw _]. rewrite Hw in Hc. simpl in Hc.
        apply negb_false_iff, bool_decide_eq_true in Hc. subst max. simpl in Hn2. lia.
Qed.

(** The list of preferences is exactly the set of matches. *)
Lemma prio_iff r p s q rest :
  (q, rest) ∈ prio r p s <-> exists w, s = w ++ rest /\ q = after p w /\ Mt r p w rest.
Proof.
  revert p s q rest. induction r as [|c|c min max|a IHa b IHb|a IHa b IHb| | |]; intros p s q rest; simpl.
  - rewrite list_elem_of_singleton. split.
    + intros [= -> ->]. exists []. split_and!; [done..|constructor].
    + intros (w & -> & -> & Hm). by inversion Hm; subst.
  - destruct s as [|t s].
    + rewrite elem_of_nil. split; [done|]. intros (w & E & _ & Hm). inversion Hm; subst. done.
    + destruct (c t.1) eqn:Hc; [rewrite list_elem_of_singleton|rewrite elem_of_nil]; split.
      * intros [= -> ->]. exists [t]. split_and!; [done..|by constructor].
      * intros (w & E & -> & Hm). inversion Hm; subst. by injection E as <- <-.
      * done.
      * intros (w & E & -> & Hm). inversion Hm; subst. injection E as <- <-. congruence.
  - rewrite prio_rep_iff. split.
    + intros (w & -> & -> & Hf & Hw). exists w. split_and!; [done..|by constructor].
    + intros (w & -> & -> & Hm). inversion Hm; subst. eauto.
  - rewrite list_elem_of_bind. split.
    + intros ([q1 s1] & H2 & H1). simpl in H2. apply IHa in H1 as (w1 & -> & -> & M1).
      apply IHb in H2 as (w2 & -> & -> & M2). exists (w1 ++ w2).
      split_and!; [by rewrite (assoc_L (++))|by rewrite after_app|by constructor].
    + intros (w & -> & -> & Hm). inversion Hm as [| | |? ? ? w1 w2 ? M1 M2| | | | |]; subst.
      exists (after p w1, w2 ++ rest). split.
      * simpl. apply IHb. exists w2. split_and!; [done|by rewrite after_app|done].
      * apply IHa. exists w1. split_and!; [by rewrite (assoc_L (++))|done..].
  - rewrite elem_of_app, IHa, IHb. split.
    + intros [(w & -> & -> & M)|(w & -> & -> & M)]; exists w; (split_and!; [done..|]);
        [by constructor|by apply Mt_alt_r].
    + intros (w & -> & -> & Hm). inversion Hm; subst; eauto.
  - destruct (xorb _ _) eqn:E; [rewrite list_elem_of_singleton|rewrite elem_of_nil]; split.
    + intros [= -> ->]. exists []. split_and!; [done..|by constructor].
    + intros (w & -> & -> & Hm). by inversion Hm; subst.
    + done.
    + intros (w & -> & -> & Hm). inversion Hm; subst. simpl in *. congruence.
  - destruct p; [rewrite elem_of_nil|rewrite list_elem_of_singleton]; split.
    + done.
    + intros (w & -> & -> & Hm). by inversion Hm.
    + intros [= -> ->]. exists []. split_and!; [done..|constructor].
    + intros (w & -> & -> & Hm). by inversion Hm; subst.
  - destruct s; [rewrite list_elem_of_singleton|rewrite elem_of_nil]; split.
    + intros [= -> ->]. exists []. split_and!; [done..|constructor].
    + intros (w & E & -> & Hm). by inversion Hm; subst.
    + done.
    + intros (w & E & -> & Hm). by inversion Hm; subst.
Qed.
(** [match_at] returns the preferred match. *)
Lemma match_at_prio r p s : match_at r p s = snd <$> head (prio r p s).
Proof. unfold match_at. rewrite search_prio. by destruct (prio r p s). Qed.
Lemma match_at_Some r p s rest :
  match_at r p s = Some rest -> exists w, s = w ++ rest /\ Mt r p w rest.
Proof.
  rewrite match_at_prio. destruct (prio r p s) as [|[q s'] l] eqn:E; [done|]. intros [= ->].
  assert ((q, rest) ∈ prio r p s) as Hin by (rewrite E; left).
  apply prio_iff in Hin as (w & -> & _ & M). eauto.
Qed.
Lemma match_at_complete r p w rest : Mt r p w rest -> match_at r p (w ++ rest) <> None.
Proof.
  intros M. rewrite match_at_prio.
  assert ((after p w, rest) ∈ prio r p (w ++ rest)) as Hin by (apply prio_iff; eauto).
  destruct (prio r p (w ++ rest)); [by apply elem_of_nil in Hin|done].
Qed.

Lemma find_from_iff r p s :
  find_from r p s = true <-> exists a w rest, s = a ++ w ++ rest /\ Mt r (after p a) w rest.
Proof.
  revert p. induction s as [|t s IH]; intros p; simpl.
  - destruct (match_at r p []) as [rest|] eqn:E; split; try done.
    + intros _. apply match_at_Some in E as (w & E & M). exists [], w, rest. done.
    + intros (a & w & rest & E' & M). symmetry in E'. apply app_eq_nil in E' as [-> E'].
      apply app_eq_nil in E' as [-> ->]. by apply match_at_complete in M.
  - destruct (match_at r p (t :: s)) as [rest|] eqn:E.
    + split; [intros _|done]. apply match_at_Some in E as (w & E & M). by exists [], w, rest.
    + rewrite IH. split.
      * intros (a & w & rest & -> & M). exists (t :: a), w, rest. by rewrite after_cons.
      * intros ([|u a] & w & rest & E' & M); simpl in E'.
        -- exfalso. apply match_at_complete in M. by rewrite <- E' in M.
        -- injection E' as <- ->. rewrite after_cons in M. eauto.
Qed.

(** *** Matches of sequences *)
Lemma seqs_cons r l p w rest :
  l <> [] -> Mt (seqs (r :: l)) p w rest <->
  exists w1 w2, w = w1 ++ w2 /\ Mt r p w1 (w2 ++ rest) /\ Mt (seqs l) (after p w1) w2 rest.
Proof.
  intros Hl. destruct l as [|r' l]; [done|]. change (seqs (r :: r' :: l)) with (RCat r (seqs (r' :: l))). split.
  - intros M. inversion M; subst. eauto.
  - intros (w1 & w2 & -> & M1 & M2). by constructor.
Qed.
Lemma rep_inv c min max p w rest :
  Mt (RRep c min max) p w rest <-> Forall (fun t => c t.1 = true) w /\ within min max (length w).
Proof. split; [intros M; by inversion M|intros [? ?]; by constructor]. Qed.
Lemma char_inv c p w rest : Mt (RChar c) p w rest <-> exists t, w = [t] /\ c t.1 = true.
Proof. split; [intros M; inversion M; eauto|intros (t & -> & ?); by constructor]. Qed.

(** An anchored expression matches the whole text. *)
Definition anchored (r : re) : re := RCat RBegin (RCat r REnd).
Lemma anchored_iff r s : MatchString (anchored r) s = true <-> Mt r None (rune_toks s) [].
Proof.
  unfold MatchString, anchored. rewrite find_from_iff. split.
  - intros (a & w & rest & E & M). inversion M as [| | |? ? ? w1 w2 ? M1 M2| | | | |]; subst.
    inversion M1; subst. inversion M2 as [| | |? ? ? w3 w4 ? M3 M4| | | | |]; subst.
    inversion M4; subst. assert (a = []) as ->.
    { destruct a as [|t a] using rev_ind; [done|]. unfold after in *. by rewrite last_snoc in *. }
    simpl in *. rewrite E, !app_nil_r. exact M3.
  - intros M. exists [], (rune_toks s), []. rewrite app_nil_r. split; [done|].
    refine (Mt_cat RBegin (RCat r REnd) None [] (rune_toks s) [] _ _); [constructor|].
    pose proof (Mt_cat r REnd None (rune_toks s) [] [] M (Mt_end _)) as Me. by rewrite app_nil_r in Me.
Qed.
End RegexFacts.

(** ** Tokens and bytes *)
Module TokenFacts.

(** An ASCII rune is its byte; the bytes of other runes are outside ASCII. *)
Definition is_ascii (c : ascii) : bool := byte_in 0 127 c.
Definition byte_z (c : ascii) : Z := Z.of_nat (nat_of_ascii c).
Definition tok_ok (t : token) : Prop :=
  (exists c, is_ascii c = true /\ t = (byte_z c, String c "")) \/
  (128 <= t.1 /\ t.2 <> "" /\ str_all (fun c => negb (is_ascii c)) t.2 = true).

Definition char_toks (s : string) : list token :=
  (fun c => (byte_z c, String c "")) <$> list_ascii_of_string s.

Lemma byte_z_bound c : 0 <= byte_z c < 256.
Proof. unfold byte_z. pose proof (ascii_bound c). lia. Qed.
Lemma is_ascii_lt c : is_ascii c = (byte_z c <? 128).
Proof.
  unfold is_ascii, byte_in. fold (byte_z c). pose proof (byte_z_bound c).
  destruct (Z.ltb_spec (byte_z c) 128); zdec; done.
Qed.
Lemma rune_toks_char c s : is_ascii c = true -> rune_toks (String c s) = (byte_z c, String c "") :: rune_toks s.
Proof. rewrite is_ascii_lt. intros Hc. simpl. by fold (byte_z c); rewrite Hc. Qed.

Lemma toks_str_app a b : toks_str (a ++ b) = toks_str a +:+ toks_str b.
Proof. induction a as [|t a IH]; [done|]. simpl. by rewrite IH, sapp_assoc. Qed.
Lemma toks_str_char_toks s : toks_str (char_toks s) = s.
Proof. induction s as [|c s IH]; [done|]. change (String c "" +:+ toks_str (char_toks s) = String c s). by rewrite IH. Qed.
Lemma char_toks_app a b : char_toks (a +:+ b) = char_toks a ++ char_toks b.
Proof. unfold char_toks. by rewrite lasc_app, fmap_app. Qed.
Lemma char_toks_length s : length (char_toks s) = String.length s.
Proof. unfold char_toks. by rewrite length_fmap, lasc_length. Qed.
Lemma rune_toks_ascii w s :
  str_all is_ascii w = true -> rune_toks (w +:+ s) = char_toks w ++ rune_toks s.
Proof.
  induction w as [|c w IH]; [done|]. rewrite sapp_cons. simpl. intros [Hc Hw]%andb_prop.
  fold (byte_z c). rewrite is_ascii_lt in Hc. rewrite Hc, IH by done. done.
Qed.

Lemma string_length_ind (P : string -> Prop) :
  (forall s, (forall t, (String.length t < String.length s)%nat -> P t) -> P s) -> forall s, P s.
Proof.
  intros Hs. assert (forall n s, (String.length s < n)%nat -> P s) as Hn.
  { induction n as [|n IH]; intros s Hl; [lia|]. apply Hs. intros t Ht. apply IH. lia. }
  intros s. apply (Hn (S (String.length s))). lia.
Qed.

Ltac bytes_lia :=
  unfold second3, second4, cont, low6, byte_in in *; fold byte_z in *;
  repeat match goal with
    | H : _ && _ = true |- _ => apply andb_prop in H as [? ?]
    | H : (if ?b then _ else _) = true |- _ => destruct b eqn:?
  end; unfold byte_z in *; lia.

Lemma rune_toks_spec s : Forall tok_ok (rune_toks s) /\ toks_str (rune_toks s) = s.
Proof.
  induction s as [s IH] using string_length_ind. destruct s as [|a s1]; [done|]. simpl.
  destruct (Z.ltb_spec (Z.of_nat (nat_of_ascii a)) 128) as [Ha|Ha].
  { destruct (IH s1) as [Hf Hs]; [simpl; lia|]. simpl. rewrite Hs. split; [|done]. constructor; [|done].
    left. exists a. split; [|done]. rewrite is_ascii_lt. unfold byte_z. by zdec. }
  assert (is_ascii a = false) as Hna by (rewrite is_ascii_lt; unfold byte_z; by zdec).
  assert (Forall tok_ok ((RuneError, String a "") :: rune_toks s1) /\
          toks_str ((RuneError, String a "") :: rune_toks s1) = String a s1) as Hbad.
  { destruct (IH s1) as [Hf Hs]; [simpl; lia|]. simpl. rewrite Hs. split; [|done]. constructor; [|done].
    right. simpl. unfold RuneError. rewrite Hna. split_and!; [lia|done..]. }
  assert (forall c, cont c = true -> is_ascii c = false) as Hcont.
  { intros c Hc. rewrite is_ascii_lt. unfold cont, byte_in in Hc. fold (byte_z c) in Hc.
    apply Z.ltb_ge. lia. }
  assert (forall b, second3 a b = true \/ second4 a b = true -> is_ascii b = false) as Hsec.
  { intros b Hb. rewrite is_ascii_lt. unfold byte_z. apply Z.ltb_ge.
    destruct Hb as [Hb|Hb]; bytes_lia. }
  destruct s1 as [|b s2]; [exact Hbad|].
  destruct (byte_in 194 223 a && cont b) eqn:E2.
  { apply andb_prop in E2 as [Ea Eb]. destruct (IH s2) as [Hf Hs]; [simpl; lia|]. simpl. rewrite Hs.
    split; [|done]. constructor; [|done]. right. simpl. rewrite Hna, (Hcont b Eb). split_and!; [|done..]. bytes_lia. }
  destruct s2 as [|c s3]; [exact Hbad|].
  destruct (second3 a b && cont c) eqn:E3.
  { apply andb_prop in E3 as [Ea Ec]. destruct (IH s3) as [Hf Hs]; [simpl; lia|]. simpl. rewrite Hs.
    split; [|done]. constructor; [|done]. right. simpl. rewrite Hna, (Hcont c Ec), (Hsec b) by auto.
    split_and!; [|done..]. bytes_lia. }
  destruct s3 as [|d s4]; [exact Hbad|].
  destruct (second4 a b && cont c && cont d) eqn:E4; [|exact Hbad].
  apply andb_prop in E4 as [[Ea Ec]%andb_prop Ed]. destruct (IH s4) as [Hf Hs]; [simpl; lia|]. simpl. rewrite Hs.
  split; [|done]. constructor; [|done]. right. simpl. rewrite Hna, (Hcont c Ec), (Hcont d Ed), (Hsec b) by auto.
  split_and!; [|done..]. bytes_lia.
Qed.
End TokenFacts.
