(* ===== verification/Words.v ===== *)
(** * Whole words of a text, and what replacing matches does to them

    A word is a maximal run of ASCII word characters, as \b sees it.  [Survivors] says where the
    words of a text come from after [ReplaceAllStringFunc] with an expression that starts and
    ends at word boundaries. *)
From S2P Require Import Prelude GoStd Regex.
Import Regex RegexFacts TokenFacts.

Definition wordb (c : ascii) : bool := word (byte_z c).
Definition starts_word (s : string) : bool := match s with "" => false | String c _ => wordb c end.
(** Whether the last byte of [s] is a word byte; [b] when [s] is empty. *)
Fixpoint end_word (b : bool) (s : string) : bool :=
  match s with "" => b | String c s' => end_word (wordb c) s' end.
Fixpoint run (s : string) : string :=
  match s with "" => "" | String c s' => if wordb c then String c (run s') else "" end.

(** [w] occurs in [s] as a whole word; [b] tells whether a word byte comes before [s]. *)
Definition whole_word (b : bool) (w s : string) : Prop :=
  exists x y, s = x +:+ w +:+ y /\ w <> "" /\ str_all wordb w = true /\
    end_word b x = false /\ starts_word y = false.

Module WordFacts.

Lemma sapp_eq_app (a b c d : string) :
  a +:+ b = c +:+ d ->
  (exists k, c = a +:+ k /\ b = k +:+ d) \/ (exists k, k <> "" /\ a = c +:+ k /\ d = k +:+ b).
Proof.
  revert c. induction a as [|x a IH]; intros c E.
  - left. by exists c.
  - destruct c as [|y c].
    + right. by exists (String x a).
    + rewrite !sapp_cons in E. injection E as -> E. destruct (IH c E) as [(k & -> & ->)|(k & Hk & -> & ->)].
      * left. by exists k.
      * right. by exists k.
Qed.

Lemma end_word_app b x y : end_word b (x +:+ y) = end_word (end_word b x) y.
Proof. revert b. induction x as [|c x IH]; intros b; [done|]. rewrite sapp_cons. simpl. apply IH. Qed.
Lemma end_word_all b w : w <> "" -> str_all wordb w = true -> end_word b w = true.
Proof.
  intros Hne Ha. assert (forall w, str_all wordb w = true -> end_word true w = true) as Ht.
  { clear. induction w as [|c w IH]; simpl; [done|]. intros [-> Hw]%andb_prop. by apply IH. }
  destruct w as [|c w]; [done|]. simpl in *. apply andb_prop in Ha as [-> Ha]. by apply Ht.
Qed.
Lemma end_word_ne b b' x : x <> "" -> end_word b x = end_word b' x.
Proof. by destruct x. Qed.
Lemma starts_word_app x y : x <> "" -> starts_word (x +:+ y) = starts_word x.
Proof. by destruct x. Qed.

(** Joining two texts at a place that is not inside a word. *)
Lemma whole_word_l b w x y :
  end_word b x && starts_word y = false -> whole_word b w x -> whole_word b w (x +:+ y).
Proof.
  intros Hj (u & v & -> & Hne & Ha & Hu & Hv). exists u, (v +:+ y).
  rewrite <- !sapp_assoc. split_and!; try done. destruct v as [|c v]; [|done]. rewrite sapp_nil_l.
  rewrite sapp_nil_r, end_word_app, end_word_all in Hj by done. done.
Qed.
Lemma whole_word_r b w x y : whole_word (end_word b x) w y -> whole_word b w (x +:+ y).
Proof.
  intros (u & v & -> & Hne & Ha & Hu & Hv). exists (x +:+ u), v.
  rewrite end_word_app, !sapp_assoc. done.
Qed.
Lemma whole_word_app b w x y :
  end_word b x && starts_word y = false ->
  whole_word b w (x +:+ y) -> whole_word b w x \/ whole_word (end_word b x) w y.
Proof.
  intros Hj (u & v & E & Hne & Ha & Hu & Hv).
  destruct (sapp_eq_app _ _ _ _ E) as [(k & -> & ->)|(k & Hk & -> & E')].
  - right. exists k, v. by rewrite end_word_app in Hu.
  - destruct (sapp_eq_app _ _ _ _ E') as [(l & -> & ->)|(l & Hl & -> & ->)].
    + left. exists u, l. split_and!; try done. destruct l; [done|]. by rewrite starts_word_app in Hv.
    + exfalso. rewrite end_word_app in Hj. rewrite str_all_app in Ha. apply andb_prop in Ha as [Hak Hal].
      rewrite end_word_all in Hj by done. simpl in Hj. destruct l as [|c l]; [done|].
      simpl in Hal, Hj. rewrite Hj in Hal. done.
Qed.

Lemma whole_word_len b w s : whole_word b w s -> (String.length w <= String.length s)%nat.
Proof. intros (x & y & -> & _). rewrite !slen_app. lia. Qed.
Lemma whole_word_none b w s : str_all (fun c => negb (wordb c)) s = true -> ~ whole_word b w s.
Proof.
  intros Hs (x & y & -> & Hne & Ha & _). rewrite !str_all_app in Hs.
  destruct w as [|c w]; [done|]. simpl in *. destruct (str_all _ x); [|done]. simpl in Hs.
  by destruct (wordb c).
Qed.

Lemma run_starts w y : str_all wordb w = true -> starts_word y = false -> run (w +:+ y) = w.
Proof.
  intros Hw Hy. induction w as [|c w IH].
  - rewrite sapp_nil_l. destruct y as [|c y]; [done|]. simpl in *. by rewrite Hy.
  - rewrite sapp_cons. simpl in *. apply andb_prop in Hw as [-> Hw]. by rewrite IH.
Qed.
Lemma run_split s : exists y, s = run s +:+ y /\ str_all wordb (run s) = true /\ starts_word y = false.
Proof.
  induction s as [|c s IH]; [by exists ""|]. simpl. destruct (wordb c) eqn:Hc.
  - destruct IH as (y & E & Ha & Hy). exists y. rewrite sapp_cons, <- E. simpl. by rewrite Hc, Ha.
  - exists (String c s). by split_and!.
Qed.
Lemma run_nil s : starts_word s = false -> run s = "".
Proof. destruct s; [done|]. simpl. by intros ->. Qed.
Lemma run_nil_inv s : run s = "" -> starts_word s = false.
Proof. destruct s as [|c s]; [done|]. simpl. by destruct (wordb c). Qed.

(** A word of [String c s] is a word of [s], or the run [s] starts with, grown by [c]. *)
Lemma whole_word_cons b w c s :
  whole_word b w (String c s) ->
  whole_word (wordb c) w s \/ (b = false /\ wordb c = true /\ w = String c (run s)).
Proof.
  intros (x & y & E & Hne & Ha & Hx & Hy). destruct x as [|c' x].
  - right. rewrite sapp_nil_l in E. destruct w as [|c' w]; [done|]. rewrite sapp_cons in E.
    injection E as <- ->. simpl in *. apply andb_prop in Ha as [Hc Ha]. by rewrite run_starts.
  - left. rewrite sapp_cons in E. injection E as <- ->. simpl in Hx. by exists x, y.
Qed.
Lemma whole_word_run c s : wordb c = true -> whole_word false (String c (run s)) (String c s).
Proof.
  intros Hc. destruct (run_split s) as (y & E & Ha & Hy). exists "", y.
  rewrite sapp_nil_l, sapp_cons, <- E. simpl. by rewrite Hc, Ha.
Qed.

(** *** Tokens *)
Lemma ascii_word c : wordb c = true -> is_ascii c = true.
Proof.
  unfold wordb, word, alnum, alpha, digit, range. rewrite is_ascii_lt.
  pose proof (byte_z_bound c). intros Hw. apply Z.ltb_lt. lia.
Qed.
Lemma tok_cases t :
  tok_ok t ->
  (exists c, t = (byte_z c, String c "") /\ word t.1 = wordb c) \/
  (word t.1 = false /\ t.2 <> "" /\ str_all (fun c => negb (wordb c)) t.2 = true).
Proof.
  intros [(c & Hc & ->)|(Hr & Hne & Ha)]; [left; by exists c|right]. split_and!; [|done|].
  - unfold word, alnum, alpha, digit, range. apply not_true_is_false. lia.
  - eapply str_all_impl; [|exact Ha]. intros c Hc. simpl in *. destruct (wordb c) eqn:E; [|done].
    by rewrite (ascii_word c E) in Hc.
Qed.
Lemma end_word_none b s : s <> "" -> str_all (fun c => negb (wordb c)) s = true -> end_word b s = false.
Proof.
  intros Hne Ha. assert (forall s, str_all (fun c => negb (wordb c)) s = true -> end_word false s = false) as Hf.
  { clear. induction s as [|c s IH]; simpl; [done|]. intros [Hc Hs]%andb_prop. apply negb_true_iff in Hc. rewrite Hc. by apply IH. }
  destruct s as [|c s]; [done|]. simpl in *. apply andb_prop in Ha as [Hc Ha].
  apply negb_true_iff in Hc. rewrite Hc. by apply Hf.
Qed.
Lemma tok_starts t y : tok_ok t -> starts_word (t.2 +:+ y) = word t.1.
Proof.
  intros [(c & -> & Hc)|(-> & Hne & Ha)]%tok_cases; [by rewrite Hc|].
  destruct t.2 as [|c s]; [done|]. simpl in *. by destruct (wordb c).
Qed.
Lemma tok_end b t : tok_ok t -> end_word b t.2 = word t.1.
Proof. intros [(c & -> & Hc)|(-> & Hne & Ha)]%tok_cases; [by rewrite Hc|by apply end_word_none]. Qed.
Lemma next_starts s : Forall tok_ok s -> next_word s = starts_word (toks_str s).
Proof. intros Hs. destruct Hs as [|t s Ht Hs]; [done|]. simpl. by rewrite tok_starts. Qed.
Lemma after_end p s : Forall tok_ok s -> opt_word (after p s) = end_word (opt_word p) (toks_str s).
Proof.
  intros Hs. revert p. induction Hs as [|t s Ht Hs IH]; intros p; [done|].
  rewrite after_cons, IH. simpl. by rewrite end_word_app, tok_end.
Qed.

Lemma toks_nonempty m : Forall tok_ok m -> m <> [] -> toks_str m <> "".
Proof.
  intros [|t m' [(c & _ & ->)|(_ & Hne & _)] _] Hm; [done|done|]. simpl. by destruct t.2.
Qed.

(** A token in front of a text. *)
Lemma tok_run t y : tok_ok t -> run (t.2 +:+ y) = if word t.1 then t.2 +:+ run y else "".
Proof.
  intros Ht. destruct (tok_cases t Ht) as [(c & -> & Hc)|(Hw & _)].
  - simpl. fold (wordb c). simpl in Hc. by destruct (wordb c).
  - rewrite Hw. apply run_nil. by rewrite tok_starts.
Qed.
Lemma tok_whole_word b w t y :
  tok_ok t -> whole_word b w (t.2 +:+ y) ->
  whole_word (word t.1) w y \/ (b = false /\ word t.1 = true /\ w = t.2 +:+ run y).
Proof.
  intros Ht H. destruct (tok_cases t Ht) as [(c & -> & Hc)|(Hw & Hne & Ha)].
  - simpl in *. apply whole_word_cons in H as [?|(-> & ? & ->)]; [by left|by right].
  - left. apply whole_word_app in H as [H|H].
    + by apply whole_word_none in H.
    + by rewrite tok_end in H.
    + by rewrite tok_end, Hw.
Qed.
End WordFacts.
Import WordFacts.

(** ** Replacing matches of an expression bounded by \b on both sides *)
Definition bounded (r : re) : re := RCat RWordB (RCat r RWordB).

Module Survivors.
Section survivors.
Variables (body : re) (f : string -> string).
(** The expression reads something, and a replacement does not extend a word around it. *)
Hypothesis body_reads : forall p w rest, Mt body p w rest -> w <> [].
Hypothesis f_ends : forall p w rest, Forall tok_ok (w ++ rest) -> Mt (bounded body) p w rest ->
  let x := toks_str w in
  f x <> "" /\ (starts_word (f x) = true -> starts_word x = true) /\
  (end_word false (f x) = true -> end_word false x = true).

Lemma bounded_inv p w rest :
  Forall tok_ok (w ++ rest) -> Mt (bounded body) p w rest ->
  w <> [] /\ Mt body p w rest /\
  xorb (opt_word p) (starts_word (toks_str w)) = true /\
  xorb (end_word (opt_word p) (toks_str w)) (starts_word (toks_str rest)) = true.
Proof.
  intros Hok M. inversion M as [| | |? ? ? w1 w2 ? M1 M2| | | | |]; subst. inversion M1; subst.
  inversion M2 as [| | |? ? ? w3 w4 ? M3 M4| | | | |]; subst. inversion M4; subst.
  rewrite app_nil_r in *. simpl in *. rewrite after_nil in *. pose proof (body_reads _ _ _ M3) as Hne.
  apply Forall_app in Hok as [Hw Hrest]. split_and!; [done|done| |].
  - destruct w3 as [|t w3]; [done|]. apply Forall_cons in Hw as [Ht _]. simpl in *. by rewrite tok_starts.
  - by rewrite <- after_end, <- next_starts.
Qed.

Lemma take_match (w rest : list token) : take (length (w ++ rest) - length rest) (w ++ rest) = w.
Proof. by rewrite length_app, Nat.add_sub, take_app_length. Qed.

(** After a word byte the output starts with the same run as the source. *)
Lemma replace_run n p s :
  Forall tok_ok s -> (length s <= n)%nat -> opt_word p = true ->
  run (replace_go n (bounded body) f p s) = run (toks_str s).
Proof.
  revert p s. induction n as [|n IH]; intros p s Hok Hn Hp; [done|]. destruct s as [|t s]; [done|]. cbn [replace_go].
  destruct (match_at (bounded body) p (t :: s)) as [rest|] eqn:E.
  - apply match_at_Some in E as (w & E & M). rewrite E in *. rewrite take_match.
    destruct (bounded_inv p w rest Hok M) as (Hne & _ & Hx & _). rewrite Hp in Hx. simpl in Hx.
    apply negb_true_iff in Hx. destruct (f_ends p w rest Hok M) as (Hf & Hs & _).
    rewrite !run_nil; [done| |].
    + rewrite toks_str_app, starts_word_app; [done|]. apply toks_nonempty; [|done]. by apply Forall_app in Hok as [? _].
    + rewrite starts_word_app by done. destruct (starts_word (f (toks_str w))); [|done]. by rewrite Hs in Hx.
  - apply Forall_cons in Hok as [Ht Hok]. simpl. rewrite !tok_run by done.
    destruct (word t.1) eqn:Hw; [|done]. f_equal. apply IH; [done|simpl in Hn; lia|done].
Qed.

(** Every whole word of the output stands in a replacement, or is a whole word of the source
    at which the expression did not match. *)
Lemma survivor n p s w :
  Forall tok_ok s -> (length s <= n)%nat ->
  whole_word (opt_word p) w (replace_go n (bounded body) f p s) ->
  (exists a m rest, s = a ++ m ++ rest /\ Mt (bounded body) (after p a) m rest /\
     whole_word (opt_word (after p a)) w (f (toks_str m))) \/
  (exists a s', s = a ++ s' /\ opt_word (after p a) = false /\
     match_at (bounded body) (after p a) s' = None /\ w = run (toks_str s') /\ w <> "").
Proof.
  revert p s. induction n as [|n IH]; intros p s Hok Hn Hw.
  { destruct s; [|simpl in Hn; lia]. simpl in Hw. by apply whole_word_none in Hw. }
  destruct s as [|t s]; [by apply whole_word_none in Hw|]. cbn [replace_go] in Hw.
  destruct (match_at (bounded body) p (t :: s)) as [rest|] eqn:E.
  - apply match_at_Some in E as (m & E & M). rewrite E in *. rewrite take_match in Hw.
    destruct (bounded_inv p m rest Hok M) as (Hne & _ & _ & Hx).
    destruct (f_ends p m rest Hok M) as (Hf & _ & He).
    pose proof Hok as [Hm Hrest]%Forall_app.
    pose proof (toks_nonempty m Hm Hne) as Hms.
    assert (length rest <= n)%nat as Hn'.
    { assert (length (t :: s) = length (m ++ rest)) as L by (by rewrite E).
      rewrite length_app in *. destruct m; [done|]. simpl in *. lia. }
    set (o := replace_go n (bounded body) f (after p m) rest) in *.
    assert (end_word false (toks_str m) = true -> starts_word o = false) as Hwo.
    { intros Hend. apply run_nil_inv. unfold o. rewrite replace_run; [|done|done|].
      - apply run_nil. rewrite (end_word_ne _ false), Hend in Hx by done. by destruct (starts_word _).
      - by rewrite after_end, (end_word_ne _ false). }
    apply whole_word_app in Hw as [Hw|Hw].
    + left. by exists [], m, rest.
    + assert (whole_word (opt_word (after p m)) w o) as Hw'.
      { rewrite after_end, (end_word_ne _ false) by done. rewrite (end_word_ne _ false) in Hw by done.
        destruct (end_word false (toks_str m)) eqn:Hend.
        - destruct (end_word false (f (toks_str m))); [done|]. destruct Hw as (x & y & Eo & Hwne & Ha & Hxe & Hy).
          exists x, y. split_and!; try done. destruct x as [|c x]; [|done]. exfalso.
          specialize (Hwo eq_refl). rewrite Eo, sapp_nil_l, starts_word_app in Hwo by done.
          destruct w as [|c w]; [done|]. simpl in *. by rewrite Hwo in Ha.
        - destruct (end_word false (f (toks_str m))) eqn:Hfe; [|done]. by specialize (He eq_refl). }
      apply IH in Hw' as [(a & m' & rest' & -> & M' & Hw')|(a & s' & -> & Hb & Hnone & Hr)]; [| |done|done].
      * left. exists (m ++ a), m', rest'. rewrite after_app, <- (assoc_L (++)). done.
      * right. exists (m ++ a), s'. rewrite after_app, <- (assoc_L (++)). done.
    + rewrite (end_word_ne _ false) by done. destruct (end_word false (f (toks_str m))) eqn:Hfe; [|done].
      by rewrite Hwo by (by apply He).
  - pose proof Hok as [Ht Hs]%Forall_cons. simpl in Hn.
    apply tok_whole_word in Hw as [Hw|(Hb & Hwt & Hw)]; [| |done].
    + apply (IH (Some t.1)) in Hw as [(a & m & rest & -> & M & Hw)|(a & s' & -> & Hb & Hnone & Hr)]; [| |done|lia].
      * left. exists (t :: a), m, rest. by rewrite after_cons.
      * right. exists (t :: a), s'. by rewrite after_cons.
    + rewrite replace_run in Hw by (done || lia). right. exists [], (t :: s). simpl.
      rewrite tok_run, Hwt by done. split_and!; try done. rewrite Hw.
      destruct Ht as [(c & _ & ->)|(_ & Hne & _)]; [done|]. by destruct t.2.
Qed.
End survivors.
End Survivors.
