(* ===== verification/Pii.v ===== *)
(** * pii/pii.go: redaction of personal data

    The rule tables as expressions of [Regex], the replacement functions, and [RedactString].
    The theorem follows whole words of the text through the rules. *)
From S2P Require Import Prelude GoStd Regex Words.
Import Regex.
Open Scope go_scope.

Module Pii.

Definition JurisdictionRU : string := "ru".
Definition JurisdictionCN : string := "cn".
Definition JurisdictionEN : string := "en".

Record rule := mkRule { pattern : re; apply : string -> string; label : string }.

(** ** Character classes of the tables *)
Definition b64url : class := fun r => alnum r || (r =? 95) || (r =? 45).
Definition dash_us : class := fun r => (r =? 95) || (r =? 45).
Definition sep : class := fun r => space r || (r =? 45).
Definition local_part : class :=
  fun r => alnum r || (r =? 46) || (r =? 95) || (r =? 37) || (r =? 43) || (r =? 45).
Definition host_part : class := fun r => alnum r || (r =? 46) || (r =? 45).
Definition opt (c : class) : re := RRep c 0 (Some 1%nat).
Definition times (c : class) (n : nat) : re := RRep c n (Some n).
Definition at_least (c : class) (n : nat) : re := RRep c n None.
(** A letter under [(?i:...)]: both cases, and the non-ASCII runes that fold to it
    (U+017F to s, U+212A to k). *)
Definition fold_ci (lower : Z) : re :=
  RChar (fun r => (r =? lower) || (r =? lower - 32) ||
                  (lower =? 115) && (r =? 383) || (lower =? 107) && (r =? 8490)).

(** ** Replacements *)
Definition keepDigits (s : string) : string := toks_str (filter (fun t => digit t.1 = true) (rune_toks s)).

Definition redactEmail (match_ : string) : string :=
  match cut_at "@" match_ with
  | None => "[REDACTED:EMAIL]"
  | Some (local, domain) =>
      if String.eqb local "" then "[REDACTED:EMAIL]" else stake 1 local +:+ "***@" +:+ domain
  end.
Definition last_n (n : nat) (s : string) : string := sdrop (String.length s - n) s.
Definition redactBankCard (match_ : string) : string :=
  let digits := keepDigits match_ in
  if (slen digits <? 13) || (19 <? slen digits) then match_
  else stake 4 digits +:+ " **** **** " +:+ last_n 4 digits.
Definition redactIPv4 (match_ : string) : string :=
  match Split match_ "." with
  | [p0; p1; p2; p3] =>
      if forallb (fun p => negb ((slen p <? 1) || (3 <? slen p)) && forallb digit (runes p)) [p0; p1; p2; p3]
      then p0 +:+ "." +:+ p1 +:+ ".*.*" else match_
  | _ => match_
  end.
Definition redactRUPhone (match_ : string) : string :=
  let digits := keepDigits match_ in
  if slen digits <? 11 then match_ else
  let tail := last_n 2 digits in
  if HasPrefix digits "8" && (slen digits =? 11)
  then "+7-" +:+ stake 3 (sdrop 1 digits) +:+ "-***-**-" +:+ tail
  else if HasPrefix digits "7" && (11 <=? slen digits)
  then "+7-" +:+ stake 3 (sdrop 1 digits) +:+ "-***-**-" +:+ tail
  else "+7-***-***-**-" +:+ tail.
Definition redactCNPhone (match_ : string) : string :=
  let digits := keepDigits match_ in
  if negb (slen digits =? 11) then match_
  else stake 3 digits +:+ "****" +:+ last_n 4 digits.
Definition redactINNCandidate (match_ : string) : string :=
  if (slen match_ =? 10) || (slen match_ =? 12) then "[REDACTED:INN]" else match_.

(** ** The tables *)
Definition jwt_body : re :=
  seqs [lit "e"; lit "y"; lit "J"; at_least b64url 16; lit "."; at_least b64url 16; lit "."; at_least b64url 16].
Definition key_word : re :=
  RAlt (RCat (fold_ci 115) (fold_ci 107))
  (RAlt (RCat (fold_ci 112) (fold_ci 107))
        (seqs [fold_ci 97; fold_ci 112; fold_ci 105; opt dash_us; fold_ci 107; fold_ci 101; fold_ci 121])).
Definition api_body : re := seqs [key_word; RChar dash_us; at_least word 16].
Definition card_body : re :=
  seqs [times digit 4; opt sep; times digit 4; opt sep; times digit 4; opt sep; RRep digit 1 (Some 7%nat)].
Definition email_body : re := seqs [at_least local_part 1; lit "@"; at_least host_part 1; lit "."; at_least alpha 2].
Definition octet : re := RRep digit 1 (Some 3%nat).
Definition ipv4_body : re := seqs [octet; lit "."; octet; lit "."; octet; lit "."; octet].
Definition universalRules : list rule := [
  mkRule (bounded jwt_body) (fun _ => "[REDACTED:JWT]") "jwt";
  mkRule (bounded api_body) (fun _ => "[REDACTED:APIKEY]") "api_key";
  mkRule (bounded card_body) redactBankCard "bank_card";
  mkRule (bounded email_body) redactEmail "email";
  mkRule (bounded ipv4_body) redactIPv4 "ipv4" ].

Definition open_sep : class := fun r => sep r || (r =? 40).
Definition close_sep : class := fun r => sep r || (r =? 41).
Definition ru_phone : re :=
  seqs [RAlt (RCat (opt (one 43)) (lit "7")) (lit "8"); opt open_sep; lit "9"; times digit 2; opt close_sep;
        times digit 3; opt sep; times digit 2; opt sep; times digit 2].
Definition snils_body : re :=
  seqs [times digit 3; RChar sep; times digit 3; RChar sep; times digit 3; RChar sep; times digit 2].
Definition inn_body : re := RRep digit 10 (Some 12%nat).
Definition ruRules : list rule := [
  mkRule ru_phone redactRUPhone "ru_phone";
  mkRule (bounded snils_body) (fun _ => "[REDACTED:SNILS]") "snils";
  mkRule (bounded inn_body) redactINNCandidate "inn" ].

Definition cn_phone_body : re := seqs [lit "1"; RChar (range 51 57); times digit 9].
Definition cn_id_body : re := seqs [times digit 17; RChar (fun r => digit r || (r =? 88) || (r =? 120))].
Definition cnRules : list rule := [
  mkRule (bounded cn_phone_body) redactCNPhone "cn_phone";
  mkRule (bounded cn_id_body) (fun _ => "[REDACTED:CN_ID]") "cn_id" ].

(** ** The redactor *)
Record Redactor := mkRedactor { universal : list rule; ru : list rule; cn : list rule }.
Definition NewRedactor : Redactor := mkRedactor universalRules ruRules cnRules.

Definition applyRule (s : string) (r : rule) : string := ReplaceAllStringFunc (pattern r) (apply r) s.

(** The text before the first [_] or [-], unless that is at the start. *)
Fixpoint before_any (s : string) : string :=
  match s with
  | "" => ""
  | String c s' => if Ascii.eqb c "_" || Ascii.eqb c "-" then "" else String c (before_any s')
  end.
Definition hint_of `{UnicodeCase} (languageOrJurisdiction : string) : string :=
  let hint := ToLower (TrimSpace languageOrJurisdiction) in
  if String.eqb (before_any hint) "" then hint else before_any hint.

Definition RedactString `{UnicodeCase} (r : Redactor) (languageOrJurisdiction s : string) : string :=
  if String.eqb s "" then s else
  let hint := hint_of languageOrJurisdiction in
  let out :=
    if String.eqb hint JurisdictionRU then foldl applyRule s (ru r)
    else if String.eqb hint JurisdictionCN then foldl applyRule s (cn r)
    else if String.eqb hint JurisdictionEN then s
    else if String.eqb hint "" then foldl applyRule (foldl applyRule s (ru r)) (cn r)
    else foldl applyRule (foldl applyRule s (ru r)) (cn r) in
  foldl applyRule out (universal r).

#[local] Existing Instance plain_case.
Example redact_cn : RedactString NewRedactor "zh-CN" "call 13812345678 or id 11010519491231002X." =
  "call 138****5678 or id [REDACTED:CN_ID].".
Proof. vm_compute. reflexivity. Qed.
Example redact_mixed :
  RedactString NewRedactor "en-US" "mail bob.smith@example.com card 4111 1111 1111 1111 from 10.20.30.40 sk_live_AbCdEfGh12345678" =
  "mail b***@example.com card 4111 **** **** 1111 from 10.20.*.* [REDACTED:APIKEY]".
Proof. vm_compute. reflexivity. Qed.
Example redact_ru : RedactString NewRedactor "ru" "tel +7 912 345-67-89, inn 7707083893, snils 112-233-445 95" =
  "tel +7-912-***-**-89, inn [REDACTED:INN], snils [REDACTED:SNILS]".
Proof. vm_compute. reflexivity. Qed.
End Pii.

Module PiiFacts.
Import Pii RegexFacts TokenFacts WordFacts Survivors.

(** *** Shapes of words *)
Definition digitb (c : ascii) : bool := digit (byte_z c).
Definition all_digits (w : string) : bool := str_all digitb w.
Definition len_in (lo hi : Z) (w : string) : bool := (lo <=? slen w) && (slen w <=? hi).

Definition card_word (w : string) : bool := all_digits w && len_in 13 19 w.
Definition inn_word (w : string) : bool := all_digits w && (len_in 10 10 w || len_in 12 12 w).
Definition cn_mobile (w : string) : bool :=
  match w with
  | String a (String b w') => Ascii.eqb a "1" && range 51 57 (byte_z b) && all_digits w' && len_in 9 9 w'
  | _ => false
  end.
Definition cn_id (w : string) : bool :=
  all_digits (stake 17 w) && len_in 18 18 w &&
  str_all (fun c => digitb c || Ascii.eqb c "X" || Ascii.eqb c "x") (sdrop 17 w).

(** *** Lengths: every shape above has at least ten characters. *)
Definition long (P : string -> bool) : Prop := forall w, P w = true -> (10 <= String.length w)%nat.
Lemma long_card : long card_word.
Proof. intros w. unfold card_word, len_in, slen. intros Hw. apply andb_prop in Hw as [_ Hw]. lia. Qed.
Lemma long_inn : long inn_word.
Proof. intros w. unfold inn_word, len_in, slen. intros Hw. apply andb_prop in Hw as [_ Hw]. lia. Qed.
Lemma long_mobile : long cn_mobile.
Proof.
  intros [|a [|b w]]; [done..|]. unfold cn_mobile, len_in, slen. intros Hw. apply andb_prop in Hw as [_ Hw]. simpl. lia.
Qed.
Lemma long_id : long cn_id.
Proof. intros w. unfold cn_id, len_in, slen. intros Hw. apply andb_prop in Hw as [[_ Hw]%andb_prop _]. lia. Qed.

(** *** Matches of sequences *)
(** The first and the last token of a match. *)
Lemma first_rep c n max p w rest l :
  l <> [] -> Mt (seqs (RRep c (S n) max :: l)) p w rest -> exists t w', w = t :: w' /\ c t.1 = true.
Proof.
  intros Hl (w1 & w2 & -> & [Hf [Hn _]]%rep_inv & _)%seqs_cons; [|done].
  destruct w1 as [|t w1]; [simpl in Hn; lia|]. apply Forall_cons in Hf as [Ht _]. by exists t, (w1 ++ w2).
Qed.
Lemma first_char c p w rest l :
  l <> [] -> Mt (seqs (RChar c :: l)) p w rest -> exists t w', w = t :: w' /\ c t.1 = true.
Proof.
  intros Hl (w1 & w2 & -> & (t & -> & Ht)%char_inv & _)%seqs_cons; [|done]. by exists t, w2.
Qed.
(** Every match of [r] ends with a token of [c]. *)
Fixpoint ends_in (c : class) (r : re) : Prop :=
  match r with
  | RChar c' => forall x, c' x = true -> c x = true
  | RRep c' min _ => min <> O /\ forall x, c' x = true -> c x = true
  | RCat _ b => ends_in c b
  | _ => False
  end.
Lemma ends_in_last c r p w rest : ends_in c r -> Mt r p w rest -> exists t, last w = Some t /\ c t.1 = true.
Proof.
  intros He M. induction M as [| |c' min max p w rest Hf [Hn _]|a b p w1 w2 rest M1 _ M2 IH| | | | |]; simpl in He; try done.
  - eauto.
  - destruct He as [Hm He]. destruct w as [|t w] using rev_ind; [simpl in Hn; lia|].
    rewrite last_snoc. apply Forall_app in Hf as [_ [Ht _]%Forall_cons]. eauto.
  - destruct (IH He) as (t & Ht & Hc). exists t. split; [|done]. rewrite last_app, Ht. done.
Qed.

Lemma digit_word x : digit x = true -> word x = true.
Proof. unfold word, alnum. intros ->. by rewrite orb_true_r. Qed.
Lemma alpha_word x : alpha x = true -> word x = true.
Proof. unfold word, alnum. by intros ->. Qed.

Lemma last_end_word b w t :
  Forall tok_ok w -> last w = Some t -> end_word b (toks_str w) = word t.1.
Proof.
  intros Hw Hl. apply last_Some in Hl as [w' ->]. apply Forall_app in Hw as [_ [Ht _]%Forall_cons].
  rewrite toks_str_app, end_word_app. simpl. by rewrite sapp_nil_r, tok_end.
Qed.

(** *** Digits kept by [keepDigits] *)
Lemma digit_ascii c : digit (byte_z c) = true -> is_ascii c = true.
Proof. intros Hd. by apply ascii_word, digit_word. Qed.
Lemma keepDigits_digits s : all_digits (keepDigits s) = true.
Proof.
  unfold keepDigits. destruct (rune_toks_spec s) as [Hok _].
  induction Hok as [|t l Ht Hl IH]; [done|]. rewrite filter_cons. case_decide as Hd; [|done].
  cbn [toks_str]. unfold all_digits in *. rewrite str_all_app. apply andb_true_intro. split; [|exact IH].
  destruct Ht as [(c & Hc & ->)|(Hr & _ & _)]; [simpl in *; unfold digitb; by rewrite Hd|].
  unfold digit, range in Hd. lia.
Qed.
Lemma digits_words w : all_digits w = true -> str_all wordb w = true.
Proof. apply str_all_impl. intros c Hc. by apply digit_word. Qed.

(** The keepers: nothing of ten or more characters is a word of the replacement unless it
    was a word of the match. *)
Definition keeps (body : re) (f : string -> string) : Prop :=
  forall p w rest b u, Forall tok_ok (w ++ rest) -> Mt (bounded body) p w rest ->
    whole_word b u (f (toks_str w)) -> (10 <= String.length u)%nat -> whole_word b u (toks_str w).
Definition proper (body : re) (f : string -> string) : Prop :=
  forall p w rest, Forall tok_ok (w ++ rest) -> Mt (bounded body) p w rest ->
  let x := toks_str w in
  f x <> "" /\ (starts_word (f x) = true -> starts_word x = true) /\
  (end_word false (f x) = true -> end_word false x = true).
Definition reads (body : re) : Prop := forall p w rest, Mt body p w rest -> w <> [].

(** A rule that keeps long words, seen from the text. *)
Lemma rule_keeps body f P s w :
  reads body -> proper body f -> keeps body f -> long P -> P w = true ->
  whole_word false w (ReplaceAllStringFunc (bounded body) f s) -> whole_word false w s.
Proof.
  intros Hr Hp Hk HP Hw Hin. destruct (rune_toks_spec s) as [Hok Hs].
  destruct (survivor body f Hr Hp (length (rune_toks s)) None (rune_toks s) w Hok ltac:(lia) Hin)
    as [(a & m & rest & E & M & Hf)|(a & s' & E & Hb & _ & Hrun & Hne)].
  - rewrite E in Hok. pose proof Hok as [Ha Hmr]%Forall_app. pose proof Hmr as [Hm Hrest]%Forall_app.
    destruct (bounded_inv body Hr _ _ _ Hmr M) as (Hne & _ & Hx1 & Hx2).
    apply (Hk _ _ _ _ _ Hmr M) in Hf; [|by apply HP].
    rewrite <- Hs, E, !toks_str_app. apply whole_word_r. change false with (opt_word None).
    rewrite <- after_end by done. apply whole_word_l; [|done].
    by destruct (end_word (opt_word (after None a)) (toks_str m)), (starts_word (toks_str rest)).
  - rewrite E in Hok. pose proof Hok as [Ha Hs']%Forall_app. rewrite <- Hs, E, toks_str_app.
    apply whole_word_r. change false with (opt_word None). rewrite <- after_end, Hb by done.
    destruct (run_split (toks_str s')) as (y & Ey & Hall & Hy). rewrite <- Hrun in Ey, Hall.
    exists "", y. by rewrite sapp_nil_l.
Qed.

(** A whole word at the front of a text, token by token. *)
Lemma run_tokens s :
  Forall tok_ok s -> exists rest, s = char_toks (run (toks_str s)) ++ rest /\ next_word rest = false.
Proof.
  induction 1 as [|t s Ht Hs IH]; [by exists []|]. cbn [toks_str]. rewrite tok_run by done.
  destruct (word t.1) eqn:Hw; [|by exists (t :: s)].
  destruct (tok_cases t Ht) as [(c & -> & Hc)|(Hw' & _)]; [|congruence].
  destruct IH as (rest & E & Hn). exists rest. split; [|done].
  change ((byte_z c, String c "") :: s = (byte_z c, String c "") :: char_toks (run (toks_str s)) ++ rest).
  by rewrite <- E.
Qed.

(** A rule that matches every whole word of shape [P] and leaves none in its replacements
    removes them all. *)
Lemma rule_removes body f P s w :
  reads body -> proper body f ->
  (forall p m rest b, Forall tok_ok (m ++ rest) -> Mt (bounded body) p m rest ->
     whole_word b w (f (toks_str m)) -> P w = false) ->
  (forall p rest, P w = true -> Mt body p (char_toks w) rest) ->
  whole_word false w (ReplaceAllStringFunc (bounded body) f s) -> P w = false.
Proof.
  intros Hr Hp Hgone Hmt Hin. destruct (rune_toks_spec s) as [Hok Hs].
  destruct (survivor body f Hr Hp (length (rune_toks s)) None (rune_toks s) w Hok ltac:(lia) Hin)
    as [(a & m & rest & E & M & Hf)|(a & s' & E & Hb & Hnone & Hrun & Hne)].
  - rewrite E in Hok. apply Forall_app in Hok as [_ Hmr]. by eapply Hgone.
  - apply not_true_is_false. intros HP. rewrite E in Hok. apply Forall_app in Hok as [_ Hs'].
    destruct (run_tokens s' Hs') as (rest & Es & Hn). rewrite <- Hrun in Es.
    destruct (run_split (toks_str s')) as (y & _ & Hall & _). rewrite <- Hrun in Hall.
    apply (match_at_complete (bounded body) (after None a) (char_toks w) rest); [|by rewrite <- Es].
    unfold bounded. rewrite <- (app_nil_l (char_toks w)). constructor.
    { constructor. rewrite Hb. destruct w as [|c w]; [done|]. simpl in Hall. by apply andb_prop in Hall as [Hc _]. }
    rewrite after_nil, <- (app_nil_r (char_toks w)). constructor; [by apply Hmt|]. constructor.
    rewrite after_end; [|by rewrite Es in Hs'; apply Forall_app in Hs' as [? _]].
    rewrite toks_str_char_toks, end_word_all by done. simpl. by rewrite Hn.
Qed.

(** *** The rules one by one *)
Lemma ends_in_reads c body : ends_in c body -> reads body.
Proof. intros He p w rest M ->. by destruct (ends_in_last c _ _ _ _ He M) as (t & ? & _). Qed.
Lemma bounded_body body p w rest : Mt (bounded body) p w rest -> Mt body p w rest.
Proof.
  intros M. inversion M as [| | |? ? ? w1 w2 ? M1 M2| | | | |]; subst. inversion M1; subst.
  inversion M2 as [| | |? ? ? w3 w4 ? M3 M4| | | | |]; subst. inversion M4; subst. by rewrite app_nil_r in *.
Qed.

(** The longest run of word bytes. *)
Fixpoint max_run (s : string) : nat :=
  match s with "" => O | String c s' => Nat.max (String.length (run s)) (max_run s') end.
Lemma run_max_run s : (String.length (run s) <= max_run s)%nat.
Proof. destruct s as [|c s]; [done|]. cbn [max_run]. lia. Qed.
Lemma whole_word_max_run b u s : whole_word b u s -> (String.length u <= max_run s)%nat.
Proof.
  revert b. induction s as [|c s IH]; intros b Hw; [by apply whole_word_none in Hw|].
  apply whole_word_cons in Hw as [Hw%IH|(_ & Hc & ->)]; cbn [max_run]; [lia|].
  cbn [run]. rewrite Hc. lia.
Qed.

(** A constant that neither starts nor ends with a word byte. *)
Lemma const_proper body x :
  x <> "" -> starts_word x = false -> end_word false x = false -> proper body (fun _ => x).
Proof. intros ? Hs He p w rest _ _. simpl. rewrite Hs, He. done. Qed.
Lemma const_keeps body x : (max_run x < 10)%nat -> keeps body (fun _ => x).
Proof. intros Hm p w rest b u _ _ Hw Hl. apply whole_word_max_run in Hw. lia. Qed.

(** A mask between two short ends. *)
Lemma mask_words b u (x y m : string) :
  (String.length x < 10)%nat -> (String.length y < 10)%nat -> (max_run m < 10)%nat ->
  m <> "" -> starts_word m = false -> end_word false m = false ->
  whole_word b u (x +:+ m +:+ y) -> (String.length u < 10)%nat.
Proof.
  intros Hx Hy Hm Hne Hs He Hw. apply whole_word_app in Hw as [Hw%whole_word_len|Hw]; [lia| |].
  - apply whole_word_app in Hw as [Hw%whole_word_max_run|Hw%whole_word_len]; [lia|lia|].
    by rewrite (end_word_ne _ false), He.
  - rewrite starts_word_app, Hs by done. by rewrite andb_false_r.
Qed.
Lemma last_n_length n s : String.length (last_n n s) = Nat.min n (String.length s).
Proof. unfold last_n. rewrite sdrop_length. lia. Qed.
Lemma stake_nonempty n s : n <> O -> s <> "" -> stake n s <> "".
Proof. destruct n, s; done. Qed.

(** The ends of a match of digits. *)
Lemma digit_match c r l p w rest :
  (forall x, c x = true -> word x = true) -> ends_in word (seqs (r :: l)) -> l <> [] ->
  (exists n max, r = RRep c (S n) max) \/ r = RChar c ->
  Forall tok_ok (w ++ rest) -> Mt (bounded (seqs (r :: l))) p w rest ->
  starts_word (toks_str w) = true /\ forall b, end_word b (toks_str w) = true.
Proof.
  intros Hc He Hl Hr [Hok _]%Forall_app M%bounded_body. split.
  - assert (exists t w', w = t :: w' /\ c t.1 = true) as (t & w' & -> & Ht)
      by (destruct Hr as [(n & max & ->)| ->]; [by eapply first_rep|by eapply first_char]).
    apply Forall_cons in Hok as [Hok _]. simpl. rewrite tok_starts by done. by apply Hc.
  - intros b. destruct (ends_in_last _ _ _ _ _ He M) as (t & Hl' & Ht). by rewrite (last_end_word _ _ t).
Qed.

Ltac word_class := unfold word, alnum, alpha, digit, range, dash_us, b64url in *; intros; lia.
Lemma ends_jwt : ends_in (fun _ => true) jwt_body. Proof. by split. Qed.
Lemma ends_api : ends_in word api_body. Proof. by split. Qed.
Lemma ends_card : ends_in word card_body. Proof. split; [done|]. apply digit_word. Qed.
Lemma ends_email : ends_in word email_body. Proof. split; [done|]. apply alpha_word. Qed.
Lemma ends_ipv4 : ends_in word ipv4_body. Proof. split; [done|]. apply digit_word. Qed.
Lemma ends_inn : ends_in word inn_body. Proof. split; [done|]. apply digit_word. Qed.
Lemma ends_cn_phone : ends_in word cn_phone_body. Proof. split; [done|]. apply digit_word. Qed.
Lemma ends_cn_id : ends_in word cn_id_body.
Proof. simpl. intros x. unfold word, alnum, alpha, digit, range. lia. Qed.

Lemma card_ok : proper card_body redactBankCard /\ keeps card_body redactBankCard.
Proof.
  split.
  - intros p w rest Hok M. simpl.
    destruct (digit_match digit _ _ p w rest digit_word ends_card ltac:(done) ltac:(left; by eexists _, _) Hok M) as [-> ->].
    split_and!; [|done|done]. unfold redactBankCard. destruct (_ || _) eqn:E; [|by destruct (stake 4 _)].
    apply toks_nonempty; [by apply Forall_app in Hok as [? _]|].
    eapply ends_in_reads; [apply ends_card|by apply bounded_body].
  - intros p w rest b u Hok M. unfold redactBankCard. destruct (_ || _); [done|]. intros Hw Hl.
    apply mask_words in Hw; [lia| | |by apply Nat.ltb_lt|done..]; rewrite ?stake_length, ?last_n_length; lia.
Qed.
Lemma cn_phone_ok : proper cn_phone_body redactCNPhone /\ keeps cn_phone_body redactCNPhone.
Proof.
  split.
  - intros p w rest Hok M. simpl.
    destruct (digit_match (one 49) (lit "1") _ p w rest ltac:(unfold one; word_class) ends_cn_phone ltac:(done) ltac:(by right) Hok M) as [-> ->].
    split_and!; [|done|done]. unfold redactCNPhone. destruct (negb _) eqn:E; [|by destruct (stake 3 _)].
    apply toks_nonempty; [by apply Forall_app in Hok as [? _]|].
    eapply ends_in_reads; [apply ends_cn_phone|by apply bounded_body].
  - intros p w rest b u Hok M. unfold redactCNPhone. destruct (negb _); [done|]. intros Hw Hl.
    apply mask_words in Hw; [lia| | |by apply Nat.ltb_lt|done..]; rewrite ?stake_length, ?last_n_length; lia.
Qed.
Lemma inn_proper : proper inn_body redactINNCandidate.
Proof.
  intros p w rest Hok M. unfold redactINNCandidate. destruct (_ || _); [done|]. split_and!; [|done..].
  apply toks_nonempty; [by apply Forall_app in Hok as [? _]|].
  eapply ends_in_reads; [apply ends_inn|by apply bounded_body].
Qed.

Lemma email_ok : proper email_body redactEmail /\ keeps email_body redactEmail.
Proof.
  split.
  - intros p w rest Hok M. simpl. unfold redactEmail.
    destruct (cut_at "@" (toks_str w)) as [[local domain]|] eqn:E; [|done].
    destruct (String.eqb_spec local "") as [->|Hl]; [done|]. apply cut_at_Some in E as [-> _].
    destruct local as [|c local]; [done|]. simpl. split_and!; [done|done|].
    by rewrite !end_word_app.
  - intros p w rest b u Hok M Hw Hlen. unfold redactEmail in Hw.
    destruct (cut_at "@" (toks_str w)) as [[local domain]|] eqn:E;
      [|apply whole_word_max_run in Hw; simpl in Hw; lia].
    destruct (String.eqb_spec local "") as [->|Hl]; [apply whole_word_max_run in Hw; simpl in Hw; lia|].
    apply cut_at_Some in E as [-> _]. destruct local as [|c local]; [done|]. cbn [stake] in Hw.
    apply whole_word_app in Hw as [Hw%whole_word_len|Hw]; [simpl in Hw; lia| |by rewrite andb_false_r].
    change ("***@" +:+ domain) with ("***@" +:+ domain) in Hw.
    apply whole_word_app in Hw as [Hw%whole_word_none|Hw]; [done|done| |done].
    change (String "@" domain) with ("@" +:+ domain). apply whole_word_r, whole_word_r. exact Hw.
Qed.

Lemma ipv4_ok : proper ipv4_body redactIPv4 /\ keeps ipv4_body redactIPv4.
Proof.
  assert (forall s, s <> "" -> redactIPv4 s = s \/ exists p0 p1 t, s = p0 +:+ t /\ p0 <> "" /\
    (String.length p0 < 10)%nat /\ (String.length p1 < 10)%nat /\ redactIPv4 s = p0 +:+ "." +:+ p1 +:+ ".*.*") as Hred.
  { intros s Hs. unfold redactIPv4. pose proof (Join_Split s ".") as J.
    destruct (Split s ".") as [|p0 [|p1 [|p2 [|p3 [|]]]]]; try by left.
    destruct (forallb _ _) eqn:F; [right|by left]. simpl in F. unfold slen in F.
    rewrite !andb_true_iff in F. destruct F as ((F0 & _) & (F1 & _) & _).
    exists p0, p1, (String "." (Join [p1; p2; p3] ".")). split_and!; [by rewrite <- J|by intros ->|lia|lia|done]. }
  split.
  - intros p w rest Hok M. pose proof Hok as [Hw _]%Forall_app.
    assert (toks_str w <> "") as Hne.
    { apply toks_nonempty; [done|]. eapply ends_in_reads; [apply ends_ipv4|by apply bounded_body]. }
    simpl. destruct (Hred _ Hne) as [->|(p0 & p1 & t & E & Hp & _ & _ & ->)]; [done|].
    rewrite E, !starts_word_app by done. split_and!; [by destruct p0|done|].
    rewrite !end_word_app. done.
  - intros p w rest b u Hok M Hw Hlen. pose proof Hok as [Hok' _]%Forall_app.
    assert (toks_str w <> "") as Hne.
    { apply toks_nonempty; [done|]. eapply ends_in_reads; [apply ends_ipv4|by apply bounded_body]. }
    destruct (Hred _ Hne) as [E|(p0 & p1 & t & E & Hp & H0 & H1 & Er)]; [by rewrite E in Hw|].
    rewrite Er in Hw. exfalso. apply whole_word_app in Hw as [Hw%whole_word_len|Hw]; [lia| |by rewrite andb_false_r].
    apply whole_word_app in Hw as [Hw%whole_word_none|Hw]; [done|done| |done].
    apply whole_word_app in Hw as [Hw%whole_word_len|Hw%whole_word_none]; [lia|done|done|by rewrite andb_false_r].
Qed.

(** *** ASCII tokens decode to themselves *)
Definition ascii_tok (t : token) : Prop := exists c, is_ascii c = true /\ t = (byte_z c, String c "").
Lemma ascii_toks_decode m : Forall ascii_tok m -> rune_toks (toks_str m) = m.
Proof.
  induction 1 as [|t m (c & Hc & ->) _ IH]; [done|]. cbn [toks_str snd]. rewrite sapp_cons, sapp_nil_l.
  by rewrite rune_toks_char, IH.
Qed.
Lemma class_ascii (c : class) m :
  (forall x, c x = true -> x < 128) -> Forall tok_ok m -> Forall (fun t => c t.1 = true) m -> Forall ascii_tok m.
Proof.
  intros Hc Hok Hm. induction Hok as [|t m Ht _ IH]; [done|]. apply Forall_cons in Hm as [H1 Hm].
  constructor; [|by apply IH]. destruct Ht as [?|[Hr _]]; [done|]. apply Hc in H1. lia.
Qed.
Lemma ascii_toks_length m : Forall ascii_tok m -> String.length (toks_str m) = length m.
Proof. induction 1 as [|t m (c & _ & ->) _ IH]; [done|]. cbn [toks_str snd]. by rewrite slen_app, IH. Qed.
Lemma digit_small x : digit x = true -> x < 128.
Proof. unfold digit, range. lia. Qed.
Lemma sep_small x : sep x = true -> x < 128.
Proof. unfold sep, space. lia. Qed.

Definition dtoks (m : list token) : list token := filter (fun t => digit t.1 = true) m.
Lemma dtoks_digits m : Forall (fun t => digit t.1 = true) m -> dtoks m = m.
Proof. induction 1 as [|t m Ht _ IH]; [done|]. unfold dtoks in *. rewrite filter_cons_True by done. f_equal. exact IH. Qed.
Lemma dtoks_app a b : dtoks (a ++ b) = dtoks a ++ dtoks b.
Proof. apply filter_app. Qed.
Lemma dtoks_seps m : Forall (fun t => sep t.1 = true) m -> dtoks m = [].
Proof.
  induction 1 as [|t m Ht _ IH]; [done|]. unfold dtoks in *. rewrite filter_cons_False; [exact IH|].
  unfold sep, space, digit, range in *. lia.
Qed.
Lemma keepDigits_toks m : Forall ascii_tok m -> keepDigits (toks_str m) = toks_str (dtoks m).
Proof. intros Hm. unfold keepDigits, dtoks. by rewrite ascii_toks_decode. Qed.
Lemma dtoks_length m : Forall ascii_tok m -> slen (keepDigits (toks_str m)) = Z.of_nat (length (dtoks m)).
Proof.
  intros Hm. unfold slen. rewrite keepDigits_toks, ascii_toks_length; [done| |done].
  rewrite Forall_forall in *. intros t [_ Ht]%list_elem_of_filter. by apply Hm.
Qed.

(** A match of the card expression holds 13 to 19 digits. *)
Lemma card_digits p m rest :
  Forall tok_ok m -> Mt card_body p m rest -> 13 <= slen (keepDigits (toks_str m)) <= 19.
Proof.
  unfold card_body. intros Hok M.
  apply seqs_cons in M as (a1 & m1 & -> & [A1 [L1 U1]]%rep_inv & M); [|done].
  apply seqs_cons in M as (b1 & m2 & -> & [B1 _]%rep_inv & M); [|done].
  apply seqs_cons in M as (a2 & m3 & -> & [A2 [L2 U2]]%rep_inv & M); [|done].
  apply seqs_cons in M as (b2 & m4 & -> & [B2 _]%rep_inv & M); [|done].
  apply seqs_cons in M as (a3 & m5 & -> & [A3 [L3 U3]]%rep_inv & M); [|done].
  apply seqs_cons in M as (b3 & a4 & -> & [B3 _]%rep_inv & [A4 [L4 U4]]%rep_inv); [|done].
  rewrite !Forall_app in Hok. destruct Hok as (? & ? & ? & ? & ? & ? & ?).
  rewrite dtoks_length.
  - rewrite !dtoks_app, (dtoks_digits a1), (dtoks_digits a2), (dtoks_digits a3), (dtoks_digits a4),
      (dtoks_seps b1), (dtoks_seps b2), (dtoks_seps b3) by done.
    rewrite !length_app. simpl in *. lia.
  - rewrite !Forall_app. split_and!; eauto using class_ascii, digit_small, sep_small.
Qed.
Lemma cn_phone_digits p m rest :
  Forall tok_ok m -> Mt cn_phone_body p m rest -> slen (keepDigits (toks_str m)) = 11.
Proof.
  unfold cn_phone_body. intros Hok M.
  apply seqs_cons in M as (w1 & m1 & -> & (t1 & -> & T1)%char_inv & M); [|done].
  apply seqs_cons in M as (w2 & a3 & -> & (t2 & -> & T2)%char_inv & [A3 [L3 U3]]%rep_inv); [|done].
  assert (Forall (fun t => digit t.1 = true) ([t1] ++ [t2] ++ a3)) as Hd.
  { change (one 49 t1.1 = true) in T1. unfold one, range in T1, T2.
    repeat constructor; [| |done]; unfold digit, range; lia. }
  rewrite dtoks_length by eauto using class_ascii, digit_small. rewrite dtoks_digits by done.
  rewrite !length_app. simpl in *. lia.
Qed.

Lemma whole_word_all b w m : str_all wordb m = true -> whole_word b w m -> w = m.
Proof.
  intros Hm (x & y & -> & Hne & Ha & Hx & Hy). rewrite !str_all_app in Hm.
  apply andb_prop in Hm as [Hmx [_ Hmy]%andb_prop].
  destruct y as [|c y]; [|simpl in *; by rewrite Hy in Hmy]. destruct x as [|c x]; [by rewrite sapp_nil_l, sapp_nil_r|].
  by rewrite end_word_all in Hx.
Qed.

(** *** No replacement holds a number of the shape it is made for *)
Lemma short_not (P : string -> bool) w : long P -> (String.length w < 10)%nat -> P w = false.
Proof. intros HP Hw. apply not_true_is_false. intros H%HP. lia. Qed.

Lemma const_gone x P b w : long P -> (max_run x < 10)%nat -> whole_word b w x -> P w = false.
Proof. intros HP Hm Hw%whole_word_max_run. apply short_not; [done|lia]. Qed.
Lemma card_gone p m rest b w :
  Forall tok_ok (m ++ rest) -> Mt (bounded card_body) p m rest ->
  whole_word b w (redactBankCard (toks_str m)) -> card_word w = false.
Proof.
  intros [Hok _]%Forall_app M%bounded_body Hw. pose proof (card_digits _ _ _ Hok M). unfold redactBankCard in Hw.
  replace (_ || _) with false in Hw by lia. apply short_not; [apply long_card|].
  eapply mask_words; [..|exact Hw]; rewrite ?stake_length, ?last_n_length; (done || lia || by apply Nat.ltb_lt).
Qed.
Lemma cn_phone_gone p m rest b w :
  Forall tok_ok (m ++ rest) -> Mt (bounded cn_phone_body) p m rest ->
  whole_word b w (redactCNPhone (toks_str m)) -> cn_mobile w = false.
Proof.
  intros [Hok _]%Forall_app M%bounded_body Hw. unfold redactCNPhone in Hw.
  rewrite (cn_phone_digits _ _ _ Hok M) in Hw. apply short_not; [apply long_mobile|].
  eapply mask_words; [..|exact Hw]; rewrite ?stake_length, ?last_n_length; (done || lia || by apply Nat.ltb_lt).
Qed.
Lemma inn_gone p m rest b w :
  Forall tok_ok (m ++ rest) -> Mt (bounded inn_body) p m rest ->
  whole_word b w (redactINNCandidate (toks_str m)) -> inn_word w = false.
Proof.
  intros [Hok _]%Forall_app [Hd _]%bounded_body%rep_inv Hw. unfold redactINNCandidate in Hw.
  destruct (_ || _) eqn:E; [apply (const_gone _ inn_word _ _ long_inn) in Hw; [done|by apply Nat.ltb_lt]|].
  assert (w = toks_str m) as ->.
  { eapply whole_word_all; [|exact Hw]. clear -Hok Hd.
    induction Hok as [|t m Ht _ IH]; [done|]. apply Forall_cons in Hd as [Hd Hm]. cbn [toks_str].
    rewrite str_all_app, IH by done. destruct Ht as [(c & _ & ->)|[Hr _]]; [|apply digit_small in Hd; lia].
    simpl. rewrite !andb_true_r. by apply digit_word. }
  unfold inn_word, len_in. rewrite andb_false_iff. right. lia.
Qed.

(** *** Every whole word of the shape is matched *)
Lemma char_toks_all (c : class) s :
  str_all (fun a => c (byte_z a)) s = true -> Forall (fun t => c t.1 = true) (char_toks s).
Proof. induction s as [|a s IH]; [done|]. simpl. intros [Ha Hs]%andb_prop. constructor; [done|by apply IH]. Qed.
Lemma rep_digits min max p w rest :
  all_digits w = true -> within min max (String.length w) -> Mt (RRep digit min max) p (char_toks w) rest.
Proof. intros Hd Hw. constructor; [by apply char_toks_all|by rewrite char_toks_length]. Qed.
Lemma opt_none c p rest : Mt (opt c) p [] rest.
Proof. constructor; [done|split; simpl; lia]. Qed.

Lemma inn_matches p w rest : inn_word w = true -> Mt inn_body p (char_toks w) rest.
Proof.
  unfold inn_word, len_in, slen. intros [Hd Hl]%andb_prop. apply rep_digits; [done|]. split; lia.
Qed.
Lemma cn_mobile_matches p w rest : cn_mobile w = true -> Mt cn_phone_body p (char_toks w) rest.
Proof.
  destruct w as [|a [|b w]]; [done..|]. unfold cn_mobile, len_in, slen.
  intros [[[Ha%Stdlib.Strings.Ascii.eqb_eq Hb]%andb_prop Hd]%andb_prop Hl]%andb_prop. subst a.
  change (char_toks (String "1" (String b w))) with
    ([(byte_z "1", "1")] ++ [(byte_z b, String b "")] ++ char_toks w).
  unfold cn_phone_body. apply seqs_cons; [done|]. eexists _, _. split; [done|]. split; [by constructor|].
  apply seqs_cons; [done|]. eexists _, _. split; [done|]. split; [by constructor|].
  apply rep_digits; [done|]. split; lia.
Qed.
Lemma cn_id_matches p w rest : cn_id w = true -> Mt cn_id_body p (char_toks w) rest.
Proof.
  unfold cn_id, len_in, slen. intros [[Hd Hl]%andb_prop Hx]%andb_prop.
  rewrite <- (stake_sdrop 17 w), char_toks_app. apply seqs_cons; [done|]. eexists _, _. split; [done|]. split.
  - apply rep_digits; [done|]. rewrite stake_length. split; lia.
  - assert (String.length (sdrop 17 w) = 1%nat) as L by (rewrite sdrop_length; lia).
    destruct (sdrop 17 w) as [|c [|]]; simpl in L; try lia. simpl in Hx. rewrite andb_true_r in Hx.
    constructor. simpl. destruct (digitb c) eqn:Hc; [unfold digitb in Hc; by rewrite Hc|]. simpl in Hx.
    apply orb_true_iff in Hx as [->%Stdlib.Strings.Ascii.eqb_eq| ->%Stdlib.Strings.Ascii.eqb_eq]; done.
Qed.
Lemma card_matches p w rest : card_word w = true -> Mt card_body p (char_toks w) rest.
Proof.
  unfold card_word, len_in, slen. intros [Hd Hl]%andb_prop.
  rewrite <- (stake_sdrop 4 w), char_toks_app. set (w1 := sdrop 4 w).
  rewrite <- (stake_sdrop 4 w1), char_toks_app. set (w2 := sdrop 4 w1).
  rewrite <- (stake_sdrop 4 w2), char_toks_app. set (w3 := sdrop 4 w2).
  assert (all_digits w1 = true) as D1 by (by apply str_all_sdrop).
  assert (all_digits w2 = true) as D2 by (by apply str_all_sdrop).
  assert (all_digits w3 = true) as D3 by (by apply str_all_sdrop).
  assert (String.length w3 = String.length w - 12)%nat as L3 by (unfold w3, w2, w1; rewrite !sdrop_length; lia).
  assert (forall x q rest, all_digits x = true -> (4 <= String.length x)%nat ->
            Mt (times digit 4) q (char_toks (stake 4 x)) rest) as H4.
  { intros x q rest' Hx Hlx. apply rep_digits; [by apply str_all_stake|]. rewrite stake_length. split; lia. }
  assert (forall x y, char_toks x ++ y = char_toks x ++ [] ++ y) as Hnil by done.
  unfold card_body. do 3 (apply seqs_cons; [done|]; eexists _, _; split; [done|]; split;
    [apply H4; [done|unfold w2, w1; rewrite ?sdrop_length; lia]|];
    apply seqs_cons; [done|]; eexists [], _; split; [done|]; split; [apply opt_none|]).
  apply rep_digits; [done|]. split; lia.
Qed.
End PiiFacts.

Module PiiProps.
Import Pii PiiFacts RegexFacts TokenFacts WordFacts Survivors.

(** A rule after which every long word was there before. *)
Definition calm (r : rule) : Prop :=
  forall P w s, long P -> P w = true -> whole_word false w (applyRule s r) -> whole_word false w s.
Lemma calm_rule body f l :
  reads body -> proper body f -> keeps body f -> calm (mkRule (bounded body) f l).
Proof. intros Hr Hp Hk P w s HP Hw Hin. by eapply (rule_keeps body f P). Qed.
Lemma calm_foldl rs P w s :
  Forall calm rs -> long P -> P w = true -> whole_word false w (foldl applyRule s rs) -> whole_word false w s.
Proof.
  intros Hrs HP Hw. revert s. induction Hrs as [|r rs Hr _ IH]; intros s; [done|].
  simpl. intros Hin%IH. by eapply Hr.
Qed.

Ltac const_rule := first [by apply const_proper | by apply const_keeps, Nat.ltb_lt].
Lemma universal_calm : Forall calm universalRules.
Proof.
  repeat constructor; apply calm_rule; try (eapply ends_in_reads; first
    [apply ends_jwt|apply ends_api|apply ends_card|apply ends_email|apply ends_ipv4]);
    first [apply card_ok|apply email_ok|apply ipv4_ok|const_rule].
Qed.
Lemma cn_calm : Forall calm cnRules.
Proof.
  repeat constructor; apply calm_rule; try (eapply ends_in_reads; first [apply ends_cn_phone|apply ends_cn_id]);
    first [apply cn_phone_ok|const_rule].
Qed.
Lemma later_calm n : Forall calm (drop n universalRules).
Proof. apply Forall_drop, universal_calm. Qed.

Lemma no_card s w : whole_word false w (foldl applyRule s universalRules) -> card_word w = false.
Proof.
  intros Hin. apply not_true_is_false. intros Hw. rewrite <- (take_drop 3 universalRules), foldl_app in Hin.
  apply (calm_foldl _ card_word) in Hin; [|apply later_calm|apply long_card|done].
  apply (rule_removes card_body redactBankCard card_word) in Hin;
    [congruence|by eapply ends_in_reads, ends_card|apply card_ok| |].
  - intros. by eapply card_gone.
  - intros. by apply card_matches.
Qed.
Lemma no_inn s w : whole_word false w (foldl applyRule s ruRules) -> inn_word w = false.
Proof.
  intros Hin. apply (rule_removes inn_body redactINNCandidate inn_word) in Hin;
    [done|by eapply ends_in_reads, ends_inn|apply inn_proper| |].
  - intros. by eapply inn_gone.
  - intros. by apply inn_matches.
Qed.
Lemma no_cn s w : whole_word false w (foldl applyRule s cnRules) -> cn_mobile w = false /\ cn_id w = false.
Proof.
  intros Hin. split.
  - apply not_true_is_false. intros Hw. rewrite <- (take_drop 1 cnRules), foldl_app in Hin.
    apply (calm_foldl _ cn_mobile) in Hin; [|apply (Forall_drop _ 1), cn_calm|apply long_mobile|done].
    apply (rule_removes cn_phone_body redactCNPhone cn_mobile) in Hin;
      [congruence|by eapply ends_in_reads, ends_cn_phone|apply cn_phone_ok| |].
    + intros. by eapply cn_phone_gone.
    + intros. by apply cn_mobile_matches.
  - apply (rule_removes cn_id_body (fun _ => "[REDACTED:CN_ID]") cn_id) in Hin;
      [done|by eapply ends_in_reads, ends_cn_id|const_rule| |].
    + intros. eapply const_gone; [apply long_id| |done]. by apply Nat.ltb_lt.
    + intros. by apply cn_id_matches.
Qed.

(** C22. No bare number survives redaction: no whole word of the output is a 13 to 19 digit card
    number, whatever the hint; none is a 10 or 12 digit INN unless the hint names cn or en; none
    is a Chinese mobile number or identity number unless the hint names ru or en.  Russian mobile
    numbers are not among the promises: [ru_mobile_survives] shows one that stays readable. *)
Theorem no_number_survives `{UnicodeCase} hint s w :
  whole_word false w (RedactString NewRedactor hint s) ->
  card_word w = false /\
  (hint_of hint <> "cn" -> hint_of hint <> "en" -> inn_word w = false) /\
  (hint_of hint <> "ru" -> hint_of hint <> "en" -> cn_mobile w = false /\ cn_id w = false).
Proof.
  unfold RedactString. destruct (String.eqb_spec s "") as [->|_]; [intros Hw; by apply whole_word_none in Hw|].
  cbv zeta. set (out := if String.eqb (hint_of hint) JurisdictionRU then _ else _).
  cbn [universal NewRedactor]. intros Hin. split; [by eapply no_card|].
  assert (forall P, long P -> (whole_word false w out -> P w = false) -> P w = false) as Hback.
  { intros P HP Ho. apply not_true_is_false. intros Hw.
    apply (calm_foldl _ P) in Hin; [|apply universal_calm|done|done]. by rewrite Ho in Hw. }
  assert (forall P s', long P -> whole_word false w (foldl applyRule s' cnRules) ->
            (whole_word false w s' -> P w = false) -> P w = false) as Hcn.
  { intros P s' HP Hw Ho. apply not_true_is_false. intros HPw.
    apply (calm_foldl _ P) in Hw; [|apply cn_calm|done|done]. by rewrite Ho in HPw. }
  assert (forall s', whole_word false w (foldl applyRule (foldl applyRule s' ruRules) cnRules) -> inn_word w = false) as Hri.
  { intros s' Hw. eapply Hcn; [apply long_inn|exact Hw|apply no_inn]. }
  unfold out, JurisdictionRU, JurisdictionCN, JurisdictionEN in *. cbn [ru cn NewRedactor] in *. clear out Hin Hcn.
  revert Hback. destruct (String.eqb_spec (hint_of hint) "ru"), (String.eqb_spec (hint_of hint) "cn"),
    (String.eqb_spec (hint_of hint) "en"), (String.eqb_spec (hint_of hint) ""); intros Hback;
    (split; [|intros; split]); intros; try done; apply Hback; auto using long_inn, long_mobile, long_id.
  all: lazymatch goal with
       | |- whole_word _ _ (foldl _ _ ruRules) -> _ => apply no_inn
       | |- _ -> inn_word _ = _ => apply Hri
       | |- _ => by intros [? ?]%no_cn
       end.
Qed.

#[local] Existing Instance plain_case.
(** The Russian phone pattern has no word boundaries: it takes the first two digits of a number for the end
    of the group before it, and leaves the rest, which its own masked text completes to the number. *)
Lemma ru_mobile_survives :
  let s := "7912 345 67 89123456789" in
  RedactString (H := plain_case) NewRedactor "ru" s = "+7-912-***-**-89123456789" /\
  whole_word false "89123456789" (RedactString (H := plain_case) NewRedactor "ru" s).
Proof.
  assert (RedactString (H := plain_case) NewRedactor "ru" "7912 345 67 89123456789" = "+7-912-***-**-89123456789") as E
    by (vm_compute; reflexivity).
  split; [exact E|]. cbv zeta. rewrite E. exists "+7-912-***-**-", "". split_and!; [reflexivity|discriminate|reflexivity..].
Qed.

Lemma no_number_survives_witness :
  RedactString NewRedactor "" "a 13812345678 b" = "a 138****5678 b" /\
  whole_word false "5678" (RedactString NewRedactor "" "a 13812345678 b") /\ cn_mobile "5678" = false.
Proof.
  assert (whole_word false "5678" (RedactString NewRedactor "" "a 13812345678 b")) as Hw.
  { exists "a 138****", " b". vm_compute. done. }
  split; [vm_compute; reflexivity|]. split; [exact Hw|].
  apply (no_number_survives "" "a 13812345678 b" "5678" Hw); vm_compute; done.
Defined.
End PiiProps.
