(* ===== verification/Validate.v ===== *)
(** * validate/validate.go, utils/phone.go, notification/notification.go

    Checks and masks on the expressions of [Regex]. *)
From S2P Require Import Prelude GoStd Regex.
Import Regex RegexFacts TokenFacts.
Open Scope go_scope.

Module Validate.

(** ** validate.go *)
Definition mail_local : class :=
  fun r => alnum r || (r =? 46) || (r =? 95) || (r =? 37) || (r =? 43) || (r =? 45).
Definition mail_host : class := fun r => alnum r || (r =? 46) || (r =? 45).
Definition emailRegex : re :=
  anchored (seqs [RRep mail_local 1 None; lit "@"; RRep mail_host 1 None; lit "."; RRep alpha 2 None]).
Definition Email (email : string) : res string unit :=
  if negb (MatchString emailRegex email) then Err "invalid email format" else Ok ().

Definition phoneRegex : re :=
  anchored (seqs [RRep (one 43) 0 (Some 1%nat); RChar (range 49 57); RRep digit 6 (Some 14%nat)]).
Definition Phone (phone : string) : res string unit :=
  if negb (MatchString phoneRegex phone) then Err "invalid phone number format" else Ok ().

(** ** utils/phone.go *)
Definition chinesePhonePattern : re := anchored (seqs [lit "1"; RChar (range 51 57); RRep digit 9 (Some 9%nat)]).
Definition IsValidChinesePhone (s : string) : bool :=
  if String.eqb s "" then false else MatchString chinesePhonePattern s.

(** [string(r)] for a rune: UTF-8, with U+FFFD for surrogates and values out of range. *)
Definition byte_of (z : Z) : ascii := ascii_of_nat (Z.to_nat z).
Definition encode_rune (r : Z) : string :=
  let r := if (r <? 0) || (1114111 <? r) || (55296 <=? r) && (r <=? 57343) then RuneError else r in
  if r <? 128 then String (byte_of r) ""
  else if r <? 2048 then String (byte_of (192 + r / 64)) (String (byte_of (128 + r mod 64)) "")
  else if r <? 65536 then
    String (byte_of (224 + r / 4096)) (String (byte_of (128 + r / 64 mod 64)) (String (byte_of (128 + r mod 64)) ""))
  else String (byte_of (240 + r / 262144)) (String (byte_of (128 + r / 4096 mod 64))
         (String (byte_of (128 + r / 64 mod 64)) (String (byte_of (128 + r mod 64)) ""))).
Fixpoint encode (rs : list Z) : string :=
  match rs with [] => "" | r :: rs' => encode_rune r +:+ encode rs' end.

Definition MaskChinesePhone (s : string) : string :=
  let rs := runes s in
  if Z.of_nat (length rs) <? 11 then s else encode (take 3 rs) +:+ "****" +:+ encode (drop 7 rs).

(** ** notification.go *)
Inductive notifErr := ErrInvalidMessage | ErrInvalidPayload.
Definition DefaultMaxTypeLength : Z := 128.
Definition DefaultMaxPayloadBytes : Z := 16384.
Definition DefaultMaxSubjectLength : Z := 200.
Record Message := mkMessage {
  TenantID : string; RecipientPrincipalID : string; Type_ : string; Subject : string; Payload : string; CreatedAt : Time }.
Record ValidationLimits := mkLimits { MaxTypeLength : Z; MaxPayloadBytes : Z; MaxSubjectLength : Z }.
Definition typePattern : re :=
  anchored (RCat (RChar (range 97 122))
                 (RRep (fun r => range 97 122 r || digit r || (r =? 95) || (r =? 46) || (r =? 45)) 0 None)).
Definition NormalizeType `{UnicodeCase} (msgType : string) : string := ToLower (TrimSpace msgType).
Definition withDefaults (l : ValidationLimits) : ValidationLimits :=
  mkLimits (if MaxTypeLength l =? 0 then DefaultMaxTypeLength else MaxTypeLength l)
           (if MaxPayloadBytes l =? 0 then DefaultMaxPayloadBytes else MaxPayloadBytes l)
           (if MaxSubjectLength l =? 0 then DefaultMaxSubjectLength else MaxSubjectLength l).
(** [json_valid] is json.Valid. *)
Definition ValidateMessage `{UnicodeCase} (json_valid : string -> bool) (msg : Message) (limits : ValidationLimits)
  : res notifErr unit :=
  let limits := withDefaults limits in
  if String.eqb (TrimSpace (TenantID msg)) "" || String.eqb (TrimSpace (RecipientPrincipalID msg)) ""
  then Err ErrInvalidMessage else
  let msgType := NormalizeType (Type_ msg) in
  if String.eqb msgType "" || (MaxTypeLength limits <? slen msgType) || negb (MatchString typePattern msgType)
  then Err ErrInvalidMessage else
  if MaxSubjectLength limits <? Z.of_nat (length (runes (TrimSpace (Subject msg)))) then Err ErrInvalidMessage else
  if MaxPayloadBytes limits <? slen (Payload msg) then Err ErrInvalidPayload else
  if (0 <? slen (Payload msg)) && negb (json_valid (Payload msg)) then Err ErrInvalidPayload else Ok ().

Example email_examples :
  Email "a.b+c@host.example.com" = Ok () /\ is_ok (Email "a@b") = false /\ is_ok (Email "a b@c.de") = false.
Proof. vm_compute. done. Qed.
Example mask_long : MaskChinesePhone "13812345678999" = "138****5678999" /\ MaskChinesePhone "123" = "123".
Proof. vm_compute. done. Qed.
End Validate.

Module ValidateFacts.
Import Validate.

Definition digits (s : string) : bool := str_all (fun c => digit (byte_z c)) s.

(** The text of an anchored match whose classes are ASCII. *)
Lemma ascii_whole (c : class) s w1 w2 :
  (forall x, c x = true -> x < 128) -> rune_toks s = w1 ++ w2 -> Forall (fun t => c t.1 = true) w1 ->
  exists s1 s2, s = s1 +:+ s2 /\ w1 = char_toks s1 /\ rune_toks s2 = w2 /\
    str_all (fun a => c (byte_z a)) s1 = true.
Proof.
  intros Hc. revert s. induction w1 as [|t w1 IH]; intros s E Hw.
  { exists "", s. by rewrite sapp_nil_l. }
  apply Forall_cons in Hw as [Ht Hw]. destruct (rune_toks_spec s) as [Hok Hs].
  rewrite E in Hok, Hs. apply Forall_cons in Hok as [[(a & Ha & ->)|[Hr _]] _]; [|apply Hc in Ht; lia].
  cbn [app toks_str snd] in Hs. rewrite sapp_cons, sapp_nil_l in Hs.
  rewrite <- Hs, rune_toks_char in E by done. injection E as E.
  destruct (IH _ E Hw) as (s1 & s2 & E2 & -> & E3 & H3). exists (String a s1), s2.
  rewrite sapp_cons, <- E2. split_and!; [done..|]. simpl in *. by rewrite Ht, H3.
Qed.
Lemma digit_lt x : digit x = true -> x < 128.
Proof. unfold digit, range. lia. Qed.

Lemma digits_ascii s : digits s = true -> str_all is_ascii s = true.
Proof.
  apply str_all_impl. intros c Hc. rewrite is_ascii_lt. apply Z.ltb_lt. by apply digit_lt.
Qed.
Lemma rep_char_toks (c : class) min max p s rest :
  str_all (fun a => c (byte_z a)) s = true -> within min max (String.length s) -> Mt (RRep c min max) p (char_toks s) rest.
Proof.
  intros Hs Hw. constructor; [|by rewrite char_toks_length]. clear Hw. induction s as [|a s IH]; [done|].
  simpl in Hs. apply andb_prop in Hs as [Ha Hs]. constructor; [done|by apply IH].
Qed.
Lemma rune_toks_digits s : digits s = true -> rune_toks s = char_toks s.
Proof.
  intros Hs. pose proof (rune_toks_ascii s "" (digits_ascii s Hs)) as E.
  by rewrite sapp_nil_r, app_nil_r in E.
Qed.

(** Runes of an ASCII text, and encoding them back. *)
Lemma runes_ascii s : str_all is_ascii s = true -> runes s = byte_z <$> list_ascii_of_string s.
Proof.
  intros Hs. unfold runes. pose proof (rune_toks_ascii s "" Hs) as E. rewrite sapp_nil_r, app_nil_r in E.
  rewrite E. unfold char_toks. by rewrite <- list_fmap_compose.
Qed.
Lemma encode_byte c : is_ascii c = true -> encode_rune (byte_z c) = String c "".
Proof.
  rewrite is_ascii_lt. intros Hc%Z.ltb_lt. pose proof (byte_z_bound c). unfold encode_rune. cbv zeta. zdec. zdec.
  unfold byte_of, byte_z. rewrite Nat2Z.id. by rewrite Stdlib.Strings.Ascii.ascii_nat_embedding.
Qed.
Lemma encode_take n s :
  str_all is_ascii s = true -> encode (take n (byte_z <$> list_ascii_of_string s)) = stake n s.
Proof.
  revert n. induction s as [|c s IH]; intros [|n] Hs; try done. simpl in Hs. apply andb_prop in Hs as [Hc Hs].
  simpl. by rewrite encode_byte, IH, sapp_cons, sapp_nil_l.
Qed.
Lemma encode_drop n s :
  str_all is_ascii s = true -> encode (drop n (byte_z <$> list_ascii_of_string s)) = sdrop n s.
Proof.
  revert n. induction s as [|c s IH]; intros [|n] Hs; try done; simpl in Hs; apply andb_prop in Hs as [Hc Hs].
  - change (encode_rune (byte_z c) +:+ encode (drop 0 (byte_z <$> list_ascii_of_string s)) = String c s).
    rewrite encode_byte, IH, sapp_cons, sapp_nil_l by done. by destruct s.
  - simpl. by apply IH.
Qed.
End ValidateFacts.

Module ValidateProps.
Import Validate ValidateFacts.

(** [Phone] accepts exactly the texts of an optional plus sign, a digit from 1 to 9 and six to
    fourteen more digits. *)
Lemma phone_language s :
  Phone s = Ok () <->
  exists plus c t, s = plus +:+ String c t /\ (plus = "" \/ plus = "+") /\ range 49 57 (byte_z c) = true /\
    digits t = true /\ (6 <= String.length t <= 14)%nat.
Proof.
  assert (Phone s = Ok () <-> MatchString phoneRegex s = true) as ->
    by (unfold Phone; by destruct (MatchString phoneRegex s)).
  unfold phoneRegex. rewrite anchored_iff. split.
  - intros M. apply seqs_cons in M as (w1 & w2 & E & [P1 [_ L1]]%rep_inv & M); [|done].
    apply seqs_cons in M as (w3 & w4 & -> & (t & -> & Ht)%char_inv & [P4 [L4 U4]]%rep_inv); [|done].
    apply (ascii_whole (one 43)) in E as (plus & s2 & -> & -> & E2 & A1); [|unfold one; lia|done].
    destruct (ascii_whole (range 49 57) s2 [t] w4 ltac:(unfold range; lia) E2 ltac:(by constructor))
      as (s3 & s4 & -> & E3 & E4 & A3).
    destruct (ascii_whole digit s4 w4 [] digit_lt ltac:(by rewrite app_nil_r) P4) as (s5 & s6 & -> & -> & E6 & A5).
    rewrite char_toks_length in *. destruct s3 as [|c [|]]; [done| |done].
    assert (s6 = "") as -> by (destruct (rune_toks_spec s6) as [_ <-]; by rewrite E6).
    exists plus, c, s5. rewrite sapp_nil_r. simpl in A3. rewrite andb_true_r in A3.
    split_and!; [done| |done|done|lia|lia].
    destruct plus as [|a [|]]; [by left| |simpl in L1; lia]. right. cbn [str_all] in A1. rewrite andb_true_r in A1.
    unfold one, byte_z in A1. f_equal. apply Z.eqb_eq in A1.
    rewrite <- (Stdlib.Strings.Ascii.ascii_nat_embedding a). by replace (nat_of_ascii a) with 43%nat by lia.
  - intros (plus & c & t & -> & Hp & Hc & Ht & Hl).
    assert (str_all is_ascii (plus +:+ String c t) = true) as Ha.
    { rewrite str_all_app. simpl. rewrite (digits_ascii t Ht), andb_true_r. apply andb_true_intro. split.
      - by destruct Hp as [-> | ->].
      - rewrite is_ascii_lt. unfold range in Hc. lia. }
    pose proof (rune_toks_ascii _ "" Ha) as E. rewrite sapp_nil_r, app_nil_r in E. rewrite E.
    change (String c t) with (String c "" +:+ t). rewrite !char_toks_app.
    apply seqs_cons; [done|]. eexists _, _. split; [done|]. split.
    { apply rep_char_toks; [by destruct Hp as [-> | ->]|]. destruct Hp as [-> | ->]; split; simpl; lia. }
    apply seqs_cons; [done|]. eexists _, _. split; [done|]. split; [by constructor|].
    apply rep_char_toks; [done|]. split; lia.
Qed.

Lemma chinese_phone_iff s :
  IsValidChinesePhone s = true <->
  exists c t, s = String "1" (String c t) /\ range 51 57 (byte_z c) = true /\ digits t = true /\ String.length t = 9%nat.
Proof.
  assert (IsValidChinesePhone s = MatchString chinesePhonePattern s) as ->
    by (unfold IsValidChinesePhone; by destruct (String.eqb_spec s "") as [->|]).
  unfold chinesePhonePattern. rewrite anchored_iff. split.
  - intros M. apply seqs_cons in M as (w1 & w2 & E & (t1 & -> & H1)%char_inv & M); [|done].
    apply seqs_cons in M as (w3 & w4 & -> & (t & -> & Ht)%char_inv & [P4 [L4 U4]]%rep_inv); [|done].
    destruct (ascii_whole (one 49) s [t1] ([t] ++ w4) ltac:(unfold one; lia) E ltac:(by constructor))
      as (s1 & s2 & -> & E1 & E2 & A1).
    destruct (ascii_whole (range 51 57) s2 [t] w4 ltac:(unfold range; lia) E2 ltac:(by constructor))
      as (s3 & s4 & -> & E3 & E4 & A3).
    destruct (ascii_whole digit s4 w4 [] digit_lt ltac:(by rewrite app_nil_r) P4) as (s5 & s6 & -> & -> & E6 & A5).
    rewrite char_toks_length in *. destruct s1 as [|a [|]]; [done| |done]. destruct s3 as [|c [|]]; [done| |done].
    assert (s6 = "") as -> by (destruct (rune_toks_spec s6) as [_ <-]; by rewrite E6).
    exists c, s5. rewrite sapp_nil_r. cbn [str_all] in A1, A3. rewrite andb_true_r in A1, A3.
    split_and!; [|done|done|lia]. unfold one, byte_z in A1. apply Z.eqb_eq in A1.
    rewrite <- (Stdlib.Strings.Ascii.ascii_nat_embedding a). by replace (nat_of_ascii a) with 49%nat by lia.
  - intros (c & t & -> & Hc & Ht & Hl).
    assert (digits (String "1" (String c t)) = true) as Hd.
    { unfold digits in *. simpl. rewrite Ht, andb_true_r. unfold digit, range in *. lia. }
    rewrite rune_toks_digits by done.
    change (String "1" (String c t)) with ("1" +:+ String c "" +:+ t). rewrite !char_toks_app.
    apply seqs_cons; [done|]. eexists _, _. split; [done|]. split; [by constructor|].
    apply seqs_cons; [done|]. eexists _, _. split; [done|]. split; [by constructor|].
    apply rep_char_toks; [done|]. split; lia.
Qed.

(** Chinese mobile numbers: the check accepts exactly 1, a digit from 3 to 9 and nine digits;
    masking an accepted number shows its first three and last four digits around four stars,
    and the result is no longer accepted. *)
Theorem chinese_phone_masked s :
  (IsValidChinesePhone s = true <->
   exists c t, s = String "1" (String c t) /\ range 51 57 (byte_z c) = true /\ digits t = true /\ String.length t = 9%nat) /\
  (IsValidChinesePhone s = true ->
   MaskChinesePhone s = stake 3 s +:+ "****" +:+ sdrop 7 s /\ slen (MaskChinesePhone s) = 11 /\
   IsValidChinesePhone (MaskChinesePhone s) = false).
Proof.
  split; [apply chinese_phone_iff|]. intros (c & t & E & Hc & Ht & Hl)%chinese_phone_iff.
  assert (str_all is_ascii s = true) as Ha.
  { apply digits_ascii. subst s. unfold digits in *. simpl. rewrite Ht, andb_true_r. unfold digit, range in *. lia. }
  assert (MaskChinesePhone s = stake 3 s +:+ "****" +:+ sdrop 7 s) as Em.
  { unfold MaskChinesePhone. rewrite runes_ascii by done. rewrite length_fmap, lasc_length.
    assert (String.length s = 11%nat) as -> by (subst s; simpl; lia). by rewrite encode_take, encode_drop. }
  split; [done|]. rewrite Em. split.
  - unfold slen. rewrite !slen_app, stake_length, sdrop_length. rewrite E. simpl String.length. rewrite Hl. done.
  - apply not_true_is_false. intros (c' & t' & E' & _ & Ht' & _)%chinese_phone_iff.
    subst s. destruct t as [|c3 t]; [done|]. injection E' as _ <-.
    by apply andb_prop in Ht' as [_ Ht'].
Qed.
Lemma chinese_phone_masked_witness : MaskChinesePhone "13812345678" = "138****5678".
Proof. apply (chinese_phone_masked "13812345678"). vm_compute. reflexivity. Defined.
End ValidateProps.
