(* ===== verification/Gin.v ===== *)
(** * Request contexts: context.Context and the Gin context, as an interface

    The middleware and handler helpers work on a Gin context, which wraps the request with its
    [context.Context], the keys set along the chain and the response writer.  [Gin] lists the
    calls the packages make, [gview] is what can be read back, and [GinLaws] states the documented
    effect of each call on it.  [MemGin] satisfies the laws. *)
From S2P Require Import Prelude GoStd.

(** ** Values of interface type, with the dynamic types the packages ask for *)
Inductive any :=
| VNil | VStr (s : string) | VU64 (n : Z) | VI64 (n : Z) | VInt (n : Z) | VF64 (f : f64) | VOther (tag : string).

(** ** context.Context: a chain of [WithValue]s, newest first; keys of different types differ. *)
Inductive ctxKey :=
| ObsKey (name : string)          (* obs.ctxKey{name} *)
| MwKey (name : string)           (* middleware.ctxKey(name) *)
| TenantKey                       (* tenant.contextKey{} *)
| OtherKey (name : string).
#[export] Instance ctxKey_eq_dec : EqDecision ctxKey.
Proof. solve_decision. Defined.

Definition context : Type := list (ctxKey * any).
Definition Background : context := [].
Definition WithValue (ctx : context) (k : ctxKey) (v : any) : context := (k, v) :: ctx.
Fixpoint Value (ctx : context) (k : ctxKey) : any :=
  match ctx with
  | [] => VNil
  | (k', v) :: ctx' => if decide (k' = k) then v else Value ctx' k
  end.

Lemma Value_eq ctx k v : Value (WithValue ctx k v) k = v.
Proof. simpl. by rewrite decide_True. Qed.
Lemma Value_ne ctx k k' v : k' <> k -> Value (WithValue ctx k' v) k = Value ctx k.
Proof. intros Hk. simpl. by rewrite decide_False. Qed.
#[export] Hint Rewrite Value_eq : go_rw.
#[export] Hint Rewrite Value_ne using done : go_rw.

(** ** JSON documents as they are handed to the writer *)
#[warnings="-register-all"] Inductive json := JAny (v : any) | JObj (fields : list (string * json)).

(** ** The Gin context *)
Record request := mkRequest {
  q_method : string;
  q_path : string;
  q_headers : gmap string string;       (* GetHeader, by the name the code uses *)
  q_query : gmap string string;
  q_params : gmap string string;
  q_remote : string;                    (* RemoteAddr *)
  q_client_ip : string }.               (* c.ClientIP(), by the engine's proxy settings *)

Record gview := mkView {
  v_request : request;
  v_context : context;                  (* c.Request.Context() *)
  v_keys : gmap string any;
  v_headers : gmap string string;       (* the response's *)
  v_status : Z;
  v_bodies : list json;                 (* what was written *)
  v_aborted : bool }.

Class Gin := {
  gctx : Type;
  g_view : gctx -> gview;
  g_set : string -> any -> gctx -> gctx;                (* c.Set *)
  g_with_context : context -> gctx -> gctx;             (* c.Request = c.Request.WithContext(ctx) *)
  g_header : string -> string -> gctx -> gctx;          (* c.Header *)
  g_json : Z -> json -> gctx -> gctx;                   (* c.JSON *)
  g_abort : gctx -> gctx;                               (* c.Abort *)
  g_abort_status : Z -> gctx -> gctx }.                 (* c.AbortWithStatus *)

(** [c.Header] with an empty value removes the header. *)
Definition set_header (k v : string) (m : gmap string string) : gmap string string :=
  if String.eqb v "" then delete k m else <[k := v]> m.

Class GinLaws (G : Gin) := {
  set_view : forall k v c, g_view (g_set k v c) =
    let w := g_view c in
    mkView (v_request w) (v_context w) (<[k := v]> (v_keys w)) (v_headers w) (v_status w) (v_bodies w) (v_aborted w);
  with_context_view : forall ctx c, g_view (g_with_context ctx c) =
    let w := g_view c in
    mkView (v_request w) ctx (v_keys w) (v_headers w) (v_status w) (v_bodies w) (v_aborted w);
  header_view : forall k v c, g_view (g_header k v c) =
    let w := g_view c in
    mkView (v_request w) (v_context w) (v_keys w) (set_header k v (v_headers w)) (v_status w) (v_bodies w) (v_aborted w);
  json_view : forall st b c, v_bodies (g_view c) = [] -> g_view (g_json st b c) =
    let w := g_view c in
    mkView (v_request w) (v_context w) (v_keys w)
           (<["Content-Type" := "application/json; charset=utf-8"]> (v_headers w)) st [b] (v_aborted w);
  abort_view : forall c, g_view (g_abort c) =
    let w := g_view c in
    mkView (v_request w) (v_context w) (v_keys w) (v_headers w) (v_status w) (v_bodies w) true;
  abort_status_view : forall st c, v_bodies (g_view c) = [] -> g_view (g_abort_status st c) =
    let w := g_view c in
    mkView (v_request w) (v_context w) (v_keys w) (v_headers w) st (v_bodies w) true }.
#[export] Hint Rewrite @set_view @with_context_view @header_view @abort_view : go_rw.

Section reads.
Context `{Gin}.
Definition Method (c : gctx) : string := q_method (v_request (g_view c)).
Definition Path (c : gctx) : string := q_path (v_request (g_view c)).
Definition GetHeader (k : string) (c : gctx) : string := default "" (q_headers (v_request (g_view c)) !! k).
Definition Param (k : string) (c : gctx) : string := default "" (q_params (v_request (g_view c)) !! k).
Definition DefaultQuery (k d : string) (c : gctx) : string := default d (q_query (v_request (g_view c)) !! k).
Definition Request_Context (c : gctx) : context := v_context (g_view c).
(** [c.Get] without its boolean, and [c.GetString]. *)
Definition Get (k : string) (c : gctx) : any := default VNil (v_keys (g_view c) !! k).
Definition GetString (k : string) (c : gctx) : string := match Get k c with VStr s => s | _ => "" end.
End reads.

(** ** A context that satisfies the laws *)
Module MemGin.
#[export] Instance mem_gin : Gin := {|
  gctx := gview;
  g_view c := c;
  g_set k v w := mkView (v_request w) (v_context w) (<[k := v]> (v_keys w)) (v_headers w) (v_status w) (v_bodies w) (v_aborted w);
  g_with_context ctx w := mkView (v_request w) ctx (v_keys w) (v_headers w) (v_status w) (v_bodies w) (v_aborted w);
  g_header k v w := mkView (v_request w) (v_context w) (v_keys w) (set_header k v (v_headers w)) (v_status w) (v_bodies w) (v_aborted w);
  g_json st b w := mkView (v_request w) (v_context w) (v_keys w)
    (<["Content-Type" := "application/json; charset=utf-8"]> (v_headers w)) st (v_bodies w ++ [b]) (v_aborted w);
  g_abort w := mkView (v_request w) (v_context w) (v_keys w) (v_headers w) (v_status w) (v_bodies w) true;
  g_abort_status st w := mkView (v_request w) (v_context w) (v_keys w) (v_headers w) st (v_bodies w) true |}.
#[export] Instance mem_gin_laws : GinLaws mem_gin.
Proof. split; intros; try done. simpl. simpl in H. by rewrite H. Qed.

Definition get_request (headers query params : gmap string string) : gctx :=
  mkView (mkRequest "GET" "/" headers query params "192.0.2.1:1234" "192.0.2.1") Background ∅ ∅ 200 [] false.
End MemGin.
