(* ===== verification/Net.v ===== *)
(** * Client addresses: utils/ip.go and ginutil/ip.go

    [Net] is what the two files use of Go's net package: textual addresses, [SplitHostPort] and the
    address classes.  [Ip] is utils/ip.go, [GinIp] ginutil/ip.go. *)
From S2P Require Import Prelude GoStd Gin.
Open Scope go_scope.

Module Net.

(** An address is its bytes: four, or sixteen in network order. *)
Definition IP : Type := list Z.
Definition v4_prefix : list Z := replicate 10 0 ++ [255; 255].

Definition octet (s : string) : option Z :=
  match s with
  | "" => None
  | String c s' =>
      if str_all is_digit s && (String.eqb s' "" || negb (Ascii.eqb c "0")) then
        match parse_digits 0 s with (v, None) => if v <=? 255 then Some v else None | _ => None end
      else None
  end.
(** Dotted decimal: four octets without leading zeros. *)
Definition parse_v4 (s : string) : option (list Z) :=
  match Split s "." with
  | [a; b; c; d] => mapM octet [a; b; c; d]
  | _ => None
  end.

Definition hex_val (c : ascii) : option Z :=
  let n := Z.of_nat (nat_of_ascii c) in
  if (48 <=? n) && (n <=? 57) then Some (n - 48)
  else if (97 <=? n) && (n <=? 102) then Some (n - 87)
  else if (65 <=? n) && (n <=? 70) then Some (n - 55) else None.
(** A group of hexadecimal digits: its value, the number of digits and the rest. *)
Fixpoint hex_group (acc : Z) (off : nat) (s : string) : Z * nat * string :=
  match s with
  | String c s' => match hex_val c with Some v => hex_group (acc * 16 + v) (S off) s' | None => (acc, off, s) end
  | "" => (acc, off, s)
  end.
(** The loop of [parseIPv6]: [ip] are the bytes so far, [ell] where the ellipsis was.  It turns at
    most eight times. *)
Fixpoint v6_loop (n : nat) (ip : list Z) (ell : option nat) (s : string) : option (list Z * option nat * string) :=
  match n with
  | O => Some (ip, ell, s)
  | S n' =>
      let '(acc, off, rest) := hex_group 0 0 s in
      if (off =? 0)%nat || (4 <? off)%nat then None else
      match rest with
      | String "." _ =>
          if bool_decide (ell = None) && negb (length ip =? 12)%nat || (12 <? length ip)%nat then None
          else match parse_v4 s with Some q => Some (ip ++ q, ell, "") | None => None end
      | _ =>
          let ip := ip ++ [acc / 256; acc mod 256] in
          match rest with
          | "" => Some (ip, ell, "")
          | String ":" "" => None
          | String ":" (String ":" s') =>
              match ell with
              | Some _ => None
              | None => match s' with "" => Some (ip, Some (length ip), "") | _ => v6_loop n' ip (Some (length ip)) s' end
              end
          | String ":" s' => v6_loop n' ip ell s'
          | _ => None
          end
      end
  end.
Definition v6_finish (r : list Z * option nat * string) : option (list Z) :=
  let '(ip, ell, s) := r in
  if negb (String.eqb s "") then None
  else match ell with
       | None => if (length ip =? 16)%nat then Some ip else None
       | Some e => if (length ip <? 16)%nat
                   then Some (take e ip ++ replicate (16 - length ip) 0 ++ drop e ip) else None
       end.
Definition parse_v6 (s : string) : option (list Z) :=
  match s with
  | String ":" (String ":" "") => Some (replicate 16 0)
  | String ":" (String ":" s') => v6_loop 8 [] (Some 0%nat) s' ≫= v6_finish
  | _ => v6_loop 8 [] None s ≫= v6_finish
  end.
(** The first of the characters '.', ':' and '%' decides the family; an address with a zone is
    refused, so a '%' anywhere is too. *)
Fixpoint family (s : string) : option bool :=
  match s with
  | "" => None
  | String "." _ => Some true
  | String ":" _ => Some false
  | String "%" _ => None
  | String _ s' => family s'
  end.
(** [net.ParseIP]; [None] is nil. *)
Definition net_ParseIP (s : string) : option IP :=
  match family s with
  | Some true => (fun q => v4_prefix ++ q) <$> parse_v4 s
  | Some false => if ContainsByte s "%" then None else parse_v6 s
  | None => None
  end.

Definition To4 (ip : IP) : option (list Z) :=
  if (length ip =? 4)%nat then Some ip
  else if (length ip =? 16)%nat && bool_decide (take 12 ip = v4_prefix) then Some (drop 12 ip) else None.
Definition at_ (ip : IP) (i : nat) : Z := nth i ip 0.
Definition ip_IsLoopback (ip : IP) : bool :=
  match To4 ip with
  | Some q => at_ q 0 =? 127
  | None => bool_decide (ip = replicate 15 0 ++ [1])
  end.
Definition ip_IsPrivate (ip : IP) : bool :=
  match To4 ip with
  | Some q => (at_ q 0 =? 10) || (at_ q 0 =? 172) && (Z.land (at_ q 1) 240 =? 16) || (at_ q 0 =? 192) && (at_ q 1 =? 168)
  | None => (length ip =? 16)%nat && (Z.land (at_ ip 0) 254 =? 252)
  end.
Definition ip_IsLinkLocalUnicast (ip : IP) : bool :=
  match To4 ip with
  | Some q => (at_ q 0 =? 169) && (at_ q 1 =? 254)
  | None => (length ip =? 16)%nat && (at_ ip 0 =? 254) && (Z.land (at_ ip 1) 192 =? 128)
  end.

(** Cut at the last [c]. *)
Definition cut_last (c : ascii) (s : string) : option (string * string) :=
  match cut_at c (str_rev s) with Some (r, l) => Some (str_rev l, str_rev r) | None => None end.
(** [net.SplitHostPort] with its error as [None]. *)
Definition SplitHostPort (hp : string) : option (string * string) :=
  match cut_last ":" hp with
  | None => None
  | Some (before, port) =>
      match before with
      | String "[" inner =>
          match cut_at "]" inner with
          | Some (host, "") =>
              if ContainsByte host "[" || ContainsByte port "[" || ContainsByte port "]" then None else Some (host, port)
          | _ => None
          end
      | _ => if ContainsByte before ":" || ContainsByte hp "[" || ContainsByte hp "]" then None else Some (before, port)
      end
  end.
End Net.

Module Ip.
Import Net.

Definition UnknownIP : string := "unknown".
Definition clientIPHeaders : list string :=
  ["X-Forwarded-For"; "Proxy-Client-IP"; "WL-Proxy-Client-IP"; "HTTP_CLIENT_IP"; "HTTP_X_FORWARDED_FOR"; "X-Real-IP"].

(** [strings.EqualFold(s, "unknown")]: besides the ASCII letters only K has another form, the
    Kelvin sign. *)
Definition fold_rune (r : Z) : Z := if (65 <=? r) && (r <=? 90) then r + 32 else if r =? 8490 then 107 else r.
Definition is_unknown (s : string) : bool := bool_decide (fold_rune <$> runes s = runes UnknownIP).

Definition ParseClientIP (headerVal : string) : string :=
  let v := TrimSpace headerVal in
  if String.eqb v "" then "" else
  let v := match cut_at "," v with Some (l, _) => TrimSpace l | None => v end in
  if String.eqb v "" then "" else if is_unknown v then "" else v.

(** The request as its headers and remote address; [None] is nil. *)
Record httpRequest := mkReq { r_header : string -> string; RemoteAddr : string }.
Fixpoint probe (r : httpRequest) (hs : list string) : option string :=
  match hs with
  | [] => None
  | h :: hs' => let ip := ParseClientIP (r_header r h) in if String.eqb ip "" then probe r hs' else Some ip
  end.
Definition GetClientIP (req : option httpRequest) : string :=
  match req with
  | None => UnknownIP
  | Some r =>
      match probe r clientIPHeaders with
      | Some ip => ip
      | None =>
          if String.eqb (RemoteAddr r) "" then UnknownIP else
          match SplitHostPort (RemoteAddr r) with
          | Some (host, _) => if String.eqb host "" then RemoteAddr r else host
          | None => RemoteAddr r
          end
      end
  end.
Definition IsLoopback (ip : option IP) : bool := match ip with Some a => ip_IsLoopback a | None => false end.
Definition IsPrivate (ip : option IP) : bool := match ip with Some a => ip_IsPrivate a | None => false end.
Definition IsLinkLocal (ip : option IP) : bool := match ip with Some a => ip_IsLinkLocalUnicast a | None => false end.
Definition ParseIP (s : string) : option IP :=
  let s := TrimSpace s in
  if String.eqb s "" || is_unknown s then None else net_ParseIP s.

Example parse_client_ip_examples :
  ParseClientIP "203.0.113.7, 10.0.0.1" = "203.0.113.7" /\ ParseClientIP " unknown, 1.2.3.4" = "" /\
  ParseClientIP "UnKnown" = "" /\ ParseClientIP "not-an-ip" = "not-an-ip" /\ ParseClientIP " , 1.2.3.4" = "".
Proof. vm_compute. done. Qed.
Example class_examples :
  (fun s => IsPrivate (ParseIP s)) <$> ["10.1.2.3"; "172.16.5.5"; "172.31.255.254"; "192.168.0.1"; "fc00::1"; "fd00::1";
     "::ffff:10.0.0.1"] = replicate 7 true /\
  (fun s => IsPrivate (ParseIP s)) <$> ["172.15.0.1"; "172.32.0.1"; "8.8.8.8"; "127.0.0.1"; "2001:db8::1"; "::1"; "not-an-ip";
     "[fc00::1]"; "fc00::1%1"; "10.1"; "010.0.0.1"] = replicate 11 false /\
  (fun s => IsLoopback (ParseIP s)) <$> ["127.0.0.1"; "127.255.255.254"; "::1"; "127.0.0"; "0:0:0:0:0:0:0:1"] = [true; true; true; false; true] /\
  (fun s => IsLinkLocal (ParseIP s)) <$> ["169.254.1.1"; "fe80::1"; "8.8.8.8"; "fe80::1%1"] = [true; true; false; false].
Proof. vm_compute. done. Qed.
Example split_examples :
  SplitHostPort "192.0.2.1:80" = Some ("192.0.2.1", "80") /\ SplitHostPort "[::1]:80" = Some ("::1", "80") /\
  SplitHostPort "::1:80" = None /\ SplitHostPort "host" = None /\ SplitHostPort "[::1]" = None /\ SplitHostPort ":80" = Some ("", "80").
Proof. vm_compute. done. Qed.
End Ip.

Module GinIp.
Import Net Ip.
Definition ipHeaders : list string := ["X-Forwarded-For"; "X-Real-IP"; "Proxy-Client-IP"; "WL-Proxy-Client-IP"].
(** The first entry of a list that is an address. *)
Fixpoint first_ip (l : list string) : option string :=
  match l with
  | [] => None
  | ip :: l' =>
      let ip := TrimSpace ip in
      if String.eqb ip "" || is_unknown ip then first_ip l'
      else match net_ParseIP ip with Some _ => Some ip | None => first_ip l' end
  end.
Fixpoint header_ip `{Gin} (c : gctx) (hs : list string) : option string :=
  match hs with
  | [] => None
  | h :: hs' =>
      let val := GetHeader h c in
      if String.eqb val "" then header_ip c hs'
      else match first_ip (Split val ",") with Some ip => Some ip | None => header_ip c hs' end
  end.
Definition ClientIP `{Gin} (c : gctx) : string :=
  match header_ip c ipHeaders with
  | Some ip => ip
  | None =>
      let addr := q_remote (v_request (g_view c)) in
      match SplitHostPort addr with Some (ip, _) => ip | None => addr end
  end.
(** A private address in front of the chain is returned. *)
Example private_address_taken :
  ClientIP (MemGin.get_request {["X-Forwarded-For" := "10.0.0.1, 203.0.113.7"]} ∅ ∅) = "10.0.0.1" /\
  IsPrivate (ParseIP "10.0.0.1") = true.
Proof. vm_compute. done. Qed.
End GinIp.

Module NetFacts.
Import Net Ip.

Definition is_octet (a : Z) : Prop := 0 <= a < 256.
(** A check on every octet decides a statement about octets. *)
Lemma octet_cases (P : Z -> bool) : forallb P (seqZ 0 256) = true -> forall a, is_octet a -> P a = true.
Proof.
  intros Hp a Ha. rewrite forallb_forall in Hp. apply Hp. apply list_elem_of_In, elem_of_seqZ. unfold is_octet in Ha. lia.
Qed.
Lemma octet_strN a : is_octet a -> octet (strN a) = Some a.
Proof. intros Ha. apply (bool_decide_unpack _), Is_true_true. revert a Ha. apply (octet_cases (fun a => bool_decide (octet (strN a) = Some a))). by vm_compute. Qed.
Lemma octet_plain a : is_octet a -> str_all is_digit (strN a) = true.
Proof. intros Ha. apply strN_digits. unfold is_octet in Ha. lia. Qed.

Definition dotted (a b c d : Z) : string := strN a +:+ "." +:+ strN b +:+ "." +:+ strN c +:+ "." +:+ strN d.
Lemma dotted_cons a b c d :
  dotted a b c d = strN a +:+ String "." (strN b +:+ String "." (strN c +:+ String "." (strN d))).
Proof. done. Qed.

Lemma digits_family s t : str_all is_digit s = true -> family (s +:+ String "." t) = Some true.
Proof.
  induction s as [|c s IH]; [done|]. intros Hd. apply andb_prop in Hd as [Hc Hs]. rewrite sapp_cons.
  assert (family (String c (s +:+ String "." t)) = family (s +:+ String "." t)) as ->; [|by apply IH].
  destruct c as [[] [] [] [] [] [] [] []]; done.
Qed.
Lemma parse_dotted a b c d :
  is_octet a -> is_octet b -> is_octet c -> is_octet d -> net_ParseIP (dotted a b c d) = Some (v4_prefix ++ [a; b; c; d]).
Proof.
  intros Ha Hb Hc Hd. rewrite dotted_cons. unfold net_ParseIP. rewrite digits_family by by apply octet_plain.
  assert (forall x, is_octet x -> ContainsByte (strN x) "." = false) as Hno.
  { intros x Hx. by apply (str_all_ContainsByte is_digit); [|apply octet_plain]. }
  unfold parse_v4. rewrite !Split_app by auto. rewrite Split_none by auto.
  simpl. by rewrite !octet_strN.
Qed.
Lemma dotted_head a b c d :
  is_octet a -> exists x s, dotted a b c d = String x s /\ is_digit x = true.
Proof.
  intros Ha. pose proof (strN_nonempty a) as Hne. pose proof (octet_plain a Ha) as Hd. rewrite dotted_cons.
  destruct (strN a) as [|x s]; [done|]. apply andb_prop in Hd as [Hx _]. rewrite sapp_cons. eauto.
Qed.
Definition quad_char (c : ascii) : bool := is_digit c || Ascii.eqb c ".".
Lemma dotted_chars a b c d :
  is_octet a -> is_octet b -> is_octet c -> is_octet d -> str_all quad_char (dotted a b c d) = true.
Proof.
  intros Ha Hb Hc Hd. unfold dotted. rewrite !str_all_app.
  assert (forall x, is_octet x -> str_all quad_char (strN x) = true) as H.
  { intros x Hx. eapply str_all_impl; [|by apply octet_plain]. intros y Hy. unfold quad_char. by rewrite Hy. }
  by rewrite !H.
Qed.
Lemma quad_char_visible c : quad_char c = true -> visible c = true.
Proof. destruct c as [[] [] [] [] [] [] [] []]; vm_compute; done. Qed.
End NetFacts.

Module NetProps.
Import Net Ip NetFacts.

Lemma digit_not_unknown x s : is_digit x = true -> is_unknown (String x s) = false.
Proof.
  intros Hx. apply bool_decide_eq_false_2.
  assert (runes UnknownIP = [117; 110; 107; 110; 111; 119; 110]) as -> by (by vm_compute).
  unfold runes. cbn [rune_toks].
  assert (48 <= Z.of_nat (nat_of_ascii x) <= 57) as Hr.
  { unfold is_digit, digit_val in Hx. apply bool_decide_eq_true in Hx as [v Hv].
    destruct (_ && _) eqn:E; [|done]. apply andb_prop in E as [?%Z.leb_le ?%Z.leb_le]. done. }
  zdec. rewrite !fmap_cons. cbn [fst]. unfold fold_rune at 1. zdec. intros E. injection E. lia.
Qed.
Definition v4_number (a b c d : Z) : Z := a * 2 ^ 24 + b * 2 ^ 16 + c * 2 ^ 8 + d.

(** IPv4 addresses: the dotted text of any four octets parses to exactly that address, and the
    classification agrees with the address blocks: private is 10.0.0.0/8, 172.16.0.0/12 and
    192.168.0.0/16, loopback 127.0.0.0/8, link-local 169.254.0.0/16, and no address is in two
    classes. *)
Theorem ipv4_roundtrip_and_classes a b c d :
  is_octet a -> is_octet b -> is_octet c -> is_octet d ->
  let ip := ParseIP (dotted a b c d) in let n := v4_number a b c d in
  ip = Some (v4_prefix ++ [a; b; c; d]) /\
  IsPrivate ip = (n / 2 ^ 24 =? 10) || (n / 2 ^ 20 =? 2753) || (n / 2 ^ 16 =? 49320) /\
  IsLoopback ip = (n / 2 ^ 24 =? 127) /\
  IsLinkLocal ip = (n / 2 ^ 16 =? 43518) /\
  (IsPrivate ip && IsLoopback ip) || (IsPrivate ip && IsLinkLocal ip) || (IsLoopback ip && IsLinkLocal ip) = false.
Proof.
  intros Ha Hb Hc Hd ip n.
  assert (ip = Some (v4_prefix ++ [a; b; c; d])) as E.
  { unfold ip, ParseIP. rewrite TrimSpace_visible.
    - destruct (dotted_head a b c d Ha) as (x & s & Ex & Hx). rewrite Ex. cbn [String.eqb]. rewrite digit_not_unknown by done.
      cbn [orb]. rewrite <- Ex. by apply parse_dotted.
    - eapply str_all_impl; [|by apply dotted_chars]. apply quad_char_visible. }
  assert ((Z.land b 240 =? 16) = (b / 16 =? 1)) as Hl.
  { apply eqb_prop, (octet_cases (fun b => Bool.eqb (Z.land b 240 =? 16) (b / 16 =? 1))); [by vm_compute|done]. }
  unfold is_octet in *. rewrite E. unfold IsPrivate, IsLoopback, IsLinkLocal, ip_IsPrivate, ip_IsLoopback, ip_IsLinkLocalUnicast.
  assert (To4 (v4_prefix ++ [a; b; c; d]) = Some [a; b; c; d]) as -> by done.
  cbn [at_ nth]. rewrite Hl. unfold n, v4_number. split_and!; [done|..].
  - apply eq_true_iff_eq. rewrite !orb_true_iff, !andb_true_iff, !Z.eqb_eq. Z.to_euclidean_division_equations. lia.
  - apply eq_true_iff_eq. rewrite !Z.eqb_eq. Z.to_euclidean_division_equations. lia.
  - apply eq_true_iff_eq. rewrite !andb_true_iff, !Z.eqb_eq. Z.to_euclidean_division_equations. lia.
  - apply not_true_iff_false. rewrite !orb_true_iff, !andb_true_iff, !orb_true_iff, !andb_true_iff, !Z.eqb_eq. lia.
Qed.
Lemma ipv4_roundtrip_and_classes_witness : IsPrivate (ParseIP (dotted 172 31 255 254)) = true.
Proof.
  refine (eq_trans (proj1 (proj2 (ipv4_roundtrip_and_classes 172 31 255 254 _ _ _ _))) _); try (unfold is_octet; lia).
  vm_compute. reflexivity.
Defined.

(** *** Headers *)
Definition clean (v : string) : Prop :=
  v <> "" /\ TrimSpace v = v /\ ContainsByte v "," = false /\ is_unknown v = false.
Lemma ParseClientIP_clean v : ParseClientIP v = "" \/ clean (ParseClientIP v).
Proof.
  unfold ParseClientIP. destruct (String.eqb_spec (TrimSpace v) ""); [by left|].
  destruct (cut_at "," (TrimSpace v)) as [[l r]|] eqn:E.
  - destruct (String.eqb_spec (TrimSpace l) ""); [by left|]. destruct (is_unknown (TrimSpace l)) eqn:U; [by left|].
    right. split_and!; [done|apply TrimSpace_idem| |done]. apply cut_at_Some in E as [_ El].
    destruct (TrimSpace_infix l) as (p & q & Ep). rewrite Ep, !ContainsByte_app in El. by destruct (ContainsByte (TrimSpace l) ","), (ContainsByte p ",").
  - destruct (String.eqb_spec (TrimSpace v) ""); [done|]. destruct (is_unknown (TrimSpace v)) eqn:U; [by left|].
    right. split_and!; [done|apply TrimSpace_idem|by apply cut_at_None|done].
Qed.
Lemma ParseClientIP_fix v : clean v -> ParseClientIP v = v.
Proof.
  intros (Hne & Ht & Hc & Hu). unfold ParseClientIP. rewrite Ht. destruct (String.eqb_spec v ""); [done|].
  rewrite (proj2 (cut_at_None "," v)) by done. destruct (String.eqb_spec v ""); [done|]. by rewrite Hu.
Qed.
Lemma probe_spec r hs :
  match probe r hs with
  | Some ip => exists l h l', hs = l ++ h :: l' /\ ip = ParseClientIP (r_header r h) /\ ip <> "" /\
                 Forall (fun h' => ParseClientIP (r_header r h') = "") l
  | None => Forall (fun h => ParseClientIP (r_header r h) = "") hs
  end.
Proof.
  induction hs as [|h hs IH]; simpl; [done|]. destruct (String.eqb_spec (ParseClientIP (r_header r h)) "") as [E|E].
  - destruct (probe r hs) as [ip|]; [|by constructor]. destruct IH as (l & h' & l' & -> & -> & Hn & Hl).
    exists (h :: l), h', l'. split_and!; [done..|]. by constructor.
  - exists [], h, hs. split_and!; done.
Qed.

(** [GetClientIP] always answers with a non-empty text: the first header of the documented order that
    holds a usable value decides, and its answer is the trimmed first segment (no comma, not
    "unknown" in any case, stable under another pass); otherwise the remote address without its
    port, or "unknown". *)
Theorem client_ip_first_header r :
  let ip := GetClientIP (Some r) in
  ip <> "" /\
  match probe r clientIPHeaders with
  | Some p => ip = p /\ clean ip /\ ParseClientIP ip = ip /\
      exists l h l', clientIPHeaders = l ++ h :: l' /\ ip = ParseClientIP (r_header r h) /\
        Forall (fun h' => ParseClientIP (r_header r h') = "") l
  | None => Forall (fun h => ParseClientIP (r_header r h) = "") clientIPHeaders /\
      (RemoteAddr r = "" -> ip = UnknownIP) /\
      (forall host port, SplitHostPort (RemoteAddr r) = Some (host, port) -> host <> "" -> ip = host)
  end.
Proof.
  pose proof (probe_spec r clientIPHeaders) as Hp. unfold GetClientIP. destruct (probe r clientIPHeaders) as [p|].
  - destruct Hp as (l & h & l' & Hh & -> & Hne & Hl). split; [done|].
    destruct (ParseClientIP_clean (r_header r h)) as [?|Hc]; [done|].
    split_and!; [done|done|by apply ParseClientIP_fix|]. by exists l, h, l'.
  - destruct (String.eqb_spec (RemoteAddr r) "") as [E|E].
    + split_and!; [done..|]. intros host port Hs. rewrite E in Hs. done.
    + destruct (SplitHostPort (RemoteAddr r)) as [[host port]|] eqn:Es; [|by split_and!].
      destruct (String.eqb_spec host ""); split_and!; try done; intros ? ? [= <- <-]; done.
Qed.

(** [ginutil.ClientIP] takes from the headers nothing but addresses. *)
Lemma header_ip_parses `{Gin} c hs ip : GinIp.header_ip c hs = Some ip -> is_Some (net_ParseIP ip) /\ TrimSpace ip = ip.
Proof.
  assert (forall l ip', GinIp.first_ip l = Some ip' -> is_Some (net_ParseIP ip') /\ TrimSpace ip' = ip') as Hf.
  { induction l as [|x l IH]; simpl; [done|]. intros ip'. destruct (_ || _); [apply IH|].
    destruct (net_ParseIP (TrimSpace x)) eqn:E; [|apply IH]. intros [= <-]. rewrite TrimSpace_idem. by rewrite E. }
  induction hs as [|h hs IH]; simpl; [done|]. destruct (String.eqb _ _); [done|].
  destruct (GinIp.first_ip _) eqn:E; [|done]. intros [= <-]. by apply Hf in E.
Qed.
End NetProps.
