(* ===== verification/Obs.v ===== *)
(** * obs/: request metadata in contexts, outbound headers and log lines

    [Obs] is obs/context.go, fields.go, http.go and log.go.  A slog logger is the attributes it
    has accumulated and the levels its handler enables; what it emits is returned. *)
From S2P Require Import Prelude GoStd Gin.
Open Scope go_scope.

Module Obs.

(** ** fields.go *)
Definition FieldTenantID : string := "tenant_id".
Definition FieldPrincipalID : string := "principal_id".
Definition FieldRequestID : string := "request_id".
Definition FieldDurationMs : string := "duration_ms".

(** ** context.go *)
Definition requestIDKey : ctxKey := ObsKey "request_id".
Definition tenantIDKey : ctxKey := ObsKey "tenant_id".
Definition principalIDKey : ctxKey := ObsKey "principal_id".

Definition WithRequestID (ctx : context) (id : string) : context := WithValue ctx requestIDKey (VStr id).
Definition RequestIDFromContext (ctx : context) : string * bool :=
  match Value ctx requestIDKey with
  | VStr v => if String.eqb v "" then ("", false) else (v, true)
  | _ => ("", false)
  end.
Definition WithTenantID (ctx : context) (id : Z) : context := WithValue ctx tenantIDKey (VU64 id).
Definition TenantIDFromContext (ctx : context) : Z * bool :=
  match Value ctx tenantIDKey with VU64 v => (v, true) | _ => (0, false) end.
Definition WithPrincipalID (ctx : context) (id : Z) : context := WithValue ctx principalIDKey (VU64 id).
Definition PrincipalIDFromContext (ctx : context) : Z * bool :=
  match Value ctx principalIDKey with VU64 v => (v, true) | _ => (0, false) end.

(** The loop of [uint64ToString]: [pos] bytes of the buffer are still free; writing before the
    buffer's start would be a panic ([None]). *)
Fixpoint digit_loop (pos : nat) (buf : list ascii) (v : Z) : option string :=
  if v =? 0 then Some (string_of_list_ascii (drop pos buf)) else
  match pos with
  | O => None
  | S pos' => digit_loop pos' (<[pos' := ascii_of_nat (Z.to_nat (48 + v mod 10))]> buf) (v / 10)
  end.
Definition uint64ToString (v : Z) : option string :=
  if v =? 0 then Some "0" else digit_loop 20 (replicate 20 "000"%char) v.

Definition RequestMetadataFromContext (ctx : context) : option (gmap string string) :=
  let m : gmap string string := ∅ in
  let '(rid, ok) := RequestIDFromContext ctx in
  let m := if ok then <[FieldRequestID := rid]> m else m in
  let '(tid, ok) := TenantIDFromContext ctx in
  m ← (if ok : bool then s ← uint64ToString tid; Some (<[FieldTenantID := s]> m) else Some m);
  let '(pid, ok) := PrincipalIDFromContext ctx in
  if ok then s ← uint64ToString pid; Some (<[FieldPrincipalID := s]> m) else Some m.

(** ** http.go *)
(** The header map of a request may be nil. *)
Record httpRequest := mkHttp { h_url : string; h_header : option (gmap string string) }.
(** [do] is the client's Do.  The second component is the caller's request afterwards. *)
Definition DoWithContext {A} (do : httpRequest -> res string A) (ctx : context) (req : httpRequest)
  : res string A * httpRequest :=
  let req :=
    match RequestIDFromContext ctx with
    | (id, true) => mkHttp (h_url req) (Some (<["X-Request-Id" := id]> (default ∅ (h_header req))))
    | _ => req
    end in
  (do req, req).

(** ** log.go *)
Inductive level := Debug | Info | Warn | Error.
(** An argument of a log call: an attribute, or a key or value of an alternating pair. *)
Inductive arg := Attr (k : string) (v : any) | Raw (v : any).
Definition arg_value (a : arg) : any := match a with Attr k _ => VOther k | Raw v => v end.
(** slog's argsToAttrSlice. *)
Fixpoint to_attrs (l : list arg) : list (string * any) :=
  match l with
  | [] => []
  | Attr k v :: l' => (k, v) :: to_attrs l'
  | Raw (VStr k) :: l' => match l' with
                          | [] => [("!BADKEY", VStr k)]
                          | a :: l'' => (k, arg_value a) :: to_attrs l''
                          end
  | Raw v :: l' => ("!BADKEY", v) :: to_attrs l'
  end.

Record Logger := mkLogger { enabled : level -> bool; attrs : list (string * any) }.
Definition slog_With (l : Logger) (args : list arg) : Logger :=
  match args with [] => l | _ => mkLogger (enabled l) (attrs l ++ to_attrs args) end.
Record logLine := mkLine { l_level : level; l_msg : string; l_attrs : list (string * any) }.
Definition slog_Log (l : Logger) (lv : level) (msg : string) (args : list arg) : list logLine :=
  if enabled l lv then [mkLine lv msg (attrs l ++ to_attrs args)] else [].

Definition NewLogger (default_logger : Logger) (handler : option (level -> bool)) : Logger :=
  match handler with Some h => mkLogger h [] | None => default_logger end.
Definition request_args (ctx : context) : list arg :=
  (match RequestIDFromContext ctx with (rid, true) => [Attr FieldRequestID (VStr rid)] | _ => [] end) ++
  (match TenantIDFromContext ctx with (tid, true) => [Attr FieldTenantID (VU64 tid)] | _ => [] end) ++
  (match PrincipalIDFromContext ctx with (pid, true) => [Attr FieldPrincipalID (VU64 pid)] | _ => [] end).
Definition WithRequest (l : Logger) (ctx : option context) : Logger :=
  let ctx := default Background ctx in
  let args := request_args ctx in
  match args with [] => l | _ => slog_With l args end.
Definition With (l : Logger) (args : list arg) : Logger := slog_With l args.
Definition Log_Info (l : Logger) (msg : string) (args : list arg) : list logLine := slog_Log l Info msg args.
Definition Log_Warn (l : Logger) (msg : string) (args : list arg) : list logLine := slog_Log l Warn msg args.
Definition Log_Debug (l : Logger) (msg : string) (args : list arg) : list logLine := slog_Log l Debug msg args.
Definition Log_Error (l : Logger) (msg : string) (err : option any) (args : list arg) : list logLine :=
  slog_Log l Error msg ((match err with Some e => [Attr "error" e] | None => [] end) ++ args).
End Obs.

Module ObsFacts.
Import Obs.

Lemma digit_char d : 0 <= d < 10 -> ascii_of_nat (Z.to_nat (48 + d)) = pretty_N_char (Z.to_N d).
Proof.
  intros Hd. assert (d ∈ seqZ 0 10) as Hin by (apply elem_of_seqZ; lia). revert d Hin Hd.
  assert (Forall (fun d => ascii_of_nat (Z.to_nat (48 + d)) = pretty_N_char (Z.to_N d)) (seqZ 0 10)) as HF
    by by repeat constructor.
  rewrite Forall_forall in HF. eauto.
Qed.
Lemma drop_insert_last {A} (l : list A) n x : (n < length l)%nat -> drop n (<[n := x]> l) = x :: drop (S n) l.
Proof.
  intros Hn. assert (<[n := x]> l !! n = Some x) as Hx by by apply list_lookup_insert_eq.
  rewrite (drop_S _ x) by done. by rewrite drop_insert_lt by lia.
Qed.

(** The loop prints in front of what the buffer already holds, and never runs out of buffer. *)
Lemma digit_loop_spec pos buf v :
  0 <= v < 10 ^ Z.of_nat pos -> (pos <= length buf)%nat ->
  digit_loop pos buf v = Some (pretty_N_go (Z.to_N v) (string_of_list_ascii (drop pos buf))).
Proof.
  revert buf v. induction pos as [|pos IH]; intros buf v Hv Hl.
  { assert (v = 0) as -> by (simpl in Hv; lia). simpl. by rewrite pretty_N_go_0. }
  cbn [digit_loop]. destruct (Z.eqb_spec v 0) as [->|Hne].
  { change (Z.to_N 0) with 0%N. by rewrite pretty_N_go_0. }
  rewrite Nat2Z.inj_succ, Z.pow_succ_r in Hv by lia.
  rewrite IH; [|split; [apply Z.div_pos; lia|apply Z.div_lt_upper_bound; lia]|rewrite length_insert; lia].
  rewrite drop_insert_last by lia. rewrite (pretty_N_go_step (Z.to_N v)) by lia.
  rewrite digit_char by (apply Z.mod_pos_bound; lia).
  by rewrite Z2N.inj_div, Z2N.inj_mod by lia.
Qed.
Lemma uint64ToString_strN v : 0 <= v <= maxUint64 -> uint64ToString v = Some (strN v).
Proof.
  intros Hv. unfold uint64ToString, strN. rewrite pretty_N_unfold. destruct (Z.eqb_spec v 0) as [->|Hne]; [done|].
  rewrite digit_loop_spec by (simpl; unfold maxUint64 in Hv; lia). by rewrite decide_False by lia.
Qed.
End ObsFacts.

Module ObsProps.
Import Obs ObsFacts.

(** [uint64ToString] is strconv's decimal formatting: for every uint64 it terminates inside its
    20-byte buffer, gives the same text as [FormatInt], and [ParseUint] reads the number back. *)
Theorem uint64ToString_is_FormatInt v :
  0 <= v <= maxUint64 ->
  exists s, uint64ToString v = Some s /\ s = FormatInt v /\ ParseUint s = (v, None) /\ (1 <= String.length s <= 20)%nat.
Proof.
  intros Hv. exists (strN v). rewrite uint64ToString_strN by done.
  split_and!; [done|by rewrite FormatInt_nonneg by lia|by apply ParseUint_strN| |].
  - pose proof (strN_nonempty v). destruct (strN v); [done|]. simpl. lia.
  - unfold strN. rewrite pretty_N_unfold. case_decide; [simpl; lia|].
    etrans; [apply (pretty_N_go_length 20)|simpl; lia]. unfold maxUint64 in Hv. lia.
Qed.
Lemma uint64ToString_is_FormatInt_witness : uint64ToString maxUint64 = Some "18446744073709551615".
Proof.
  destruct (uint64ToString_is_FormatInt maxUint64) as (s & Hs & E & _); [unfold maxUint64; lia|].
  rewrite Hs, E. vm_compute. reflexivity.
Defined.

(** The metadata of a context: exactly the fields it carries. *)
Lemma metadata_exact ctx :
  (forall t, TenantIDFromContext ctx = (t, true) -> 0 <= t <= maxUint64) ->
  (forall p, PrincipalIDFromContext ctx = (p, true) -> 0 <= p <= maxUint64) ->
  exists m, RequestMetadataFromContext ctx = Some m /\
    m !! FieldRequestID = (match RequestIDFromContext ctx with (r, true) => Some r | _ => None end) /\
    m !! FieldTenantID = (match TenantIDFromContext ctx with (t, true) => Some (FormatInt t) | _ => None end) /\
    m !! FieldPrincipalID = (match PrincipalIDFromContext ctx with (p, true) => Some (FormatInt p) | _ => None end).
Proof.
  intros Ht Hp. unfold RequestMetadataFromContext.
  destruct (RequestIDFromContext ctx) as [rid []], (TenantIDFromContext ctx) as [t []], (PrincipalIDFromContext ctx) as [p []];
    try specialize (Ht t eq_refl); try specialize (Hp p eq_refl); cbn [mbind option_bind];
    rewrite ?uint64ToString_strN by done; cbn [mbind option_bind]; eexists; (split; [done|]);
    rewrite ?FormatInt_nonneg by lia; simplify_map_eq; done.
Qed.

(** Calling [WithRequest] twice attaches the fields twice. *)
Example with_request_accumulates :
  let ctx := WithRequestID Background "r1" in
  attrs (WithRequest (WithRequest (mkLogger (fun _ => true) []) (Some ctx)) (Some ctx))
  = [(FieldRequestID, VStr "r1"); (FieldRequestID, VStr "r1")].
Proof. reflexivity. Qed.
(** [DoWithContext] changes the caller's request. *)
Example do_changes_request :
  let req := mkHttp "http://svc/" None in
  (DoWithContext (fun r => Ok r) (WithRequestID Background "r1") req).2 <> req.
Proof. done. Qed.
End ObsProps.
