(* ===== verification/Web.v ===== *)
(** * Responses, business errors, handler helpers and the small middlewares

    resp/resp.go, bizerr/bizerr.go, ginutil/ginutil.go, middleware/cors.go,
    middleware/requestid.go, the request-scoped parts of middleware/platform.go, and
    audit/audit.go with audit/middleware.go.  A middleware is a function of the handlers behind it
    ([next]) on the interface of [Gin]. *)
From S2P Require Import Prelude GoStd Gin Obs.
Open Scope go_scope.

Module Resp.
Definition CodeSuccess : Z := 0.
Definition CodeBadRequest : Z := 1001.
Definition CodeNotFound : Z := 1002.
Definition CodeConflict : Z := 1003.
Definition CodeInternal : Z := 5001.
Definition CodeUnauthorized : Z := 2001.
Definition CodeTokenExpired : Z := 2002.
Definition CodeForbidden : Z := 2003.

Record Response := mkResponse { Code : Z; Message : string; Data : json; TraceID : string }.
Record PageData := mkPageData { List_ : any; Total : Z; Page_ : Z; PageSize_ : Z }.
(** The JSON tags: trace_id is omitted when empty. *)
Definition marshal (r : Response) : json :=
  JObj ([("code", JAny (VInt (Code r))); ("message", JAny (VStr (Message r))); ("data", Data r)] ++
        if String.eqb (TraceID r) "" then [] else [("trace_id", JAny (VStr (TraceID r)))]).
Definition marshal_page (p : PageData) : json :=
  JObj [("list", JAny (List_ p)); ("total", JAny (VI64 (Total p))); ("page", JAny (VInt (Page_ p)));
        ("page_size", JAny (VInt (PageSize_ p)))].

Section resp.
Context `{Gin}.
Definition Success (c : gctx) (data : any) : gctx :=
  g_json 200 (marshal (mkResponse CodeSuccess "success" (JAny data) (GetString "trace_id" c))) c.
Definition SuccessPage (c : gctx) (list : any) (total page pageSize : Z) : gctx :=
  g_json 200 (marshal (mkResponse CodeSuccess "success" (marshal_page (mkPageData list total page pageSize))
                         (GetString "trace_id" c))) c.
Definition Error (c : gctx) (httpStatus code : Z) (message : string) : gctx :=
  g_json httpStatus (marshal (mkResponse code message (JAny VNil) (GetString "trace_id" c))) c.
(** The second component is what is logged. *)
Definition InternalError (c : gctx) (err : string) : gctx * list (string * string) :=
  let log := [("method", Method c); ("path", Path c); ("error", err); ("trace_id", GetString "trace_id" c)] in
  (g_json 500 (marshal (mkResponse CodeInternal "internal server error" (JAny VNil) (GetString "trace_id" c))) c, log).
Definition Created (c : gctx) (data : any) : gctx :=
  g_json 201 (marshal (mkResponse CodeSuccess "created" (JAny data) (GetString "trace_id" c))) c.

Record PageParams := mkPageParams { Page : Z; PageSize : Z }.
(** [strconv.Atoi] with its error ignored: 0 for a syntax error, the nearest int out of range. *)
Definition atoi (s : string) : Z := (ParseInt s).1.
Definition ParsePageParams (c : gctx) : PageParams :=
  let page := atoi (DefaultQuery "page" "1" c) in
  let pageSize := atoi (DefaultQuery "page_size" "20" c) in
  let page := if page <? 1 then 1 else page in
  let pageSize := if (pageSize <? 1) || (100 <? pageSize) then 20 else pageSize in
  mkPageParams page pageSize.
End resp.
End Resp.

Module Bizerr.
Import Resp.
(** Errors: a *BizError, a nil pointer of that type in a non-nil error, any other error, one that wraps
    another, and errors.Join. *)
Inductive goError :=
| BizError (code : Z) (message : string)
| NilBizError
| Plain (message : string)
| Wrap (prefix : string) (inner : goError)
| Joined (a b : goError).
Fixpoint Error_ (e : goError) : string :=
  match e with
  | BizError _ m => m
  | NilBizError => "<nil>"               (* as fmt prints it inside a wrapping error *)
  | Plain m => m
  | Wrap p i => p +:+ Error_ i
  | Joined a b => Error_ a +:+ String "010" (Error_ b)
  end.
(** [errors.As(err, &bizErr)]: the first *BizError of the tree, depth first; the pointer may be nil. *)
Fixpoint As (e : goError) : option (option (Z * string)) :=
  match e with
  | BizError c m => Some (Some (c, m))
  | NilBizError => Some None
  | Plain _ => None
  | Wrap _ i => As i
  | Joined a b => match As a with Some x => Some x | None => As b end
  end.
Definition New (code : Z) (msg : string) : goError := BizError code msg.
Definition BadRequest (msg : string) : goError := New CodeBadRequest msg.
Definition NotFound (msg : string) : goError := New CodeNotFound msg.
Definition Unauthorized (msg : string) : goError := New CodeUnauthorized msg.
Definition Forbidden (msg : string) : goError := New CodeForbidden msg.

Definition HTTPStatus (code : Z) : Z :=
  if code =? CodeSuccess then 200
  else if (code =? CodeUnauthorized) || (code =? CodeTokenExpired) then 401
  else if code =? CodeForbidden then 403
  else if code =? CodeNotFound then 404
  else if code =? CodeConflict then 409
  else if code =? CodeInternal then 500
  else 400.
(** [None] is the panic of dereferencing a nil [bizErr]. *)
Definition HandleError `{Gin} (c : gctx) (err : option goError) : option (gctx * list (string * string)) :=
  match err with
  | None => Some (c, [])
  | Some e =>
      match As e with
      | Some (Some (code, msg)) => Some (Resp.Error c (HTTPStatus code) code msg, [])
      | Some None => None
      | None => Some (InternalError c (Error_ e))
      end
  end.
End Bizerr.

Module Ginutil.
Import Resp.
Section ginutil.
Context `{Gin}.
Definition ParseParam (c : gctx) (name : string) : Z * bool * gctx :=
  match ParseInt (Param name c) with
  | (_, Some _) => (0, false, Resp.Error c 400 CodeBadRequest ("invalid " +:+ name))
  | (id, None) => (id, true, c)
  end.
Definition ParseIDParam (c : gctx) : Z * bool * gctx := ParseParam c "id".

(** [conv] is the conversion to uint64 of a float64 beyond its range, which the language leaves
    to the implementation. *)
Definition GetUserID (conv : f64 -> Z) (c : gctx) : Z :=
  match Get "user_id" c with
  | VU64 id => id
  | VI64 id => if id <? 0 then 0 else id
  | VInt id => if id <? 0 then 0 else id
  | VF64 id =>
      if f64_ltb id (f64_of_Z 0) then 0
      else match f64_trunc id with
           | Some z => if z <=? maxUint64 then z else conv id
           | None => conv id
           end
  | _ => 0
  end.
Definition GetRole (c : gctx) : string := GetString "role" c.
End ginutil.
End Ginutil.

Module Mw.
Section mw.
Context `{Gin}.

(** ** requestid.go; [uuid] is uuid.New().String(). *)
Definition RequestIDMiddleware (uuid : string) (next : gctx -> gctx) (c : gctx) : gctx :=
  let traceID := GetHeader "X-Request-ID" c in
  let traceID := if String.eqb traceID "" then uuid else traceID in
  let c := g_set "trace_id" (VStr traceID) c in
  let c := g_header "X-Request-ID" traceID c in
  next c.

(** ** cors.go *)
Definition allowedSet (origins : string) : list string := TrimSpace <$> Split origins ",".
Definition cors_headers (origin : string) (c : gctx) : gctx :=
  let c := g_header "Access-Control-Allow-Origin" origin c in
  let c := g_header "Access-Control-Allow-Methods" "GET, POST, PUT, PATCH, DELETE, OPTIONS" c in
  let c := g_header "Access-Control-Allow-Headers" "Content-Type, Authorization" c in
  let c := g_header "Access-Control-Allow-Credentials" "true" c in
  g_header "Access-Control-Max-Age" "86400" c.
Definition CORSMiddleware (origins : string) (next : gctx -> gctx) (c : gctx) : gctx :=
  let origin := GetHeader "Origin" c in
  let c := if bool_decide (origin ∈ allowedSet origins) then cors_headers origin c else c in
  if String.eqb (Method c) "OPTIONS" then g_abort_status 204 c else next c.

(** ** platform.go *)
Definition tenantCtxKey : string := "synapse.tenant_id".
Definition requestIDCtxKey : string := "synapse.request_id".
Definition Auth (next : gctx -> gctx) (c : gctx) : gctx := next c.
Definition TenantContext (next : gctx -> gctx) (c : gctx) : gctx :=
  let tid := GetHeader "X-Tenant-ID" c in
  let c := if String.eqb tid "" then c else
           let ctx := WithValue (Request_Context c) (MwKey tenantCtxKey) (VStr tid) in
           g_set tenantCtxKey (VStr tid) (g_with_context ctx c) in
  next c.
(** [None] is ErrTenantNotInContext. *)
Definition TenantIDFromContext (ctx : context) : option string :=
  match Value ctx (MwKey tenantCtxKey) with
  | VStr v => if String.eqb v "" then None else Some v
  | _ => None
  end.
Definition RequestID (uuid : string) (next : gctx -> gctx) (c : gctx) : gctx :=
  let rid := GetHeader "X-Request-ID" c in
  let rid := if String.eqb rid "" then uuid else rid in
  let ctx := WithValue (Request_Context c) (MwKey requestIDCtxKey) (VStr rid) in
  let ctx := Obs.WithRequestID ctx rid in
  let c := g_with_context ctx c in
  let c := g_header "X-Request-ID" rid c in
  next c.
Definition RequestIDFromContext (ctx : context) : string :=
  match Obs.RequestIDFromContext ctx with
  | (rid, true) => rid
  | _ => match Value ctx (MwKey requestIDCtxKey) with VStr v => v | _ => "" end
  end.
(** [start] and [stop] are the clock before and after the handlers. *)
Definition Logger (l : Obs.Logger) (start stop : Time) (next : gctx -> gctx) (c : gctx) : gctx * list Obs.logLine :=
  let c := next c in
  let w := g_view c in
  (c, Obs.Log_Info l "request"
        [Obs.Raw (VStr "method"); Obs.Raw (VStr (Method c)); Obs.Raw (VStr "path"); Obs.Raw (VStr (Path c));
         Obs.Raw (VStr "status"); Obs.Raw (VInt (v_status w));
         Obs.Raw (VStr Obs.FieldDurationMs); Obs.Raw (VI64 (Z.quot (Sub stop start) Millisecond));
         Obs.Raw (VStr Obs.FieldRequestID); Obs.Raw (VStr (RequestIDFromContext (Request_Context c)));
         Obs.Raw (VStr "client_ip"); Obs.Raw (VStr (q_client_ip (v_request w)))]).

(** ** audit/ *)
Record Entry := mkEntry {
  ID : Z; UserID : Z; Username : string; Action : string; Resource : string; Detail : string; IP : string;
  CreatedAt : Time }.
Definition audited (method : string) : bool :=
  String.eqb method "POST" || String.eqb method "PUT" || String.eqb method "PATCH" || String.eqb method "DELETE".
(** The response, and the entry handed to the store in the background. *)
Definition audit_Middleware (conv : f64 -> Z) (next : gctx -> gctx) (c : gctx) : gctx * option Entry :=
  let method := Method c in
  if negb (audited method) then (next c, None) else
  let c := next c in
  let userID := wrap64 (Ginutil.GetUserID conv c) in
  (c, Some (mkEntry 0 userID (GetString "username" c) method (Path c)
              ("status:" +:+ FormatInt (v_status (g_view c))) (q_client_ip (v_request (g_view c))) zeroTime)).
End mw.
End Mw.

Module WebFacts.
Import Resp Bizerr Ginutil Mw.

Lemma set_header_eq k v m : v <> "" -> set_header k v m !! k = Some v.
Proof. intros Hv. unfold set_header. destruct (String.eqb_spec v ""); [done|]. by rewrite lookup_insert_eq. Qed.
Lemma set_header_ne k k' v m : k <> k' -> set_header k v m !! k' = m !! k'.
Proof. intros Hk. unfold set_header. destruct (String.eqb v ""); by simplify_map_eq. Qed.
#[export] Hint Rewrite set_header_eq using done : go_rw.
#[export] Hint Rewrite set_header_ne using done : go_rw.

Section facts.
Context `{GinLaws}.

(** Writing the envelope on an untouched response. *)
Lemma error_view c st code msg :
  v_bodies (g_view c) = [] ->
  v_status (g_view (Resp.Error c st code msg)) = st /\
  v_bodies (g_view (Resp.Error c st code msg)) = [marshal (mkResponse code msg (JAny VNil) (GetString "trace_id" c))] /\
  v_aborted (g_view (Resp.Error c st code msg)) = v_aborted (g_view c).
Proof. intros Hb. unfold Resp.Error. by rewrite json_view. Qed.
Lemma atoi_format z : in_int64 z -> atoi (FormatInt z) = z.
Proof. intros Hz. unfold atoi. by rewrite ParseInt_FormatInt. Qed.
Lemma ParseInt_syntax s : (ParseInt s).2 = Some ErrSyntax -> (ParseInt s).1 = 0.
Proof.
  assert (forall neg u, (parse_signed neg u).2 = Some ErrSyntax -> (parse_signed neg u).1 = 0) as Hp.
  { intros neg u. unfold parse_signed. destruct (ParseUint u) as [un [[]|]]; [done|..]; repeat case_match; done. }
  unfold ParseInt. destruct s as [|a s]; [done|]. repeat case_match; apply Hp.
Qed.
End facts.
End WebFacts.

Module WebProps.
Import Resp Bizerr Ginutil Mw WebFacts.
Section props.
Context `{GinLaws}.

(** *** What a client is told of an error *)
(** The business errors of a tree, depth first. *)
Fixpoint business (e : goError) : list (option (Z * string)) :=
  match e with
  | BizError code msg => [Some (code, msg)]
  | NilBizError => [None]
  | Plain _ => []
  | Wrap _ i => business i
  | Joined a b => business a ++ business b
  end.
Lemma As_first e : As e = head (business e).
Proof.
  induction e as [| | |p i IH|a IHa b IHb]; simpl; [done..| |]; [done|].
  rewrite IHa, IHb. by destruct (business a).
Qed.
(** The documented statuses; every other code is a bad request. *)
Definition statuses : gmap Z Z :=
  {[0 := 200; 1002 := 404; 1003 := 409; 2001 := 401; 2002 := 401; 2003 := 403; 5001 := 500]}.
Definition status_of (code : Z) : Z := default 400 (statuses !! code).
Lemma HTTPStatus_table code : HTTPStatus code = status_of code.
Proof.
  unfold HTTPStatus, status_of, statuses, CodeSuccess, CodeUnauthorized, CodeTokenExpired, CodeForbidden, CodeNotFound,
    CodeConflict, CodeInternal.
  repeat match goal with
  | |- context [?x =? ?y] => destruct (Z.eqb_spec x y) as [->|?]; [reflexivity|]
  end. simpl. by rewrite !lookup_insert_ne, lookup_singleton_ne by done.
Qed.

(** The response is the JSON document with this code and message, no data, and the trace id if there is
    one. *)
Definition answers (c c' : gctx) (status code : Z) (msg : string) : Prop :=
  let trace := GetString "trace_id" c in
  v_status (g_view c') = status /\
  v_bodies (g_view c') =
    [JObj ([("code", JAny (VInt code)); ("message", JAny (VStr msg)); ("data", JAny VNil)] ++
           if decide (trace = "") then [] else [("trace_id", JAny (VStr trace))])].
Lemma error_answers c st code msg : v_bodies (g_view c) = [] -> answers c (Resp.Error c st code msg) st code msg.
Proof.
  intros Hb. destruct (error_view c st code msg Hb) as (H1 & H2 & _). split; [done|]. rewrite H2. unfold marshal. simpl.
  by destruct (String.eqb_spec (GetString "trace_id" c) ""), (decide (GetString "trace_id" c = "")).
Qed.

(** C39. [HandleError] on an untouched response: no error writes nothing.  The first business error of the
    tree, depth first, is answered with its code and message under the status of the table
    (0: 200, 1002: 404, 1003: 409, 2001 and 2002: 401, 2003: 403, 5001: 500, any other: 400); a nil
    one makes the handler panic.  All other errors are logged and get the same answer, 500 with
    code 5001 and a fixed message, so that nothing of their text reaches the client. *)
Theorem handle_error_exact c :
  v_bodies (g_view c) = [] ->
  HandleError c None = Some (c, []) /\
  (forall e code msg, head (business e) = Some (Some (code, msg)) ->
     exists c', HandleError c (Some e) = Some (c', []) /\ answers c c' (status_of code) code msg) /\
  (forall e, head (business e) = Some None -> HandleError c (Some e) = None) /\
  (exists c', answers c c' 500 5001 "internal server error" /\
     forall e, business e = [] -> exists log, HandleError c (Some e) = Some (c', log) /\ ("error", Error_ e) ∈ log) /\
  (forall p msg, Forall (fun '(e, (status, code)) =>
       exists c', HandleError c (Some (Wrap p e)) = Some (c', []) /\ answers c c' status code msg)
     [(BadRequest msg, (400, 1001)); (NotFound msg, (404, 1002)); (Unauthorized msg, (401, 2001)); (Forbidden msg, (403, 2003))]).
Proof.
  intros Hb.
  assert (forall e code msg, head (business e) = Some (Some (code, msg)) ->
     exists c', HandleError c (Some e) = Some (c', []) /\ answers c c' (status_of code) code msg) as Hbiz.
  { intros e code msg E. simpl. rewrite As_first, E. eexists. split; [done|]. rewrite <- HTTPStatus_table. by apply error_answers. }
  split_and!; [done|done| | |].
  - intros e E. simpl. by rewrite As_first, E.
  - exists (Resp.Error c 500 5001 "internal server error"). split; [by apply error_answers|].
    intros e E. simpl. rewrite As_first, E. simpl. eexists. split; [done|]. set_solver.
  - intros p msg. apply Forall_cons_2; [exact (Hbiz (Wrap p (BadRequest msg)) 1001 msg eq_refl)|].
    apply Forall_cons_2; [exact (Hbiz (Wrap p (NotFound msg)) 1002 msg eq_refl)|].
    apply Forall_cons_2; [exact (Hbiz (Wrap p (Unauthorized msg)) 2001 msg eq_refl)|].
    apply Forall_cons_2; [exact (Hbiz (Wrap p (Forbidden msg)) 2003 msg eq_refl)|done].
Qed.

(** Paging parameters are always usable: the page is at least 1 and the size from 1 to 100, whatever
    the query string holds; well-formed values in range are taken as they are, others give
    page 1 and size 20. *)
Theorem page_params_bounds c :
  let p := ParsePageParams c in
  1 <= Page p <= maxInt64 /\ 1 <= PageSize p <= 100 /\
  (forall n, 1 <= n <= maxInt64 -> DefaultQuery "page" "1" c = FormatInt n -> Page p = n) /\
  (forall n, in_int64 n -> DefaultQuery "page_size" "20" c = FormatInt n ->
     PageSize p = if bool_decide (1 <= n <= 100) then n else 20) /\
  ((ParseInt (DefaultQuery "page" "1" c)).2 = Some ErrSyntax -> Page p = 1).
Proof.
  assert (forall s, in_int64 (atoi s)) as Hr.
  { intros s. apply ParseInt_range. }
  pose proof (Hr (DefaultQuery "page" "1" c)) as H1.
  unfold ParsePageParams. cbn [Page PageSize]. split_and!.
  - destruct (Z.ltb_spec (atoi (DefaultQuery "page" "1" c)) 1); lia.
  - destruct (Z.ltb_spec (atoi (DefaultQuery "page" "1" c)) 1); [unfold maxInt64; lia|int64].
  - destruct (Z.ltb_spec (atoi (DefaultQuery "page_size" "20" c)) 1), (Z.ltb_spec 100 (atoi (DefaultQuery "page_size" "20" c))); simpl; lia.
  - destruct (Z.ltb_spec (atoi (DefaultQuery "page_size" "20" c)) 1), (Z.ltb_spec 100 (atoi (DefaultQuery "page_size" "20" c))); simpl; lia.
  - intros n Hn ->. rewrite atoi_format by int64. destruct (Z.ltb_spec n 1); lia.
  - intros n Hn ->. rewrite atoi_format by done. case_bool_decide; [zdec; done|].
    destruct (Z.ltb_spec n 1), (Z.ltb_spec 100 n); simpl; lia.
  - intros E. unfold atoi. by rewrite ParseInt_syntax.
Qed.

(** A request id travels unchanged: with [rid] the request's X-Request-ID, or the fresh UUID when it has
    none, the handlers behind [RequestID] see [rid] through both accessors, the response carries
    it, an outbound call made with the request's context carries it whatever header it had, and
    a request logger and the event metadata record it. *)
Theorem request_id_travels uuid next c :
  uuid <> "" ->
  let rid := if String.eqb (GetHeader "X-Request-ID" c) "" then uuid else GetHeader "X-Request-ID" c in
  exists c1, RequestID uuid next c = next c1 /\
    let ctx := Request_Context c1 in
    RequestIDFromContext ctx = rid /\ Obs.RequestIDFromContext ctx = (rid, true) /\
    v_headers (g_view c1) !! "X-Request-ID" = Some rid /\
    v_request (g_view c1) = v_request (g_view c) /\
    (forall req, default ∅ (Obs.h_header (Obs.DoWithContext (A:=unit) (fun _ => Ok ()) ctx req).2) !! "X-Request-Id" = Some rid) /\
    (forall l, (Obs.FieldRequestID, VStr rid) ∈ Obs.attrs (Obs.WithRequest l (Some ctx))).
Proof.
  intros Hu rid. assert (rid <> "") as Hrid.
  { unfold rid. destruct (String.eqb_spec (GetHeader "X-Request-ID" c) ""); done. }
  unfold RequestID. fold rid. eexists. split; [done|].
  set (ctx0 := WithValue (Request_Context c) (MwKey requestIDCtxKey) (VStr rid)).
  set (ctx := Obs.WithRequestID ctx0 rid).
  assert (Obs.RequestIDFromContext ctx = (rid, true)) as E.
  { unfold Obs.RequestIDFromContext, ctx, Obs.WithRequestID. rewrite Value_eq. by destruct (String.eqb_spec rid ""). }
  unfold Request_Context. rewrite header_view, with_context_view. cbn [v_context v_headers v_request].
  fold ctx0 ctx. split_and!; [|done|by rewrite set_header_eq|done|..].
  - unfold RequestIDFromContext. by rewrite E.
  - intros req. unfold Obs.DoWithContext. rewrite E. cbn. by rewrite lookup_insert_eq.
  - intros l. unfold Obs.WithRequest. change (default Background (Some ctx)) with ctx. unfold Obs.request_args. rewrite E.
    cbn. apply elem_of_app. right. set_solver.
Qed.

(** CORS: the response names the request's origin exactly when it is one of the configured, trimmed
    origins, and is otherwise left as it was; a preflight is answered 204 without running the
    handlers, any other request runs them. *)
Theorem cors_exact origins next c :
  v_bodies (g_view c) = [] ->
  exists c1, CORSMiddleware origins next c = (if String.eqb (Method c) "OPTIONS" then g_abort_status 204 c1 else next c1) /\
    (Method c = "OPTIONS" -> v_status (g_view (g_abort_status 204 c1)) = 204 /\ v_aborted (g_view (g_abort_status 204 c1)) = true) /\
    let origin := GetHeader "Origin" c in
    if decide (origin ∈ TrimSpace <$> Split origins ",") then
      v_headers (g_view c1) !! "Access-Control-Allow-Credentials" = Some "true" /\
      (origin <> "" -> v_headers (g_view c1) !! "Access-Control-Allow-Origin" = Some origin)
    else c1 = c.
Proof.
  intros Hb. unfold CORSMiddleware, allowedSet.
  assert (forall c1 : gctx, v_request (g_view c1) = v_request (g_view c) -> Method c1 = Method c) as Hm.
  { intros c1 E. unfold Method. by rewrite E. }
  destruct (decide (GetHeader "Origin" c ∈ TrimSpace <$> Split origins ",")) as [Hin|Hout].
  - rewrite bool_decide_eq_true_2 by done.
    exists (cors_headers (GetHeader "Origin" c) c). unfold cors_headers.
    rewrite Hm by by rewrite !header_view. split; [done|]. split.
    + intros _. rewrite abort_status_view by by rewrite !header_view. done.
    + rewrite !header_view. cbn [v_headers]. split; [by rewrite set_header_ne, set_header_eq|].
      intros Ho. rewrite !set_header_ne by done. by apply set_header_eq.
  - rewrite bool_decide_eq_false_2 by done.
    exists c. split; [done|]. split; [|done]. intros _. by rewrite abort_status_view.
Qed.

(** The audit middleware never changes the response, and records exactly the write requests,
    with the final status and user. *)
Lemma audit_transparent conv next c :
  (audit_Middleware conv next c).1 = next c /\
  ((audit_Middleware conv next c).2 = None <-> Method c ∉ ["POST"; "PUT"; "PATCH"; "DELETE"]) /\
  forall e, (audit_Middleware conv next c).2 = Some e ->
    Action e = Method c /\ Resource e = Path (next c) /\ Username e = GetString "username" (next c) /\
    Detail e = "status:" +:+ FormatInt (v_status (g_view (next c))).
Proof.
  unfold audit_Middleware, audited. rewrite !elem_of_cons, elem_of_nil.
  destruct (String.eqb_spec (Method c) "POST"), (String.eqb_spec (Method c) "PUT"),
    (String.eqb_spec (Method c) "PATCH"), (String.eqb_spec (Method c) "DELETE"); simpl;
    (split; [done|]); (split; [naive_solver|]); intros ? [= <-]; done.
Qed.

(** A tenant header is what the accessor returns behind [TenantContext]. *)
Lemma tenant_context_roundtrip next c :
  exists c1, TenantContext next c = next c1 /\
    (GetHeader "X-Tenant-ID" c <> "" -> TenantIDFromContext (Request_Context c1) = Some (GetHeader "X-Tenant-ID" c) /\
       Get tenantCtxKey c1 = VStr (GetHeader "X-Tenant-ID" c)) /\
    (GetHeader "X-Tenant-ID" c = "" -> c1 = c).
Proof.
  unfold TenantContext. eexists. split; [done|]. destruct (String.eqb_spec (GetHeader "X-Tenant-ID" c) ""); [done|].
  split; [|done]. intros Hne. unfold TenantIDFromContext, Request_Context, Get.
  rewrite set_view, with_context_view. cbn [v_context v_keys]. rewrite Value_eq, lookup_insert_eq.
  by destruct (String.eqb_spec (GetHeader "X-Tenant-ID" c) "").
Qed.
End props.

Import MemGin.
Definition web_demo : gctx := get_request {["X-Request-ID" := "r-1"; "Origin" := "https://a.example"]} {["page" := "3"; "page_size" := "500"]} ∅.
Lemma handle_error_exact_witness :
  exists c', HandleError web_demo (Some (Wrap "load: " (BizError 1003 "taken"))) = Some (c', []) /\
    v_status (g_view c') = 409 /\
    v_bodies (g_view c') = [JObj [("code", JAny (VInt 1003)); ("message", JAny (VStr "taken")); ("data", JAny VNil)]].
Proof.
  destruct (proj1 (proj2 (handle_error_exact web_demo eq_refl)) (Wrap "load: " (BizError 1003 "taken")) 1003 "taken" eq_refl)
    as (c' & E & Hst & Hb).
  exists c'. split; [exact E|]. split; [exact Hst|exact Hb].
Defined.
Lemma request_id_travels_witness :
  exists c1, RequestID "fresh" (fun c => c) web_demo = c1 /\ RequestIDFromContext (Request_Context c1) = "r-1".
Proof.
  destruct (request_id_travels "fresh" (fun c => c) web_demo) as (c1 & E & Hr & _); [discriminate|].
  exists c1. split; [exact E|]. exact Hr.
Defined.
Lemma cors_exact_witness :
  v_headers (CORSMiddleware "https://b.example, https://a.example" (fun c => c) web_demo) !! "Access-Control-Allow-Origin"
  = Some "https://a.example".
Proof.
  destruct (cors_exact "https://b.example, https://a.example" (fun c => c) web_demo) as (c1 & E & _ & Hh); [reflexivity|].
  rewrite decide_True in Hh by (apply (bool_decide_unpack _); vm_compute; exact I).
  rewrite E. apply Hh. vm_compute. discriminate.
Defined.
Example page_demo : ParsePageParams web_demo = mkPageParams 3 20.
Proof. vm_compute. reflexivity. Qed.
(** An empty entry in the origins admits requests that have no Origin. *)
Example cors_empty_entry :
  v_headers (CORSMiddleware "" (fun c => c) (get_request ∅ ∅ ∅)) !! "Access-Control-Allow-Credentials" = Some "true".
Proof. vm_compute. reflexivity. Qed.
End WebProps.
