(* ===== verification/Service.v ===== *)
(** * Start-up and in-process services: config/, healthcheck/, event/, graceful/,
    migrate/

    The environment is a function from names to values.  Goroutines that report under a mutex are
    the sequence of their reports, in any order. *)
From S2P Require Import Prelude GoStd.
Open Scope go_scope.

Module Config.
Record MySQLConfig := mkMySQL { DSN : string; MigrationsPath : string; MigrateForceVersion : Z }.
Record RedisConfig := mkRedisConfig { Addr : string; Password : string; DB : Z }.
Record AuthConfig := mkAuthConfig { JWTSecret : string; AdminSecret : string }.
Record SMTPConfig := mkSMTP { Host : string; Port : string; User : string; Pass : string; From_ : string }.
Record RateLimitConfig := mkRateLimit { DefaultRPM : Z; DefaultTPM : Z; DefaultConcurrency : Z }.

Section env.
(** os.Getenv *)
Variable getenv : string -> string.
Definition GetEnv (key defaultVal : string) : string :=
  let val := getenv key in if negb (String.eqb val "") then val else defaultVal.
Definition GetEnvInt (key : string) (defaultVal : Z) : Z :=
  let raw := TrimSpace (getenv key) in
  if String.eqb raw "" then defaultVal else
  match ParseInt raw with (_, Some _) => defaultVal | (val, None) => val end.
(** strconv.ParseBool *)
Definition ParseBool (s : string) : option bool :=
  if bool_decide (s ∈ ["1"; "t"; "T"; "true"; "TRUE"; "True"]) then Some true
  else if bool_decide (s ∈ ["0"; "f"; "F"; "false"; "FALSE"; "False"]) then Some false else None.
Definition GetEnvBool (key : string) (defaultVal : bool) : bool :=
  let raw := TrimSpace (getenv key) in
  if String.eqb raw "" then defaultVal else
  match ParseBool raw with None => defaultVal | Some val => val end.
(** [None] is nil. *)
Definition GetEnvCSV (key : string) : option (list string) :=
  let raw := TrimSpace (getenv key) in
  if String.eqb raw "" then None else
  Some (foldl (fun out part => let part := TrimSpace part in if negb (String.eqb part "") then out ++ [part] else out)
              [] (Split raw ",")).
End env.

(** ** validate.go *)
Record Validator := mkValidator { errors : list string }.
Definition NewValidator : Validator := mkValidator [].
Definition RequireNonEmpty (v : Validator) (name value : string) : Validator :=
  if String.eqb (TrimSpace value) "" then mkValidator (errors v ++ [name +:+ " is required but empty"]) else v.
Definition RequireNotDefault (v : Validator) (name value defaultVal : string) : Validator :=
  if String.eqb value defaultVal then mkValidator (errors v ++ [name +:+ " must be changed from default value"]) else v.
Definition ValidationError_Error (l : list string) : string :=
  let sep := String "010" "  - " in "config validation failed:" +:+ sep +:+ Join l sep.
(** [Some] is a ValidationError with its messages. *)
Definition Validate (v : Validator) : option (list string) :=
  match errors v with [] => None | es => Some es end.
(** A check of a configuration, and a chain of them. *)
Inductive check := NonEmpty (name value : string) | NotDefault (name value defaultVal : string).
Definition apply_check (v : Validator) (c : check) : Validator :=
  match c with NonEmpty n x => RequireNonEmpty v n x | NotDefault n x d => RequireNotDefault v n x d end.
End Config.

Module Health.
(** A check answers nil or an error's text. *)
Definition CheckFunc : Type := option string.
Record Status := mkStatus { Status_ : string; Checks : gmap string string }.
Definition Checker : Type := gmap string CheckFunc.
Definition New : Checker := ∅.
Definition Register (c : Checker) (name : string) (fn : CheckFunc) : Checker := <[name := fn]> c.
(** One goroutine's report, made under the mutex. *)
Definition report (r : Status) (nf : string * CheckFunc) : Status :=
  match nf.2 with
  | Some err => mkStatus "degraded" (<[nf.1 := err]> (Checks r))
  | None => mkStatus (Status_ r) (<[nf.1 := "ok"]> (Checks r))
  end.
(** The response when the goroutines of the registered checks report in the order [order]. *)
Definition Handler (order : list (string * CheckFunc)) : Z * Status :=
  let result := foldl report (mkStatus "ok" ∅) order in
  (if negb (String.eqb (Status_ result) "ok") then 503 else 200, result).
End Health.

Module Bus.
Section bus.
(** Handlers are known by name; [run h payload] acts on the bus and the world, or panics with a
    value ([Err]). *)
Context {W : Type}.
Definition Bus : Type := gmap string (list string).
Variable run : string -> string -> Bus * W -> res string unit * (Bus * W).

Definition New : Bus := ∅.
Definition Subscribe (b : Bus) (eventType handler : string) : Bus :=
  <[eventType := default [] (b !! eventType) ++ [handler]]> b.
(** Calls in order until one panics; the names called are returned. *)
Fixpoint publish_loop (hs : list string) (payload : string) (s : Bus * W) : res string unit * list string * (Bus * W) :=
  match hs with
  | [] => (Ok (), [], s)
  | h :: hs' =>
      match run h payload s with
      | (Err p, s') => (Err p, [h], s')
      | (Ok _, s') => let '(r, called, s'') := publish_loop hs' payload s' in (r, h :: called, s'')
      end
  end.
Definition Publish (b : Bus) (w : W) (eventType payload : string) : res string unit * list string * (Bus * W) :=
  let handlers := default [] (b !! eventType) in publish_loop handlers payload (b, w).
(** The goroutines of [PublishAsync] in the order [order] they run: a panic is logged with its
    event and does not reach the others or the caller. *)
Fixpoint async_run (order : list string) (eventType payload : string) (s : Bus * W) : list (string * string) * (Bus * W) :=
  match order with
  | [] => ([], s)
  | h :: order' =>
      let '(r, s') := run h payload s in
      let log := match r with Err p => [(eventType, p)] | Ok _ => [] end in
      let '(log', s'') := async_run order' eventType payload s' in (log ++ log', s'')
  end.
(** The goroutines a [PublishAsync] starts. *)
Definition PublishAsync (b : Bus) (eventType : string) : list string := default [] (b !! eventType).
End bus.
End Bus.

Module Graceful.
Record serverConfig := mkServerConfig { shutdownTimeout : Duration }.
Definition WithShutdownTimeout (d : Duration) (c : serverConfig) : serverConfig := mkServerConfig d.
(** What the select receives first. *)
Inductive event := ListenError (e : string) | Signal (name : string).
Inductive logLine := Starting (addr : string) | ShuttingDown (sig : string) | ServerStopped.
(** [shutdown d] is srv.Shutdown with a context of timeout [d]. *)
Definition ListenAndServe (addr : string) (opts : list (serverConfig -> serverConfig)) (first : event)
    (shutdown : Duration -> option string) : res string unit * list logLine :=
  let cfg := foldl (fun c opt => opt c) (mkServerConfig (10 * Second)) opts in
  match first with
  | ListenError e => (Err ("listen: " +:+ e), [Starting addr])
  | Signal s =>
      match shutdown (shutdownTimeout cfg) with
      | Some e => (Err ("shutdown: " +:+ e), [Starting addr; ShuttingDown s])
      | None => (Ok (), [Starting addr; ShuttingDown s; ServerStopped])
      end
  end.
End Graceful.

(** migrate/migrate.go.  [Migrate] is golang-migrate on one database: the operations the code
    calls, on the library's state; [m_up] answers [ErrNoChange] when nothing is pending. *)
Module Migrate.
Definition multi : string := "multiStatements=true".
Definition ensureMultiStatements (url : string) : string :=
  if Contains url multi then url
  else if Contains url "?" then url +:+ "&multiStatements=true"
  else url +:+ "?multiStatements=true".

Definition ToMigrateURL (dsn : string) : res string string :=
  if String.eqb dsn "" then Err "empty DSN"
  else if HasPrefix dsn "mysql://" then Ok (ensureMultiStatements dsn)
  else Ok (ensureMultiStatements ("mysql://" +:+ dsn)).

Inductive upErr := ErrNoChange | ErrUp (e : string).
Class Migrator := {
  mstate : Type;
  m_new : string -> string -> mstate -> res string unit * mstate;
  m_force : Z -> mstate -> res string unit * mstate;
  m_up : mstate -> res upErr unit * mstate;
  m_close : mstate -> mstate }.

(** Which step failed. *)
Inductive runErr := BuildURL (e : string) | InitMigrate (e : string) | ForceVersion (v : Z) (e : string) | MigrateUp (e : string).

(** The deferred close runs on every return after [m_new] has succeeded. *)
Definition Run `{Migrator} (dsn migrationsPath : string) (forceVersion : Z) (s : mstate) : res runErr unit * mstate :=
  match ToMigrateURL dsn with
  | Err e => (Err (BuildURL e), s)
  | Ok dbURL =>
      match m_new migrationsPath dbURL s with
      | (Err e, s1) => (Err (InitMigrate e), s1)
      | (Ok _, s1) =>
          let '(forced, s2) := if 0 <? forceVersion then m_force forceVersion s1 else (Ok (), s1) in
          match forced with
          | Err e => (Err (ForceVersion forceVersion e), m_close s2)
          | Ok _ =>
              match m_up s2 with
              | (Err (ErrUp e), s3) => (Err (MigrateUp e), m_close s3)
              | (_, s3) => (Ok (), m_close s3)
              end
          end
      end
  end.
End Migrate.

Module ServiceProps.

(** A configuration list holds exactly the trimmed, non-empty items, in order. *)
Lemma env_csv_items getenv key l :
  Config.GetEnvCSV getenv key = Some l ->
  l = List.filter (fun s => negb (String.eqb s "")) (TrimSpace <$> Split (TrimSpace (getenv key)) ",") /\
  Forall (fun s => s <> "" /\ TrimSpace s = s) l.
Proof.
  unfold Config.GetEnvCSV. destruct (String.eqb _ ""); [done|]. intros [= <-].
  assert (forall parts out, foldl (fun out part => let part := TrimSpace part in if negb (String.eqb part "") then out ++ [part] else out) out parts
    = out ++ List.filter (fun s => negb (String.eqb s "")) (TrimSpace <$> parts)) as Hf.
  { induction parts as [|p parts IH]; intros out; simpl; [by rewrite app_nil_r|]. rewrite IH.
    destruct (String.eqb (TrimSpace p) ""); simpl; [done|]. by rewrite <- app_assoc. }
  rewrite Hf. split; [done|]. simpl. apply Forall_forall. intros s Hs%list_elem_of_In%filter_In.
  destruct Hs as [Hs%list_elem_of_In Hne]. apply list_elem_of_fmap in Hs as (x & -> & _). split; [|apply TrimSpace_idem].
  by destruct (String.eqb_spec (TrimSpace x) "").
Qed.

(** A configuration integer that was set is read back; anything else gives the default. *)
Lemma env_int_roundtrip getenv key d z :
  in_int64 z -> getenv key = FormatInt z -> Config.GetEnvInt getenv key d = z.
Proof.
  intros Hz E. unfold Config.GetEnvInt. rewrite E.
  assert (TrimSpace (FormatInt z) = FormatInt z) as ->.
  { apply TrimSpace_visible. destruct (Z.le_gt_cases 0 z) as [H|H].
    - rewrite FormatInt_nonneg by done. eapply str_all_impl; [|by apply strN_digits].
      intros c Hc. destruct c as [[] [] [] [] [] [] [] []]; vm_compute in Hc |- *; done.
    - rewrite FormatInt_neg by done. rewrite sapp_cons, sapp_nil_l. simpl. eapply str_all_impl; [|apply strN_digits; lia].
      intros c Hc. destruct c as [[] [] [] [] [] [] [] []]; vm_compute in Hc |- *; done. }
  rewrite ParseInt_FormatInt by done. destruct (String.eqb_spec (FormatInt z) "") as [E0|]; [|done].
  pose proof (ParseInt_FormatInt z Hz) as Hp. by rewrite E0 in Hp.
Qed.

(** The validator reports exactly the failed checks, in the order they were made. *)
Definition fails (c : Config.check) : option string :=
  match c with
  | Config.NonEmpty n v => if String.eqb (TrimSpace v) "" then Some (n +:+ " is required but empty") else None
  | Config.NotDefault n v d => if String.eqb v d then Some (n +:+ " must be changed from default value") else None
  end.
Lemma validator_collects cs :
  let v := foldl Config.apply_check Config.NewValidator cs in
  Config.errors v = omap fails cs /\ (Config.Validate v = None <-> Forall (fun c => fails c = None) cs).
Proof.
  assert (forall v, Config.errors (foldl Config.apply_check v cs) = Config.errors v ++ omap fails cs) as He.
  { induction cs as [|c cs IH]; intros v; simpl; [by rewrite app_nil_r|]. rewrite IH.
    destruct c; simpl; unfold Config.RequireNonEmpty, Config.RequireNotDefault; destruct (String.eqb _ _); simpl;
      by rewrite <- ?app_assoc. }
  simpl. rewrite He. split; [done|]. unfold Config.Validate. rewrite He. simpl. clear He.
  induction cs as [|c cs IH]; [done|]. simpl. rewrite Forall_cons. destruct (fails c); [naive_solver|]. rewrite IH. naive_solver.
Qed.

(** What a sequence of reports with distinct names leaves. *)
Definition passed (nf : string * Health.CheckFunc) : bool := bool_decide (nf.2 = None).
Lemma report_fold l r :
  NoDup l.*1 ->
  let r' := foldl Health.report r l in
  (forall k, Health.Checks r' !! k = match (list_to_map l : gmap string Health.CheckFunc) !! k with
                                    | Some o => Some (default "ok" o) | None => Health.Checks r !! k end) /\
  Health.Status_ r' = if forallb passed l then Health.Status_ r else "degraded".
Proof.
  revert r. induction l as [|[n o] l IH]; intros r Hd; [done|]. rewrite fmap_cons in Hd. apply NoDup_cons in Hd as [Hn Hd].
  cbn [foldl]. specialize (IH (Health.report r (n, o)) Hd) as [Hc Hs]. split.
  - intros k. rewrite Hc. cbn [list_to_map foldr uncurry]. destruct (decide (k = n)) as [->|Hk].
    + rewrite lookup_insert_eq. rewrite (proj1 (not_elem_of_list_to_map l n)) by done.
      unfold Health.report. destruct o; simpl; by rewrite lookup_insert_eq.
    + rewrite lookup_insert_ne by done. destruct (_ !! k); [done|].
      unfold Health.report. destruct o; simpl; by rewrite lookup_insert_ne.
  - cbn [forallb]. rewrite Hs. destruct o; simpl; [by destruct (forallb passed l)|done].
Qed.
Lemma all_passed l : forallb passed l = true <-> Forall (fun nf => nf.2 = None) l.
Proof.
  rewrite forallb_forall, Forall_forall. setoid_rewrite list_elem_of_In. unfold passed.
  split; intros Hl nf Hin; specialize (Hl nf Hin); by apply bool_decide_eq_true in Hl || apply bool_decide_eq_true_2.
Qed.

(** The health report does not depend on the order in which the checks finish: for every interleaving of
    the registered checks' reports the answer has one entry per check, "ok" or the check's error
    text, and the status is 200 with "ok" exactly when no check failed, else 503 and "degraded". *)
Theorem health_report_order_independent (checks : Health.Checker) order :
  order ≡ₚ map_to_list checks ->
  let '(code, st) := Health.Handler order in
  Health.Checks st = (fun r => default "ok" r) <$> checks /\
  (code = 200 <-> map_Forall (fun _ r => r = None) checks) /\
  (code = 200 /\ Health.Status_ st = "ok" \/ code = 503 /\ Health.Status_ st = "degraded").
Proof.
  intros Hp. unfold Health.Handler.
  assert (NoDup order.*1) as Hd by (rewrite Hp; apply NoDup_fst_map_to_list).
  assert ((list_to_map order : gmap string Health.CheckFunc) = checks) as Em.
  { rewrite <- (list_to_map_to_list checks). by apply list_to_map_proper. }
  destruct (report_fold order (Health.mkStatus "ok" ∅) Hd) as [Hc Hs]. rewrite Em in Hc. split_and!.
  - apply map_eq. intros k. rewrite Hc, lookup_fmap. by destruct (checks !! k).
  - rewrite Hs. etrans; [|symmetry; apply (map_Forall_to_list (M := gmap string))]. rewrite <- Hp. pose proof (all_passed order) as Ha.
    assert (Forall (uncurry (fun _ r => r = None)) order <-> Forall (fun nf => nf.2 = None) order) as ->
      by (apply Forall_iff; by intros [k o]). rewrite <- Ha.
    destruct (forallb passed order); done.
  - rewrite Hs. destruct (forallb passed order); auto.
Qed.
Lemma health_report_order_independent_witness :
  let '(code, st) := Health.Handler [("redis", Some "timeout"); ("db", None)] in
  Health.Checks st = (fun r => default "ok" r) <$> ({["db" := None; "redis" := Some "timeout"]} : Health.Checker).
Proof.
  pose proof (health_report_order_independent {["db" := None; "redis" := Some "timeout"]} [("redis", Some "timeout"); ("db", None)]) as H.
  destruct (Health.Handler [("redis", Some "timeout"); ("db", None)]) as [code st]. apply H.
  apply (bool_decide_unpack _). vm_compute. exact I.
Defined.

(** *** The event bus *)
Section bus.
Context {W : Type} (run : string -> string -> Bus.Bus * W -> res string unit * (Bus.Bus * W)).

Lemma publish_loop_called hs payload s :
  let '(r, called, _) := Bus.publish_loop run hs payload s in
  called `prefix_of` hs /\ (r = Ok () -> called = hs).
Proof.
  revert s. induction hs as [|h hs IH]; intros s; simpl; [done|]. destruct (run h payload s) as [[u|p] s'].
  - specialize (IH s'). destruct (Bus.publish_loop run hs payload s') as [[r called] s'']. destruct IH as [IH1 IH2].
    split; [by apply prefix_cons|]. intros Hr. by rewrite IH2.
  - split; [|done]. exists hs. done.
Qed.
(** [Publish] calls the handlers that were subscribed when it started, in subscription order,
    whatever they subscribe meanwhile; it stops early only at a panic.  A handler subscribed before
    is called last. *)
Lemma publish_snapshot b w eventType payload h :
  let b' := Bus.Subscribe b eventType h in
  let '(r, called, _) := Bus.Publish run b' w eventType payload in
  called `prefix_of` default [] (b !! eventType) ++ [h] /\ (r = Ok () -> called = default [] (b !! eventType) ++ [h]) /\
  forall t, t <> eventType -> b' !! t = b !! t.
Proof.
  intros b'. unfold Bus.Publish.
  assert (default [] (b' !! eventType) = default [] (b !! eventType) ++ [h]) as E.
  { unfold b', Bus.Subscribe, Bus.Bus. by rewrite lookup_insert_eq. }
  rewrite E. pose proof (publish_loop_called (default [] (b !! eventType) ++ [h]) payload (b', w)) as Hc.
  destruct (Bus.publish_loop _ _ _ _) as [[r called] s]. destruct Hc. split_and!; [done..|].
  intros t Ht. unfold b', Bus.Subscribe, Bus.Bus. by rewrite lookup_insert_ne.
Qed.
(** Asynchronous handlers all run, in any order; at most one log line each. *)
Lemma async_all_run order eventType payload s :
  (length (Bus.async_run run order eventType payload s).1 <= length order)%nat /\
  Forall (fun l => l.1 = eventType) (Bus.async_run run order eventType payload s).1.
Proof.
  revert s. induction order as [|h order IH]; intros s; simpl; [done|]. destruct (run h payload s) as [[u|p] s'].
  - specialize (IH s'). destruct (Bus.async_run run order eventType payload s') as [log s'']. simpl in *. split; [lia|apply IH].
  - specialize (IH s'). destruct (Bus.async_run run order eventType payload s') as [log s'']. simpl in *.
    split; [lia|]. constructor; [done|apply IH].
Qed.
End bus.

Import Migrate.
Lemma ensureMultiStatements_has url : Contains (ensureMultiStatements url) multi = true.
Proof.
  unfold ensureMultiStatements. destruct (Contains url multi) eqn:E; [done|].
  destruct (Contains url "?"); by apply Contains_app_r.
Qed.
Lemma ensureMultiStatements_prefix url : exists t, ensureMultiStatements url = url +:+ t.
Proof.
  unfold ensureMultiStatements. destruct (Contains url multi); [exists ""; by rewrite sapp_nil_r|].
  destruct (Contains url "?"); eauto.
Qed.

(** A data source name is refused only when it is empty; the URL made of any other carries the
    scheme and the multi-statement flag, and converting it again changes nothing. *)
Theorem migrate_url_canonical dsn :
  match ToMigrateURL dsn with
  | Err _ => dsn = ""
  | Ok url => dsn <> "" /\ HasPrefix url "mysql://" = true /\ Contains url multi = true /\
              ToMigrateURL url = Ok url
  end.
Proof.
  assert (forall u, HasPrefix u "mysql://" = true ->
    let url := ensureMultiStatements u in
    HasPrefix url "mysql://" = true /\ Contains url multi = true /\ ToMigrateURL url = Ok url) as Hgo.
  { intros u [t ->]%HasPrefix_iff url. destruct (ensureMultiStatements_prefix ("mysql://" +:+ t)) as [t' Et].
    assert (HasPrefix url "mysql://" = true) as Hp by (subst url; rewrite Et, <- sapp_assoc; apply HasPrefix_app).
    assert (Contains url multi = true) as Hc by apply ensureMultiStatements_has. split_and!; [done..|].
    unfold ToMigrateURL. destruct (String.eqb_spec url "") as [E|_]; [by rewrite E in Hp|].
    rewrite Hp. unfold ensureMultiStatements at 1. by rewrite Hc. }
  unfold ToMigrateURL at 1. destruct (String.eqb_spec dsn ""); [done|].
  destruct (HasPrefix dsn "mysql://") eqn:E; (split; [done|]); apply Hgo; [done|apply HasPrefix_app].
Qed.

(** [Run] succeeds exactly when the library opens, the version asked for is forced, and the
    migrations apply or none is pending; a version is forced only when one above zero is asked
    for.  Whatever happened after opening, the last thing done is the close. *)
Theorem migrate_run_exact `{Migrator} dsn path force s url s1 :
  ToMigrateURL dsn = Ok url -> m_new path url s = (Ok (), s1) ->
  let s2 := if 0 <? force then (m_force force s1).2 else s1 in
  (exists s', (Run dsn path force s).2 = m_close s') /\
  ((Run dsn path force s).1 = Ok () <->
   (0 < force -> (m_force force s1).1 = Ok ()) /\ ((m_up s2).1 = Ok () \/ (m_up s2).1 = Err ErrNoChange)) /\
  ((Run dsn path force s).1 = Ok () -> (Run dsn path force s).2 = m_close (m_up s2).2).
Proof.
  intros Hu Hn s2. unfold Run. rewrite Hu, Hn. subst s2.
  destruct (Z.ltb_spec 0 force); [destruct (m_force force s1) as [[[]|e] s2] eqn:Ef|]; simpl.
  2: { split_and!; [eauto| |done]. split; [done|]. intros [Hf _]. by specialize (Hf ltac:(lia)). }
  all: match goal with |- context [@m_up ?M ?x] => destruct (@m_up M x) as [[[]|[|e']] s3] end;
    simpl; split_and!; eauto; try done; (split; [try done|intros [_ [?|?]]; done]); intros _; split; auto; lia.
Qed.
End ServiceProps.
