(* ===== verification/Logger.v ===== *)
(** * logger/logger.go: the process-wide logger

    The logger is held in an [atomic.Value] and made on first use under a [sync.Once].  [New] and
    [get] are the calls run alone; [step] interleaves the calls of any number of goroutines at
    their atomic operations.  zap's constructors may fail, and return nil then. *)
From S2P Require Import Prelude GoStd.
Open Scope go_scope.

Module Logger.
(** A logger object is told apart by its number; [None] is the nil pointer. *)
Inductive config := Production | Development.
Record zlogger := mkZ { z_config : config; z_serial : nat }.
Definition ptr : Type := option zlogger.
#[export] Instance config_eq_dec : EqDecision config.
Proof. solve_decision. Defined.
#[export] Instance zlogger_eq_dec : EqDecision zlogger.
Proof. solve_decision. Defined.

(** What a constructor call returned: a new object, or nothing. *)
Definition construct (c : config) (r : option nat) : ptr := mkZ c <$> r.
Definition env_config (env : string) : config := if String.eqb env "production" then Production else Development.

(** *** The package variables: the atomic value (empty at first) and the once *)
Inductive once := NotRun | Running | HasRun.
#[export] Instance once_eq_dec : EqDecision once.
Proof. solve_decision. Defined.
Record vars := mkVars { global : option ptr; initOnce : once }.
Definition Store (p : ptr) (v : vars) : vars := mkVars (Some p) (initOnce v).

Definition New (env : string) (r : option nat) (v : vars) : ptr * vars :=
  let log := construct (env_config env) r in (log, Store log v).
(** [None] is the panic of the type assertion on an empty value. *)
Definition get (r : option nat) (v : vars) : option ptr * vars :=
  match global v with
  | Some l => (Some l, v)
  | None =>
      let v := match initOnce v with
               | HasRun | Running => v
               | NotRun => mkVars (global (Store (construct Development r) v)) HasRun
               end in
      (global v, v)
  end.

(** *** Fields and levels *)
Inductive value := VString (s : string) | VInt (z : Z) | VBool (b : bool) | VAny (s : string).
Record Field := mkField { Key : string; Val : value }.
Definition String_ (key val : string) : Field := mkField key (VString val).
Definition Int (key : string) (val : Z) : Field := mkField key (VInt val).
Definition Int64 (key : string) (val : Z) : Field := mkField key (VInt val).
Definition Bool_ (key : string) (val : bool) : Field := mkField key (VBool val).
Definition Any (key : string) (val : string) : Field := mkField key (VAny val).

Inductive level := InfoLevel | ErrorLevel | WarnLevel | DebugLevel.
(** An entry handed to a logger.  A method of the nil logger panics ([None]), as does the assertion. *)
Record entry := mkEntry { e_logger : zlogger; e_level : level; e_msg : string; e_fields : list Field }.
Definition log_at (lv : level) (msg : string) (fields : list Field) (r : option nat) (v : vars) : option entry * vars :=
  let '(l, v) := get r v in (p ← l; z ← p; Some (mkEntry z lv msg fields), v).
Definition Info := log_at InfoLevel.
Definition Error := log_at ErrorLevel.
Definition Warn := log_at WarnLevel.
Definition Debug := log_at DebugLevel.

(** *** Goroutines *)
Inductive pc :=
| InNew (env : string)       (* before the store of [New] *)
| Loading                    (* before the first load of [get] *)
| Missed                     (* found nothing, before [initOnce.Do] *)
| Initialising               (* in the function of the once *)
| Reloading                  (* before the second load *)
| Returned (l : ptr).
Record world := mkWorld { threads : list pc; state : vars; stored : list ptr; inits : nat }.
Definition put (j : nat) (p : pc) (w : world) : world :=
  mkWorld (<[j := p]> (threads w)) (state w) (stored w) (inits w).
Definition put_store (j : nat) (p : pc) (l : ptr) (o : once) (n : nat) (w : world) : world :=
  mkWorld (<[j := p]> (threads w)) (mkVars (Some l) o) (stored w ++ [l]) (inits w + n).

(** A goroutine that finds the once running waits, that is, does not move. *)
Inductive step (w : world) : world -> Prop :=
| SNew j env r : threads w !! j = Some (InNew env) ->
    let l := construct (env_config env) r in
    step w (put_store j (Returned l) l (initOnce (state w)) 0 w)
| SHit j l : threads w !! j = Some Loading -> global (state w) = Some l -> step w (put j (Returned l) w)
| SMiss j : threads w !! j = Some Loading -> global (state w) = None -> step w (put j Missed w)
| SEnter j : threads w !! j = Some Missed -> initOnce (state w) = NotRun ->
    step w (mkWorld (<[j := Initialising]> (threads w)) (mkVars (global (state w)) Running) (stored w) (inits w))
| SSkip j : threads w !! j = Some Missed -> initOnce (state w) = HasRun -> step w (put j Reloading w)
| SInit j r : threads w !! j = Some Initialising ->
    step w (put_store j Reloading (construct Development r) HasRun 1 w)
| SReload j l : threads w !! j = Some Reloading -> global (state w) = Some l -> step w (put j (Returned l) w).

Definition fresh_call (p : pc) : Prop := match p with InNew _ | Loading => True | _ => False end.
Definition boot (ts : list pc) : world := mkWorld ts (mkVars None NotRun) [] 0.
End Logger.

Module LoggerFacts.
Import Logger.

Definition is_init (p : pc) : bool := match p with Initialising => true | _ => false end.
Definition count_init (ts : list pc) : nat := length (List.filter is_init ts).

(** The invariant of the package variables. *)
Record Inv (w : world) : Prop := {
  inv_last : global (state w) = last (stored w);
  inv_run : initOnce (state w) = HasRun -> global (state w) <> None;
  inv_one : count_init (threads w) = match initOnce (state w) with Running => 1%nat | _ => 0%nat end;
  inv_inits : inits w = match initOnce (state w) with HasRun => 1%nat | _ => 0%nat end;
  inv_reload : forall j, threads w !! j = Some Reloading -> global (state w) <> None;
  inv_returned : forall j l, threads w !! j = Some (Returned l) -> l ∈ stored w }.

Lemma count_init_insert j (ts : list pc) p q :
  ts !! j = Some p ->
  (count_init (<[j := q]> ts) + (if is_init p then 1 else 0) = count_init ts + (if is_init q then 1 else 0))%nat.
Proof.
  unfold count_init. revert j. induction ts as [|x ts IH]; intros [|j]; simpl; intros H; simplify_eq.
  - destruct (is_init p), (is_init q); simpl; lia.
  - specialize (IH j H). destruct (is_init x); simpl; lia.
Qed.

(** Moving one goroutine from [p] to [q] keeps the facts about all of them. *)
Lemma inv_put w j p q v' st' n' :
  Inv w -> threads w !! j = Some p ->
  global v' = last st' -> (initOnce v' = HasRun -> global v' <> None) ->
  ((if is_init q then 1 else 0) + match initOnce (state w) with Running => 1 | _ => 0 end =
   (if is_init p then 1 else 0) + match initOnce v' with Running => 1 | _ => 0 end)%nat ->
  n' = match initOnce v' with HasRun => 1%nat | _ => 0%nat end ->
  (global (state w) <> None -> global v' <> None) -> (q = Reloading -> global v' <> None) ->
  (forall l, q = Returned l -> l ∈ st') -> (forall l, l ∈ stored w -> l ∈ st') ->
  Inv (mkWorld (<[j := q]> (threads w)) v' st' n').
Proof.
  intros HI Hj Hl Hrun Hone Hn Hmono Hre Hret Hst.
  pose proof (count_init_insert j (threads w) p q Hj) as Hc. pose proof (inv_one w HI) as H1.
  constructor; cbn [state global stored threads inits initOnce]; [done|done| |done| |].
  - rewrite H1 in Hc. revert Hc Hone. destruct (is_init p), (is_init q), (initOnce (state w)), (initOnce v'); lia.
  - intros k. destruct (decide (k = j)) as [->|].
    + rewrite list_lookup_insert_eq by (by eapply lookup_lt_Some). intros [= ->]. by apply Hre.
    + rewrite list_lookup_insert_ne by done. intros Hk. by eapply Hmono, (inv_reload w HI).
  - intros k l. destruct (decide (k = j)) as [->|].
    + rewrite list_lookup_insert_eq by (by eapply lookup_lt_Some). intros [= ->]. by apply Hret.
    + rewrite list_lookup_insert_ne by done. intros Hk. by eapply Hst, (inv_returned w HI).
Qed.
Lemma stored_in w l : Inv w -> global (state w) = Some l -> l ∈ stored w.
Proof. intros HI. rewrite (inv_last w HI). apply last_Some_elem_of. Qed.
Lemma initialising w j : Inv w -> threads w !! j = Some Initialising -> initOnce (state w) = Running.
Proof.
  intros HI Hj. pose proof (inv_one w HI) as H1. pose proof (count_init_insert j _ _ Loading Hj) as Hc.
  simpl in Hc. destruct (initOnce (state w)); [lia|done|lia].
Qed.

Lemma inv_step w w' : Inv w -> step w w' -> Inv w'.
Proof.
  intros HI Hs. pose proof (inv_last w HI) as Hl. pose proof (inv_run w HI) as Hr. pose proof (inv_inits w HI) as Hn.
  destruct Hs as [j env r Hj l|j l Hj Hg|j Hj Hg|j Hj Ho|j Hj Ho|j r Hj|j l Hj Hg];
    try (pose proof (initialising w j HI Hj) as Ho); eapply inv_put; try eassumption; cbn; try rewrite Ho;
    rewrite ?last_snoc; try done; try lia; try set_solver.
  - intros l' [= <-]. by apply stored_in.
  - by rewrite Hn, Ho.
  - by rewrite Hn, Ho.
  - intros l' [= <-]. by apply stored_in.
Qed.

Lemma inv_boot ts : Forall fresh_call ts -> Inv (boot ts).
Proof.
  intros Hf. constructor; cbn; try done.
  - induction Hf as [|p ts Hp _ IH]; [done|]. unfold count_init in *. by destruct p.
  - intros j Hj. by eapply Forall_lookup in Hj; [|done].
  - intros j l Hj. by eapply Forall_lookup in Hj; [|done].
Qed.
Lemma inv_reachable ts w : Forall fresh_call ts -> rtc step (boot ts) w -> Inv w.
Proof.
  intros Hf. revert w. apply (rtc_ind_r Inv (boot ts)); [by apply inv_boot|].
  intros y z _ Hs Hy. by eapply inv_step.
Qed.

(** Steps a goroutine has left. *)
Definition weight (p : pc) : nat :=
  match p with InNew _ => 1 | Loading => 4 | Missed => 3 | Initialising => 2 | Reloading => 1 | Returned _ => 0 end.
Definition weights (ts : list pc) : nat := sum_list_with weight ts.
Lemma weights_insert j (ts : list pc) p q :
  ts !! j = Some p -> (weights (<[j := q]> ts) + weight p = weights ts + weight q)%nat.
Proof.
  unfold weights. revert j. induction ts as [|x ts IH]; intros [|j]; simpl; intros H; simplify_eq; [lia|].
  specialize (IH j H). lia.
Qed.
Lemma step_weights w w' : step w w' -> (weights (threads w') < weights (threads w))%nat.
Proof.
  destruct 1 as [j env r Hj l|j l Hj Hg|j Hj Hg|j Hj Ho|j Hj Ho|j r Hj|j l Hj Hg];
    cbn [threads put put_store];
    match goal with |- (weights (<[_ := ?q]> _) < _)%nat => pose proof (weights_insert j (threads w) _ q Hj) end;
    simpl in *; lia.
Qed.
Lemma weights_bound ts : Forall fresh_call ts -> (weights ts <= 4 * length ts)%nat.
Proof. unfold weights. induction 1 as [|p ts Hp _ IH]; [done|]. destruct p; simpl in *; lia. Qed.
Lemma nsteps_weights n w w' : nsteps step n w w' -> (n + weights (threads w') <= weights (threads w))%nat.
Proof. induction 1 as [|n a b c Hs _ IH]; [lia|]. apply step_weights in Hs. lia. Qed.

Lemma count_init_pos ts : count_init ts <> 0%nat -> exists j, ts !! j = Some Initialising.
Proof.
  unfold count_init. induction ts as [|p ts IH]; [done|]. destruct p; simpl; intros H;
    try (destruct IH as [j Hj]; [done|]; by exists (S j)). by exists 0%nat.
Qed.
(** As long as a goroutine has not returned, one of them can move. *)
Lemma progress w j p :
  Inv w -> threads w !! j = Some p -> (forall l, p <> Returned l) -> exists w', step w w'.
Proof.
  intros HI Hj Hp. destruct p as [env| | | | |l].
  - eexists. by apply (SNew w j env None).
  - destruct (global (state w)) as [l|] eqn:E; eexists; [by eapply SHit|by eapply SMiss].
  - destruct (initOnce (state w)) eqn:E; [eexists; by eapply SEnter| |eexists; by eapply SSkip].
    destruct (count_init_pos (threads w)) as [k Hk]; [rewrite (inv_one w HI), E; done|].
    eexists. by apply (SInit w k None).
  - eexists. by apply (SInit w j None).
  - pose proof (inv_reload w HI j Hj) as Hg. destruct (global (state w)) as [l|] eqn:E; [|done].
    eexists. by eapply SReload.
  - by destruct (Hp l).
Qed.
End LoggerFacts.

Module LoggerProps.
Import Logger LoggerFacts.

(** C31. The shared logger settles: any number of concurrent calls of [New] and [get], in any
    interleaving, take at most four steps each; when none can move, every call has returned a
    logger that was stored (so no assertion meets an empty value and no call waits for ever), the
    default logger was made at most once, and what is kept is the logger stored last. *)
Theorem logger_settles ts :
  Forall fresh_call ts ->
  (forall n w, nsteps step n (boot ts) w -> (n <= 4 * length ts)%nat) /\
  (forall w, rtc step (boot ts) w -> ~ (exists w', step w w') ->
     Forall (fun p => exists l, p = Returned l /\ l ∈ stored w) (threads w) /\
     (inits w <= 1)%nat /\ global (state w) = last (stored w)).
Proof.
  intros Hf. split.
  - intros n w Hn%nsteps_weights. pose proof (weights_bound ts Hf). simpl in Hn. lia.
  - intros w Hr Hstuck. pose proof (inv_reachable ts w Hf Hr) as HI. split_and!.
    + apply Forall_lookup. intros j p Hj. destruct p as [| | | | |l];
        try (destruct Hstuck; eapply (progress w j); [done|done|discriminate]).
      exists l. split; [done|]. by eapply inv_returned.
    + rewrite (inv_inits w HI). destruct (initOnce (state w)); lia.
    + apply (inv_last w HI).
Qed.
(** A world in which every goroutine has returned does not move. *)
Lemma all_returned_rest w :
  Forall (fun p => exists l, p = Returned l) (threads w) -> ~ (exists w', step w w').
Proof.
  intros Ha [w' Hw]. destruct Hw as [j ? ? H|j ? H|j H|j H|j H|j ? H|j ? H];
    destruct (Forall_lookup_1 _ _ _ _ Ha H) as [? [=]].
Qed.
(** A [get] finds nothing, then [New] stores its logger, then the [get] makes the default one. *)
Definition settled : world :=
  mkWorld [Returned (Some (mkZ Production 0)); Returned (Some (mkZ Development 1))]
    (mkVars (Some (Some (mkZ Development 1))) HasRun)
    [Some (mkZ Production 0); Some (mkZ Development 1)] 1.
Lemma settled_reached : rtc step (boot [InNew "production"; Loading]) settled.
Proof.
  eapply rtc_l; [by apply (SMiss _ 1)|]. eapply rtc_l; [by apply (SEnter _ 1)|].
  eapply rtc_l; [by apply (SNew _ 0 "production" (Some 0%nat))|].
  eapply rtc_l; [by apply (SInit _ 1 (Some 1%nat))|].
  eapply rtc_l; [by apply (SReload _ 1 (Some (mkZ Development 1)))|]. apply rtc_refl.
Qed.
Lemma logger_settles_witness :
  rtc step (boot [InNew "production"; Loading]) settled /\
  Forall (fun p => exists l, p = Returned l /\ l ∈ stored settled) (threads settled) /\
  (inits settled <= 1)%nat /\ global (state settled) = last (stored settled).
Proof.
  split; [apply settled_reached|].
  apply (logger_settles [InNew "production"; Loading]); [by repeat constructor|apply settled_reached|].
  apply all_returned_rest. repeat constructor; eauto.
Defined.

(** Run alone, [get] after [New] answers with the logger made. *)
Lemma get_after_new env r r' v : get r' (New env r v).2 = (Some (New env r v).1, (New env r v).2).
Proof. reflexivity. Qed.
(** ... and before any [New], with a development logger, made once and kept. *)
Lemma first_get r r' :
  let '(l, v) := get r (mkVars None NotRun) in
  l = Some (construct Development r) /\ get r' v = (l, v).
Proof. by destruct r. Qed.

(** A configured logger can be lost: a [get] that looked before [New] stored its logger makes the
    default one afterwards and puts it in its place, so that all later messages of a service
    that asked for production logging go to a development logger. *)
Theorem configured_logger_can_be_lost :
  exists w, rtc step (boot [InNew "production"; Loading]) w /\
    threads w !! 0%nat = Some (Returned (Some (mkZ Production 0))) /\
    global (state w) = Some (Some (mkZ Development 1)) /\
    forall r, (get r (state w)).1 = Some (Some (mkZ Development 1)).
Proof. exists settled. split; [apply settled_reached|done]. Qed.
End LoggerProps.
