(* ===== verification/Imaging.v ===== *)
(** * imaging/: sizes, crops and validation of images

    imaging/imaging.go and imaging/validate.go.  Decoders, encoders and the scaler are functions of
    an abstract image type; what is modelled is which regions and sizes they are given.  Ratios are
    computed on float64. *)
From S2P Require Import Prelude GoStd Float.
Open Scope go_scope.

Module Imaging.
Inductive Format := JPEG | PNG.
Record ResizeOption := mkResize { MaxWidth : Z; MaxHeight : Z; Quality : Z; Format_ : Format }.
Record rect := mkRect { x0 : Z; y0 : Z; x1 : Z; y1 : Z }.
Definition Dx (r : rect) : Z := x1 r - x0 r.
Definition Dy (r : rect) : Z := y1 r - y0 r.

(** [int(f)]: the products below lie between zero and a side of the image. *)
Definition int_of (f : f64) : Z := default 0 (f64_trunc f).
Definition fitDimensions (srcW srcH maxW maxH : Z) : Z * Z :=
  if (maxW =? 0) && (maxH =? 0) then (srcW, srcH) else
  let ratioW := if (0 <? maxW) && (maxW <? srcW) then f64_div (f64_of_Z maxW) (f64_of_Z srcW) else f64_of_Z 1 in
  let ratioH := if (0 <? maxH) && (maxH <? srcH) then f64_div (f64_of_Z maxH) (f64_of_Z srcH) else f64_of_Z 1 in
  let ratio := if f64_ltb ratioH ratioW then ratioH else ratioW in
  let dstW := int_of (f64_mul (f64_of_Z srcW) ratio) in
  let dstH := int_of (f64_mul (f64_of_Z srcH) ratio) in
  (if dstW <? 1 then 1 else dstW, if dstH <? 1 then 1 else dstH).

Section images.
Context {Img : Type}.
Variable bounds : Img -> rect.
(** image/png and image/jpeg, the latter with its quality. *)
Variable png_encode : Img -> res string string.
Variable jpeg_encode : Img -> Z -> res string string.
(** An image of the given size with [src]'s region [r] scaled onto it (CatmullRom.Scale, draw.Over),
    or copied unscaled (draw.Copy, draw.Src). *)
Variable scale : Z -> Z -> Img -> rect -> Img.
Variable crop : Z -> Z -> Img -> rect -> Img.

Definition encode (img : Img) (opt : ResizeOption) : res string string :=
  match Format_ opt with
  | PNG => match png_encode img with Err e => Err ("imaging: png encode: " +:+ e) | Ok b => Ok b end
  | JPEG => match jpeg_encode img (Quality opt) with Err e => Err ("imaging: jpeg encode: " +:+ e) | Ok b => Ok b end
  end.
Definition Decode (decode : string -> res string (Img * string)) (r : string) : res string (Img * string) := decode r.
(** What [Resize] encodes: the image itself, or a scaled one. *)
Definition resized (img : Img) (opt : ResizeOption) : Img :=
  let b := bounds img in
  let '(dstW, dstH) := fitDimensions (Dx b) (Dy b) (MaxWidth opt) (MaxHeight opt) in
  if (Dx b <=? dstW) && (Dy b <=? dstH) then img else scale dstW dstH img b.
Definition Resize (img : Img) (opt : ResizeOption) : res string string :=
  let opt := if Quality opt =? 0 then mkResize (MaxWidth opt) (MaxHeight opt) 85 (Format_ opt) else opt in
  encode (resized img opt) opt.
Definition Compress (img : Img) (quality : Z) (format : Format) : res string string :=
  encode img (mkResize 0 0 quality format).
(** The centred square of [Thumbnail], and the whole function. *)
Definition crop_rect (b : rect) : Z * rect :=
  let srcW := Dx b in let srcH := Dy b in
  let cropSize := if srcH <? srcW then srcH else srcW in
  let cx := Z.quot (srcW - cropSize) 2 in
  let cy := Z.quot (srcH - cropSize) 2 in
  (cropSize, mkRect (cx + x0 b) (cy + y0 b) (cx + x0 b + cropSize) (cy + y0 b + cropSize)).
Definition Thumbnail (img : Img) (size quality : Z) : res string string :=
  let '(cropSize, r) := crop_rect (bounds img) in
  let cropped := crop cropSize cropSize img r in
  let dst := scale size size cropped (bounds cropped) in
  let quality := if quality =? 0 then 80 else quality in
  encode dst (mkResize 0 0 quality JPEG).
End images.

(** ** validate.go *)
Record ValidateConfig := mkValidate { MaxFileSize : Z; v_MaxWidth : Z; v_MaxHeight : Z; AllowedTypes : list string }.
(** [strings.EqualFold(s, t)] for an ASCII [s]: letters fold to lower case, as do the Kelvin sign and
    the long s. *)
Definition fold_ascii (r : Z) : Z :=
  if (65 <=? r) && (r <=? 90) then r + 32 else if r =? 8490 then 107 else if r =? 383 then 115 else r.
Definition EqualFold (s t : string) : bool := bool_decide (fold_ascii <$> runes s = fold_ascii <$> runes t).
(** [decode_config] is image.DecodeConfig: width, height and the name of the format. *)
Definition Validate (decode_config : string -> option (Z * Z * string)) (r : string) (size : Z) (cfg : ValidateConfig)
  : res string unit :=
  if (0 <? MaxFileSize cfg) && (MaxFileSize cfg <? size) then Err "image exceeds maximum file size" else
  match decode_config r with
  | None => Err "invalid image format"
  | Some (width, height, format) =>
      if negb (bool_decide (AllowedTypes cfg = [])) && negb (existsb (EqualFold format) (AllowedTypes cfg))
      then Err ("image format not allowed: " +:+ format) else
      if (0 <? v_MaxWidth cfg) && (v_MaxWidth cfg <? width) then Err "image width exceeds maximum" else
      if (0 <? v_MaxHeight cfg) && (v_MaxHeight cfg <? height) then Err "image height exceeds maximum" else Ok ()
  end.

Example fit_examples :
  fitDimensions 4000 3000 1024 1024 = (1024, 768) /\ fitDimensions 800 600 0 0 = (800, 600) /\
  fitDimensions 800 600 1024 0 = (800, 600) /\ fitDimensions 10000 3 100 100 = (100, 1) /\ fitDimensions 49 49 1 0 = (1, 1).
Proof. vm_compute. done. Qed.
End Imaging.

Module ImagingFacts.
Import Imaging Float.

(** [r] is [m / 2^k], and [a / b] up to one part in 2^53. *)
Record ratio (r : f64) (m k a b : Z) : Prop := {
  ratio_float : is_float r m k;
  ratio_exp : 51 <= k <= 105;
  ratio_near : 2 ^ 53 * Z.abs (m * b - a * 2 ^ k) <= a * 2 ^ k }.
Definition side_ratio (src max : Z) : f64 :=
  if (0 <? max) && (max <? src) then f64_div (f64_of_Z max) (f64_of_Z src) else f64_of_Z 1.

Lemma ratio_one : ratio (f64_of_Z 1) (2 ^ 52) 52 1 1.
Proof. split; [split; [reflexivity|lia]|lia|simpl; lia]. Qed.
Definition longer (src max : Z) : bool := (0 <? max) && (max <? src).
Lemma ratio_lt_1 r m k a b : ratio r m k a b -> 0 < a < b -> b < 2 ^ 31 -> m < 2 ^ k.
Proof.
  intros [_ Hk He] Hab Hb. assert (0 < 2 ^ k) as P by (apply Z.pow_pos_nonneg; lia). set (K := 2 ^ k) in *. clearbody K.
  assert (2 ^ 53 * (m * b) <= (2 ^ 53 + 1) * (a * K)) as B by lia.
  apply Z.nle_gt. intros Hle. assert (K * b <= m * b) by nia. assert (a * K <= b * K - K) by nia.
  assert (b * K < 2 ^ 31 * K) by nia. lia.
Qed.
(** A side's ratio: that of its limit when it is longer, one otherwise. *)
Lemma side_ratio_spec src max :
  0 < src < 2 ^ 31 ->
  exists m k, ratio (side_ratio src max) m k (if longer src max then max else 1) (if longer src max then src else 1) /\
    (if longer src max then m < 2 ^ k else m = 2 ^ k).
Proof.
  intros Hs. unfold side_ratio. fold (longer src max). destruct (longer src max) eqn:E; unfold longer in E.
  - destruct (div_ratio max src) as (m & k & Hf & Hk & He); [lia|lia|]. exists m, k.
    assert (ratio (f64_div (f64_of_Z max) (f64_of_Z src)) m k max src) as R by done.
    split; [done|]. eapply ratio_lt_1; [done|lia|lia].
  - exists (2 ^ 52), 52. split; [apply ratio_one|done].
Qed.

(** The product of a side and a ratio no greater than [a / b] (that of [r2]) does not exceed a bound
    that [n * a / b] does not exceed. *)
Lemma scaled_le n c r m k a1 b1 r2 m2 k2 a b :
  0 < n < 2 ^ 31 -> 0 < c < 2 ^ 31 -> 0 < b -> 0 < a -> ratio r m k a1 b1 -> ratio r2 m2 k2 a b ->
  m * 2 ^ k2 <= m2 * 2 ^ k -> n * a <= c * b -> int_of (f64_mul (f64_of_Z n) r) <= c.
Proof.
  intros Hn Hc Hb Ha [Hf Hk He] [Hf2 Hk2 He2] Hle Hna.
  destruct (mul_ratio n r m k Hn Hf Hk) as (m' & k' & _ & Hk' & Ht & Hr).
  unfold int_of. rewrite Ht. cbn [default from_option id]. destruct Hf as [_ Hm]. destruct Hf2 as [_ Hm2].
  assert (0 < 2 ^ k') as P' by (apply Z.pow_pos_nonneg; lia). apply Z.lt_succ_r, Z.div_lt_upper_bound; [done|].
  assert (0 < 2 ^ k) as P by (apply Z.pow_pos_nonneg; lia). assert (0 < 2 ^ k2) as P2 by (apply Z.pow_pos_nonneg; lia).
  set (K' := 2 ^ k') in *. set (K := 2 ^ k) in *. set (K2 := 2 ^ k2) in *. clearbody K K' K2. clear Ht Hk Hk' Hk2 He.
  set (U := 2 ^ 53) in *. assert (U = 9007199254740992) as EU by reflexivity.
  assert (U * (m' * K) <= (U + 1) * (n * m * K')) as B1 by lia.
  assert (U * (m2 * b) <= (U + 1) * (a * K2)) as B2 by lia.
  assert (U * (m' * K) * (K2 * b * U) <= (U + 1) * (n * K') * (m * K2) * (b * U)) as C1 by nia.
  assert ((m * K2) * (b * U) <= (m2 * K) * (b * U)) as C2 by nia.
  assert ((m2 * K) * (b * U) <= (U + 1) * (a * K2) * K) as C3 by nia.
  assert ((m * K2) * (b * U) <= (U + 1) * (a * K2) * K) as C4 by lia.
  assert ((U + 1) * (n * K') * (m * K2) * (b * U) <= (U + 1) * (n * K') * ((U + 1) * (a * K2) * K)) as C5.
  { replace ((U + 1) * (n * K') * (m * K2) * (b * U)) with ((U + 1) * (n * K') * ((m * K2) * (b * U))) by lia.
    apply Z.mul_le_mono_nonneg_l; [nia|done]. }
  assert (m' * b * (U * U) <= n * a * K' * ((U + 1) * (U + 1))) as C6.
  { apply (Z.mul_le_mono_pos_l _ _ (K * K2)); [nia|]. lia. }
  assert (n * a * K' * ((U + 1) * (U + 1)) <= c * b * K' * ((U + 1) * (U + 1))) as C7 by nia.
  assert (m' * (U * U) <= c * K' * ((U + 1) * (U + 1))) as C8 by (apply (Z.mul_le_mono_pos_l _ _ b); [done|lia]).
  rewrite EU in C8. nia.
Qed.

(** The scaled side against the exact product. *)
Lemma scaled_near n r m k a b :
  0 < n < 2 ^ 31 -> ratio r m k a b ->
  let v := int_of (f64_mul (f64_of_Z n) r) in
  v * 2 ^ k * 2 ^ 53 <= n * m * (2 ^ 53 + 1) /\ n * m * (2 ^ 53 - 1) < (v + 1) * 2 ^ k * 2 ^ 53.
Proof.
  intros Hn [Hf Hk _]. destruct (mul_ratio n r m k Hn Hf Hk) as (m' & k' & _ & Hk' & Ht & Hr).
  unfold int_of. rewrite Ht. cbn [default from_option id]. destruct Hf as [_ Hm].
  assert (0 < 2 ^ k') as P' by (apply Z.pow_pos_nonneg; lia). assert (0 < 2 ^ k) as P by (apply Z.pow_pos_nonneg; lia).
  pose proof (Z.div_mod m' (2 ^ k') ltac:(lia)) as Hd. pose proof (Z.mod_pos_bound m' (2 ^ k') P') as Hb.
  set (v := m' / 2 ^ k') in *. set (K' := 2 ^ k') in *. set (K := 2 ^ k) in *. set (U := 2 ^ 53) in *.
  assert (0 < U) as HU by done. clearbody v K K'.
  assert (U * (m' * K) <= n * m * K' * (U + 1)) as B1 by lia. assert (n * m * K' * (U - 1) <= U * (m' * K)) as B2 by lia.
  split; [apply (Z.mul_le_mono_pos_l _ _ K'); [done|]|apply (Z.mul_lt_mono_pos_l K'); [done|]].
  - assert (v * K' * (K * U) <= m' * (K * U)) by (apply Z.mul_le_mono_nonneg_r; [nia|lia]). lia.
  - assert (m' * (K * U) < (v + 1) * K' * (K * U)) by (apply Z.mul_lt_mono_pos_r; [nia|lia]). lia.
Qed.
Lemma side_ratio_le_1 src max m k :
  (if longer src max then m < 2 ^ k else m = 2 ^ k) -> m <= 2 ^ k.
Proof. destruct (longer src max); lia. Qed.
(** Both sides are scaled alike, to less than two pixels. *)
Lemma aspect_kept n n' r m k a b :
  0 < n < 2 ^ 31 -> 0 < n' < 2 ^ 31 -> ratio r m k a b -> m <= 2 ^ k ->
  int_of (f64_mul (f64_of_Z n) r) * n' < (int_of (f64_mul (f64_of_Z n') r) + 2) * n.
Proof.
  intros Hn Hn' Hr Hm.
  pose proof (ratio_exp _ _ _ _ _ Hr) as Hk. assert (0 < 2 ^ k) as P by (apply Z.pow_pos_nonneg; lia).
  assert (0 < m) as Pm by (destruct Hr as [[_ ?] _ _]; lia).
  destruct (scaled_near n r m k a b Hn Hr) as [B1 _]. destruct (scaled_near n' r m k a b Hn' Hr) as [_ B2].
  set (w := int_of (f64_mul (f64_of_Z n) r)) in *. set (h := int_of (f64_mul (f64_of_Z n') r)) in *.
  set (K := 2 ^ k) in *. set (U := 2 ^ 53) in *. assert (4 * n' < U) as HU by (subst U; lia). clearbody w h K U.
  assert (0 < K * U) by nia. apply (Z.mul_lt_mono_pos_l (K * U)); [done|].
  assert (w * K * U * n' <= n * m * (U + 1) * n') as C1 by nia. assert (n' * m * (U - 1) * n < (h + 1) * K * U * n) as C2 by nia.
  assert (2 * (n * n' * m) <= n * n' * 4 * K) as C3 by nia. assert (n * n' * 4 * K < n * K * U) as C4 by nia. lia.
Qed.
(** The side whose limit gave the ratio fills it, but for a pixel. *)
Lemma limit_filled src max r m k :
  0 < src < 2 ^ 31 -> 0 < max < 2 ^ 31 -> ratio r m k max src -> max - 1 <= int_of (f64_mul (f64_of_Z src) r).
Proof.
  intros Hs Hx Hr. destruct (scaled_near src r m k _ _ Hs Hr) as [_ B1]. destruct Hr as [_ Hk He].
  set (v := int_of _) in *. clearbody v. assert (0 < 2 ^ k) as P by (apply Z.pow_pos_nonneg; lia).
  set (K := 2 ^ k) in *. set (U := 2 ^ 53) in *. assert (U = 9007199254740992) as EU by done. clearbody K.
  assert (max * K * (U - 1) <= U * (m * src)) as B2 by lia.
  assert (max * K * (U - 1) * (U - 1) < (v + 1) * K * U * U) as B3 by nia.
  assert (max * ((U - 1) * (U - 1)) < (v + 1) * (U * U)) as B4 by (apply (Z.mul_lt_mono_pos_l K); [done|lia]).
  rewrite EU in B4. lia.
Qed.


(** The bounds on one side, from its own ratio [m2 / 2^k2] and the common one. *)
Lemma side_bounds src max r m k a b m2 k2 :
  0 < src < 2 ^ 31 -> max < 2 ^ 31 -> ratio r m k a b ->
  ratio (side_ratio src max) m2 k2 (if longer src max then max else 1) (if longer src max then src else 1) ->
  m * 2 ^ k2 <= m2 * 2 ^ k ->
  let v := int_of (f64_mul (f64_of_Z src) r) in v <= src /\ (0 < max -> v <= max).
Proof.
  intros Hs Hx R R2 Hc v. unfold longer in *. destruct ((0 <? max) && (max <? src)) eqn:E.
  - assert (v <= max) by (eapply (scaled_le src max r m k a b _ m2 k2 max src); eauto; lia). lia.
  - assert (v <= src) by (eapply (scaled_le src src r m k a b _ m2 k2 1 1); eauto; lia).
    split; [done|]. intros. lia.
Qed.

(** The smaller of the two ratios: it is one only when neither side is too long, and otherwise that
    of a side that is. *)
Lemma common_ratio srcW srcH maxW maxH :
  0 < srcW < 2 ^ 31 -> 0 < srcH < 2 ^ 31 -> maxW < 2 ^ 31 -> maxH < 2 ^ 31 ->
  let r := if f64_ltb (side_ratio srcH maxH) (side_ratio srcW maxW) then side_ratio srcH maxH else side_ratio srcW maxW in
  let w := int_of (f64_mul (f64_of_Z srcW) r) in let h := int_of (f64_mul (f64_of_Z srcH) r) in
  (w <= srcW /\ (0 < maxW -> w <= maxW)) /\ (h <= srcH /\ (0 < maxH -> h <= maxH)) /\
  w * srcH < (h + 2) * srcW /\ h * srcW < (w + 2) * srcH /\
  ((longer srcW maxW = true /\ maxW - 1 <= w) \/ (longer srcH maxH = true /\ maxH - 1 <= h) \/
   (longer srcW maxW = false /\ longer srcH maxH = false /\ r = f64_of_Z 1)).
Proof.
  intros HW HH HmW HmH r w h.
  destruct (side_ratio_spec srcW maxW HW) as (mw & kw & Rw & Lw). destruct (side_ratio_spec srcH maxH HH) as (mh & kh & Rh & Lh).
  pose proof (ratio_exp _ _ _ _ _ Rh) as Xh. pose proof (ratio_exp _ _ _ _ _ Rw) as Xw.
  pose proof (ltb_value _ _ _ _ _ _ (ratio_float _ _ _ _ _ Rh) (ratio_float _ _ _ _ _ Rw) ltac:(lia) ltac:(lia)) as Hcmp.
  assert (0 < 2 ^ kh) by (apply Z.pow_pos_nonneg; lia). assert (0 < 2 ^ kw) by (apply Z.pow_pos_nonneg; lia).
  destruct (f64_ltb _ _) eqn:El; subst r.
  - assert (mh * 2 ^ kw < mw * 2 ^ kh) as Hlt by (by apply Hcmp). pose proof (side_ratio_le_1 _ _ _ _ Lw) as Ew.
    split; [eapply side_bounds; [lia|lia|exact Rh|exact Rw|lia]|].
    split; [eapply side_bounds; [lia|lia|exact Rh|exact Rh|lia]|].
    pose proof (side_ratio_le_1 _ _ _ _ Lh) as Eh. split; [by eapply aspect_kept|]. split; [by eapply aspect_kept|].
    right. left. destruct (longer srcH maxH) eqn:EH; [|nia]. split; [done|]. unfold longer in EH.
    eapply limit_filled; [lia|lia|exact Rh].
  - assert (mw * 2 ^ kh <= mh * 2 ^ kw) as Hge by (apply Z.nlt_ge; intros Hn; by apply Hcmp in Hn).
    split; [eapply side_bounds; [lia|lia|exact Rw|exact Rw|lia]|].
    split; [eapply side_bounds; [lia|lia|exact Rw|exact Rh|lia]|].
    pose proof (side_ratio_le_1 _ _ _ _ Lw) as Ew. split; [by eapply aspect_kept|]. split; [by eapply aspect_kept|].
    destruct (longer srcW maxW) eqn:EW.
    + left. split; [done|]. unfold longer in EW. eapply limit_filled; [lia|lia|exact Rw].
    + right. right. destruct (longer srcH maxH) eqn:EH; [nia|]. split_and!; [done..|].
      unfold side_ratio. fold (longer srcW maxW). by rewrite EW.
Qed.
End ImagingFacts.

Module ImagingProps.
Import Imaging ImagingFacts Float.

(** The crop of a thumbnail is a square inside the image, as large as the shorter side and centred
    up to one pixel. *)
Lemma thumbnail_crop_inside b :
  0 <= Dx b -> 0 <= Dy b ->
  let '(size, r) := crop_rect b in
  size = Z.min (Dx b) (Dy b) /\ Dx r = size /\ Dy r = size /\
  x0 b <= x0 r /\ x1 r <= x1 b /\ y0 b <= y0 r /\ y1 r <= y1 b /\
  0 <= (x1 b - x1 r) - (x0 r - x0 b) <= 1 /\ 0 <= (y1 b - y1 r) - (y0 r - y0 b) <= 1.
Proof.
  unfold crop_rect, Dx, Dy. intros Hx Hy. cbn [x0 y0 x1 y1].
  destruct (Z.ltb_spec (y1 b - y0 b) (x1 b - x0 b)); Z.to_euclidean_division_equations; lia.
Qed.

(** Sizes are at least one pixel, and kept when there is no limit. *)
Lemma fit_positive w h mw mh : 1 <= w -> 1 <= h -> 1 <= (fitDimensions w h mw mh).1 /\ 1 <= (fitDimensions w h mw mh).2.
Proof.
  intros Hw Hh. unfold fitDimensions. destruct (_ && _); [done|]. cbv zeta. cbn [fst snd].
  split; match goal with |- context [?a <? 1] => destruct (Z.ltb_spec a 1); lia end.
Qed.

(** C25. A resized image fits its box: neither side exceeds its limit (a limit of zero or less is none) or
    the original, none is less than a pixel; an image that fits already keeps its size; one that
    does not fills one of its limits up to a pixel; and unless a side is down to one pixel the
    sides keep their proportion to less than two pixels.  All of this as computed on float64, for
    images and limits below 2^31. *)
Theorem fit_within_box srcW srcH maxW maxH :
  1 <= srcW < 2 ^ 31 -> 1 <= srcH < 2 ^ 31 -> maxW < 2 ^ 31 -> maxH < 2 ^ 31 ->
  let '(w, h) := fitDimensions srcW srcH maxW maxH in
  (1 <= w <= srcW /\ (0 < maxW -> w <= maxW)) /\ (1 <= h <= srcH /\ (0 < maxH -> h <= maxH)) /\
  (if longer srcW maxW || longer srcH maxH
   then (longer srcW maxW = true /\ maxW - 1 <= w) \/ (longer srcH maxH = true /\ maxH - 1 <= h)
   else (w, h) = (srcW, srcH)) /\
  (1 < w -> 1 < h -> w * srcH < (h + 2) * srcW /\ h * srcW < (w + 2) * srcH).
Proof.
  intros HW HH HmW HmH. unfold fitDimensions. fold (side_ratio srcW maxW) (side_ratio srcH maxH).
  destruct ((maxW =? 0) && (maxH =? 0)) eqn:E0.
  { apply andb_prop in E0 as [->%Z.eqb_eq ->%Z.eqb_eq]. unfold longer. cbn.
    split; [lia|]. split; [lia|]. split; [done|]. nia. }
  pose proof (common_ratio srcW srcH maxW maxH ltac:(lia) ltac:(lia) HmW HmH) as Hc. cbv zeta in *.
  set (r := if f64_ltb _ _ then _ else _) in *.
  set (w := int_of (f64_mul (f64_of_Z srcW) r)) in *. set (h := int_of (f64_mul (f64_of_Z srcH) r)) in *.
  destruct Hc as (Bw & Bh & A1 & A2 & Hfill).
  assert (r = f64_of_Z 1 -> w = srcW /\ h = srcH) as Hone.
  { intros Er. subst w h. unfold int_of. rewrite Er, !mul_one by lia. done. }
  clearbody w h. split; [destruct (Z.ltb_spec w 1); lia|]. split; [destruct (Z.ltb_spec h 1); lia|]. split.
  - destruct Hfill as [[-> Hf]|[[-> Hf]|(-> & -> & Er)]]; rewrite ?orb_true_r; cbn [orb].
    + left. split; [done|]. destruct (Z.ltb_spec w 1); lia.
    + right. split; [done|]. destruct (Z.ltb_spec h 1); lia.
    + destruct (Hone Er) as [-> ->]. by rewrite !(proj2 (Z.ltb_ge _ _)) by lia.
  - destruct (Z.ltb_spec w 1), (Z.ltb_spec h 1); lia.
Qed.
Lemma fit_within_box_witness :
  let '(w, h) := fitDimensions 4032 3024 1200 1200 in (w, h) = (1200, 900) /\ w <= 1200 /\ w * 3024 < (h + 2) * 4032.
Proof.
  pose proof (fit_within_box 4032 3024 1200 1200 ltac:(lia) ltac:(lia) ltac:(lia) ltac:(lia)) as H.
  assert (fitDimensions 4032 3024 1200 1200 = (1200, 900)) as E by (vm_compute; reflexivity). rewrite E in *.
  destruct H as ([_ Bw] & _ & _ & Ha). split; [done|]. split; [by apply Bw|]. by apply Ha.
Defined.

(** [Validate] accepts exactly the images within every limit that is set. *)
Lemma validate_exact dec r size cfg :
  Validate dec r size cfg = Ok () <->
  (0 < MaxFileSize cfg -> size <= MaxFileSize cfg) /\
  exists w h f, dec r = Some (w, h, f) /\
    (AllowedTypes cfg = [] \/ existsb (EqualFold f) (AllowedTypes cfg) = true) /\
    (0 < v_MaxWidth cfg -> w <= v_MaxWidth cfg) /\ (0 < v_MaxHeight cfg -> h <= v_MaxHeight cfg).
Proof.
  assert (forall m x, (0 <? m) && (m <? x) = false <-> (0 < m -> x <= m)) as Hlim by (intros; lia).
  unfold Validate. destruct (_ && _) eqn:E1.
  { split; [done|]. intros [Hs _]. apply Hlim in Hs. congruence. }
  rewrite Hlim in E1. destruct (dec r) as [[[w h] f]|]; [|naive_solver].
  destruct (negb _ && negb _) eqn:E2.
  { apply andb_prop in E2 as [N1%negb_true_iff%bool_decide_eq_false N2%negb_true_iff].
    split; [done|]. intros [_ (w' & h' & f' & [= <- <- <-] & [?|?] & _)]; congruence. }
  assert (AllowedTypes cfg = [] \/ existsb (EqualFold f) (AllowedTypes cfg) = true) as Ht.
  { apply andb_false_iff in E2 as [N%negb_false_iff%bool_decide_eq_true|N%negb_false_iff]; auto. }
  destruct (_ && (v_MaxWidth cfg <? w)) eqn:E3.
  { split; [done|]. intros [_ (w' & h' & f' & [= <- <- <-] & _ & Hw & _)]. apply Hlim in Hw. congruence. }
  rewrite Hlim in E3. destruct (_ && (v_MaxHeight cfg <? h)) eqn:E4.
  { split; [done|]. intros [_ (w' & h' & f' & [= <- <- <-] & _ & _ & Hh)]. apply Hlim in Hh. congruence. }
  rewrite Hlim in E4. split; [|done]. intros _. split; [done|]. by exists w, h, f.
Qed.
End ImagingProps.
