(* ===== verification/Circuit.v ===== *)
(** * circuitbreaker/breaker.go

    The breaker keeps one [circuitState] per key behind a mutex, so an execution is a
    sequence of whole operations.  [Module Breaker] translates them; [Module Spec] is
    the three-phase automaton the code implements, one per key; [Module Documented] the one
    its comments describe, which lets one probe through at a time while half-open.  The code
    implements the first on all histories and the second on those in which nobody asks while a
    probe is out; [half_open_admits_all] shows what it does on others. *)
From S2P Require Import Prelude GoStd.

Module Breaker.

Inductive State := StateClosed | StateOpen | StateHalfOpen.
#[export] Instance State_eq_dec : EqDecision State.
Proof. solve_decision. Defined.

Record Config := mkConfig {
  FailureThreshold : Z;
  OpenDuration : Duration;
  HalfOpenMaxRequests : Z }.

Record circuitState := mkState {
  st : State;
  ConsecutiveFailures : Z;
  ConsecutiveSuccess : Z;
  OpenUntil : Time }.

Record CircuitBreaker := mkCB {
  states : gmap string circuitState;
  config : Config }.

Definition New (cfg : Config) : CircuitBreaker :=
  mkCB ∅ (mkConfig
    (if FailureThreshold cfg =? 0 then 5 else FailureThreshold cfg)
    (if OpenDuration cfg =? 0 then 30 * Second else OpenDuration cfg)
    (if HalfOpenMaxRequests cfg =? 0 then 3 else HalfOpenMaxRequests cfg)).

Definition IsAvailable (now : Time) (key : string) (cb : CircuitBreaker)
  : bool * CircuitBreaker :=
  match states cb !! key with
  | None => (true, cb)
  | Some s =>
      match st s with
      | StateClosed => (true, cb)
      | StateOpen =>
          if After now (OpenUntil s) then
            let s' := mkState StateHalfOpen (ConsecutiveFailures s) 0 (OpenUntil s) in
            (true, mkCB (<[key := s']> (states cb)) (config cb))
          else (false, cb)
      | StateHalfOpen => (true, cb)
      end
  end.

(** The state the pointer returned by [getOrCreate] points to; callers store their
    updates back under the same key. *)
Definition getOrCreate (key : string) (cb : CircuitBreaker) : circuitState :=
  match states cb !! key with
  | Some s => s
  | None => mkState StateClosed 0 0 zeroTime
  end.

Definition RecordSuccess (key : string) (cb : CircuitBreaker) : CircuitBreaker :=
  let s := getOrCreate key cb in
  let succ := wrap64 (ConsecutiveSuccess s + 1) in
  let s' :=
    if bool_decide (st s = StateHalfOpen) && (HalfOpenMaxRequests (config cb) <=? succ)
    then mkState StateClosed 0 0 (OpenUntil s)
    else mkState (st s) 0 succ (OpenUntil s) in
  mkCB (<[key := s']> (states cb)) (config cb).

Definition RecordFailure (now : Time) (key : string) (cb : CircuitBreaker) : CircuitBreaker :=
  let s := getOrCreate key cb in
  let fails := wrap64 (ConsecutiveFailures s + 1) in
  let until := Add now (OpenDuration (config cb)) in
  let s' :=
    match st s with
    | StateClosed =>
        if FailureThreshold (config cb) <=? fails
        then mkState StateOpen fails 0 until
        else mkState StateClosed fails 0 (OpenUntil s)
    | StateHalfOpen => mkState StateOpen fails 0 until
    | StateOpen => mkState StateOpen fails 0 until
    end in
  mkCB (<[key := s']> (states cb)) (config cb).

(** The calls of a client, as data, and the result each one returns. *)
Inductive event :=
| EAvailable (now : Time) (key : string)
| ESuccess (key : string)
| EFailure (now : Time) (key : string).

Definition step (e : event) (cb : CircuitBreaker) : option bool * CircuitBreaker :=
  match e with
  | EAvailable now k => let '(b, cb') := IsAvailable now k cb in (Some b, cb')
  | ESuccess k => (None, RecordSuccess k cb)
  | EFailure now k => (None, RecordFailure now k cb)
  end.

Fixpoint run (es : list event) (cb : CircuitBreaker) : list (option bool) * CircuitBreaker :=
  match es with
  | [] => ([], cb)
  | e :: es' =>
      let '(r, cb1) := step e cb in
      let '(rs, cb2) := run es' cb1 in (r :: rs, cb2)
  end.

End Breaker.

(** ** The automaton of the code: half-open admits every request *)
Module Spec.
Import Breaker.

Inductive phase :=
| Closed (failures : Z)      (* consecutive failures so far *)
| Tripped (until : Time)
| Probing (successes : Z).   (* successful probes so far *)

Definition available (now : Time) (p : phase) : bool * phase :=
  match p with
  | Tripped u => if u <? now then (true, Probing 0) else (false, p)
  | _ => (true, p)
  end.
Definition success (cfg : Config) (p : phase) : phase :=
  match p with
  | Closed _ => Closed 0
  | Tripped u => Tripped u
  | Probing n => if HalfOpenMaxRequests cfg <=? n + 1 then Closed 0 else Probing (n + 1)
  end.
Definition failure (cfg : Config) (now : Time) (p : phase) : phase :=
  match p with
  | Closed n => if FailureThreshold cfg <=? n + 1
                then Tripped (now + OpenDuration cfg) else Closed (n + 1)
  | _ => Tripped (now + OpenDuration cfg)
  end.

(** One automaton per key. *)
Definition world := string -> phase.
Definition set (w : world) (k : string) (p : phase) : world :=
  fun k' => if decide (k' = k) then p else w k'.

Definition step (cfg : Config) (e : event) (w : world) : option bool * world :=
  match e with
  | EAvailable now k => let '(b, p) := available now (w k) in (Some b, set w k p)
  | ESuccess k => (None, set w k (success cfg (w k)))
  | EFailure now k => (None, set w k (failure cfg now (w k)))
  end.
Fixpoint run (cfg : Config) (es : list event) (w : world) : list (option bool) * world :=
  match es with
  | [] => ([], w)
  | e :: es' =>
      let '(r, w1) := step cfg e w in
      let '(rs, w2) := run cfg es' w1 in (r :: rs, w2)
  end.

End Spec.

(** ** The automaton of the comments: half-open admits one probe at a time, and so at most
    [HalfOpenMaxRequests] of them before it closes or opens again *)
Module Documented.
Import Breaker.

Inductive phase :=
| Closed (failures : Z)
| Tripped (until : Time)
| Probing (successes : Z) (out : bool).   (* [out]: a probe has been let through and not reported *)

Definition available (now : Time) (p : phase) : bool * phase :=
  match p with
  | Closed n => (true, p)
  | Tripped u => if u <? now then (true, Probing 0 true) else (false, p)
  | Probing n out => (negb out, Probing n true)
  end.
Definition success (cfg : Config) (p : phase) : phase :=
  match p with
  | Closed _ => Closed 0
  | Tripped u => Tripped u
  | Probing n _ => if HalfOpenMaxRequests cfg <=? n + 1 then Closed 0 else Probing (n + 1) false
  end.
Definition failure (cfg : Config) (now : Time) (p : phase) : phase :=
  match p with
  | Closed n => if FailureThreshold cfg <=? n + 1
                then Tripped (now + OpenDuration cfg) else Closed (n + 1)
  | _ => Tripped (now + OpenDuration cfg)
  end.

Definition world := string -> phase.
Definition set (w : world) (k : string) (p : phase) : world :=
  fun k' => if decide (k' = k) then p else w k'.
Definition step (cfg : Config) (e : event) (w : world) : option bool * world :=
  match e with
  | EAvailable now k => let '(b, p) := available now (w k) in (Some b, set w k p)
  | ESuccess k => (None, set w k (success cfg (w k)))
  | EFailure now k => (None, set w k (failure cfg now (w k)))
  end.
Fixpoint run (cfg : Config) (es : list event) (w : world) : list (option bool) * world :=
  match es with
  | [] => ([], w)
  | e :: es' =>
      let '(r, w1) := step cfg e w in
      let '(rs, w2) := run cfg es' w1 in (r :: rs, w2)
  end.

(** Nobody asks for a key while a probe of it is out. *)
Definition probe_out (p : phase) : bool := match p with Probing _ out => out | _ => false end.
Fixpoint orderly (cfg : Config) (es : list event) (w : world) : bool :=
  match es with
  | [] => true
  | e :: es' =>
      (match e with EAvailable _ k => negb (probe_out (w k)) | _ => true end) && orderly cfg es' (step cfg e w).2
  end.
(** What the automaton of the code keeps of a phase. *)
Definition forget (p : phase) : Spec.phase :=
  match p with Closed n => Spec.Closed n | Tripped u => Spec.Tripped u | Probing n _ => Spec.Probing n end.
End Documented.

Module BreakerFacts.
Import Breaker.

(** Thresholds a configuration must have for the documented behaviour. *)
Definition cfg_ok (cfg : Config) : Prop :=
  0 < FailureThreshold cfg <= maxInt64 /\ 0 < HalfOpenMaxRequests cfg <= maxInt64.

(** In each phase the counter that phase uses is below its threshold. *)
Definition state_ok (cfg : Config) (s : circuitState) : Prop :=
  match st s with
  | StateClosed => 0 <= ConsecutiveFailures s < FailureThreshold cfg
  | StateOpen => True
  | StateHalfOpen => 0 <= ConsecutiveSuccess s < HalfOpenMaxRequests cfg
  end.
Definition inv (cb : CircuitBreaker) : Prop :=
  cfg_ok (config cb) /\ map_Forall (fun _ s => state_ok (config cb) s) (states cb).

Definition abs_state (s : circuitState) : Spec.phase :=
  match st s with
  | StateClosed => Spec.Closed (ConsecutiveFailures s)
  | StateOpen => Spec.Tripped (OpenUntil s)
  | StateHalfOpen => Spec.Probing (ConsecutiveSuccess s)
  end.
Definition abs (cb : CircuitBreaker) : Spec.world := fun k => abs_state (getOrCreate k cb).

Lemma getOrCreate_ok k cb : inv cb -> state_ok (config cb) (getOrCreate k cb).
Proof.
  intros [[Hf Hh] Hs]. unfold getOrCreate. destruct (states cb !! k) eqn:E.
  - by apply (Hs k).
  - unfold state_ok. simpl. lia.
Qed.

(** Writing one key: the shape shared by every update. *)
Definition put (k : string) (s : circuitState) (cb : CircuitBreaker) : CircuitBreaker :=
  mkCB (<[k := s]> (states cb)) (config cb).

Lemma put_inv k s cb : inv cb -> state_ok (config cb) s -> inv (put k s cb).
Proof. intros [Hc Hs] H. split; [done|]. by apply map_Forall_insert_2. Qed.
Lemma put_abs k s cb k' : abs (put k s cb) k' = Spec.set (abs cb) k (abs_state s) k'.
Proof.
  unfold abs, Spec.set, getOrCreate, put. simpl. rewrite lookup_insert.
  by repeat case_decide; subst.
Qed.

Lemma success_state_ok cfg s :
  cfg_ok cfg -> state_ok cfg s ->
  let s' := if bool_decide (st s = StateHalfOpen) &&
               (HalfOpenMaxRequests cfg <=? wrap64 (ConsecutiveSuccess s + 1))
            then mkState StateClosed 0 0 (OpenUntil s)
            else mkState (st s) 0 (wrap64 (ConsecutiveSuccess s + 1)) (OpenUntil s) in
  state_ok cfg s' /\ abs_state s' = Spec.success cfg (abs_state s).
Proof.
  destruct s as [[] f n u]; unfold cfg_ok, state_ok, abs_state; simpl; intros [Hf Hh] Hs.
  - split; [lia | done].
  - done.
  - rewrite wrap64_id by auto with go.
    destruct (Z.leb_spec (HalfOpenMaxRequests cfg) (n + 1)); simpl; split; done || lia.
Qed.

Lemma failure_state_ok cfg now s :
  cfg_ok cfg -> state_ok cfg s ->
  let fails := wrap64 (ConsecutiveFailures s + 1) in
  let s' := match st s with
            | StateClosed =>
                if FailureThreshold cfg <=? fails
                then mkState StateOpen fails 0 (Add now (OpenDuration cfg))
                else mkState StateClosed fails 0 (OpenUntil s)
            | _ => mkState StateOpen fails 0 (Add now (OpenDuration cfg))
            end in
  state_ok cfg s' /\ abs_state s' = Spec.failure cfg now (abs_state s).
Proof.
  destruct s as [[] f n u]; unfold cfg_ok, state_ok, abs_state; simpl; intros [Hf Hh] Hs;
    [|done|done].
  rewrite wrap64_id by auto with go.
  destruct (Z.leb_spec (FailureThreshold cfg) (f + 1)); simpl; split; done || lia.
Qed.

(** One step of the breaker is one step of the automaton. *)
Lemma step_sim e cb :
  inv cb ->
  let '(r, cb') := step e cb in
  inv cb' /\ config cb' = config cb /\
  r = (Spec.step (config cb) e (abs cb)).1 /\
  forall k, abs cb' k = (Spec.step (config cb) e (abs cb)).2 k.
Proof.
  intros Hi. pose proof Hi as [Hc _]. destruct e as [now k|k|now k]; simpl.
  - unfold IsAvailable. pose proof (getOrCreate_ok k cb Hi) as Hg.
    assert (abs cb k = abs_state (getOrCreate k cb)) as Ha by done.
    unfold getOrCreate in Ha, Hg. destruct (states cb !! k) as [s|] eqn:E.
    2:{ rewrite Ha. simpl. conj_done. intros k'.
        unfold Spec.set. case_decide as Hk; [by rewrite Hk, Ha | done]. }
    assert (forall k', abs cb k' = Spec.set (abs cb) k (abs_state s) k') as Hid.
    { intros k'. unfold Spec.set. case_decide as Hk; [by rewrite Hk, Ha | done]. }
    rewrite Ha. destruct s as [[] f n u]; try (by conj_done).
    unfold After, abs_state. simpl. destruct (u <? now) eqn:Eu; [|by conj_done].
    split; [|conj_done].
    + apply (put_inv k (mkState StateHalfOpen f 0 u)); [done|].
      unfold cfg_ok in Hc. unfold state_ok; simpl; lia.
    + intros k'. apply (put_abs k (mkState StateHalfOpen f 0 u)).
  - destruct (success_state_ok _ _ Hc (getOrCreate_ok k cb Hi)) as [Hok Habs].
    split; [by apply put_inv|]. conj_done. intros k'.
    etrans; [apply (put_abs k _ cb)|]. unfold Spec.set. destruct (decide (k' = k)); [exact Habs|done].
  - destruct (failure_state_ok _ now _ Hc (getOrCreate_ok k cb Hi)) as [Hok Habs].
    split; [by apply put_inv|]. conj_done. intros k'.
    etrans; [apply (put_abs k _ cb)|]. unfold Spec.set. destruct (decide (k' = k)); [exact Habs|done].
Qed.

(** The automaton only looks at the phases, so pointwise equal worlds run alike. *)
Lemma spec_step_ext cfg e w w' :
  (forall k, w k = w' k) ->
  (Spec.step cfg e w).1 = (Spec.step cfg e w').1 /\
  forall k, (Spec.step cfg e w).2 k = (Spec.step cfg e w').2 k.
Proof.
  intros H. destruct e as [now k|k|now k]; simpl; rewrite <- (H k).
  - destruct (Spec.available now (w k)) as [b p]. simpl. conj_done.
    intros k'. unfold Spec.set. by case_decide.
  - conj_done. intros k'. unfold Spec.set. by case_decide.
  - conj_done. intros k'. unfold Spec.set. by case_decide.
Qed.

Lemma run_sim es cb w :
  inv cb -> (forall k, abs cb k = w k) ->
  (run es cb).1 = (Spec.run (config cb) es w).1 /\ inv (run es cb).2 /\
  config (run es cb).2 = config cb /\
  forall k, abs (run es cb).2 k = (Spec.run (config cb) es w).2 k.
Proof.
  revert cb w. induction es as [|e es IH]; intros cb w Hi Hw; simpl; [by conj_done|].
  pose proof (step_sim e cb Hi) as Hs. pose proof (spec_step_ext (config cb) e _ _ Hw) as [H1 H2].
  destruct (step e cb) as [r cb1]. destruct Hs as (Hi1 & Hc & Hr & Ha).
  destruct (Spec.step (config cb) e w) as [r' w1] eqn:Ew. simpl in *.
  destruct (IH cb1 w1 Hi1) as (I1 & I2 & I3 & I4).
  { intros k. by rewrite Ha, H2. }
  rewrite Hc in *. destruct (run es cb1) as [rs cb2].
  destruct (Spec.run (config cb) es w1) as [rs' w2]. simpl in *.
  split; [congruence|]. by conj_done.
Qed.

(** On orderly histories the two automata answer alike. *)
Lemma documented_step cfg e w w' :
  (forall k, Documented.forget (w k) = w' k) ->
  match e with EAvailable _ k => negb (Documented.probe_out (w k)) | _ => true end = true ->
  (Documented.step cfg e w).1 = (Spec.step cfg e w').1 /\
  forall k, Documented.forget ((Documented.step cfg e w).2 k) = (Spec.step cfg e w').2 k.
Proof.
  intros Hw Ho. destruct e as [now k|k|now k]; simpl in *; rewrite <- (Hw k).
  - assert (forall p q, Documented.forget p = q ->
      forall k', Documented.forget (Documented.set w k p k') = Spec.set w' k q k') as Hset.
    { intros p q Hp k'. unfold Documented.set, Spec.set. by destruct (decide (k' = k)). }
    destruct (w k) as [n|u|n []]; simpl in *; [by split; [|apply Hset]| |done|by split; [|apply Hset]].
    destruct (u <? now); simpl; by split; [|apply Hset].
  - split; [done|]. intros k'. unfold Documented.set, Spec.set. case_decide; [|done].
    destruct (w k) as [n|u|n out]; simpl; [done|done|]. by destruct (_ <=? _).
  - split; [done|]. intros k'. unfold Documented.set, Spec.set. case_decide; [|done].
    destruct (w k) as [n|u|n out]; simpl; [|done|done]. by destruct (_ <=? _).
Qed.
Lemma documented_run cfg es w w' :
  (forall k, Documented.forget (w k) = w' k) -> Documented.orderly cfg es w = true ->
  (Documented.run cfg es w).1 = (Spec.run cfg es w').1.
Proof.
  revert w w'. induction es as [|e es IH]; intros w w' Hw Ho; [done|]. simpl in *.
  apply andb_prop in Ho as [He Ho]. destruct (documented_step cfg e w w' Hw He) as [H1 H2].
  specialize (IH _ _ H2 Ho). destruct (Documented.step cfg e w) as [r w1], (Spec.step cfg e w') as [r' w1']. simpl in *.
  destruct (Documented.run cfg es w1), (Spec.run cfg es w1'). simpl in *. congruence.
Qed.

Lemma New_inv cfg :
  0 <= FailureThreshold cfg <= maxInt64 -> 0 <= HalfOpenMaxRequests cfg <= maxInt64 ->
  inv (New cfg).
Proof.
  intros Hf Hh. split; [|by apply map_Forall_empty].
  unfold cfg_ok, New, maxInt64 in *. simpl.
  destruct (Z.eqb_spec (FailureThreshold cfg) 0), (Z.eqb_spec (HalfOpenMaxRequests cfg) 0); lia.
Qed.

(** Runs that only touch other keys leave a key's phase alone. *)
Definition ekey (e : event) : string :=
  match e with EAvailable _ k => k | ESuccess k => k | EFailure _ k => k end.
Lemma step_other e cb k : ekey e <> k -> states (step e cb).2 !! k = states cb !! k.
Proof.
  destruct e as [now k'|k'|now k']; simpl; intros Hk.
  - unfold IsAvailable. destruct (states cb !! k') as [[[] ? ? ?]|]; simpl; try done.
    destruct (After _ _); simpl; [|done]. by rewrite lookup_insert_ne.
  - by rewrite lookup_insert_ne.
  - by rewrite lookup_insert_ne.
Qed.

End BreakerFacts.

Module BreakerProps.
Import Breaker BreakerFacts.

(** C5. Refinement: for every sequence of calls on a breaker built by [New] from non-negative
    thresholds, the answers and the states are those of a Closed/Open/Half-open automaton run
    independently for each key, which admits every request while half-open.  The comments of the
    package promise more, one probe at a time while half-open: the answers are those of that
    automaton too on every sequence in which nobody asks for a key while a probe of it is out,
    and only on some of the others ([half_open_admits_all]). *)
Theorem breaker_refines_automaton cfg es :
  0 <= FailureThreshold cfg <= maxInt64 -> 0 <= HalfOpenMaxRequests cfg <= maxInt64 ->
  let cfg' := config (New cfg) in
  (run es (New cfg)).1 = (Spec.run cfg' es (fun _ => Spec.Closed 0)).1 /\
  (forall k, abs (run es (New cfg)).2 k = (Spec.run cfg' es (fun _ => Spec.Closed 0)).2 k) /\
  (Documented.orderly cfg' es (fun _ => Documented.Closed 0) = true ->
   (run es (New cfg)).1 = (Documented.run cfg' es (fun _ => Documented.Closed 0)).1).
Proof.
  intros Hf Hh cfg'.
  destruct (run_sim es (New cfg) (fun _ => Spec.Closed 0)) as (H1 & _ & _ & H2);
    [by apply New_inv | by intros k |].
  split_and!; [done..|]. intros Ho. by rewrite H1, (documented_run _ _ _ (fun _ => Spec.Closed 0)).
Qed.

Lemma breaker_refines_automaton_witness :
  let cfg := mkConfig 2 10 2 in
  let es := [EFailure 1 "a"; EFailure 2 "a"; EAvailable 12 "a"; EAvailable 13 "a"; ESuccess "a"; EAvailable 14 "a";
             ESuccess "a"; EAvailable 14 "b"] in
  (run es (New cfg)).1 = [None; None; Some false; Some true; None; Some true; None; Some true] /\
  (run es (New cfg)).1 = (Spec.run cfg es (fun _ => Spec.Closed 0)).1 /\
  (run es (New cfg)).1 = (Documented.run cfg es (fun _ => Documented.Closed 0)).1.
Proof.
  split; [reflexivity|].
  destruct (breaker_refines_automaton (mkConfig 2 10 2)
    [EFailure 1 "a"; EFailure 2 "a"; EAvailable 12 "a"; EAvailable 13 "a"; ESuccess "a"; EAvailable 14 "a";
     ESuccess "a"; EAvailable 14 "b"]) as (H1 & _ & H3); [simpl; unfold maxInt64; lia..|].
  split; [exact H1|]. apply H3. vm_compute. reflexivity.
Defined.

(** A tripped circuit is closed to traffic: whatever successes are reported and
    however often it is asked, every [IsAvailable] made no later than [OpenUntil]
    answers false and the phase stays tripped. *)
Theorem tripped_blocks_until_deadline cb k s es :
  states cb !! k = Some s -> st s = StateOpen ->
  Forall (fun e => match e with
                   | EAvailable now k' => k' = k /\ now <= OpenUntil s
                   | ESuccess k' => k' = k
                   | EFailure _ _ => False
                   end) es ->
  Forall (fun r => r <> Some true) (run es cb).1 /\
  exists s', states (run es cb).2 !! k = Some s' /\ st s' = StateOpen /\
             OpenUntil s' = OpenUntil s.
Proof.
  intros Hk Hs Hes. revert cb s Hk Hs Hes. induction es as [|e es IH]; intros cb s Hk Hs Hes.
  { simpl. split; [by constructor|]. eauto. }
  apply Forall_cons in Hes as [He Hes].
  assert (exists s1, states (step e cb).2 !! k = Some s1 /\ st s1 = StateOpen /\
            OpenUntil s1 = OpenUntil s /\ (step e cb).1 <> Some true) as (s1 & H1 & H2 & H3 & H4).
  { destruct e as [now k'|k'|now k']; simpl in *; [destruct He as [-> Hn]|subst k'|done].
    - unfold IsAvailable. rewrite Hk, Hs. unfold After.
      zdec. simpl. eauto.
    - eexists. rewrite lookup_insert_eq. split; [done|]. unfold getOrCreate. rewrite Hk, Hs.
      done. }
  simpl. destruct (step e cb) as [r cb1]. simpl in *.
  destruct (IH cb1 s1 H1 H2) as [I1 I2].
  { rewrite H3. done. }
  destruct (run es cb1) as [rs cb2]. simpl in *. rewrite H3 in I2.
  split; [by constructor | done].
Qed.

Lemma tripped_blocks_witness :
  let cb := RecordFailure 100 "a" (New (mkConfig 1 50 1)) in
  Forall (fun r => r <> Some true)
    (run [EAvailable 120 "a"; ESuccess "a"; EAvailable 150 "a"] cb).1.
Proof.
  apply (tripped_blocks_until_deadline _ "a" (mkState StateOpen 1 0 150)); [done|done|].
  repeat constructor; simpl; lia.
Defined.

(** Consecutive failures, at the times of [nows]. *)
Definition failures (k : string) (nows : list Time) : list event := (fun t => EFailure t k) <$> nows.

Lemma spec_failures cfg k w n nows :
  0 <= n -> w k = Spec.Closed n ->
  n + Z.of_nat (length nows) < FailureThreshold cfg ->
  (Spec.run cfg (failures k nows) w).2 k = Spec.Closed (n + Z.of_nat (length nows)).
Proof.
  revert n w. induction nows as [|t nows IH]; intros n w Hn Hw Hlt; simpl in *.
  { rewrite Hw. f_equal. lia. }
  rewrite Hw. simpl. zdec.
  specialize (IH (n + 1) (Spec.set w k (Spec.Closed (n + 1)))).
  destruct (Spec.run cfg _ _) as [rs w2]. simpl in *. rewrite IH.
  - f_equal. lia.
  - lia.
  - unfold Spec.set. by rewrite decide_True.
  - lia.
Qed.

Lemma spec_successes cfg k w n m :
  0 <= n -> w k = Spec.Probing n -> n + Z.of_nat m < HalfOpenMaxRequests cfg ->
  (Spec.run cfg (replicate m (ESuccess k)) w).2 k = Spec.Probing (n + Z.of_nat m).
Proof.
  revert n w. induction m as [|m IH]; intros n w Hn Hw Hlt; simpl in *.
  { rewrite Hw. f_equal. lia. }
  rewrite Hw. simpl. zdec.
  specialize (IH (n + 1) (Spec.set w k (Spec.Probing (n + 1)))).
  destruct (Spec.run cfg _ _) as [rs w2]. simpl in *. rewrite IH.
  - f_equal. lia.
  - lia.
  - unfold Spec.set. by rewrite decide_True.
  - lia.
Qed.

(** The circuit of a fresh key trips on exactly the [FailureThreshold]-th
    consecutive failure: after fewer failures it is still closed, and the next one
    opens it until that moment plus [OpenDuration]. *)
Theorem trips_at_threshold cb k nows t :
  inv cb -> states cb !! k = None ->
  Z.of_nat (length nows) + 1 = FailureThreshold (config cb) ->
  abs (run (failures k nows) cb).2 k = Spec.Closed (Z.of_nat (length nows)) /\
  abs (RecordFailure t k (run (failures k nows) cb).2) k
    = Spec.Tripped (t + OpenDuration (config cb)).
Proof.
  intros Hi Hk Hlen. pose proof Hi as [[Hf _] _].
  destruct (run_sim (failures k nows) cb (abs cb) Hi) as (_ & Hi2 & Hc & Ha); [done|].
  assert (abs cb k = Spec.Closed 0) as H0 by (unfold abs, getOrCreate; by rewrite Hk).
  pose proof (spec_failures (config cb) k (abs cb) 0 nows ltac:(lia) H0 ltac:(lia)) as Hs.
  rewrite Ha, Hs. split; [done|].
  pose proof (step_sim (EFailure t k) _ Hi2) as (_ & _ & _ & Hstep). rewrite Hstep.
  simpl. unfold Spec.set. rewrite decide_True by done. rewrite Ha, Hs, Hc. simpl.
  destruct (Z.leb_spec (FailureThreshold (config cb)) (0 + Z.of_nat (length nows) + 1)); [done|lia].
Qed.

Lemma trips_at_threshold_witness :
  let cb := New (mkConfig 3 50 1) in
  abs (RecordFailure 9 "a" (run (failures "a" [5; 7]) cb).2) "a" = Spec.Tripped 59.
Proof.
  apply (trips_at_threshold (New (mkConfig 3 50 1)) "a" [5; 7] 9); [|done|done].
  apply New_inv; simpl; unfold maxInt64; lia.
Defined.

(** Recovery: once its deadline has passed, a tripped circuit admits the next
    request and becomes half-open; [HalfOpenMaxRequests] successes in a row close it with
    a clean failure count, and one failure before that opens it again. *)
Theorem half_open_recovers cb k s now t m :
  inv cb -> states cb !! k = Some s -> st s = StateOpen -> OpenUntil s < now ->
  Z.of_nat m < HalfOpenMaxRequests (config cb) ->
  let '(b, cb1) := IsAvailable now k cb in
  let cb2 := (run (replicate m (ESuccess k)) cb1).2 in
  b = true /\ abs cb2 k = Spec.Probing (Z.of_nat m) /\
  abs (RecordFailure t k cb2) k = Spec.Tripped (t + OpenDuration (config cb)) /\
  (Z.of_nat m + 1 = HalfOpenMaxRequests (config cb) ->
   abs (RecordSuccess k cb2) k = Spec.Closed 0).
Proof.
  intros Hi Hk Hs Hnow Hm. pose proof (step_sim (EAvailable now k) cb Hi) as Hst. simpl in Hst.
  assert (abs cb k = Spec.Tripped (OpenUntil s)) as H0.
  { unfold abs, getOrCreate, abs_state. by rewrite Hk, Hs. }
  destruct (IsAvailable now k cb) as [b cb1]. destruct Hst as (Hi1 & Hc1 & Hb & Ha1).
  specialize (Ha1 k). rewrite H0 in Hb, Ha1. simpl in Hb, Ha1.
  destruct (Z.ltb_spec (OpenUntil s) now); [|lia]. simpl in Hb, Ha1.
  unfold Spec.set in Ha1. rewrite decide_True in Ha1 by done.
  destruct (run_sim (replicate m (ESuccess k)) cb1 (abs cb1) Hi1) as (_ & Hi2 & Hc2 & Ha2); [done|].
  rewrite Hc1 in *. cbv zeta.
  pose proof (spec_successes (config cb) k (abs cb1) 0 m ltac:(lia) Ha1 ltac:(lia)) as Hp.
  rewrite <- Ha2 in Hp. rewrite Z.add_0_l in Hp.
  split; [by injection Hb|]. split; [done|]. split.
  - pose proof (step_sim (EFailure t k) _ Hi2) as (_ & _ & _ & Hf). rewrite Hf. simpl.
    unfold Spec.set. rewrite decide_True, Hp, Hc2 by done. done.
  - intros He. pose proof (step_sim (ESuccess k) _ Hi2) as (_ & _ & _ & Hf). rewrite Hf. simpl.
    unfold Spec.set. rewrite decide_True, Hp, Hc2 by done. simpl.
    destruct (Z.leb_spec (HalfOpenMaxRequests (config cb)) (Z.of_nat m + 1)); [done|lia].
Qed.

Lemma half_open_recovers_witness :
  let cb := RecordFailure 100 "a" (New (mkConfig 1 50 2)) in
  let cb1 := (IsAvailable 151 "a" cb).2 in
  abs (RecordSuccess "a" (run (replicate 1 (ESuccess "a")) cb1).2) "a" = Spec.Closed 0.
Proof.
  assert (inv (New (mkConfig 1 50 2))) as Hi by (apply New_inv; simpl; unfold maxInt64; lia).
  pose proof (step_sim (EFailure 100 "a") _ Hi) as [Hi1 _].
  pose proof (half_open_recovers _ "a" (mkState StateOpen 1 0 150) 151 7 1 Hi1 eq_refl eq_refl
    ltac:(simpl; lia) ltac:(simpl; lia)) as H.
  apply H. reflexivity.
Defined.

(** Half-open puts no bound on the requests it admits, probes out or not, unlike the documented automaton. *)
Theorem half_open_admits_all cb k s nows :
  states cb !! k = Some s -> st s = StateHalfOpen ->
  run ((fun t => EAvailable t k) <$> nows) cb = ((fun _ => Some true) <$> nows, cb).
Proof.
  intros Hk Hs. induction nows as [|t nows IH]; [done|]. csimpl. unfold IsAvailable.
  rewrite Hk, Hs. by rewrite IH.
Qed.

Lemma probes_are_not_limited :
  let cfg := mkConfig 1 10 1 in
  let es := [EFailure 1 "a"; EAvailable 12 "a"; EAvailable 12 "a"] in
  (run es (New cfg)).1 = [None; Some true; Some true] /\
  (Documented.run cfg es (fun _ => Documented.Closed 0)).1 = [None; Some true; Some false].
Proof. split; reflexivity. Qed.

(** Operations on one key never change another key's circuit. *)
Theorem keys_are_isolated es cb k :
  Forall (fun e => ekey e <> k) es -> states (run es cb).2 !! k = states cb !! k.
Proof.
  revert cb. induction es as [|e es IH]; intros cb Hes; [done|].
  apply Forall_cons in Hes as [He Hes]. simpl.
  pose proof (step_other e cb k He) as Hs. destruct (step e cb) as [r cb1]. simpl in *.
  specialize (IH cb1 Hes). destruct (run es cb1) as [rs cb2]. simpl in *. congruence.
Qed.

Lemma keys_are_isolated_witness :
  let cb := RecordFailure 1 "a" (New (mkConfig 1 50 2)) in
  states (run [EFailure 2 "b"; ESuccess "b"; EAvailable 3 "c"] cb).2 !! "a" = states cb !! "a".
Proof. apply keys_are_isolated. repeat constructor; done. Defined.

End BreakerProps.
