(* ===== verification/Lru.v ===== *)
(** * cache/lru.go

    [Module Lru] keeps the two structures of the Go cache apart: the doubly linked
    list of [container/list] (element identities, front first) and the map from keys to
    elements; an element's [Value] points to a mutable [entry] in [heap].  [Module
    LruSpec] is the recency-ordered list of entries it stands for. *)
From S2P Require Import Prelude GoStd.

Module Lru.
Section lru.
Context {K V : Type} `{Countable K}.

Record entry := mkEntry {
  key : K;
  value : V;
  expiresAt : Time }.

Record LRU := mkLRU {
  capacity : Z;
  ttl : Duration;
  ll : list nat;
  items : gmap K nat;
  heap : gmap nat entry;
  fresh : nat }.

Definition New (capacity : Z) (ttl : Duration) : LRU := mkLRU capacity ttl [] ∅ ∅ 0.

(** container/list: [Remove], [MoveToFront], [Back]. *)
Definition list_Remove (el : nat) (l : list nat) : list nat := filter (fun x => x <> el) l.
Definition list_MoveToFront (el : nat) (l : list nat) : list nat := el :: list_Remove el l.

Definition removeElement (el : nat) (c : LRU) : LRU :=
  match heap c !! el with
  | Some en => mkLRU (capacity c) (ttl c) (list_Remove el (ll c)) (delete (key en) (items c))
                 (heap c) (fresh c)
  | None => c
  end.

Definition Get (now : Time) (k : K) (c : LRU) : option V * LRU :=
  if capacity c <=? 0 then (None, c) else
  match items c !! k with
  | None => (None, c)
  | Some el =>
      match heap c !! el with
      | None => (None, c)
      | Some en =>
          if negb (IsZero (expiresAt en)) && After now (expiresAt en)
          then (None, removeElement el c)
          else (Some (value en),
                mkLRU (capacity c) (ttl c) (list_MoveToFront el (ll c)) (items c) (heap c) (fresh c))
      end
  end.

Definition Set_ (now : Time) (k : K) (v : V) (c : LRU) : LRU :=
  if capacity c <=? 0 then c else
  let expires := if 0 <? ttl c then Add now (ttl c) else zeroTime in
  match items c !! k with
  | Some el =>
      match heap c !! el with
      | None => c
      | Some en =>
          mkLRU (capacity c) (ttl c) (list_MoveToFront el (ll c)) (items c)
            (<[el := mkEntry (key en) v expires]> (heap c)) (fresh c)
      end
  | None =>
      let el := fresh c in
      let c1 := mkLRU (capacity c) (ttl c) (el :: ll c) (<[k := el]> (items c))
                  (<[el := mkEntry k v expires]> (heap c)) (S el) in
      if capacity c <? Z.of_nat (length (ll c1)) then
        match last (ll c1) with
        | Some b => removeElement b c1
        | None => c1
        end
      else c1
  end.

Definition Delete (k : K) (c : LRU) : LRU :=
  if capacity c <=? 0 then c else
  match items c !! k with
  | Some el => removeElement el c
  | None => c
  end.

Definition Purge (c : LRU) : LRU := mkLRU (capacity c) (ttl c) [] ∅ (heap c) (fresh c).

Definition Len (c : LRU) : Z := Z.of_nat (length (ll c)).

(** Client calls as data. *)
Inductive op :=
| OGet (now : Time) (k : K)
| OSet (now : Time) (k : K) (v : V)
| ODelete (k : K)
| OPurge.

Definition step (o : op) (c : LRU) : option V * LRU :=
  match o with
  | OGet now k => Get now k c
  | OSet now k v => (None, Set_ now k v c)
  | ODelete k => (None, Delete k c)
  | OPurge => (None, Purge c)
  end.
Fixpoint run (os : list op) (c : LRU) : list (option V) * LRU :=
  match os with
  | [] => ([], c)
  | o :: os' => let '(r, c1) := step o c in let '(rs, c2) := run os' c1 in (r :: rs, c2)
  end.
End lru.
Arguments entry : clear implicits.
Arguments LRU K V {_ _}.
Arguments op : clear implicits.
End Lru.

(** ** Entries in recency order *)
Module LruSpec.
Import Lru.
Section spec.
Context {K V : Type} `{Countable K}.

Definition rm (k : K) (l : list (entry K V)) : list (entry K V) := filter (fun e => key e <> k) l.
Definition find (k : K) (l : list (entry K V)) : option (entry K V) :=
  snd <$> list_find (fun e => key e = k) l.

Definition expired (now : Time) (e : entry K V) : bool :=
  negb (expiresAt e =? 0) && (expiresAt e <? now).

Definition get (now : Time) (k : K) (l : list (entry K V)) : option V * list (entry K V) :=
  match find k l with
  | None => (None, l)
  | Some e => if expired now e then (None, rm k l) else (Some (value e), e :: rm k l)
  end.
Definition set (cap : Z) (ttl : Duration) (now : Time) (k : K) (v : V) (l : list (entry K V))
  : list (entry K V) :=
  take (Z.to_nat cap) (mkEntry k v (if 0 <? ttl then now + ttl else 0) :: rm k l).

Definition step (cap : Z) (ttl : Duration) (o : op K V) (l : list (entry K V))
  : option V * list (entry K V) :=
  match o with
  | OGet now k => get now k l
  | OSet now k v => (None, set cap ttl now k v l)
  | ODelete k => (None, rm k l)
  | OPurge => (None, [])
  end.
Fixpoint run (cap : Z) (ttl : Duration) (os : list (op K V)) (l : list (entry K V))
  : list (option V) * list (entry K V) :=
  match os with
  | [] => ([], l)
  | o :: os' => let '(r, l1) := step cap ttl o l in
                let '(rs, l2) := run cap ttl os' l1 in (r :: rs, l2)
  end.
End spec.
End LruSpec.

Module LruFacts.
Import Lru.
Section facts.
Context {K V : Type} `{Countable K}.
Implicit Types (c : LRU K V) (k : K) (el : nat) (en : entry K V).

(** The list and the map describe the same set of live elements. *)
Record invn (n : Z) c : Prop := {
  inv_nodup : NoDup (ll c);
  inv_cap : Z.of_nat (length (ll c)) <= n;
  inv_live : forall el, el ∈ ll c -> (el < fresh c)%nat /\ is_Some (heap c !! el);
  inv_items : forall k el,
    items c !! k = Some el <-> el ∈ ll c /\ exists en, heap c !! el = Some en /\ key en = k }.
Arguments inv_nodup {n} c _.
Arguments inv_cap {n} c _.
Arguments inv_live {n} c _.
Arguments inv_items {n} c _.
Definition inv c : Prop := invn (Z.max 0 (capacity c)) c.

Definition absl (h : gmap nat (entry K V)) (l : list nat) : list (entry K V) :=
  omap (fun el => h !! el) l.
Definition abs c : list (entry K V) := absl (heap c) (ll c).

Lemma absl_In h l en : en ∈ absl h l <-> exists el, el ∈ l /\ h !! el = Some en.
Proof. apply list_elem_of_omap. Qed.

Lemma absl_length h l :
  (forall el, el ∈ l -> is_Some (h !! el)) -> length (absl h l) = length l.
Proof.
  induction l as [|x l IH]; intros Hl; [done|]. unfold absl in *. csimpl.
  destruct (Hl x) as [en Hx]; [set_solver|]. rewrite Hx. simpl. f_equal. apply IH. set_solver.
Qed.

(** Removing the element that holds [k] removes [k]'s entry. *)
Lemma absl_remove h l el k :
  (forall x, x ∈ l -> exists en, h !! x = Some en /\ (key en = k <-> x = el)) ->
  absl h (list_Remove el l) = LruSpec.rm k (absl h l).
Proof.
  unfold list_Remove, LruSpec.rm, absl. induction l as [|x l IH]; intros Hl; [done|].
  destruct (Hl x) as (en & Hx & Hk); [set_solver|].
  assert (forall y, y ∈ l -> exists en, h !! y = Some en /\ (key en = k <-> y = el)) as Hl'.
  { set_solver. }
  rewrite filter_cons. csimpl. rewrite Hx. simpl. rewrite filter_cons.
  destruct (decide (x = el)) as [He|He].
  - rewrite (decide_False (P := x <> el)), (decide_False (P := key en <> k)) by naive_solver.
    by apply IH.
  - rewrite (decide_True (P := x <> el)), (decide_True (P := key en <> k)) by naive_solver.
    csimpl. rewrite Hx. f_equal. by apply IH.
Qed.

Lemma absl_heap_insert h l el en :
  el ∉ l -> absl (<[el := en]> h) l = absl h l.
Proof.
  intros Hel. unfold absl. induction l as [|x l IH]; [done|]. csimpl.
  rewrite lookup_insert_ne by set_solver. rewrite IH by set_solver. done.
Qed.

Lemma elem_of_list_Remove x el l : x ∈ list_Remove el l <-> x ∈ l /\ x <> el.
Proof. unfold list_Remove. rewrite list_elem_of_filter. naive_solver. Qed.
Lemma list_Remove_nin el l : el ∉ list_Remove el l.
Proof. rewrite elem_of_list_Remove. naive_solver. Qed.
Lemma list_Remove_length el l :
  el ∈ l -> (S (length (list_Remove el l)) <= length l)%nat.
Proof.
  intros Hel. unfold list_Remove.
  pose proof (length_filter_lt (fun x => x <> el) l el Hel ltac:(naive_solver)). lia.
Qed.
Lemma list_Remove_snoc b l : b ∉ l -> list_Remove b (l ++ [b]) = l.
Proof.
  intros Hb. unfold list_Remove. rewrite filter_app, filter_cons, filter_nil.
  rewrite (decide_False (P := b <> b)), app_nil_r by naive_solver.
  induction l as [|x l IH]; [done|]. rewrite filter_cons.
  rewrite decide_True by set_solver. f_equal. apply IH. set_solver.
Qed.
Lemma list_Remove_NoDup el l : NoDup l -> NoDup (list_Remove el l).
Proof. apply NoDup_filter. Qed.

Lemma find_Some k (l : list (entry K V)) e :
  e ∈ l -> key e = k -> (forall e', e' ∈ l -> key e' = k -> e' = e) -> LruSpec.find k l = Some e.
Proof.
  unfold LruSpec.find. intros He Hk Hu.
  destruct (list_find (fun e => key e = k) l) as [[i e']|] eqn:E; simpl.
  - apply list_find_Some in E as (Hl & Hk' & _). f_equal. apply Hu; [|done].
    by eapply list_elem_of_lookup_2.
  - apply list_find_None in E. rewrite Forall_forall in E. by destruct (E e).
Qed.
Lemma find_None k (l : list (entry K V)) :
  (forall e, e ∈ l -> key e <> k) -> LruSpec.find k l = None.
Proof.
  intros Hl. unfold LruSpec.find.
  replace (list_find (fun e => key e = k) l) with (@None (nat * entry K V)); [done|].
  symmetry. apply list_find_None, Forall_forall. done.
Qed.
Lemma rm_absent k (l : list (entry K V)) :
  (forall e, e ∈ l -> key e <> k) -> LruSpec.rm k l = l.
Proof.
  unfold LruSpec.rm. induction l as [|e l IH]; intros Hl; [done|].
  rewrite filter_cons, decide_True by set_solver. f_equal. apply IH. set_solver.
Qed.

(** *** What the invariant says about one key *)
Lemma key_owner n c k el :
  invn n c -> items c !! k = Some el ->
  forall x, x ∈ ll c -> exists en, heap c !! x = Some en /\ (key en = k <-> x = el).
Proof.
  intros Hi Hk x Hx. destruct (inv_live c Hi x Hx) as [_ [en Hen]]. exists en.
  split; [done|]. destruct (proj1 (inv_items c Hi k el) Hk) as (_ & en' & He' & Hk'). split.
  - intros Hkey. assert (items c !! k = Some x) as Hx' by (apply (inv_items c Hi); eauto).
    congruence.
  - intros ->. congruence.
Qed.
Lemma find_abs n c k el en :
  invn n c -> items c !! k = Some el -> heap c !! el = Some en ->
  key en = k /\ LruSpec.find k (abs c) = Some en.
Proof.
  intros Hi Hk Hen. pose proof (key_owner _ c k el Hi Hk) as Ho.
  assert (el ∈ ll c) as Hel by (by apply (inv_items c Hi k el) in Hk as [? _]).
  destruct (Ho el Hel) as (en' & ? & Hk'). assert (key en = k) as Hkey by naive_solver.
  split; [done|]. apply find_Some; [apply absl_In; eauto | done |].
  intros e' (x & Hx & He')%absl_In Hke'. destruct (Ho x Hx) as (? & ? & ?). naive_solver.
Qed.
Lemma absent_abs n c k : invn n c -> items c !! k = None -> forall e, e ∈ abs c -> key e <> k.
Proof.
  intros Hi Hk e (x & Hx & He)%absl_In Hke.
  assert (items c !! k = Some x) by (apply (inv_items c Hi); eauto). congruence.
Qed.

(** *** The operations *)
Lemma removeElement_sim n c el en :
  invn n c -> el ∈ ll c -> heap c !! el = Some en ->
  invn (n - 1) (removeElement el c) /\ abs (removeElement el c) = LruSpec.rm (key en) (abs c).
Proof.
  intros Hi Hel Hen. unfold removeElement. rewrite Hen.
  assert (items c !! key en = Some el) as Hk by (apply (inv_items c Hi); eauto).
  pose proof (key_owner _ c _ el Hi Hk) as Ho. split.
  - split; simpl.
    + apply list_Remove_NoDup, Hi.
    + pose proof (inv_cap c Hi). pose proof (list_Remove_length el (ll c) Hel). lia.
    + intros x [Hx _]%elem_of_list_Remove. by apply Hi.
    + intros k x. rewrite lookup_delete, elem_of_list_Remove. case_decide as Hd; subst.
      * split; [done|]. intros [[Hx Hne] (en' & He' & Hke)]. destruct (Ho x Hx) as (? & ? & ?).
        naive_solver.
      * rewrite (inv_items c Hi k x). naive_solver.
  - unfold abs. simpl. by apply absl_remove.
Qed.

Lemma moveToFront_sim n c el en en' :
  invn n c -> el ∈ ll c -> heap c !! el = Some en -> key en' = key en ->
  let c' := mkLRU (capacity c) (ttl c) (list_MoveToFront el (ll c)) (items c)
              (<[el := en']> (heap c)) (fresh c) in
  invn n c' /\ abs c' = en' :: LruSpec.rm (key en) (abs c).
Proof.
  intros Hi Hel Hen Hkey c'. subst c'. unfold list_MoveToFront.
  assert (items c !! key en = Some el) as Hk by (apply (inv_items c Hi); eauto).
  pose proof (key_owner _ c _ el Hi Hk) as Ho.
  assert (forall x, x ∈ el :: list_Remove el (ll c) <-> x ∈ ll c) as Hmem.
  { intros x. rewrite elem_of_cons, elem_of_list_Remove. destruct (decide (x = el)); naive_solver. }
  split.
  - split; simpl.
    + apply NoDup_cons. split; [apply list_Remove_nin | apply list_Remove_NoDup, Hi].
    + pose proof (inv_cap c Hi). pose proof (list_Remove_length el (ll c) Hel). lia.
    + intros x Hx%Hmem. split; [by apply Hi|]. rewrite lookup_insert. case_decide; [eauto|].
      by apply Hi.
    + intros k x. rewrite Hmem, (inv_items c Hi k x), lookup_insert.
      case_decide as Hd; [subst x|done]. rewrite Hen. naive_solver.
  - unfold abs, absl. csimpl. rewrite lookup_insert_eq. f_equal.
    change (omap (fun x => <[el := en']> (heap c) !! x) ?l) with (absl (<[el := en']> (heap c)) l).
    rewrite absl_heap_insert by apply list_Remove_nin. by apply absl_remove.
Qed.

Lemma absl_take h l n :
  (forall el, el ∈ l -> is_Some (h !! el)) -> absl h (take n l) = take n (absl h l).
Proof.
  revert n. induction l as [|x l IH]; intros [|n] Hl; try done. unfold absl in *. csimpl.
  destruct (Hl x) as [en Hx]; [set_solver|]. rewrite Hx. simpl. f_equal. apply IH. set_solver.
Qed.

(** Pushing a new element for an absent key, before the size check. *)
Definition pushed c k en : LRU K V :=
  mkLRU (capacity c) (ttl c) (fresh c :: ll c) (<[k := fresh c]> (items c))
    (<[fresh c := en]> (heap c)) (S (fresh c)).

Lemma pushed_inv n c k en :
  invn n c -> items c !! k = None -> key en = k -> invn (n + 1) (pushed c k en).
Proof.
  intros Hi Hk Hkey. assert (fresh c ∉ ll c) as Hf.
  { intros Hin. apply (inv_live c Hi) in Hin as [? _]. lia. }
  split; simpl.
  - apply NoDup_cons. split; [done | apply Hi].
  - pose proof (inv_cap c Hi). lia.
  - intros x [->|Hx]%elem_of_cons; [split; [lia|rewrite lookup_insert_eq; eauto]|].
    pose proof (inv_live c Hi x Hx) as [? ?]. split; [lia|].
    rewrite lookup_insert_ne by (intros Heq; subst; done). done.
  - intros k' x. rewrite elem_of_cons, !lookup_insert. pose proof (inv_items c Hi k' x) as Hit.
    destruct (decide (k = k')) as [<-|Hne]; destruct (decide (fresh c = x)) as [<-|Hx].
    + naive_solver.
    + split; [naive_solver|]. intros [[?|?] ?]; [naive_solver|]. rewrite Hk in Hit. naive_solver.
    + split; [|naive_solver]. intros Hx. apply Hit in Hx. naive_solver.
    + naive_solver.
Qed.
Lemma pushed_abs n c k en : invn n c -> abs (pushed c k en) = en :: abs c.
Proof.
  intros Hi. unfold abs, absl, pushed. csimpl. rewrite lookup_insert_eq. f_equal.
  apply (absl_heap_insert (heap c)). intros Hin. apply (inv_live c Hi) in Hin as [? _]. lia.
Qed.

(** *** Simulation of the public operations *)
Lemma inv_disabled c : inv c -> capacity c <= 0 -> ll c = [] /\ abs c = [].
Proof.
  intros Hi Hc. pose proof (inv_cap c Hi) as Hl. unfold abs.
  destruct (ll c) as [|x l] eqn:E; [done|]. simpl in Hl. lia.
Qed.
Lemma invn_weaken n m c : n <= m -> invn n c -> invn m c.
Proof. intros Hnm Hi. split; try apply Hi. pose proof (inv_cap c Hi). lia. Qed.

Lemma Get_sim now k c :
  inv c ->
  let '(r, c') := Get now k c in
  inv c' /\ (capacity c', ttl c') = (capacity c, ttl c) /\
  (r, abs c') = LruSpec.get now k (abs c).
Proof.
  intros Hi. unfold Get. destruct (Z.leb_spec (capacity c) 0) as [Hc|Hc].
  { destruct (inv_disabled c Hi Hc) as [_ ->]. by conj_done. }
  destruct (items c !! k) as [el|] eqn:Hk.
  2:{ conj_done. unfold LruSpec.get. by rewrite find_None by (by eapply absent_abs). }
  destruct (proj1 (inv_items c Hi k el) Hk) as (Hel & en & Hen & Hkey). rewrite Hen.
  destruct (find_abs _ c k el en Hi Hk Hen) as [_ Hf]. unfold LruSpec.get. rewrite Hf.
  change (negb (IsZero (expiresAt en)) && After now (expiresAt en))
    with (LruSpec.expired now en). destruct (LruSpec.expired now en).
  - destruct (removeElement_sim _ c el en Hi Hel Hen) as [Hi' Ha]. unfold removeElement in *.
    rewrite Hen in *. split; [by apply (invn_weaken _ _ _ (Z.le_pred_l _)) in Hi'|]. conj_done.
    by rewrite Ha, Hkey.
  - destruct (moveToFront_sim _ c el en en Hi Hel Hen eq_refl) as [Hi' Ha].
    rewrite insert_id in Hi', Ha by done. conj_done. by rewrite Ha, Hkey.
Qed.

(** A full list gives up its last element. *)
Lemma evict_sim n c b :
  invn n c -> last (ll c) = Some b ->
  invn (n - 1) (removeElement b c) /\
  abs (removeElement b c) = take (length (ll c) - 1) (abs c).
Proof.
  intros Hp El. apply last_Some in El as [l' El].
  assert (b ∈ ll c) as Hb by (rewrite El; set_solver).
  destruct (inv_live _ Hp b Hb) as [_ [eb Heb]].
  destruct (removeElement_sim _ _ b eb Hp Hb Heb) as [Hi' _]. split; [done|].
  unfold removeElement. rewrite Heb. unfold abs at 1. cbn [heap ll]. rewrite El, list_Remove_snoc.
  - unfold abs. rewrite <- absl_take by apply Hp.
    by rewrite El, length_app, Nat.add_sub, take_app_length.
  - pose proof (inv_nodup _ Hp) as Hnd. rewrite El in Hnd.
    apply NoDup_app in Hnd as (_ & Hnd & _). intros Hb'. apply (Hnd b Hb'). set_solver.
Qed.

(** An update of a present key, which needs no eviction. *)
Lemma update_sim c k el e :
  inv c -> 0 < capacity c -> items c !! k = Some el -> key e = k ->
  let c' := mkLRU (capacity c) (ttl c) (list_MoveToFront el (ll c)) (items c)
              (<[el := e]> (heap c)) (fresh c) in
  inv c' /\ abs c' = take (Z.to_nat (capacity c)) (e :: LruSpec.rm k (abs c)).
Proof.
  intros Hi Hc Hk He c'. destruct (proj1 (inv_items c Hi k el) Hk) as (Hel & en & Hen & Hkey).
  destruct (moveToFront_sim _ c el en e Hi Hel Hen) as [Hi' Ha]; [congruence|].
  split; [done|]. subst c'. rewrite Ha, Hkey. symmetry. apply take_ge.
  pose proof (inv_cap c Hi) as Hcap. unfold abs.
  rewrite <- (absl_remove (heap c) (ll c) el) by (by eapply key_owner).
  simpl. rewrite absl_length; [pose proof (list_Remove_length el (ll c) Hel); lia|].
  intros x [Hx _]%elem_of_list_Remove. by apply Hi.
Qed.

Lemma Set_sim now k v c :
  inv c ->
  inv (Set_ now k v c) /\ (capacity (Set_ now k v c), ttl (Set_ now k v c)) = (capacity c, ttl c) /\
  abs (Set_ now k v c) = LruSpec.set (capacity c) (ttl c) now k v (abs c).
Proof.
  intros Hi. unfold Set_, LruSpec.set. destruct (Z.leb_spec (capacity c) 0) as [Hc|Hc].
  { conj_done. destruct (inv_disabled c Hi Hc) as [_ ->].
    by replace (Z.to_nat (capacity c)) with 0%nat by lia. }
  set (e := mkEntry k v (if 0 <? ttl c then Add now (ttl c) else zeroTime)).
  change (mkEntry k v (if 0 <? ttl c then now + ttl c else 0)) with e.
  destruct (items c !! k) as [el|] eqn:Hk.
  - destruct (proj1 (inv_items c Hi k el) Hk) as (Hel & en & Hen & Hkey). rewrite Hen, Hkey. fold e.
    destruct (update_sim c k el e Hi Hc Hk eq_refl) as [Hi' Ha]. by conj_done.
  - pose proof (pushed_inv _ c k e Hi Hk eq_refl) as Hp.
    pose proof (pushed_abs _ c k e Hi) as Hpa. pose proof (inv_cap c Hi) as Hcap.
    pose proof (absl_length (heap c) (ll c) (fun x Hx => proj2 (inv_live c Hi x Hx))) as Hal.
    rewrite (rm_absent k (abs c)) by (by eapply absent_abs). rewrite <- Hpa. fold e. fold (pushed c k e).
    change (length (ll (pushed c k e))) with (S (length (ll c))).
    destruct (Z.ltb_spec (capacity c) (Z.of_nat (S (length (ll c))))) as [Hlt|Hge].
    + destruct (last (ll (pushed c k e))) as [b|] eqn:El; [|by apply last_None in El].
      destruct (evict_sim _ _ b Hp El) as [Hi' Ha]. rewrite Ha. split; [|split].
      * revert Hi'. unfold removeElement. destruct (heap _ !! b); apply invn_weaken; simpl; lia.
      * unfold removeElement. by destruct (heap _ !! b).
      * f_equal. simpl. lia.
    + split; [split; try apply Hp; simpl; lia|]. split; [done|]. symmetry. apply take_ge.
      rewrite Hpa. simpl. change (abs c) with (absl (heap c) (ll c)). rewrite Hal. lia.
Qed.

Lemma Delete_sim k c :
  inv c ->
  inv (Delete k c) /\ (capacity (Delete k c), ttl (Delete k c)) = (capacity c, ttl c) /\
  abs (Delete k c) = LruSpec.rm k (abs c).
Proof.
  intros Hi. unfold Delete. destruct (Z.leb_spec (capacity c) 0) as [Hc|Hc].
  { conj_done. by destruct (inv_disabled c Hi Hc) as [_ ->]. }
  destruct (items c !! k) as [el|] eqn:Hk.
  2:{ conj_done. by rewrite rm_absent by (by eapply absent_abs). }
  destruct (proj1 (inv_items c Hi k el) Hk) as (Hel & en & Hen & Hkey).
  destruct (removeElement_sim _ c el en Hi Hel Hen) as [Hi' Ha]. unfold removeElement in *.
  rewrite Hen in *. split; [by apply (invn_weaken _ _ _ (Z.le_pred_l _)) in Hi'|]. conj_done.
  by rewrite Ha, Hkey.
Qed.

Lemma Purge_sim c : inv c -> inv (Purge c) /\ abs (Purge c) = [].
Proof.
  intros Hi. split; [|done]. split; simpl.
  - constructor.
  - lia.
  - set_solver.
  - intros k el. rewrite lookup_empty. split; [done|]. set_solver.
Qed.

Lemma lru_step_sim o c :
  inv c ->
  let '(r, c') := step o c in
  inv c' /\ (capacity c', ttl c') = (capacity c, ttl c) /\
  (r, abs c') = LruSpec.step (capacity c) (ttl c) o (abs c).
Proof.
  intros Hi. destruct o as [now k|now k v|k|]; simpl.
  - by apply Get_sim.
  - destruct (Set_sim now k v c Hi) as (? & ? & ->). by conj_done.
  - destruct (Delete_sim k c Hi) as (? & ? & ->). by conj_done.
  - destruct (Purge_sim c Hi) as [? ->]. by conj_done.
Qed.

Lemma lru_run_sim os c :
  inv c ->
  inv (run os c).2 /\
  ((run os c).1, abs (run os c).2) = LruSpec.run (capacity c) (ttl c) os (abs c).
Proof.
  revert c. induction os as [|o os IH]; intros c Hi; simpl; [done|].
  pose proof (lru_step_sim o c Hi) as Hs. destruct (step o c) as [r c1].
  destruct Hs as (Hi1 & [= Hc Ht] & Hs). rewrite <- Hs, <- Hc, <- Ht.
  destruct (IH c1 Hi1) as [I1 I2]. rewrite <- I2. by destruct (run os c1).
Qed.

Lemma abs_NoDup c : inv c -> NoDup (key <$> abs c).
Proof.
  intros Hi. pose proof (inv_nodup c Hi) as Hnd. pose proof (inv_items c Hi) as Hit.
  pose proof (inv_live c Hi) as Hlv. unfold abs. clear Hi.
  assert (forall l, (forall x, x ∈ l -> x ∈ ll c) -> NoDup l -> NoDup (key <$> absl (heap c) l)) as Hl.
  2:{ by apply Hl. }
  induction l as [|x l IH]; intros Hsub Hl; [constructor|].
  apply NoDup_cons in Hl as [Hx Hl]. unfold absl. csimpl.
  destruct (Hlv x) as [_ [en Hen]]; [set_solver|]. rewrite Hen. csimpl. apply NoDup_cons.
  split; [|apply IH; [set_solver|done]].
  rewrite list_elem_of_fmap. intros (e' & Hke & (y & Hy & He')%absl_In).
  assert (items c !! key en = Some x) as H1 by (apply Hit; split; [set_solver|eauto]).
  assert (items c !! key en = Some y) as H2 by (apply Hit; split; [set_solver|eauto]).
  congruence.
Qed.

Lemma lru_New_inv cap ttl : inv (New (K := K) (V := V) cap ttl).
Proof.
  split; simpl.
  - constructor.
  - lia.
  - set_solver.
  - intros k el. rewrite lookup_empty. split; [done|]. set_solver.
Qed.

End facts.
End LruFacts.

Module LruProps.
Import Lru LruFacts.
Section props.
Context {K V : Type} `{Countable K}.

(** C6. Refinement: for every sequence of calls on a new cache, the values returned are
    those of the recency-ordered list of entries, the linked list always lists exactly
    that sequence, and the size never exceeds the capacity. *)
Theorem lru_refines_recency_list cap ttl (os : list (op K V)) :
  let c := (run os (New cap ttl)).2 in
  ((run os (New cap ttl)).1, abs c) = LruSpec.run cap ttl os [] /\
  inv c /\ Len c <= Z.max 0 cap.
Proof.
  destruct (lru_run_sim os (New cap ttl) (lru_New_inv cap ttl)) as [Hi Hr]. cbv zeta.
  split; [exact Hr|]. split; [done|].
  assert (capacity (run os (New cap ttl)).2 = cap) as Hcap.
  2:{ destruct Hi as [_ Hlen _ _]. unfold Len. rewrite <- Hcap at 2. exact Hlen. }
  clear Hi Hr. assert (forall c : LRU K V, inv c -> capacity (run os c).2 = capacity c) as Hc.
  2:{ apply Hc, lru_New_inv. }
  induction os as [|o os IH]; intros c Hi; simpl; [done|].
  pose proof (lru_step_sim o c Hi) as Hs. destruct (step o c) as [r c1].
  destruct Hs as (Hi1 & [= Hcap _] & _). specialize (IH c1 Hi1).
  destruct (run os c1). simpl in *. congruence.
Qed.

(** *** Retention *)
Definition op_key (o : op K V) : option K :=
  match o with OGet _ k => Some k | OSet _ k _ => Some k | _ => None end.
Definition touched (os : list (op K V)) : gset K := list_to_set (omap op_key os).
Definition undisturbed (k : K) (o : op K V) : Prop :=
  match o with OSet _ k' _ => k' <> k | ODelete k' => k' <> k | OGet _ k' => k' <> k | OPurge => False end.

(** [e] is in the list and everything in front of it has a key of [S]. *)
Definition behind (S : gset K) (e : entry K V) (l : list (entry K V)) : Prop :=
  exists pre post, l = pre ++ e :: post /\ (forall x, x ∈ pre -> key x ∈ S) /\
    NoDup (key <$> l).

Lemma rm_app k (l1 l2 : list (entry K V)) :
  LruSpec.rm k (l1 ++ l2) = LruSpec.rm k l1 ++ LruSpec.rm k l2.
Proof. apply filter_app. Qed.
Lemma rm_keep k e (l : list (entry K V)) :
  key e <> k -> LruSpec.rm k (e :: l) = e :: LruSpec.rm k l.
Proof. intros Hk. unfold LruSpec.rm. by rewrite filter_cons, decide_True. Qed.
Lemma rm_sub k (l : list (entry K V)) x : x ∈ LruSpec.rm k l -> x ∈ l /\ key x <> k.
Proof. unfold LruSpec.rm. rewrite list_elem_of_filter. naive_solver. Qed.
Lemma rm_NoDup k (l : list (entry K V)) : NoDup (key <$> l) -> NoDup (key <$> LruSpec.rm k l).
Proof.
  unfold LruSpec.rm. induction l as [|x l IH]; [done|]. csimpl. rewrite NoDup_cons.
  intros [Hx Hl]. rewrite filter_cons. case_decide; [|by apply IH].
  csimpl. apply NoDup_cons. split; [|by apply IH].
  rewrite list_elem_of_fmap in *. intros (y & Hy & [_ Hin]%list_elem_of_filter). eauto.
Qed.
Lemma rm_behind S k e l : key e <> k -> behind S e l -> behind S e (LruSpec.rm k l).
Proof.
  intros Hk (pre & post & -> & Hpre & Hnd). exists (LruSpec.rm k pre), (LruSpec.rm k post).
  rewrite rm_app, (rm_keep k e) by done. split; [done|]. split.
  - intros x [Hx _]%rm_sub. by apply Hpre.
  - rewrite <- (rm_keep k e), <- rm_app by done. by apply rm_NoDup.
Qed.
Lemma cons_rm_NoDup (x : entry K V) l :
  NoDup (key <$> l) -> NoDup (key <$> x :: LruSpec.rm (key x) l).
Proof.
  intros Hnd. csimpl. apply NoDup_cons. split; [|by apply rm_NoDup].
  rewrite list_elem_of_fmap. intros (y & Hy & [_ Hne]%rm_sub). done.
Qed.
Lemma cons_behind S x e l :
  key e <> key x -> behind S e l -> behind ({[key x]} ∪ S) e (x :: LruSpec.rm (key x) l).
Proof.
  intros Hk Hb. pose proof Hb as (_ & _ & _ & _ & Hnd0).
  destruct (rm_behind S (key x) e l Hk Hb) as (pre & post & Heq & Hpre & _).
  exists (x :: pre), post. split; [by rewrite Heq|]. split; [|by apply cons_rm_NoDup].
  intros y [->|Hy]%elem_of_cons; [set_solver|]. specialize (Hpre y Hy). set_solver.
Qed.
Lemma take_NoDup {A} n (l : list A) : NoDup l -> NoDup (take n l).
Proof. intros Hl. rewrite <- (take_drop n l) in Hl. by apply NoDup_app in Hl as [? _]. Qed.
Lemma take_behind S e l n :
  (size S < n)%nat -> behind S e l -> behind S e (take n l).
Proof.
  intros Hn (pre & post & -> & Hpre & Hnd).
  assert (length pre <= size S)%nat as Hlen.
  { rewrite <- (length_fmap key pre).
    assert (NoDup (key <$> pre)) as Hp by (rewrite fmap_app in Hnd; by apply NoDup_app in Hnd as [? _]).
    rewrite <- (size_list_to_set (C := gset K)) by done. apply subseteq_size.
    intros x [y [-> Hy]]%elem_of_list_to_set%list_elem_of_fmap. by apply Hpre. }
  exists pre, (take (n - length pre - 1) post). split.
  - rewrite take_app_ge by lia. f_equal.
    replace (n - length pre)%nat with (1 + (n - length pre - 1))%nat at 1 by lia. done.
  - split; [done|]. rewrite fmap_take. by apply take_NoDup.
Qed.

Lemma find_in k (l : list (entry K V)) e :
  LruSpec.find k l = Some e -> e ∈ l /\ key e = k.
Proof.
  unfold LruSpec.find. destruct (list_find _ l) as [[i e']|] eqn:E; simpl; [|done].
  intros [= ->]. apply list_find_Some in E as (Hl & Hk & _).
  split; [by eapply list_elem_of_lookup_2|done].
Qed.

Lemma step_behind cap ttl S e l o :
  undisturbed (key e) o -> behind S e l ->
  let S' := list_to_set (omap op_key [o]) ∪ S in
  (size S' < Z.to_nat cap)%nat ->
  behind S' e (LruSpec.step cap ttl o l).2.
Proof.
  intros Hu Hb S' Hs. assert (S ⊆ S') as HS by set_solver.
  assert (forall l, behind S e l -> behind S' e l) as Hmono.
  { intros l' (pre & post & -> & Hp & Hn). exists pre, post. set_solver. }
  destruct o as [now k|now k v|k|]; simpl in *.
  - unfold LruSpec.get. destruct (LruSpec.find k l) as [f|] eqn:Ef; [|by apply Hmono].
    apply find_in in Ef as [_ <-]. destruct (LruSpec.expired now f); simpl.
    + apply Hmono, rm_behind; [congruence|done].
    + replace S' with ({[key f]} ∪ S) by set_solver. apply cons_behind; [congruence|done].
  - unfold LruSpec.set. apply take_behind; [done|].
    replace S' with ({[k]} ∪ S) by set_solver.
    by apply (cons_behind S (mkEntry k v (if 0 <? ttl then now + ttl else 0)));
      [simpl; congruence|].
  - apply Hmono, rm_behind; [congruence|done].
  - done.
Qed.

Lemma run_behind cap ttl S e l os :
  Forall (undisturbed (key e)) os -> behind S e l ->
  (size (touched os ∪ S) < Z.to_nat cap)%nat ->
  behind (touched os ∪ S) e (LruSpec.run cap ttl os l).2.
Proof.
  revert S l. induction os as [|o os IH]; intros S l Hos Hb Hs.
  { unfold touched in *. simpl in *. by rewrite (union_empty_l_L S). }
  apply Forall_cons in Hos as [Ho Hos]. simpl.
  assert (touched (o :: os) ∪ S = touched os ∪ (list_to_set (omap op_key [o]) ∪ S)) as Heq.
  { unfold touched. simpl. destruct (op_key o); set_solver. }
  rewrite Heq in *. pose proof (step_behind cap ttl S e l o Ho Hb) as Hstep.
  destruct (LruSpec.step cap ttl o l) as [r l1]. simpl in Hstep.
  specialize (IH (list_to_set (omap op_key [o]) ∪ S) l1 Hos).
  destruct (LruSpec.run cap ttl os l1) as [rs l2]. simpl in *. apply IH; [|done].
  apply Hstep. eapply Nat.le_lt_trans; [|exact Hs]. apply subseteq_size. set_solver.
Qed.

(** Retention: a value stored for [k] is still returned after any calls on other
    keys, as long as those calls name fewer than [capacity] distinct keys and the entry
    has not outlived its ttl. *)
Theorem recent_entry_is_kept (c : LRU K V) t0 k v os t1 :
  inv c -> Forall (undisturbed k) os ->
  Z.of_nat (size (touched os)) < capacity c ->
  (0 < ttl c -> t1 <= t0 + ttl c) ->
  (Get t1 k (run os (Set_ t0 k v c)).2).1 = Some v.
Proof.
  intros Hi Hos Hsize Httl. destruct (Set_sim t0 k v c Hi) as (Hi1 & [= Hcap Ht] & Ha).
  destruct (lru_run_sim os _ Hi1) as [Hi2 Hr]. rewrite Hcap, Ht, Ha in Hr.
  pose proof (Get_sim t1 k _ Hi2) as Hg. destruct (Get t1 k _) as [r c']. simpl.
  destruct Hg as (_ & _ & Hg). apply (f_equal fst) in Hg. simpl in Hg. rewrite Hg.
  apply (f_equal snd) in Hr. simpl in Hr. rewrite Hr. clear Hg Hr Hi2 r c'.
  set (e := mkEntry k v (if 0 <? ttl c then t0 + ttl c else 0)).
  assert (behind ∅ e (LruSpec.set (capacity c) (ttl c) t0 k v (abs c))) as Hb.
  { unfold LruSpec.set. apply take_behind; [rewrite size_empty; lia|].
    exists [], (LruSpec.rm k (abs c)). split; [done|]. split; [set_solver|].
    apply (cons_rm_NoDup e). by apply (abs_NoDup c). }
  pose proof (run_behind (capacity c) (ttl c) ∅ e _ os Hos Hb) as Hfin.
  rewrite union_empty_r_L in Hfin. specialize (Hfin ltac:(lia)).
  destruct Hfin as (pre & post & Heq & _ & Hnd). rewrite Heq in *.
  unfold LruSpec.get. rewrite (find_Some k _ e); [|set_solver|done|].
  - replace (LruSpec.expired t1 e) with false; [done|]. symmetry. unfold LruSpec.expired.
    simpl. destruct (Z.ltb_spec 0 (ttl c)); [|done]. apply andb_false_iff. right.
    apply Z.ltb_ge. lia.
  - intros e' He' Hk'. rewrite fmap_app, fmap_cons in Hnd. apply NoDup_app in Hnd as (_ & H1 & H2).
    apply NoDup_cons in H2 as [H2 _]. apply elem_of_app in He' as [Hin|Hin].
    + destruct (H1 (key e')); [apply list_elem_of_fmap; eauto|]. rewrite Hk'. set_solver.
    + apply elem_of_cons in Hin as [->|Hin]; [done|]. destruct H2. simpl. rewrite <- Hk'.
      apply list_elem_of_fmap. eauto.
Qed.
End props.

Lemma recent_entry_is_kept_witness :
  (Get 5 "a" (run [OSet 2 "b" 7; OGet 3 "b"; OGet 4 "b"]
     (Set_ 1 "a" 9 (New (K := string) (V := Z) 2 10))).2).1 = Some 9.
Proof.
  apply (recent_entry_is_kept (New 2 10) 1 "a" 9).
  - apply lru_New_inv.
  - repeat constructor; done.
  - vm_compute. reflexivity.
  - simpl. lia.
Defined.
End LruProps.
