(* ===== verification/Sha256.v ===== *)
(** * crypto/sha256 and crypto/hmac

    FIPS 180-4 and RFC 2104 on bytes, as the Go standard library computes them.  Words are
    32-bit [Z]s; a message is a string of bytes. *)
From S2P Require Import Prelude GoStd.

Module Sha256.

Definition w32 (x : Z) : Z := Z.land x 4294967295.
Definition add32 (a b : Z) : Z := w32 (a + b).
Definition rotr (n x : Z) : Z := Z.lor (Z.shiftr x n) (w32 (Z.shiftl x (32 - n))).

(** The constants: the first 32 bits of the fractional parts of the cube roots of the first 64
    primes, and of the square roots of the first eight. *)
Definition is_prime (n : Z) : bool :=
  (2 <=? n) && forallb (fun d => negb (n mod d =? 0)) (seqZ 2 (Z.sqrt n - 1)).
Definition primes : list Z := List.filter is_prime (seqZ 2 310).
(** The integer cube root, from bit [n - 1] down. *)
Fixpoint cbrt_bits (n : nat) (x r : Z) : Z :=
  match n with
  | O => r
  | S n' => let r' := r + 2 ^ Z.of_nat n' in cbrt_bits n' x (if r' ^ 3 <=? x then r' else r)
  end.
Definition K : list Z := Eval vm_compute in (fun p => w32 (cbrt_bits 36 (p * 2 ^ 96) 0)) <$> primes.
Definition H0 : list Z := Eval vm_compute in (fun p => w32 (Z.sqrt (p * 2 ^ 64))) <$> take 8 primes.

Definition word_of (l : list Z) : Z := foldl (fun a b => a * 256 + b) 0 l.
Fixpoint words (n : nat) (l : list Z) : list Z :=
  match n with
  | O => []
  | S n' => word_of (take 4 l) :: words n' (drop 4 l)
  end.

(** The message schedule, newest word first. *)
Definition ssig0 (x : Z) : Z := Z.lxor (Z.lxor (rotr 7 x) (rotr 18 x)) (Z.shiftr x 3).
Definition ssig1 (x : Z) : Z := Z.lxor (Z.lxor (rotr 17 x) (rotr 19 x)) (Z.shiftr x 10).
Fixpoint schedule (n : nat) (rw : list Z) : list Z :=
  match n with
  | O => rev rw
  | S n' =>
      let w k := nth k rw 0 in
      schedule n' (add32 (add32 (ssig1 (w 1%nat)) (w 6%nat)) (add32 (ssig0 (w 14%nat)) (w 15%nat)) :: rw)
  end.

Definition round (s : list Z) (kw : Z * Z) : list Z :=
  match s with
  | [a; b; c; d; e; f; g; h] =>
      let S1 := Z.lxor (Z.lxor (rotr 6 e) (rotr 11 e)) (rotr 25 e) in
      let ch := Z.lxor (Z.land e f) (Z.land (Z.lxor e 4294967295) g) in
      let t1 := w32 (h + S1 + ch + kw.1 + kw.2) in
      let S0 := Z.lxor (Z.lxor (rotr 2 a) (rotr 13 a)) (rotr 22 a) in
      let maj := Z.lxor (Z.lxor (Z.land a b) (Z.land a c)) (Z.land b c) in
      [add32 t1 (add32 S0 maj); a; b; c; add32 d t1; e; f; g]
  | _ => s
  end.
Definition compress (h : list Z) (block : list Z) : list Z :=
  zip_with add32 h (foldl round h (zip K (schedule 48 (rev (words 16 block))))).

Fixpoint blocks (n : nat) (l : list Z) (h : list Z) : list Z :=
  match n with
  | O => h
  | S n' => blocks n' (drop 64 l) (compress h (take 64 l))
  end.

Fixpoint be_bytes (n : nat) (x : Z) : list Z :=
  match n with
  | O => []
  | S n' => be_bytes n' (x / 256) ++ [x mod 256]
  end.

Definition pad (l : list Z) : list Z :=
  let len := length l in
  let zeros := ((119 - len mod 64) mod 64)%nat in
  l ++ 128 :: replicate zeros 0 ++ be_bytes 8 (8 * Z.of_nat len).

Definition to_bytes (s : string) : list Z := (fun c => Z.of_nat (nat_of_ascii c)) <$> list_ascii_of_string s.
Definition of_bytes (l : list Z) : string :=
  string_of_list_ascii ((fun z => ascii_of_nat (Z.to_nat z)) <$> l).

Definition digest (l : list Z) : list Z :=
  let p := pad l in blocks (length p / 64) p H0 ≫= be_bytes 4.

(** [sha256.Sum256] *)
Definition Sum256 (s : string) : string := of_bytes (digest (to_bytes s)).

(** [hmac.New(sha256.New, key)], one [Write] of the whole message and [Sum]. *)
Definition hmac_bytes (key msg : list Z) : list Z :=
  let k := if (64 <? length key)%nat then digest key else key in
  let k := k ++ replicate (64 - length k) 0 in
  digest ((Z.lxor 92 <$> k) ++ digest ((Z.lxor 54 <$> k) ++ msg)).
Definition Hmac (key msg : string) : string := of_bytes (hmac_bytes (to_bytes key) (to_bytes msg)).

(** ** Shape *)
Lemma be_bytes_length n x : length (be_bytes n x) = n.
Proof. revert x. induction n as [|n IH]; intros x; simpl; [done|]. rewrite length_app, IH. simpl. lia. Qed.
Lemma round_length s kw : length (round s kw) = length s.
Proof. by destruct s as [|? [|? [|? [|? [|? [|? [|? [|? [|? ?]]]]]]]]]. Qed.
Lemma rounds_length l s : length (foldl round s l) = length s.
Proof. revert s. induction l as [|x l IH]; intros s; simpl; [done|]. by rewrite IH, round_length. Qed.
Lemma compress_length h b : length (compress h b) = length h.
Proof. unfold compress. rewrite length_zip_with, rounds_length. lia. Qed.
Lemma blocks_length n l h : length (blocks n l h) = length h.
Proof. revert l h. induction n as [|n IH]; intros l h; simpl; [done|]. by rewrite IH, compress_length. Qed.
Lemma bind_bytes_length (l : list Z) n : length (l ≫= be_bytes n) = (length l * n)%nat.
Proof.
  induction l as [|x l IH]; [done|]. change ((x :: l) ≫= be_bytes n) with (be_bytes n x ++ (l ≫= be_bytes n)).
  rewrite length_app, be_bytes_length, IH. simpl. lia.
Qed.
Lemma digest_length l : length (digest l) = 32%nat.
Proof. unfold digest. rewrite bind_bytes_length, blocks_length. done. Qed.
Lemma of_bytes_length l : String.length (of_bytes l) = length l.
Proof. unfold of_bytes. induction l as [|x l IH]; simpl; [done|]. by f_equal. Qed.
Lemma Sum256_length s : String.length (Sum256 s) = 32%nat.
Proof. unfold Sum256. by rewrite of_bytes_length, digest_length. Qed.
Lemma Hmac_length k m : String.length (Hmac k m) = 32%nat.
Proof. unfold Hmac, hmac_bytes. by rewrite of_bytes_length, digest_length. Qed.

(** ** Published vectors *)
Example sha256_abc :
  hexEncode (Sum256 "abc") = "ba7816bf8f01cfea414140de5dae2223b00361a396177a9cb410ff61f20015ad".
Proof. vm_compute. reflexivity. Qed.
Example sha256_two_blocks :
  hexEncode (Sum256 "abcdbcdecdefdefgefghfghighijhijkijkljklmklmnlmnomnopnopq")
  = "248d6a61d20638b8e5c026930c3e6039a33ce45964ff2167f6ecedd419db06c1".
Proof. vm_compute. reflexivity. Qed.
Example hmac_rfc4231_2 :
  hexEncode (Hmac "Jefe" "what do ya want for nothing?")
  = "5bdcc146bf60754e6a042426089575c75a003f089d2739839dec58b964ec3843".
Proof. vm_compute. reflexivity. Qed.
End Sha256.
