(* ===== verification/Crypto.v ===== *)
(** * crypto/: one-time passwords, numeric codes, password strength

    [Sha1] and [Base32] are crypto/sha1 (with crypto/hmac) and encoding/base32 of the standard
    library; [Totp] is crypto/totp.go, crypto/code.go and crypto/password.go.  Random bytes and
    numbers are arguments.  bcrypt is a pair of functions the code is given. *)
From S2P Require Import Prelude GoStd Sha256.
Open Scope go_scope.

(** ** FIPS 180-4, SHA-1 *)
Module Sha1.
Import Sha256.

Definition rotl (n x : Z) : Z := Z.lor (w32 (Z.shiftl x n)) (Z.shiftr x (32 - n)).
Definition H1 : list Z := [1732584193; 4023233417; 2562383102; 271733878; 3285377520].

(** The message schedule, newest word first. *)
Fixpoint schedule1 (n : nat) (rw : list Z) : list Z :=
  match n with
  | O => rev rw
  | S n' =>
      let w k := nth k rw 0 in
      schedule1 n' (rotl 1 (Z.lxor (Z.lxor (w 2%nat) (w 7%nat)) (Z.lxor (w 13%nat) (w 15%nat))) :: rw)
  end.
Definition ft (t b c d : Z) : Z * Z :=
  if t <? 20 then (Z.lxor (Z.land b c) (Z.land (Z.lxor b 4294967295) d), 1518500249)
  else if t <? 40 then (Z.lxor (Z.lxor b c) d, 1859775393)
  else if t <? 60 then (Z.lxor (Z.lxor (Z.land b c) (Z.land b d)) (Z.land c d), 2400959708)
  else (Z.lxor (Z.lxor b c) d, 3395469782).
Definition round1 (s : list Z) (tw : Z * Z) : list Z :=
  match s with
  | [a; b; c; d; e] =>
      let '(f, k) := ft tw.1 b c d in
      [w32 (rotl 5 a + f + e + k + tw.2); a; rotl 30 b; c; d]
  | _ => s
  end.
Definition compress1 (h block : list Z) : list Z :=
  zip_with add32 h (foldl round1 h (zip (seqZ 0 80) (schedule1 64 (rev (words 16 block))))).
Fixpoint blocks1 (n : nat) (l h : list Z) : list Z :=
  match n with
  | O => h
  | S n' => blocks1 n' (drop 64 l) (compress1 h (take 64 l))
  end.
(** [sha1.Sum] *)
Definition digest1 (l : list Z) : list Z :=
  let p := pad l in blocks1 (length p / 64) p H1 ≫= be_bytes 4.
(** [hmac.New(sha1.New, key)], one [Write] and [Sum]. *)
Definition hmac1 (key msg : list Z) : list Z :=
  let k := if (64 <? length key)%nat then digest1 key else key in
  let k := k ++ replicate (64 - length k) 0 in
  digest1 ((Z.lxor 92 <$> k) ++ digest1 ((Z.lxor 54 <$> k) ++ msg)).

Example sha1_abc : hexEncode (of_bytes (digest1 (to_bytes "abc"))) = "a9993e364706816aba3e25717850c26c9cd0d89d".
Proof. vm_compute. reflexivity. Qed.
Example hmac1_rfc2202_2 :
  hexEncode (of_bytes (hmac1 (to_bytes "Jefe") (to_bytes "what do ya want for nothing?")))
  = "effcdf6ae5eb2fa2d27416d5f184df9c259a7c79".
Proof. vm_compute. reflexivity. Qed.
End Sha1.

(** ** base32.StdEncoding.WithPadding(NoPadding) *)
Module Base32.

Definition b32_char (d : Z) : ascii := ascii_of_nat (Z.to_nat (if d <? 26 then 65 + d else 24 + d)).
(** The decoding map; [None] is its 0xFF. *)
Definition b32_val (c : ascii) : option Z :=
  let n := Z.of_nat (nat_of_ascii c) in
  if (65 <=? n) && (n <=? 90) then Some (n - 65)
  else if (50 <=? n) && (n <=? 55) then Some (n - 24) else None.

(** Five bytes as eight 5-bit groups. *)
Definition groups (b0 b1 b2 b3 b4 : Z) : list Z :=
  [b0 / 8; b0 mod 8 * 4 + b1 / 64; b1 / 2 mod 32; b1 mod 2 * 16 + b2 / 16;
   b2 mod 16 * 2 + b3 / 128; b3 / 4 mod 32; b3 mod 4 * 8 + b4 / 32; b4 mod 32].
Fixpoint encode_groups (l : list Z) : list Z :=
  match l with
  | b0 :: b1 :: b2 :: b3 :: b4 :: l' => groups b0 b1 b2 b3 b4 ++ encode_groups l'
  | [b0; b1; b2; b3] => take 7 (groups b0 b1 b2 b3 0)
  | [b0; b1; b2] => take 5 (groups b0 b1 b2 0 0)
  | [b0; b1] => take 4 (groups b0 b1 0 0 0)
  | [b0] => take 2 (groups b0 0 0 0 0)
  | [] => []
  end.
Definition EncodeToString (raw : list Z) : string := string_of_list_ascii (b32_char <$> encode_groups raw).

(** A quantum of [dlen] groups gives a byte for each of the lengths 2, 4, 5, 7 and 8 it reaches;
    a final quantum of 1, 3 or 6 groups gives none at all. *)
Definition byte_at (g : list Z) (k : nat) : Z :=
  let d i := nth i g 0 in
  match k with
  | 0%nat => (d 0%nat * 8 + d 1%nat / 4) mod 256
  | 1%nat => (d 1%nat * 64 + d 2%nat * 2 + d 3%nat / 16) mod 256
  | 2%nat => (d 3%nat * 16 + d 4%nat / 2) mod 256
  | 3%nat => (d 4%nat * 128 + d 5%nat * 4 + d 6%nat / 8) mod 256
  | _ => (d 6%nat * 32 + d 7%nat) mod 256
  end.
Definition quantum (g : list Z) : list Z :=
  byte_at g <$> seq 0 (match length g with
                       | 8%nat => 5 | 7%nat => 4 | 5%nat => 3 | 4%nat => 2 | 2%nat => 1 | _ => 0
                       end)%nat.
Fixpoint decode_groups (l : list Z) : list Z :=
  match l with
  | d0 :: d1 :: d2 :: d3 :: d4 :: d5 :: d6 :: d7 :: l' => quantum [d0; d1; d2; d3; d4; d5; d6; d7] ++ decode_groups l'
  | _ => quantum l
  end.
Definition is_newline (c : ascii) : bool := Ascii.eqb c "010" || Ascii.eqb c "013".
(** Line breaks are dropped, any other byte outside the alphabet is an error. *)
Definition DecodeString (s : string) : option (list Z) :=
  decode_groups <$> mapM b32_val (List.filter (fun c => negb (is_newline c)) (list_ascii_of_string s)).
End Base32.

Module Totp.
Import Base32.

(** ** code.go *)
Definition spaces (n : nat) : string := str_map (fun _ => " "%char) (zeros n).
(** [fmt.Sprintf("%0*d", width, n)] of a non-negative [n]: a width beyond a million is an error
    in the output, a negative one pads with spaces on the right. *)
Definition sprintf_0d (width n : Z) : string :=
  if (1000000 <? width) || (width <? -1000000) then "%!(BADWIDTH)" +:+ strN n
  else if width <? 0 then let s := strN n in s +:+ spaces (Z.to_nat (- width) - String.length s)
  else zero_pad (Z.to_nat width) n.
(** [rand_int max] is rand.Int(rand.Reader, max).  [big.Int.Exp] with an exponent below one is 1. *)
Definition GenerateNumericCode (rand_int : Z -> res string Z) (length : Z) : res string string :=
  let max := if length <=? 0 then 1 else 10 ^ length in
  match rand_int max with
  | Err e => Err ("generate code: " +:+ e)
  | Ok n => Ok (sprintf_0d length n)
  end.

(** ** password.go *)
Definition bcryptCost : Z := 10.
Definition HashPassword (GenerateFromPassword : string -> Z -> res string string) (password : string) : res string string :=
  match GenerateFromPassword password bcryptCost with
  | Err e => Err e
  | Ok hash => Ok hash
  end.
Definition CheckPassword (CompareHashAndPassword : string -> string -> res string unit) (hash password : string) : res string unit :=
  CompareHashAndPassword hash password.

(** [unicode.IsLetter] and [unicode.IsDigit]: the Latin-1 table, and categories L and Nd beyond it. *)
Class UnicodeCategory := { uni_letter : Z -> bool; uni_digit : Z -> bool }.
Definition plain_category : UnicodeCategory := {| uni_letter _ := false; uni_digit _ := false |}.
Definition IsLetter `{UnicodeCategory} (r : Z) : bool :=
  if r <=? 255 then
    (65 <=? r) && (r <=? 90) || (97 <=? r) && (r <=? 122) || (r =? 170) || (r =? 181) || (r =? 186) ||
    (192 <=? r) && negb (r =? 215) && negb (r =? 247)
  else uni_letter r.
Definition IsDigit `{UnicodeCategory} (r : Z) : bool :=
  if r <=? 255 then (48 <=? r) && (r <=? 57) else uni_digit r.
Definition ValidatePasswordStrength `{UnicodeCategory} (password : string) : res string unit :=
  if slen password <? 8 then Err "password must be at least 8 characters" else
  let '(hasLetter, hasDigit) :=
    foldl (fun acc r => let '(l, d) := acc in
                        let l := if IsLetter r then true else l in
                        let d := if IsDigit r then true else d in (l, d))
          (false, false) (runes password) in
  if negb hasLetter then Err "password must contain at least one letter" else
  if negb hasDigit then Err "password must contain at least one digit" else Ok ().

(** ** totp.go *)
Definition defaultTOTPSecretBytes : nat := 20.
Definition defaultTOTPPeriod : Duration := 30 * Second.
Definition defaultTOTPDigits : Z := 6.

(** [rand_read n] is rand.Read on a slice of [n] bytes. *)
Definition GenerateTOTPSecret (rand_read : nat -> res string (list Z)) : res string string :=
  match rand_read defaultTOTPSecretBytes with
  | Err e => Err e
  | Ok raw => Ok (trim_right ["="] (EncodeToString raw))
  end.

Definition TOTPCode `{UnicodeCase} (secret : string) (now : Time) : string :=
  match DecodeString (ToUpper (TrimSpace secret)) with
  | None => ""
  | Some key =>
      let counter := wrapu64 (Z.quot (Unix now) 30) in
      let sum := Sha1.hmac1 key (Sha256.be_bytes 8 counter) in
      let offset := Z.to_nat (Z.land (nth (length sum - 1) sum 0) 15) in
      let bin := Z.lor (Z.lor (Z.lor (Z.shiftl (Z.land (nth offset sum 0) 127) 24)
                                     (Z.shiftl (Z.land (nth (offset + 1) sum 0) 255) 16))
                              (Z.shiftl (Z.land (nth (offset + 2) sum 0) 255) 8))
                       (Z.land (nth (offset + 3) sum 0) 255) in
      sprintf_0d defaultTOTPDigits (bin mod 1000000)
  end.

(** The loop runs its [2 * windowSteps + 1] turns for every [windowSteps] below the largest int
    (there [offset++] would wrap). *)
Definition ValidateTOTP `{UnicodeCase} (secret code : string) (now : Time) (windowSteps : Z) : bool :=
  let windowSteps := if windowSteps <? 0 then 0 else windowSteps in
  let code := TrimSpace code in
  if String.eqb code "" then false
  else existsb (fun offset => String.eqb (TOTPCode secret (Add now (wrap64 (offset * defaultTOTPPeriod)))) code)
               (seqZ (- windowSteps) (2 * windowSteps + 1)).

Definition rfc_secret : string := "GEZDGNBVGY3TQOJQGEZDGNBVGY3TQOJQ".
Example totp_rfc6238 : TOTPCode (H:=plain_case) rfc_secret (time_Unix 59) = "287082".
Proof. vm_compute. reflexivity. Qed.
Example totp_window :
  let code := TOTPCode (H:=plain_case) rfc_secret (time_Unix 60) in
  ValidateTOTP (H:=plain_case) rfc_secret code (time_Unix 90) 1 = true /\
  ValidateTOTP (H:=plain_case) rfc_secret code (time_Unix 90) 0 = false.
Proof. vm_compute. done. Qed.
Example numeric_code_zero : GenerateNumericCode (fun _ => Ok 0) 0 = Ok "0" /\ GenerateNumericCode (fun _ => Ok 42) 6 = Ok "000042".
Proof. vm_compute. done. Qed.
Example password_examples :
  ValidatePasswordStrength (H:=plain_category) "Abcdefg1" = Ok () /\
  ValidatePasswordStrength (H:=plain_category) "12345678" = Err "password must contain at least one letter" /\
  ValidatePasswordStrength (H:=plain_category) "Abcdefgh" = Err "password must contain at least one digit" /\
  ValidatePasswordStrength (H:=plain_category) "Ab1" = Err "password must be at least 8 characters".
Proof. vm_compute. done. Qed.
End Totp.

Module CryptoFacts.
Import Base32 Totp.

Definition is_byte (b : Z) : Prop := 0 <= b < 256.
Ltac div_lia := Z.to_euclidean_division_equations; lia.

(** *** Base32 *)
Lemma b32_val_char d : 0 <= d < 32 -> b32_val (b32_char d) = Some d.
Proof.
  intros Hd. assert (forallb (fun d => bool_decide (b32_val (b32_char d) = Some d)) (seqZ 0 32) = true) as H by done.
  rewrite forallb_forall in H. specialize (H d). rewrite bool_decide_eq_true in H. apply H.
  apply list_elem_of_In, elem_of_seqZ. lia.
Qed.
Definition b32_alpha (c : ascii) : bool := bool_decide (is_Some (b32_val c)).
Lemma b32_alpha_range c :
  b32_alpha c = true -> (65 <= nat_of_ascii c <= 90 \/ 50 <= nat_of_ascii c <= 55)%nat.
Proof.
  unfold b32_alpha, b32_val. rewrite bool_decide_eq_true. intros [d Hd]. revert Hd.
  repeat case_match; try done; intros _; lia.
Qed.

Lemma groups_range b0 b1 b2 b3 b4 :
  is_byte b0 -> is_byte b1 -> is_byte b2 -> is_byte b3 -> is_byte b4 ->
  Forall (fun d => 0 <= d < 32) (groups b0 b1 b2 b3 b4).
Proof. unfold is_byte, groups. intros. repeat constructor; div_lia. Qed.

Section quanta.
Context (b0 b1 b2 b3 b4 : Z) (B0 : is_byte b0) (B1 : is_byte b1) (B2 : is_byte b2) (B3 : is_byte b3) (B4 : is_byte b4).

Lemma byte_groups k : byte_at (groups b0 b1 b2 b3 b4) k = nth k [b0; b1; b2; b3] b4.
Proof using All.
  unfold is_byte in *. destruct k as [|[|[|[|[|k]]]]]; cbn -[Z.mul Z.add Z.div Z.modulo]; div_lia.
Qed.
(** A whole quantum, and one cut after [m] groups. *)
Lemma quantum_groups m n :
  (m, n) ∈ [(8, 5); (7, 4); (5, 3); (4, 2); (2, 1)]%nat ->
  quantum (take m (groups b0 b1 b2 b3 b4)) = take n [b0; b1; b2; b3; b4].
Proof using All.
  intros Hmn. rewrite !elem_of_cons, elem_of_nil in Hmn.
  pose proof (byte_groups 0) as E0. pose proof (byte_groups 1) as E1. pose proof (byte_groups 2) as E2.
  pose proof (byte_groups 3) as E3. pose proof (byte_groups 4) as E4.
  destruct Hmn as [[= -> ->]|[[= -> ->]|[[= -> ->]|[[= -> ->]|[[= -> ->]|[]]]]]];
    cbn -[Z.mul Z.add Z.div Z.modulo] in *; congruence.
Qed.
End quanta.

(** Induction five elements at a time, short tails apart. *)
Lemma list_ind5 {A} (P : list A -> Prop) :
  (forall l, (length l < 5)%nat -> P l) ->
  (forall a b c d e l, P l -> P (a :: b :: c :: d :: e :: l)) -> forall l, P l.
Proof.
  intros Hs Hc. fix IH 1. intros [|a [|b [|c [|d [|e l]]]]]; [apply Hs; simpl; lia..|].
  apply Hc, IH.
Qed.

Lemma encode_groups_range l : Forall is_byte l -> Forall (fun d => 0 <= d < 32) (encode_groups l).
Proof.
  assert (is_byte 0) by (unfold is_byte; lia).
  induction l as [l Hl|b0 b1 b2 b3 b4 l IH] using list_ind5; intros Hb.
  - destruct l as [|b0 [|b1 [|b2 [|b3 [|]]]]]; [done| | | | |simpl in Hl; lia]; rewrite ?Forall_cons in Hb; destruct_and?;
      apply Forall_take, groups_range; done.
  - rewrite !Forall_cons in Hb. destruct_and!. apply Forall_app. split; [by apply groups_range|by apply IH].
Qed.
Lemma decode_encode l : Forall is_byte l -> decode_groups (encode_groups l) = l.
Proof.
  assert (is_byte 0) by (unfold is_byte; lia).
  induction l as [l Hl|b0 b1 b2 b3 b4 l IH] using list_ind5; intros Hb.
  - destruct l as [|b0 [|b1 [|b2 [|b3 [|]]]]]; [done| | | | |simpl in Hl; lia];
      rewrite ?Forall_cons in Hb; destruct_and?.
    + by apply (quantum_groups b0 0 0 0 0) with (m := 2%nat) (n := 1%nat); [..|set_solver].
    + by apply (quantum_groups b0 b1 0 0 0) with (m := 4%nat) (n := 2%nat); [..|set_solver].
    + by apply (quantum_groups b0 b1 b2 0 0) with (m := 5%nat) (n := 3%nat); [..|set_solver].
    + by apply (quantum_groups b0 b1 b2 b3 0) with (m := 7%nat) (n := 4%nat); [..|set_solver].
  - rewrite !Forall_cons in Hb. destruct_and!. change (decode_groups (encode_groups (b0 :: b1 :: b2 :: b3 :: b4 :: l)))
      with (quantum (take 8 (groups b0 b1 b2 b3 b4)) ++ decode_groups (encode_groups l)).
    rewrite (quantum_groups b0 b1 b2 b3 b4) with (n := 5%nat) by (done || set_solver). by rewrite IH.
Qed.

Lemma mapM_chars g : Forall (fun d => 0 <= d < 32) g -> mapM b32_val (b32_char <$> g) = Some g.
Proof. intros Hg. apply mapM_Some, Forall2_fmap_l, Forall_Forall2_diag. eapply Forall_impl; [done|]. apply b32_val_char. Qed.
Lemma encoded_alpha raw : Forall is_byte raw -> str_all b32_alpha (EncodeToString raw) = true.
Proof.
  intros Hr. unfold EncodeToString. induction (encode_groups_range raw Hr) as [|d g Hd _ IH]; [done|].
  rewrite fmap_cons. cbn [Stdlib.Strings.String.string_of_list_ascii str_all]. rewrite IH, andb_true_r. unfold b32_alpha. by rewrite b32_val_char.
Qed.
Lemma filter_alpha s :
  str_all b32_alpha s = true -> List.filter (fun c => negb (is_newline c)) (list_ascii_of_string s) = list_ascii_of_string s.
Proof.
  induction s as [|c s IH]; [done|]. simpl. intros [Hc Hs]%andb_prop.
  rewrite IH by done. unfold is_newline.
  destruct (Stdlib.Strings.Ascii.eqb_spec c "010") as [->|]; [done|].
  by destruct (Stdlib.Strings.Ascii.eqb_spec c "013") as [->|].
Qed.
Lemma decode_encoded raw : Forall is_byte raw -> DecodeString (EncodeToString raw) = Some raw.
Proof.
  intros Hr. unfold DecodeString. rewrite filter_alpha by by apply encoded_alpha.
  unfold EncodeToString. rewrite Stdlib.Strings.String.list_ascii_of_string_of_list_ascii.
  rewrite mapM_chars by by apply encode_groups_range. simpl. by rewrite decode_encode.
Qed.
Lemma alpha_upper `{UnicodeCase} s : str_all b32_alpha s = true -> ToUpper s = s.
Proof.
  intros Hs. unfold ToUpper. rewrite (str_all_impl b32_alpha is_ascii) by
    (done || intros c Hc%b32_alpha_range; unfold is_ascii; apply Nat.ltb_lt; lia).
  induction s as [|c s IH]; [done|]. simpl in *. apply andb_prop in Hs as [Hc Hs]. rewrite IH by done. f_equal.
  apply b32_alpha_range in Hc. unfold upper_byte. case_match eqn:E; [|done].
  apply andb_prop in E as [E1%Nat.leb_le E2%Nat.leb_le]. lia.
Qed.
Lemma alpha_trim s : str_all b32_alpha s = true -> TrimSpace s = s.
Proof.
  intros Hs. apply TrimSpace_visible. apply (str_all_impl b32_alpha); [|done].
  intros c Hc%b32_alpha_range. unfold visible, is_ascii. apply andb_true_intro. split;
    [apply Nat.leb_le|apply Nat.ltb_lt]; lia.
Qed.
Lemma alpha_trim_pad s : str_all b32_alpha s = true -> trim_right ["="] s = s.
Proof.
  intros Hs. unfold trim_right, trim_left. rewrite trim_by_fix; [apply str_rev_involutive|].
  destruct (decide (s = "")) as [->|Hne]; [done|]. destruct (str_snoc s Hne) as (t & c & ->).
  rewrite str_rev_app. rewrite str_all_app in Hs. apply andb_prop in Hs as [_ [Hc _]%andb_prop].
  apply strip_one_None. intros w u Hw E.
  rewrite list_fmap_singleton, list_elem_of_singleton in Hw. subst w.
  change (str_rev (String c "")) with (String c "") in E. change (str_rev "=") with "=" in E.
  rewrite !sapp_cons in E. by injection E as -> _.
Qed.

(** *** Codes *)
Lemma zero_pad_digits w n : 0 <= n -> str_all is_digit (zero_pad w n) = true.
Proof. intros Hn. unfold zero_pad. by rewrite str_all_app, zeros_digits, strN_digits. Qed.
Definition six_digits (s : string) : Prop := String.length s = 6%nat /\ str_all is_digit s = true.
Lemma TOTPCode_digits `{UnicodeCase} secret now key :
  DecodeString (ToUpper (TrimSpace secret)) = Some key -> six_digits (TOTPCode secret now).
Proof.
  intros E. unfold TOTPCode. rewrite E. cbv zeta. set (bin := Z.lor _ _).
  pose proof (Z.mod_pos_bound bin 1000000 ltac:(lia)) as Hb.
  change (sprintf_0d defaultTOTPDigits (bin mod 1000000)) with (zero_pad 6 (bin mod 1000000)).
  split; [apply zero_pad_length; [lia|done]|apply zero_pad_digits; lia].
Qed.
Lemma digits_trim s : str_all is_digit s = true -> TrimSpace s = s.
Proof.
  intros Hs. apply TrimSpace_visible. apply (str_all_impl is_digit); [|done].
  intros c. apply digit_visible.
Qed.

(** *** Time steps *)
Definition epoch : Time := unixToInternal * Second.
Definition step (t : Time) : Z := (t - epoch) / defaultTOTPPeriod.
(** Times between 1970 and the year 292 billion. *)
Definition modern (t : Time) : Prop := epoch <= t <= maxInt64 * Second.
Lemma Unix_step t : modern t -> Z.quot (Unix t) 30 = step t.
Proof.
  unfold modern, epoch, step, Unix, maxInt64. intros Ht.
  assert (t / Second - unixToInternal = (t - unixToInternal * Second) / Second) as ->.
  { replace t with (t - unixToInternal * Second + unixToInternal * Second) at 1 by lia.
    rewrite Z.div_add by done. lia. }
  assert (0 <= (t - unixToInternal * Second) / Second <= 9223372036854775807) as Hr.
  { split; [apply Z.div_pos; [lia|done]|]. apply Z.div_le_upper_bound; [done|]. unfold unixToInternal, Second in *. lia. }
  rewrite wrap64_id by int64. rewrite Z.quot_div_nonneg, Z.div_div by (done || lia). done.
Qed.
Lemma code_of_step `{UnicodeCase} secret t u :
  modern t -> modern u -> step t = step u -> TOTPCode secret t = TOTPCode secret u.
Proof. intros Ht Hu E. unfold TOTPCode. by rewrite !Unix_step, E. Qed.
End CryptoFacts.

Module CryptoProps.
Import Base32 Totp CryptoFacts.

(** A generated secret is usable: whatever 20 bytes the random source yields, the secret is 32
    characters long, decodes (after the trimming and upper-casing of [TOTPCode]) to those very
    bytes, and yields a six-digit code at every time; a failing source is reported. *)
Theorem generated_secret_usable `{UnicodeCase} rand_read raw now :
  rand_read defaultTOTPSecretBytes = Ok raw -> length raw = 20%nat -> Forall is_byte raw ->
  exists s, GenerateTOTPSecret rand_read = Ok s /\ String.length s = 32%nat /\
    DecodeString (ToUpper (TrimSpace s)) = Some raw /\ six_digits (TOTPCode s now).
Proof.
  intros E Hl Hr. exists (EncodeToString raw). unfold GenerateTOTPSecret. rewrite E.
  pose proof (encoded_alpha raw Hr) as Ha. rewrite alpha_trim_pad by done.
  assert (DecodeString (ToUpper (TrimSpace (EncodeToString raw))) = Some raw) as Hd
    by by rewrite alpha_trim, alpha_upper, decode_encoded.
  split_and!; [done| |done|by eapply TOTPCode_digits].
  unfold EncodeToString. rewrite <- lasc_length, Stdlib.Strings.String.list_ascii_of_string_of_list_ascii, length_fmap.
  do 20 (destruct raw as [|? raw]; [done|]). by destruct raw.
Qed.
Lemma generated_secret_usable_witness :
  exists s, GenerateTOTPSecret (fun n => Ok (replicate n 7)) = Ok s /\ six_digits (TOTPCode (H:=plain_case) s zeroTime).
Proof.
  destruct (generated_secret_usable (H:=plain_case) (fun n => Ok (replicate n 7)) (replicate 20 7) zeroTime)
    as (s & Hs & _ & _ & Hc).
  - reflexivity.
  - reflexivity.
  - repeat constructor; lia.
  - exists s. split; assumption.
Defined.

Lemma step_shift t k : step (t + k * defaultTOTPPeriod) = step t + k.
Proof.
  unfold step. replace (t + k * defaultTOTPPeriod - epoch) with (t - epoch + k * defaultTOTPPeriod) by lia.
  by rewrite Z.div_add.
Qed.
Lemma step_close t u w :
  0 <= w -> Z.abs (t - u) <= w * defaultTOTPPeriod -> - w <= step t - step u <= w.
Proof.
  intros Hw Ht. unfold step. set (p := defaultTOTPPeriod) in *. assert (0 < p) by done.
  assert ((t - epoch) / p <= (u - epoch) / p + w).
  { rewrite <- Z.div_add by lia. apply Z.div_le_mono; lia. }
  assert ((u - epoch) / p <= (t - epoch) / p + w); [|lia].
  rewrite <- Z.div_add by lia. apply Z.div_le_mono; lia.
Qed.

(** C23. One-time passwords: with a window of [w] steps a code is accepted exactly when, trimmed, it is
    the non-empty code of a time whose 30-second step is at most [w] away from the present one; so
    a code computed at most [30 w] seconds ago or ahead is accepted, and a secret that is not
    base32 accepts nothing. *)
Theorem totp_window_exact `{UnicodeCase} secret code now w :
  0 <= w <= 300000000 -> modern (now - w * defaultTOTPPeriod) -> modern (now + w * defaultTOTPPeriod) ->
  (ValidateTOTP secret code now w = true <->
   TrimSpace code <> "" /\
   exists t, modern t /\ - w <= step t - step now <= w /\ TOTPCode secret t = TrimSpace code) /\
  (forall t key, modern t -> Z.abs (t - now) <= w * defaultTOTPPeriod ->
     DecodeString (ToUpper (TrimSpace secret)) = Some key ->
     ValidateTOTP secret (TOTPCode secret t) now w = true) /\
  (DecodeString (ToUpper (TrimSpace secret)) = None -> ValidateTOTP secret code now w = false).
Proof.
  intros Hw Hlo Hhi.
  assert (forall c, ValidateTOTP secret c now w = true <-> TrimSpace c <> "" /\
    exists t, modern t /\ - w <= step t - step now <= w /\ TOTPCode secret t = TrimSpace c) as Hiff.
  { intros c. unfold ValidateTOTP, Add. zdec. destruct (String.eqb_spec (TrimSpace c) "") as [?|Hne]; [naive_solver|].
    assert (forall k, - w <= k <= w -> modern (now + k * defaultTOTPPeriod)) as Hm.
    { unfold modern, defaultTOTPPeriod, Second in *. intros. lia. }
    assert (forall k, - w <= k <= w -> wrap64 (k * defaultTOTPPeriod) = k * defaultTOTPPeriod) as Hk.
    { intros k Hk. apply wrap64_id. unfold defaultTOTPPeriod, Second. int64. }
    rewrite existsb_exists. split.
    - intros (k & [Hk1 Hk2]%list_elem_of_In%elem_of_seqZ & Heq%String.eqb_eq). split; [done|].
      exists (now + k * defaultTOTPPeriod). rewrite Hk in Heq by lia. rewrite step_shift. split_and!; [apply Hm; lia|lia|lia|done].
    - intros [_ (t & Ht & Hs & <-)]. exists (step t - step now). split.
      + apply list_elem_of_In, elem_of_seqZ. lia.
      + apply String.eqb_eq. rewrite Hk by lia. apply code_of_step; [apply Hm; lia|done|]. rewrite step_shift. lia. }
  split_and!; [apply Hiff| |].
  - intros t key Ht Hd Hk. pose proof (TOTPCode_digits secret t key Hk) as [Hl Hs]. apply Hiff.
    rewrite digits_trim by done. split; [by intros E; rewrite E in Hl|]. exists t. split_and!; [done|apply step_close; [lia|done]..|done].
  - intros Hn. apply not_true_is_false. intros [Hne (t & _ & _ & E)]%Hiff. unfold TOTPCode in E. rewrite Hn in E. by apply Hne.
Qed.
Lemma totp_window_exact_witness :
  ValidateTOTP (H:=plain_case) rfc_secret (TOTPCode (H:=plain_case) rfc_secret (time_Unix 75)) (time_Unix 90) 1 = true.
Proof.
  refine (proj1 (proj2 (totp_window_exact (H:=plain_case) rfc_secret "" (time_Unix 90) 1 _ _ _)) (time_Unix 75) _ _ _ _).
  1: lia. 1, 2, 3: split; vm_compute; discriminate.
  - vm_compute. discriminate.
  - vm_compute. reflexivity.
Defined.

(** Numeric codes have the requested length, and two numbers share a code only if they are equal. *)
Lemma numeric_code_length rand_int length n :
  1 <= length <= 1000000 -> rand_int (10 ^ length) = Ok n -> 0 <= n < 10 ^ length ->
  exists s, GenerateNumericCode rand_int length = Ok s /\ slen s = length /\ str_all is_digit s = true.
Proof.
  intros Hl E Hn. unfold GenerateNumericCode. zdec. rewrite E. eexists. split; [done|]. unfold sprintf_0d. zdec.
  split; [|apply zero_pad_digits; lia]. unfold slen. rewrite zero_pad_length by (rewrite ?Z2Nat.id; lia). lia.
Qed.

(** The strength check, letter and digit by existence. *)
Lemma strength_fold `{UnicodeCategory} rs l d :
  foldl (fun acc r => let '(l, d) := acc in
                      let l := if IsLetter r then true else l in
                      let d := if IsDigit r then true else d in (l, d)) (l, d) rs
  = (l || existsb IsLetter rs, d || existsb IsDigit rs).
Proof.
  revert l d. induction rs as [|r rs IH]; intros l d; simpl; [by rewrite !orb_false_r|]. rewrite IH.
  by destruct l, d, (IsLetter r), (IsDigit r).
Qed.
Lemma password_strength_iff `{UnicodeCategory} p :
  ValidatePasswordStrength p = Ok () <->
  8 <= slen p /\ (exists r, r ∈ runes p /\ IsLetter r = true) /\ (exists r, r ∈ runes p /\ IsDigit r = true).
Proof.
  unfold ValidatePasswordStrength. rewrite strength_fold. setoid_rewrite list_elem_of_In.
  rewrite <- !existsb_exists. simpl. destruct (Z.ltb_spec (slen p) 8); [split; [done|lia]|].
  destruct (existsb IsLetter _), (existsb IsDigit _); naive_solver.
Qed.
End CryptoProps.
