(* ===== verification/Webhook.v ===== *)
(** * webhook/webhook.go: signed webhook headers *)
From S2P Require Import Prelude GoStd Sha256.
Import Sha256.
Open Scope go_scope.

Inductive webhookErr := ErrInvalidSecret | ErrInvalidSignature | ErrTimestampSkew.

Definition SignatureVersion : string := "v1".
Definition TimestampPrefix : string := "t=".
Definition SignaturePrefix : string := SignatureVersion +:+ "=".

(** The bytes written to the MAC: [%d.] of the timestamp, then the payload. *)
Definition mac_input (timestamp : Z) (payload : string) : string :=
  FormatInt timestamp +:+ "." +:+ payload.

Definition ComputeSignature (secret : string) (timestamp : Z) (payload : string) : string :=
  hexEncode (Hmac secret (mac_input timestamp payload)).

Definition SignHeader (secret : string) (timestamp : Time) (payload : string) : res webhookErr string :=
  if String.eqb (TrimSpace secret) "" then Err ErrInvalidSecret else
  let unix := Unix timestamp in
  Ok ("t=" +:+ FormatInt unix +:+ ",v1=" +:+ ComputeSignature secret unix payload).

(** One turn of the loop over the comma-separated parts. *)
Definition parse_part (acc : Z * string) (part : string) : res webhookErr (Z * string) :=
  let part := TrimSpace part in
  if HasPrefix part TimestampPrefix then
    match ParseInt (TrimPrefix part TimestampPrefix) with
    | (_, Some _) => Err ErrInvalidSignature
    | (parsed, None) => if parsed <=? 0 then Err ErrInvalidSignature else Ok (parsed, acc.2)
    end
  else if HasPrefix part SignaturePrefix then Ok (acc.1, TrimPrefix part SignaturePrefix)
  else Ok acc.
Fixpoint parse_parts (acc : Z * string) (parts : list string) : res webhookErr (Z * string) :=
  match parts with
  | [] => Ok acc
  | part :: parts' => acc' <-? parse_part acc part; parse_parts acc' parts'
  end.

Definition ParseHeader (header : string) : res webhookErr (Z * string) :=
  r <-? parse_parts (0, "") (Split header ",");
  if (r.1 =? 0) || String.eqb r.2 "" then Err ErrInvalidSignature else
  if negb (hex_ok r.2) then Err ErrInvalidSignature else Ok r.

(** Negation wraps at the smallest duration. *)
Definition absDuration (d : Duration) : Duration := if d <? 0 then wrap64 (- d) else d.

Definition VerifyHeader (secret header payload : string) (now : Time) (tolerance : Duration)
  : res webhookErr unit :=
  if String.eqb (TrimSpace secret) "" then Err ErrInvalidSecret else
  r <-? ParseHeader header;
  let '(timestamp, signature) := r in
  if (0 <? tolerance) && (tolerance <? absDuration (Sub now (time_Unix timestamp)))
  then Err ErrTimestampSkew else
  let expected := ComputeSignature secret timestamp payload in
  if negb (String.eqb expected signature) then Err ErrInvalidSignature else Ok ().

(** ** Facts *)
Module WebhookFacts.

Lemma FormatInt_visible z : 0 <= z -> str_all visible (FormatInt z) = true.
Proof.
  intros Hz. rewrite FormatInt_nonneg by done. eapply str_all_impl; [|by apply strN_digits].
  apply digit_visible.
Qed.
Lemma FormatInt_no z c :
  is_digit c = false -> Ascii.eqb "-" c = false -> ContainsByte (FormatInt z) c = false.
Proof.
  intros Hd Hm. destruct (Z.le_gt_cases 0 z).
  - rewrite FormatInt_nonneg by done. eapply str_all_ContainsByte; [exact Hd|by apply strN_digits].
  - rewrite FormatInt_neg by done. rewrite ContainsByte_app. cbn [ContainsByte]. rewrite Hm. cbn [orb].
    eapply str_all_ContainsByte; [exact Hd|apply strN_digits; lia].
Qed.
Lemma sig_visible s : str_all visible (hexEncode s) = true.
Proof. eapply str_all_impl; [apply lower_hex_visible|apply hexEncode_lower]. Qed.

(** What [SignHeader] prints, [ParseHeader] reads. *)
Lemma parse_printed unix mac :
  0 < unix -> in_int64 unix -> mac <> "" ->
  ParseHeader ("t=" +:+ FormatInt unix +:+ ",v1=" +:+ hexEncode mac) = Ok (unix, hexEncode mac).
Proof.
  intros Hu Hi Hmac. unfold ParseHeader.
  rewrite sapp_assoc. change (",v1=" +:+ hexEncode mac) with (String "," ("v1=" +:+ hexEncode mac)).
  rewrite Split_app by (rewrite ContainsByte_app, FormatInt_no; done).
  rewrite Split_none.
  2: { rewrite ContainsByte_app. simpl.
       by eapply str_all_ContainsByte; [|apply hexEncode_lower]. }
  cbn [parse_parts]. unfold parse_part at 1.
  rewrite TrimSpace_visible by (rewrite str_all_app, FormatInt_visible by lia; done).
  unfold TimestampPrefix. rewrite HasPrefix_app, TrimPrefix_app, ParseInt_FormatInt by done.
  zdec. cbn [res_bind snd]. unfold parse_part.
  rewrite TrimSpace_visible by (rewrite str_all_app, sig_visible; done).
  unfold TimestampPrefix, SignaturePrefix, SignatureVersion.
  replace (HasPrefix ("v1=" +:+ hexEncode mac) "t=") with false by reflexivity.
  change ("v1" +:+ "=") with "v1=". rewrite HasPrefix_app, TrimPrefix_app. cbn [res_bind fst snd].
  zdec.
  destruct (String.eqb_spec (hexEncode mac) ""); [by destruct mac|]. simpl.
  by rewrite hexEncode_ok.
Qed.

Lemma parse_parts_nonneg parts acc r : 0 <= acc.1 -> parse_parts acc parts = Ok r -> 0 <= r.1.
Proof.
  revert acc. induction parts as [|part parts IH]; intros acc Ha; simpl; [by intros [= <-]|].
  destruct (parse_part acc part) as [acc'|] eqn:E; [|done]. cbn [res_bind]. apply IH.
  revert E. unfold parse_part. destruct (HasPrefix _ TimestampPrefix).
  - destruct (ParseInt _) as [z [e|]]; [done|]. destruct (Z.leb_spec z 0); [done|].
    intros [= <-]. simpl. lia.
  - destruct (HasPrefix _ _); by intros [= <-].
Qed.
Lemma ParseHeader_pos header ts sig : ParseHeader header = Ok (ts, sig) -> 0 < ts.
Proof.
  unfold ParseHeader. destruct (parse_parts _ _) as [r|] eqn:E; [|done]. cbn [res_bind].
  apply parse_parts_nonneg in E; [|done]. destruct (Z.eqb_spec r.1 0); [done|].
  cbn [orb]. destruct (String.eqb _ _); [done|]. destruct (negb _); [done|].
  intros [= ->]. simpl in *. lia.
Qed.

Lemma Hmac_nonempty k m : Hmac k m <> "".
Proof. intros E. pose proof (Hmac_length k m) as L. by rewrite E in L. Qed.

Lemma mac_input_inj t1 p1 t2 p2 :
  in_int64 t1 -> in_int64 t2 -> mac_input t1 p1 = mac_input t2 p2 -> t1 = t2 /\ p1 = p2.
Proof.
  intros H1 H2 E. unfold mac_input in E.
  pose proof (cut_at_app "." (FormatInt t1) p1 (FormatInt_no t1 "." eq_refl eq_refl)) as C1.
  pose proof (cut_at_app "." (FormatInt t2) p2 (FormatInt_no t2 "." eq_refl eq_refl)) as C2.
  change (String "." p1) with ("." +:+ p1) in C1. change (String "." p2) with ("." +:+ p2) in C2.
  rewrite E, C2 in C1. simplify_eq. split; [|done]. by apply FormatInt_inj.
Qed.
End WebhookFacts.
Import WebhookFacts.

Module WebhookProps.

(** C14. Sign, then verify: a header signed with a usable secret at a positive Unix time verifies
    with the same secret and payload at every time within the tolerance (and at every time
    when no tolerance is asked for). *)
Theorem signed_header_verifies secret ts payload now tolerance :
  TrimSpace secret <> "" -> 0 < Unix ts -> in_int64 (Unix ts) -> in_int64 tolerance ->
  (0 < tolerance -> Z.abs (now - time_Unix (Unix ts)) <= tolerance) ->
  exists header, SignHeader secret ts payload = Ok header /\
                 VerifyHeader secret header payload now tolerance = Ok ().
Proof.
  intros Hs Hu Hi Ht Htol. unfold SignHeader, VerifyHeader.
  destruct (String.eqb_spec (TrimSpace secret) ""); [done|]. eexists. split; [done|].
  unfold ComputeSignature at 1.
  rewrite parse_printed by (done || apply Hmac_nonempty). cbn [res_bind].
  assert ((0 <? tolerance) && (tolerance <? absDuration (Sub now (time_Unix (Unix ts)))) = false) as ->.
  { apply andb_false_iff. destruct (Z.ltb_spec 0 tolerance) as [Hp|]; [right|by left].
    apply Z.ltb_ge. specialize (Htol Hp). unfold absDuration, Sub, clamp64, in_int64 in *.
    destruct (Z.ltb_spec (Z.max minInt64 (Z.min maxInt64 (now - time_Unix (Unix ts)))) 0);
      [rewrite wrap64_id|]; int64. }
  unfold ComputeSignature. by rewrite String.eqb_refl.
Qed.

Lemma signed_header_verifies_witness :
  VerifyHeader "test-secret-key"
    "t=1777000000,v1=b21505adb960e94fba3a7503f869c06a016db6551eaeacde975e0a1554487b81" ""
    (time_Unix 1777000100) (300 * Second) = Ok ().
Proof.
  destruct (signed_header_verifies "test-secret-key" (time_Unix 1777000000) ""
    (time_Unix 1777000100) (300 * Second)) as (h & H1 & H2).
  - by vm_compute.
  - by vm_compute.
  - by vm_compute.
  - by vm_compute.
  - intros _. by vm_compute.
  - vm_compute in H1. injection H1 as <-. exact H2.
Defined.

(** C21. What acceptance means: the secret is usable, and the header names a positive timestamp
    and exactly the MAC of that timestamp and this payload under the secret; with a
    tolerance the clock differs from the timestamp by at most it, unless the difference
    saturates at the smallest duration. *)
Theorem accepted_header_is_authentic secret header payload now tolerance :
  VerifyHeader secret header payload now tolerance = Ok () ->
  TrimSpace secret <> "" /\
  exists ts, 0 < ts /\ ParseHeader header = Ok (ts, ComputeSignature secret ts payload) /\
    (0 < tolerance -> Sub now (time_Unix ts) = minInt64 \/ Z.abs (Sub now (time_Unix ts)) <= tolerance).
Proof.
  unfold VerifyHeader. destruct (String.eqb_spec (TrimSpace secret) ""); [done|].
  destruct (ParseHeader header) as [[ts sig]|] eqn:E; [|done]. cbn [res_bind].
  destruct (_ && _) eqn:Et; [done|].
  destruct (String.eqb_spec (ComputeSignature secret ts payload) sig) as [<-|]; [intros _|done].
  split; [done|]. exists ts. split; [by eapply ParseHeader_pos|]. split; [done|].
  intros Hp. rewrite (proj2 (Z.ltb_lt 0 tolerance) Hp) in Et. simpl in Et.
  apply Z.ltb_ge in Et. revert Et. unfold absDuration.
  assert (in_int64 (Sub now (time_Unix ts))) as Hin
    by (unfold Sub, clamp64, in_int64, minInt64, maxInt64; lia).
  destruct (Z.ltb_spec (Sub now (time_Unix ts)) 0); [|lia].
  destruct (decide (Sub now (time_Unix ts) = minInt64)) as [|Hne]; [by left|]. right.
  rewrite wrap64_id in Et; int64.
Qed.

Lemma accepted_header_is_authentic_witness :
  exists ts, 0 < ts /\
    ParseHeader " v1=b21505adb960e94fba3a7503f869c06a016db6551eaeacde975e0a1554487b81 , t=1777000000"
      = Ok (ts, ComputeSignature "test-secret-key" ts "").
Proof.
  destruct (accepted_header_is_authentic "test-secret-key"
    " v1=b21505adb960e94fba3a7503f869c06a016db6551eaeacde975e0a1554487b81 , t=1777000000" ""
    (time_Unix 1777000100) (300 * Second) ltac:(vm_compute; reflexivity)) as (_ & ts & H1 & H2 & _).
  by exists ts.
Defined.

(** The signature binds timestamp and payload: two signed messages with the same signature
    are the same message, or they exhibit two different inputs with the same HMAC. *)
Theorem signature_binds_message secret t1 p1 t2 p2 :
  in_int64 t1 -> in_int64 t2 ->
  ComputeSignature secret t1 p1 = ComputeSignature secret t2 p2 ->
  (t1 = t2 /\ p1 = p2) \/
  (mac_input t1 p1 <> mac_input t2 p2 /\
   Hmac secret (mac_input t1 p1) = Hmac secret (mac_input t2 p2)).
Proof.
  intros H1 H2 E%hexEncode_inj. destruct (decide (mac_input t1 p1 = mac_input t2 p2)) as [Em|Hne].
  - left. by apply mac_input_inj.
  - by right.
Qed.

Lemma signature_binds_message_witness :
  (1777000000 = 1777000000 /\ "x" = "x") \/
  (mac_input 1777000000 "x" <> mac_input 1777000000 "x" /\
   Hmac "k" (mac_input 1777000000 "x") = Hmac "k" (mac_input 1777000000 "x")).
Proof.
  apply (signature_binds_message "k" 1777000000 "x" 1777000000 "x");
    [vm_compute; done | vm_compute; done | reflexivity].
Defined.

(** A timestamp more than about 292 years ahead saturates the difference, whose negation
    wraps to a negative number: the tolerance does not reject it. *)
Lemma far_future_passes_tolerance :
  match SignHeader "k" (time_Unix 20000000000) "x" with
  | Ok h => VerifyHeader "k" h "x" (time_Unix 1777000000) (300 * Second) = Ok ()
  | Err _ => False
  end.
Proof. vm_compute. reflexivity. Qed.
End WebhookProps.
