(* ===== verification/SqlSpec.v ===== *)
(** * Database tables behind GORM, as an interface

    The repositories reach MySQL through GORM.  [Table] lists the statements they issue on
    one table and [TableLaws] what the statements do to its rows: INSERT refuses a second
    row with the same unique key, SELECT, UPDATE and DELETE act on the rows their condition
    selects.  Text columns are compared byte by byte.  [MemTable] satisfies the laws. *)
From S2P Require Import Prelude GoStd.

(** A mapped struct: its unique index, and the key an INSERT assigns (if it has one). *)
Class Entity (Row : Type) := {
  ukey : Type;
  ukey_eq : EqDecision ukey;
  uk : Row -> ukey;
  auto_id : Row -> option Z;
  set_id : Z -> Row -> Row }.
#[export] Existing Instance ukey_eq.

(** The laws of the mapping, proved for each struct. *)
Class EntityLaws (Row : Type) `{Entity Row} := {
  uk_set_id : forall id r, uk (set_id id r) = uk r;
  auto_set_id : forall id r, auto_id (set_id id r) = Some id \/ auto_id (set_id id r) = None }.

Class Table (Row : Type) := {
  tbl : Type;
  t_insert : Row -> tbl -> res string Row * tbl;
  t_select : (Row -> bool) -> tbl -> list Row;
  t_update : (Row -> bool) -> (Row -> Row) -> tbl -> tbl;
  t_delete : (Row -> bool) -> Z -> tbl -> Z * tbl }.

(** Distinct unique keys and distinct assigned ids, which are positive. *)
Definition distinct_rows {Row} `{Entity Row} (l : list Row) : Prop :=
  NoDup (uk <$> l) /\ NoDup (omap auto_id l) /\ Forall (fun i => 0 < i) (omap auto_id l).

Class TableLaws (Row : Type) `{UnicodeCase} `{Entity Row} (T : Table Row) := {
  rows : tbl -> list Row;
  twf : tbl -> Prop;
  twf_distinct : forall t, twf t -> distinct_rows (rows t);
  insert_new : forall r t, twf t -> uk r ∉ uk <$> rows t ->
    exists id t', t_insert r t = (Ok (set_id id r), t') /\ twf t' /\
      0 < id /\ (id ∉ omap auto_id (rows t)) /\ rows t' ≡ₚ (set_id id r :: rows t);
  (* MySQL error 1062 *)
  insert_dup : forall r t, twf t -> uk r ∈ uk <$> rows t ->
    exists e t', t_insert r t = (Err e, t') /\ twf t' /\
      Contains (ToLower e) "1062" = true /\ rows t' ≡ₚ rows t;
  select_rows : forall p t, twf t -> t_select p t ≡ₚ List.filter p (rows t);
  update_rows : forall p f t, twf t ->
    (forall r, uk (f r) = uk r /\ auto_id (f r) = auto_id r) ->
    twf (t_update p f t) /\ rows (t_update p f t) ≡ₚ ((fun r => if p r then f r else r) <$> rows t);
  delete_rows : forall p n t, twf t -> 0 <= n ->
    exists gone kept t', t_delete p n t = (Z.of_nat (length gone), t') /\ twf t' /\
      rows t ≡ₚ gone ++ kept /\ rows t' ≡ₚ kept /\ Forall (fun r => p r = true) gone /\
      Z.of_nat (length gone) <= n /\
      (Z.of_nat (length gone) < n -> Forall (fun r => p r = false) kept) }.

(** ** Facts about distinct rows *)
Section rows_facts.
Context {Row : Type} `{EntityLaws Row}.

Lemma distinct_uk (l : list Row) a b :
  distinct_rows l -> a ∈ l -> b ∈ l -> uk a = uk b -> a = b.
Proof.
  intros [Hn _]. induction l as [|x l IH]; [by intros Ha%elem_of_nil|].
  rewrite fmap_cons, NoDup_cons in Hn. destruct Hn as [Hx Hn].
  rewrite !elem_of_cons. intros [->|Ha] [->|Hb] E; [done|..].
  - destruct Hx. rewrite E. by apply list_elem_of_fmap_2.
  - destruct Hx. rewrite <- E. by apply list_elem_of_fmap_2.
  - by apply IH; [apply Hn|..].
Qed.

Lemma uk_in (l : list Row) k : k ∈ uk <$> l <-> exists r, r ∈ l /\ uk r = k.
Proof. rewrite list_elem_of_fmap. naive_solver. Qed.
End rows_facts.

(** ** A table that satisfies the laws *)
Module MemTable.
Section mem.
Context {Row : Type} `{UnicodeCase} `{EntityLaws Row}.

Record mtbl := mkMtbl { mrows : list Row; next : Z }.

Definition dup_error : string := "Error 1062 (23000): Duplicate entry".
Fixpoint delete_first (p : Row -> bool) (n : nat) (l : list Row) : list Row * list Row :=
  match l, n with
  | r :: l', S n' =>
      if p r then let '(g, k) := delete_first p n' l' in (r :: g, k)
      else let '(g, k) := delete_first p n l' in (g, r :: k)
  | _, _ => ([], l)
  end.

#[export] Instance mem_table : Table Row := {|
  tbl := mtbl;
  t_insert r t :=
    if decide (uk r ∈ uk <$> mrows t) then (Err dup_error, t)
    else (Ok (set_id (next t) r), mkMtbl (set_id (next t) r :: mrows t) (next t + 1));
  t_select p t := List.filter p (mrows t);
  t_update p f t := mkMtbl ((fun r => if p r then f r else r) <$> mrows t) (next t);
  t_delete p n t :=
    let '(g, k) := delete_first p (Z.to_nat n) (mrows t) in (Z.of_nat (length g), mkMtbl k (next t)) |}.

Definition mwf (t : mtbl) : Prop :=
  distinct_rows (mrows t) /\ 0 < next t /\ Forall (fun i => i < next t) (omap auto_id (mrows t)).

Lemma update_keeps (p : Row -> bool) (f : Row -> Row) (l : list Row) :
  (forall r, uk (f r) = uk r /\ auto_id (f r) = auto_id r) ->
  uk <$> ((fun r => if p r then f r else r) <$> l) = uk <$> l /\
  omap auto_id ((fun r => if p r then f r else r) <$> l) = omap auto_id l.
Proof.
  intros Hf. induction l as [|r l [I1 I2]]; [done|]. csimpl. rewrite I1, I2.
  destruct (p r); [|done]. destruct (Hf r) as [-> ->]. done.
Qed.

Lemma delete_first_spec p n (l : list Row) :
  let '(g, k) := delete_first p n l in
  l ≡ₚ g ++ k /\ k `sublist_of` l /\ Forall (fun r => p r = true) g /\ (length g <= n)%nat /\
  ((length g < n)%nat -> Forall (fun r => p r = false) k).
Proof.
  revert n. induction l as [|r l IH]; intros [|n].
  - simpl. split_and!; try done; lia.
  - simpl. split_and!; try done; lia.
  - simpl. split_and!; try done; lia.
  - simpl. destruct (p r) eqn:E.
    + specialize (IH n). destruct (delete_first p n l) as [g k].
      destruct IH as (I1 & I2 & I3 & I4 & I5). simpl. split_and!.
      * by rewrite I1.
      * by constructor.
      * by constructor.
      * lia.
      * intros Hl. apply I5. lia.
    + specialize (IH (S n)). destruct (delete_first p (S n) l) as [g k].
      destruct IH as (I1 & I2 & I3 & I4 & I5). split_and!.
      * by rewrite I1, Permutation_middle.
      * by constructor.
      * done.
      * done.
      * intros Hl. constructor; [done|]. by apply I5.
Qed.

Lemma distinct_app_r (g k : list Row) : distinct_rows (g ++ k) -> distinct_rows k.
Proof.
  unfold distinct_rows. rewrite fmap_app, omap_app, Forall_app.
  intros ([_ [_ ?]]%NoDup_app & [_ [_ ?]]%NoDup_app & [_ ?]). done.
Qed.
Lemma distinct_perm (l l' : list Row) : l ≡ₚ l' -> distinct_rows l -> distinct_rows l'.
Proof. intros Hp. unfold distinct_rows. by rewrite Hp. Qed.

#[export] Instance mem_table_laws : TableLaws Row mem_table.
Proof.
  refine {| rows := mrows; twf := mwf |}; simpl.
  - by intros t [? _].
  - intros r t ((W1 & W2 & W3) & W4 & W5) Hk. rewrite decide_False by done.
    exists (next t). eexists. split; [done|].
    assert (next t ∉ omap auto_id (mrows t)) as Hfresh.
    { intros Hin. rewrite Forall_forall in W5. specialize (W5 _ Hin). lia. }
    split_and!; try done. split; [|split; [simpl; lia|]].
    + unfold distinct_rows. csimpl. rewrite uk_set_id.
      destruct (auto_set_id (next t) r) as [->| ->]; split_and!; try done; by constructor.
    + csimpl. assert (Forall (fun i => i < next t + 1) (omap auto_id (mrows t))).
      { eapply Forall_impl; [exact W5|]. simpl. lia. }
      destruct (auto_set_id (next t) r) as [->| ->]; [constructor; [lia|]|]; done.
  - intros r t W Hk. rewrite decide_True by done. eexists _, t. split_and!; try done.
  - done.
  - intros p f t ((W1 & W2 & W3) & W4 & W5) Hf. split; [|done].
    destruct (update_keeps p f (mrows t) Hf) as [U1 U2].
    unfold mwf, distinct_rows. simpl. by rewrite U1, U2.
  - intros p n t (W1 & W4 & W5) Hn. pose proof (delete_first_spec p (Z.to_nat n) (mrows t)) as Hd.
    destruct (delete_first p (Z.to_nat n) (mrows t)) as [g k].
    destruct Hd as (D1 & D2 & D3 & D4 & D5). exists g, k, (mkMtbl k (next t)).
    split_and!; try done; [|lia|intros; apply D5; lia].
    split; [|split; [done|]].
    + apply (distinct_app_r g). by apply (distinct_perm (mrows t)).
    + simpl. rewrite D1, omap_app, Forall_app in W5. apply W5.
Defined.
End mem.
Definition empty_tbl {Row} : mtbl (Row := Row) := mkMtbl [] 1.
Lemma empty_mwf {Row} `{Entity Row} : mwf (empty_tbl (Row := Row)).
Proof. repeat split; try constructor. Qed.
End MemTable.
