(* ===== verification/Tenant.v ===== *)
(** * tenant/: tenant ids in contexts and the GORM callbacks that scope statements

    [Tenant] is tenant/tenant.go on the interface of [Gin] and tenant/gorm.go on that of [SqlSpec].
    A GORM statement carries its context, the conditions chained so far, each by Where or by Or,
    and its error; a callback runs before GORM's own, which does nothing once the statement has an
    error.  Which rows a chain of conditions selects is GORM's affair: the class [Where], with what
    its documentation says as [WhereLaws]. *)
From S2P Require Import Prelude GoStd Gin Obs Web SqlSpec.
Open Scope go_scope.

Module Tenant.

(** ** tenant.go *)
Record Tenant := mkTenant { ID : string; Code : string; Name : string }.
Definition InjectToContext (ctx : context) (tenantID : string) : context := WithValue ctx TenantKey (VStr tenantID).
Definition FromContext (ctx : context) : string := match Value ctx TenantKey with VStr v => v | _ => "" end.
Definition FromGinContext `{Gin} (c : gctx) (key : string) : string := GetString key c.
Definition Middleware `{Gin} (ginContextKey : string) (next : gctx -> gctx) (c : gctx) : gctx :=
  let tenantID := GetString ginContextKey c in
  if String.eqb tenantID "" then g_abort (Resp.Error c 400 Resp.CodeBadRequest "missing tenant context")
  else next (g_with_context (InjectToContext (Request_Context c) tenantID) c).

(** ** gorm.go *)
Inductive dbErr := ErrMissingTenantID | ErrDB (e : string).

(** The tenant column of a mapped struct. *)
Class TenantColumn (Row : Type) := { column : Row -> string; set_column : string -> Row -> Row }.

(** A condition and how it was chained: [db.Where(p)] or [db.Or(p)]. *)
Inductive cond (Row : Type) := And_ (p : Row -> bool) | Or_ (p : Row -> bool).
Arguments And_ {Row}.
Arguments Or_ {Row}.
Definition pred {Row} (c : cond Row) : Row -> bool := match c with And_ p | Or_ p => p end.
Definition is_and {Row} (c : cond Row) : Prop := match c with And_ _ => True | Or_ _ => False end.

(** The rows that the WHERE clause built from a chain selects. *)
Class Where (Row : Type) := { where_ : list (cond Row) -> Row -> bool }.
(** Conditions chained by Where are joined by AND.  Or writes its condition, and what is chained
    after it, as an alternative to what stands before it: Where(a).Or(b).Where(c) is the text
    [a OR b AND c]. *)
Class WhereLaws (Row : Type) `{Where Row} := {
  where_and : forall cs r, Forall is_and cs -> where_ cs r = forallb (fun c => pred c r) cs;
  where_or : forall c cs p cs' r, is_and c -> Forall is_and cs -> Forall is_and cs' ->
    where_ (c :: cs ++ Or_ p :: cs') r = where_ (c :: cs) r || where_ (And_ p :: cs') r }.

Section callbacks.
Context {Row : Type} `{Entity Row} `{TenantColumn Row} `{Where Row} {T : Table Row}.

Record statement := mkStatement { s_context : option context; s_where : list (cond Row); s_error : option dbErr }.

(** The callback of queries, updates and deletes. *)
Definition callback (db : statement) : statement :=
  match s_context db with
  | None => db
  | Some ctx =>
      let tenantID := FromContext ctx in
      if String.eqb tenantID "" then mkStatement (s_context db) (s_where db) (Some ErrMissingTenantID)
      else mkStatement (s_context db) (s_where db ++ [And_ (fun r => String.eqb (column r) tenantID)]) (s_error db)
  end.
(** The callback of creates also sees the row. *)
Definition create_callback (db : statement) (r : Row) : statement * Row :=
  match s_context db with
  | None => (db, r)
  | Some ctx =>
      let tenantID := FromContext ctx in
      if String.eqb tenantID "" then (mkStatement (s_context db) (s_where db) (Some ErrMissingTenantID), r)
      else (db, set_column tenantID r)
  end.

(** GORM's four processors with the callbacks registered before them.  [Create] is a plain INSERT, without
    an ON CONFLICT clause. *)
Definition Create (db : statement) (r : Row) (t : tbl) : res dbErr Row * tbl :=
  let '(db, r) := create_callback db r in
  match s_error db with
  | Some e => (Err e, t)
  | None => match t_insert r t with (Ok r', t') => (Ok r', t') | (Err e, t') => (Err (ErrDB e), t') end
  end.
Definition Query (db : statement) (t : tbl) : res dbErr (list Row) :=
  let db := callback db in
  match s_error db with
  | Some e => Err e
  | None => Ok (t_select (where_ (s_where db)) t)
  end.
Definition Update (db : statement) (f : Row -> Row) (t : tbl) : res dbErr unit * tbl :=
  let db := callback db in
  match s_error db with
  | Some e => (Err e, t)
  | None => (Ok (), t_update (where_ (s_where db)) f t)
  end.
Definition Delete (db : statement) (n : Z) (t : tbl) : res dbErr Z * tbl :=
  let db := callback db in
  match s_error db with
  | Some e => (Err e, t)
  | None => let '(k, t') := t_delete (where_ (s_where db)) n t in (Ok k, t')
  end.

(** A statement begun with a context and conditions. *)
Definition session (ctx : context) (ps : list (cond Row)) : statement := mkStatement (Some ctx) ps None.

Inductive sop :=
| OCreate (r : Row)
| OQuery (ps : list (cond Row))
| OUpdate (ps : list (cond Row)) (f : Row -> Row)
| ODelete (ps : list (cond Row)) (n : Z).
Definition sexec (ctx : context) (o : sop) (t : tbl) : tbl :=
  match o with
  | OCreate r => (Create (session ctx []) r t).2
  | OQuery _ => t
  | OUpdate ps f => (Update (session ctx ps) f t).2
  | ODelete ps n => (Delete (session ctx ps) n t).2
  end.
Definition srun (ctx : context) (os : list sop) (t : tbl) : tbl := foldl (fun t o => sexec ctx o t) t os.
End callbacks.
End Tenant.

Module TenantFacts.
Import Tenant.

Class TenantColumnLaws (Row : Type) `{TenantColumn Row} `{Entity Row} := {
  column_set : forall s r, column (set_column s r) = s;
  column_set_id : forall i r, column (set_id i r) = column r }.

Section facts.
Context {Row : Type} `{UnicodeCase} `{EntityLaws Row} `{!TenantColumn Row} `{!TenantColumnLaws Row} `{!Where Row} `{!WhereLaws Row} {T : Table Row} `{!TableLaws Row T}.

(** The rows of one tenant. *)
Definition rows_of (b : string) (t : tbl) : list Row := List.filter (fun r => String.eqb (column r) b) (rows t).

Lemma lfilter_perm (p : Row -> bool) l l' : l ≡ₚ l' -> List.filter p l ≡ₚ List.filter p l'.
Proof. induction 1; simpl; repeat case_match; try done; [by constructor|by constructor|by etrans]. Qed.
Lemma lfilter_none (p : Row -> bool) l : (forall r, r ∈ l -> p r = false) -> List.filter p l = [].
Proof.
  induction l as [|r l IH]; intros Hp; [done|]. simpl. rewrite Hp by set_solver. apply IH. set_solver.
Qed.
Lemma lfilter_filter (p q : Row -> bool) l :
  List.filter p (List.filter q l) = List.filter (fun r => p r && q r) l.
Proof.
  induction l as [|r l IH]; [done|]. simpl. destruct (q r); simpl; rewrite ?andb_true_r, ?andb_false_r; [|done].
  destruct (p r); by rewrite IH.
Qed.
Lemma where_snoc ps (p : Row -> bool) r : Forall is_and ps -> where_ (ps ++ [And_ p]) r = where_ ps r && p r.
Proof.
  intros Hps. rewrite !where_and by (try apply Forall_app; by repeat constructor).
  rewrite forallb_app. simpl. by rewrite andb_true_r.
Qed.

(** The conditions of a scoped statement. *)
Definition scoped (a : string) (ps : list (cond Row)) (r : Row) : bool := where_ ps r && String.eqb (column r) a.
Lemma callback_scopes ctx a ps :
  FromContext ctx = a -> a <> "" -> Forall is_and ps ->
  s_error (callback (session ctx ps)) = None /\ forall r, where_ (s_where (callback (session ctx ps))) r = scoped a ps r.
Proof.
  intros Ha Hne Hps. unfold callback, session. cbn [s_context s_where s_error]. rewrite Ha.
  destruct (String.eqb_spec a ""); [done|]. split; [done|]. intros r. by apply where_snoc.
Qed.
Lemma callback_missing ctx ps :
  FromContext ctx = "" -> s_error (callback (Row := Row) (session ctx ps)) = Some ErrMissingTenantID.
Proof. intros Ha. unfold callback, session. cbn [s_context]. by rewrite Ha. Qed.

(** An update that does not assign the unique key, the id or the tenant column. *)
Definition tame (f : Row -> Row) : Prop := forall r, uk (f r) = uk r /\ auto_id (f r) = auto_id r /\ column (f r) = column r.
(** A statement whose conditions are chained by Where only, whose update is tame and whose limit, if it
    deletes, is not negative. *)
Definition tame_op (o : sop (Row := Row)) : Prop :=
  match o with
  | OCreate _ => True
  | OQuery ps => Forall is_and ps
  | OUpdate ps f => Forall is_and ps /\ tame f
  | ODelete ps n => Forall is_and ps /\ 0 <= n
  end.

Lemma update_other a b ps f l :
  a <> b -> tame f ->
  List.filter (fun r => String.eqb (column r) b) ((fun r => if scoped a ps r then f r else r) <$> l) =
  List.filter (fun r => String.eqb (column r) b) l.
Proof.
  intros Hab Hf. induction l as [|r l IH]; [done|]. rewrite fmap_cons. cbn [List.filter]. rewrite IH.
  destruct (scoped a ps r) eqn:Hs; [|done]. apply andb_prop in Hs as [_ Ha%String.eqb_eq].
  destruct (Hf r) as (_ & _ & ->). rewrite Ha. by destruct (String.eqb_spec a b).
Qed.

(** One operation of tenant [a] keeps the table well formed and the rows of others. *)
Lemma sexec_others ctx a b o t :
  FromContext ctx = a -> a <> "" -> a <> b -> tame_op o -> twf t ->
  twf (sexec ctx o t) /\ rows_of b (sexec ctx o t) ≡ₚ rows_of b t.
Proof.
  intros Ha Hne Hab Ho Hw. destruct o as [r|ps|ps f|ps n]; simpl.
  - unfold Create, create_callback, session. cbn [s_context s_error]. rewrite Ha.
    destruct (String.eqb_spec a ""); [done|]. cbn [s_error].
    destruct (decide (uk (set_column a r) ∈ uk <$> rows t)) as [Hd|Hd].
    + destruct (insert_dup _ t Hw Hd) as (e & t' & -> & Hw' & _ & Hp). split; [done|]. by apply lfilter_perm.
    + destruct (insert_new _ t Hw Hd) as (id & t' & -> & Hw' & _ & _ & Hp). split; [done|].
      unfold rows_of. cbn [snd]. rewrite (lfilter_perm _ _ _ Hp). simpl. rewrite column_set_id, column_set.
      by destruct (String.eqb_spec a b).
  - done.
  - destruct Ho as [Hps Ho]. destruct (callback_scopes ctx a ps Ha Hne Hps) as [E Hs]. unfold Update. rewrite E. cbn [snd].
    destruct (update_rows (where_ (s_where (callback (session ctx ps)))) f t Hw) as [Hw' Hp].
    { intros r. destruct (Ho r) as (? & ? & _). done. }
    split; [done|]. unfold rows_of. rewrite (lfilter_perm _ _ _ Hp), <- (update_other a b ps f (rows t) Hab Ho).
    f_equiv. apply list_fmap_ext. intros _ r _. by rewrite Hs.
  - destruct Ho as [Hps Ho]. destruct (callback_scopes ctx a ps Ha Hne Hps) as [E Hs]. unfold Delete. rewrite E.
    destruct (delete_rows (where_ (s_where (callback (session ctx ps)))) n t Hw Ho)
      as (gone & kept & t' & -> & Hw' & Hr & Hk & Hg & _). split; [done|]. cbn [snd]. unfold rows_of.
    rewrite (lfilter_perm _ _ _ Hk), (lfilter_perm _ _ _ Hr), List.filter_app, (lfilter_none _ gone); [done|].
    intros r Hin. rewrite Forall_forall in Hg. specialize (Hg r Hin). rewrite Hs in Hg.
    apply andb_prop in Hg as [_ ->%String.eqb_eq]. by apply String.eqb_neq.
Qed.
Lemma srun_others ctx a b os t :
  FromContext ctx = a -> a <> "" -> a <> b -> Forall tame_op os -> twf t ->
  twf (srun ctx os t) /\ rows_of b (srun ctx os t) ≡ₚ rows_of b t.
Proof.
  intros Ha Hne Hab. unfold srun. revert t. induction os as [|o os IH]; intros t Hos Hw; [done|].
  apply Forall_cons in Hos as [Ho Hos]. simpl. destruct (sexec_others ctx a b o t Ha Hne Hab Ho Hw) as [Hw1 Hp1].
  destruct (IH _ Hos Hw1) as [Hw2 Hp2]. split; [done|]. by rewrite Hp2.
Qed.

(** What a query of tenant [a] sees. *)
Lemma query_scoped ctx a ps t :
  FromContext ctx = a -> a <> "" -> Forall is_and ps -> twf t ->
  exists l, Query (session ctx ps) t = Ok l /\ l ≡ₚ List.filter (where_ ps) (rows_of a t).
Proof.
  intros Ha Hne Hps Hw. destruct (callback_scopes ctx a ps Ha Hne Hps) as [E Hs]. unfold Query. rewrite E. eexists. split; [done|].
  rewrite select_rows by done. unfold rows_of. rewrite lfilter_filter. by rewrite (List.filter_ext _ _ Hs).
Qed.
End facts.
End TenantFacts.

(** The clause as text, read by SQL: AND binds tighter than OR. *)
Module SqlWhere.
Import Tenant.
Fixpoint reads {Row} (group : bool) (cs : list (cond Row)) (r : Row) : bool :=
  match cs with
  | [] => group
  | And_ p :: cs' => reads (group && p r) cs' r
  | Or_ p :: cs' => group || reads (p r) cs' r
  end.
#[export] Instance sql_where {Row} : Where Row := {| where_ := reads true |}.
Lemma reads_and {Row} (b : bool) (cs : list (cond Row)) r :
  Forall is_and cs -> reads b cs r = b && forallb (fun c => pred c r) cs.
Proof.
  revert b. induction cs as [|[p|p] cs IH]; intros b Hc; simpl; [by rewrite andb_true_r| |by inversion Hc].
  inversion Hc; subst. by rewrite IH, andb_assoc.
Qed.
Lemma reads_or {Row} (b : bool) (cs : list (cond Row)) p cs' r :
  Forall is_and cs -> reads b (cs ++ Or_ p :: cs') r = reads b cs r || reads true (And_ p :: cs') r.
Proof.
  revert b. induction cs as [|[q|q] cs IH]; intros b Hc; simpl; [done| |by inversion Hc].
  inversion Hc; subst. by apply IH.
Qed.
#[export] Instance sql_where_laws {Row} : WhereLaws Row.
Proof.
  split; simpl; [intros; by rewrite reads_and|]. intros c cs p cs' r Hc Hcs Hcs'.
  apply (reads_or true (c :: cs)). by constructor.
Qed.
End SqlWhere.

Module TenantProps.
Import Tenant TenantFacts.
Section props.
Context {Row : Type} `{UnicodeCase} `{EntityLaws Row} `{!TenantColumn Row} `{!TenantColumnLaws Row} `{!Where Row} `{!WhereLaws Row} {T : Table Row} `{!TableLaws Row T}.

(** C18. Tenant isolation: with the callbacks registered, whatever plain inserts, queries, updates and deletes
    run with the context of tenant [a], the rows of every other tenant stay exactly as they were; a
    query returns exactly the rows of [a] that meet its own conditions, so it cannot depend on other
    tenants' data; and without a tenant in the context every statement fails and changes nothing.
    Conditions: the statements chain their conditions by Where and not by Or
    ([or_escapes_tenant] shows that Or defeats the filter), inserts have no ON CONFLICT clause, and
    updates do not assign the unique key, the id or the tenant column. *)
Theorem tenant_isolation ctx os t :
  twf t -> Forall tame_op os ->
  let a := FromContext ctx in
  (a <> "" ->
     (forall b, b <> a -> rows_of b (srun ctx os t) ≡ₚ rows_of b t) /\
     (forall ps, Forall is_and ps -> exists l, Query (session ctx ps) (srun ctx os t) = Ok l /\
                           l ≡ₚ List.filter (where_ ps) (rows_of a (srun ctx os t))) /\
     (forall t' ps, Forall is_and ps -> twf t' -> rows_of a t' ≡ₚ rows_of a t ->
        exists l l', Query (session ctx ps) t = Ok l /\ Query (session ctx ps) t' = Ok l' /\ l ≡ₚ l')) /\
  (a = "" -> srun ctx os t = t /\ forall ps r, Query (session ctx ps) t = Err ErrMissingTenantID /\
                                             (Create (session ctx ps) r t).1 = Err ErrMissingTenantID).
Proof.
  intros Hw Hos a. split.
  - intros Hne. split_and!.
    + intros b Hb. by apply (srun_others ctx a b os t).
    + intros ps Hps. apply query_scoped; [done|done|done|].
      destruct (srun_others ctx a (a +:+ "x") os t) as [? _]; try done.
      intros E. apply (f_equal String.length) in E. rewrite slen_app in E. simpl in E. lia.
    + intros t' ps Hps Hw' Hp. destruct (query_scoped ctx a ps t) as (l & E & Hl); [done..|].
      destruct (query_scoped ctx a ps t') as (l' & E' & Hl'); [done..|]. exists l, l'. split_and!; [done..|].
      rewrite Hl, Hl'. by apply lfilter_perm.
  - intros Ha. change (FromContext ctx = "") in Ha. split.
    + unfold srun. clear Hos. induction os as [|o os IH]; [done|]. simpl.
      assert (sexec ctx o t = t) as ->; [|done]. destruct o as [r|ps|ps f|ps n]; simpl.
      * unfold Create, create_callback, session. cbn [s_context]. by rewrite Ha.
      * done.
      * unfold Update. by rewrite callback_missing.
      * unfold Delete. by rewrite callback_missing.
    + intros ps r. unfold Query, Create, create_callback. rewrite callback_missing by done.
      unfold session. cbn [s_context]. by rewrite Ha.
Qed.

(** Or defeats the filter: a query Where(p).Or(q) of any tenant returns the rows that meet [p] of every
    tenant, because the callback's condition joins the second alternative only. *)
Lemma or_escapes_tenant ctx p q t r :
  FromContext ctx <> "" -> twf t -> r ∈ rows t -> p r = true ->
  exists l, Query (session ctx [And_ p; Or_ q]) t = Ok l /\ r ∈ l.
Proof.
  intros Hne Hw Hr Hp. unfold Query, callback, session. cbn [s_context s_where s_error].
  destruct (String.eqb_spec (FromContext ctx) ""); [done|]. cbn [s_error s_where]. eexists. split; [done|].
  rewrite select_rows by done. apply list_elem_of_In, filter_In. split; [by apply list_elem_of_In|].
  pose proof (where_or (And_ p) [] q [And_ (fun r => String.eqb (column r) (FromContext ctx))] r) as E. simpl in E.
  cbn [app]. rewrite E by (by repeat constructor). rewrite where_and by (by repeat constructor). simpl. by rewrite Hp.
Qed.
End props.

Import SqlWhere.

(** The middleware in front: handlers run only with a tenant, and their statements are scoped to it. *)
Lemma middleware_scopes `{GinLaws} key next c :
  v_bodies (g_view c) = [] ->
  if String.eqb (GetString key c) "" then
    v_aborted (g_view (Middleware key next c)) = true /\ v_status (g_view (Middleware key next c)) = 400
  else exists c1, Middleware key next c = next c1 /\ FromContext (Request_Context c1) = GetString key c.
Proof.
  intros Hb. unfold Middleware. destruct (String.eqb_spec (GetString key c) "").
  - rewrite abort_view. cbn. by destruct (WebFacts.error_view c 400 Resp.CodeBadRequest "missing tenant context" Hb) as (-> & _).
  - eexists. split; [done|]. unfold Request_Context, FromContext. rewrite with_context_view. cbn [v_context]. unfold InjectToContext. by rewrite Value_eq.
Qed.

(** A table of notes. *)
Record note := mkNote { n_id : Z; n_tenant : string; n_text : string }.
#[export] Instance note_entity : Entity note := {|
  ukey := string * string; ukey_eq := _; uk n := (n_tenant n, n_text n); auto_id n := Some (n_id n);
  set_id i n := mkNote i (n_tenant n) (n_text n) |}.
#[export] Instance note_laws : EntityLaws note.
Proof. split; [done|]. intros. by left. Qed.
#[export] Instance note_column : TenantColumn note := {| column := n_tenant; set_column s n := mkNote (n_id n) s (n_text n) |}.
#[export] Instance note_column_laws : TenantColumnLaws note.
Proof. by split. Qed.
#[local] Existing Instance plain_case.
Import MemTable.
Definition notes : tbl (Table := mem_table (Row := note)) := mkMtbl [mkNote 1 "acme" "x"; mkNote 2 "corp" "y"] 3.
Lemma notes_wf : mwf notes.
Proof. split; [|split; [done|repeat constructor]]. split_and!; [|apply (bool_decide_unpack _); vm_compute; exact I|repeat constructor].
  apply (bool_decide_unpack _). vm_compute. exact I. Qed.
Lemma tenant_isolation_witness :
  rows_of "corp" (srun (InjectToContext Background "acme") [OCreate (mkNote 0 "corp" "z"); ODelete [] 10] notes)
  ≡ₚ [mkNote 2 "corp" "y"].
Proof.
  refine (proj1 (proj1 (tenant_isolation (InjectToContext Background "acme")
    [OCreate (mkNote 0 "corp" "z"); ODelete [] 10] notes notes_wf _) _) "corp" _).
  - repeat constructor; simpl; lia.
  - discriminate.
  - discriminate.
Defined.
End TenantProps.
