(* ===== verification/Db.v ===== *)
(** * db/, redis/redis.go, audit/store.go and the checks of healthcheck/: stores and their connections

    [Conn] opens connections and probes them, over what the drivers answer.  [Hooks] are the GORM
    callbacks of db/hooks.go on the statements of [Tenant].  [Audit] is the store behind the audit
    middleware of [Web]. *)
From S2P Require Import Prelude GoStd SqlSpec Gin Web Tenant Service.
Open Scope go_scope.

Module Conn.
(** The drivers.  A [*gorm.DB] gives its [*sql.DB] or an error; both servers answer pings. *)
Class Drivers := {
  gdb : Type; sqldb : Type; rclient : Type;
  gorm_open : string -> res string gdb;
  gorm_DB : gdb -> res string sqldb;
  sql_ping : sqldb -> res string unit;
  redis_client : string -> string -> Z -> rclient;
  redis_ping : rclient -> res string unit }.

Inductive dbErr := ErrConnect (e : string) | ErrNilHandle | ErrSql (e : string).
Record pool := mkPool { MaxIdleConns : Z; MaxOpenConns : Z; ConnMaxLifetime : Duration }.

Section conn.
Context `{Drivers}.
(** The handle, and the settings put on its pool. *)
Definition New (cfg : Config.MySQLConfig) : res dbErr (gdb * sqldb * pool) :=
  match gorm_open (Config.DSN cfg) with
  | Err e => Err (ErrConnect e)
  | Ok db =>
      match gorm_DB db with
      | Err e => Err (ErrSql e)
      | Ok sqlDB => Ok (db, sqlDB, mkPool 10 100 Hour)
      end
  end.
Definition OpenMySQL (dsn : string) : res dbErr (gdb * sqldb * pool) := New (Config.mkMySQL dsn "" 0).
Definition Probe (db : option gdb) : res dbErr unit :=
  match db with
  | None => Err ErrNilHandle
  | Some db =>
      match gorm_DB db with
      | Err e => Err (ErrSql e)
      | Ok sqlDB => match sql_ping sqlDB with Err e => Err (ErrSql e) | Ok _ => Ok () end
      end
  end.

(** redis/redis.go *)
Definition redis_New (cfg : Config.RedisConfig) : res string rclient :=
  let client := redis_client (Config.Addr cfg) (Config.Password cfg) (Config.DB cfg) in
  match redis_ping client with
  | Err e => Err ("redis ping: " +:+ e)
  | Ok _ => Ok client
  end.

(** healthcheck.go *)
Definition DBCheck (db : gdb) : Health.CheckFunc :=
  match gorm_DB db with
  | Err e => Some e
  | Ok sqlDB => match sql_ping sqlDB with Err e => Some e | Ok _ => None end
  end.
Definition RedisCheck (rdb : rclient) : Health.CheckFunc :=
  match redis_ping rdb with Err e => Some e | Ok _ => None end.
End conn.
End Conn.

Module Hooks.
Import Tenant.
(** The time fields of a mapped struct, by name: whether the schema has them, and their values. *)
Class Stamped (Row : Type) := {
  has_field : string -> bool;
  field : string -> Row -> Time;
  set_field : string -> Time -> Row -> Row }.

Section hooks.
Context {Row : Type} `{Stamped Row}.
(** [schema] is whether the statement has one. *)
Definition create_hook (schema : bool) (now : Time) (r : Row) : Row :=
  if negb schema then r else
  let r := if has_field "CreatedAt" && IsZero (field "CreatedAt" r) then set_field "CreatedAt" now r else r in
  if has_field "UpdatedAt" then set_field "UpdatedAt" now r else r.
(** The column is set by the statement that updates, after its other assignments. *)
Definition update_hook (schema : bool) (now : Time) (f : Row -> Row) : Row -> Row :=
  if schema && has_field "UpdatedAt" then fun r => set_field "UpdatedAt" now (f r) else f.

(** A statement with the hooks registered. *)
Definition stamp (schema : bool) (now : Time) (o : sop (Row := Row)) : sop :=
  match o with
  | OCreate r => OCreate (create_hook schema now r)
  | OUpdate ps f => OUpdate ps (update_hook schema now f)
  | _ => o
  end.
Definition stamp_all (os : list (Time * sop (Row := Row))) : list sop := (fun '(now, o) => stamp true now o) <$> os.
End hooks.
End Hooks.

Module Audit.
Import Mw.
(** What GORM's Create does with an entry. *)
Class EntryTable := {
  etbl : Type;
  e_create : Entry -> etbl -> res string Entry * etbl }.
Section store.
Context `{EntryTable}.
(** The entry is stored, or the error returned; each call has a connection of its own. *)
Definition Save (f : fault) (entry : Entry) (db : etbl) : res string unit * etbl :=
  match call f (e_create entry) db with
  | (Err e, db') | (Ok (Err e), db') => (Err e, db')
  | (Ok (Ok _), db') => (Ok (), db')
  end.
Definition SaveInTx (f : fault) (tx : etbl) (entry : Entry) : res string unit * etbl := Save f entry tx.

(** The background saves of many requests, in the order in which they reach the database. *)
Definition saves (es : list (fault * Entry)) (db : etbl) : etbl := foldl (fun db '(f, e) => (Save f e db).2) db es.
End store.
End Audit.

Module DbFacts.
Import Tenant TenantFacts Hooks.

Class StampedLaws (Row : Type) `{Stamped Row} `{Entity Row} `{TenantColumn Row} := {
  field_set_eq : forall k t r, has_field (Row := Row) k = true -> field k (set_field k t r) = t;
  field_set_ne : forall k k' t r, k <> k' -> field k' (set_field k t r) = field k' r;
  uk_set_field : forall k t r, uk (set_field k t r) = uk r;
  auto_set_field : forall k t r, auto_id (set_field k t r) = auto_id r;
  column_set_field : forall k t r, column (set_field k t r) = column r;
  field_set_id : forall k i r, field k (set_id i r) = field k r;
  field_set_column : forall k s r, field k (set_column s r) = field k r }.

Section facts.
Context {Row : Type} `{UnicodeCase} `{EntityLaws Row} `{!TenantColumn Row} `{!TenantColumnLaws Row} `{!Where Row} `{!WhereLaws Row} {T : Table Row} `{!TableLaws Row T}.

(** A property of single rows that an operation's row and update respect holds of all rows after it. *)
Definition respects (P : Row -> Prop) (o : sop (Row := Row)) : Prop :=
  match o with
  | OCreate r => forall a i, P (set_id i (set_column a r))
  | OUpdate _ f => forall r, P r -> P (f r)
  | _ => True
  end.
Lemma sexec_rows (P : Row -> Prop) ctx o t :
  tame_op o -> respects P o -> twf t -> Forall P (rows t) ->
  twf (sexec ctx o t) /\ Forall P (rows (sexec ctx o t)).
Proof.
  intros Ho HP Hw Hr. destruct o as [r|ps|ps f|ps n]; simpl; [|done|..].
  - unfold Create, create_callback, session. cbn [s_context s_error].
    destruct (String.eqb (FromContext ctx) ""); cbn [s_error]; [done|]. set (r' := set_column _ r).
    destruct (decide (uk r' ∈ uk <$> rows t)) as [Hd|Hd].
    + destruct (insert_dup _ t Hw Hd) as (e & t' & -> & Hw' & _ & Hp). split; [done|]. cbn [snd]. by rewrite Hp.
    + destruct (insert_new _ t Hw Hd) as (id & t' & -> & Hw' & _ & _ & Hp). split; [done|]. cbn [snd].
      rewrite Hp. constructor; [apply HP|done].
  - unfold Update. destruct (s_error _); [done|]. cbn [snd].
    match goal with |- context [t_update ?p f t] => destruct (update_rows p f t Hw) as [Hw' Hp] end.
    { intros r. by destruct (proj2 Ho r) as (? & ? & _). }
    split; [done|]. rewrite Hp. apply Forall_fmap. eapply Forall_impl; [exact Hr|]. intros r HPr. simpl. case_match; [by apply HP|done].
  - unfold Delete. destruct (s_error _); [done|].
    match goal with |- context [t_delete ?p n t] => destruct (delete_rows p n t Hw (proj2 Ho)) as (gone & kept & t' & -> & Hw' & Hg & Hk & _) end.
    split; [done|]. cbn [snd]. rewrite Hk. rewrite Hg in Hr. by apply Forall_app in Hr as [_ ?].
Qed.

Context `{!Stamped Row} `{!StampedLaws Row}.

Lemma update_hook_tame now f : tame f -> tame (update_hook true now f).
Proof.
  intros Hf. unfold update_hook. destruct (_ && _); [|done]. intros r. destruct (Hf r) as (<- & <- & <-).
  by rewrite uk_set_field, auto_set_field, column_set_field.
Qed.
Lemma stamp_tame now o : tame_op o -> tame_op (stamp true now o).
Proof. destruct o; simpl; [done|done| |done]. intros [? ?]. split; [done|by apply update_hook_tame]. Qed.
Lemma stamp_all_tame os : Forall (fun '(_, o) => tame_op o) os -> Forall tame_op (stamp_all os).
Proof. unfold stamp_all. rewrite Forall_fmap. intros Ho. eapply Forall_impl; [exact Ho|]. intros [now o]. apply stamp_tame. Qed.

(** Rows come with no creation time or one that is past, and updates do not assign it. *)
Definition stamp_op_ok (now : Time) (o : sop (Row := Row)) : Prop :=
  match o with
  | OCreate r => field "CreatedAt" r <= now
  | OUpdate _ f => forall r, field "CreatedAt" (f r) = field "CreatedAt" r
  | _ => True
  end.
Definition ordered (now : Time) (r : Row) : Prop := field "CreatedAt" r <= field "UpdatedAt" r <= now.

Lemma stamp_respects now o :
  has_field (Row := Row) "UpdatedAt" = true -> stamp_op_ok now o -> respects (ordered now) (stamp true now o).
Proof.
  intros Hu Ho. destruct o as [r|ps|ps f|ps n]; simpl; [|done| |done].
  - intros a i. unfold ordered, create_hook. cbn [negb]. rewrite Hu, !field_set_id, !field_set_column, (field_set_eq "UpdatedAt") by done.
    rewrite field_set_ne by done. destruct (_ && _) eqn:E; [|simpl in Ho; lia].
    apply andb_prop in E as [E _]. rewrite field_set_eq by done. lia.
  - intros r [Hc Hn]. unfold ordered, update_hook. rewrite Hu. cbn [andb].
    rewrite field_set_eq, field_set_ne by done. simpl in Ho. rewrite Ho. lia.
Qed.
(** The clock does not run backwards. *)
Fixpoint clock (last : Time) (os : list (Time * sop (Row := Row))) : Prop :=
  match os with [] => True | (now, _) :: os' => last <= now /\ clock now os' end.
Definition end_time (start : Time) (os : list (Time * sop (Row := Row))) : Time := foldl (fun _ o => o.1) start os.
End facts.
End DbFacts.

Module DbProps.
Import Tenant TenantFacts Hooks DbFacts.

(** A handle that opens is probed as the health check does: the two answer an error together. *)
Lemma probe_is_check `{Conn.Drivers} db : Conn.Probe (Some db) = Ok () <-> Conn.DBCheck db = None.
Proof. unfold Conn.Probe, Conn.DBCheck. destruct (Conn.gorm_DB db) as [s|]; [destruct (Conn.sql_ping s)|]; done. Qed.
(** A missing handle is reported as not ready. *)
Lemma probe_nil `{Conn.Drivers} : Conn.Probe None = Err Conn.ErrNilHandle.
Proof. reflexivity. Qed.
(** A Redis client is handed out only if the server answers, so its health check passes then. *)
Lemma redis_new_checked `{Conn.Drivers} cfg c : Conn.redis_New cfg = Ok c -> Conn.RedisCheck c = None.
Proof. unfold Conn.redis_New, Conn.RedisCheck. destruct (Conn.redis_ping _) eqn:E; [|done]. intros [= <-]. by rewrite E. Qed.

Section stamps.
Context {Row : Type} `{UnicodeCase} `{EntityLaws Row} `{!TenantColumn Row} `{!TenantColumnLaws Row} `{!Where Row} `{!WhereLaws Row} {T : Table Row} `{!TableLaws Row T}.
Context `{!Stamped Row} `{!StampedLaws Row}.

(** C33. Timestamps stay in order: with the hooks registered, beside the tenant callbacks, statements on a
    clock that does not run backwards keep every row's creation time at or before its update time
    and that at or before the clock, and still leave other tenants' rows alone.  Conditions: a
    created row comes without a creation time or with one that is not in the future (the hook
    keeps what it finds: [future_creation_time_is_kept]), updates do not assign the creation time,
    and the statements are those of [tenant_isolation] (conditions chained by Where, updates that
    assign neither unique key, id nor tenant column). *)
Theorem timestamps_ordered ctx os t start :
  has_field (Row := Row) "UpdatedAt" = true ->
  twf t -> Forall (ordered start) (rows t) -> clock start os ->
  Forall (fun '(now, o) => tame_op o /\ stamp_op_ok now o) os ->
  Forall (ordered (end_time start os)) (rows (srun ctx (stamp_all os) t)) /\
  (FromContext ctx <> "" -> forall b, b <> FromContext ctx -> rows_of b (srun ctx (stamp_all os) t) ≡ₚ rows_of b t).
Proof.
  intros Hu Hw Hr Hc Hos. split.
  - revert t start Hw Hr Hc. unfold srun, stamp_all, end_time.
    induction os as [|[now o] os IH]; intros t start Hw Hr Hc; [done|]. simpl in *.
    apply Forall_cons in Hos as [[Ht Ho] Hos]. destruct Hc as [Hn Hc].
    destruct (sexec_rows (ordered now) ctx (stamp true now o) t) as [Hw' Hr'];
      [by apply stamp_tame|by apply stamp_respects|done| |by apply IH].
    eapply Forall_impl; [exact Hr|]. unfold ordered. lia.
  - intros Hne b Hb. apply (srun_others ctx (FromContext ctx) b); [done..| |done].
    apply stamp_all_tame. eapply Forall_impl; [exact Hos|]. by intros [? ?] [? _].
Qed.
End stamps.

(** *** A table of pages, and a history of one *)
Record page := mkPage { pg_id : Z; pg_tenant : string; pg_title : string; pg_created : Time; pg_updated : Time }.
#[export] Instance page_entity : Entity page := {|
  ukey := string * string; ukey_eq := _; uk n := (pg_tenant n, pg_title n); auto_id n := Some (pg_id n);
  set_id i n := mkPage i (pg_tenant n) (pg_title n) (pg_created n) (pg_updated n) |}.
#[export] Instance page_laws : EntityLaws page.
Proof. split; [done|]. intros. by left. Qed.
#[export] Instance page_column : TenantColumn page := {|
  column := pg_tenant; set_column s n := mkPage (pg_id n) s (pg_title n) (pg_created n) (pg_updated n) |}.
#[export] Instance page_column_laws : TenantColumnLaws page.
Proof. by split. Qed.
#[export] Instance page_stamped : Stamped page := {|
  has_field k := String.eqb k "CreatedAt" || String.eqb k "UpdatedAt";
  field k n := if String.eqb k "CreatedAt" then pg_created n else if String.eqb k "UpdatedAt" then pg_updated n else 0;
  set_field k t n :=
    if String.eqb k "CreatedAt" then mkPage (pg_id n) (pg_tenant n) (pg_title n) t (pg_updated n)
    else if String.eqb k "UpdatedAt" then mkPage (pg_id n) (pg_tenant n) (pg_title n) (pg_created n) t else n |}.
#[export] Instance page_stamped_laws : StampedLaws page.
Proof.
  split; intros; unfold field, set_field, has_field in *; simpl in *;
    repeat match goal with |- context [String.eqb ?a ?b] => destruct (String.eqb_spec a b) end; simplify_eq; done.
Qed.
#[local] Existing Instance plain_case.
Import MemTable SqlWhere.
Definition pages : tbl (Table := mem_table (Row := page)) := mkMtbl [] 1.
Lemma pages_wf : mwf pages.
Proof. apply empty_mwf. Qed.
Definition retitle (n : page) : page := n.
Definition page_history : list (Time * sop (Row := page)) :=
  [(100, OCreate (mkPage 0 "" "home" 0 0)); (250, OUpdate [] retitle); (300, OCreate (mkPage 0 "" "news" 20 0))].
Lemma timestamps_ordered_witness :
  rows (srun (InjectToContext Background "acme") (stamp_all page_history) pages) =
    [mkPage 2 "acme" "news" 20 300; mkPage 1 "acme" "home" 100 250] /\
  Forall (ordered 300) (rows (srun (InjectToContext Background "acme") (stamp_all page_history) pages)).
Proof.
  split; [vm_compute; reflexivity|].
  apply (timestamps_ordered (InjectToContext Background "acme") page_history pages 0).
  - reflexivity.
  - exact pages_wf.
  - constructor.
  - repeat constructor; simpl; lia.
  - repeat constructor; simpl; lia.
Defined.

(** A creation time in the future is kept, so such a row is not in order. *)
Lemma future_creation_time_is_kept :
  let t := srun (InjectToContext Background "acme") (stamp_all [(100, OCreate (mkPage 0 "" "home" 500 0))]) pages in
  rows t = [mkPage 1 "acme" "home" 500 100] /\ ~ Forall (ordered 100) (rows t).
Proof.
  split; [vm_compute; reflexivity|]. intros Hf. apply Forall_inv in Hf. vm_compute in Hf. by destruct Hf.
Qed.

(** *** The audit trail *)
Import Mw Audit.
Class EntryTableLaws (E : EntryTable) := {
  e_rows : etbl -> list Entry;
  (* an INSERT that succeeds adds the entry, with the id and time the database assigned *)
  create_adds : forall e db, exists id at_ db',
    e_create e db = (Ok (mkEntry id (UserID e) (Username e) (Action e) (Resource e) (Detail e) (IP e) at_), db') /\
    e_rows db' ≡ₚ mkEntry id (UserID e) (Username e) (Action e) (Resource e) (Detail e) (IP e) at_ :: e_rows db }.
(** What an entry says, apart from the columns the database fills in. *)
Definition says (e : Entry) : Z * string * string * string * string * string :=
  (UserID e, Username e, Action e, Resource e, Detail e, IP e).

Section audit.
Context `{GinLaws} `{EntryTableLaws}.

(** The entries a sequence of requests hands to the store. *)
Definition entries (conv : f64 -> Z) (reqs : list ((gctx -> gctx) * gctx)) : list Entry :=
  omap (fun '(next, c) => (audit_Middleware conv next c).2) reqs.

Lemma saves_rows es db :
  says <$> e_rows (saves ((fun e => (NoFault, e)) <$> es) db) ≡ₚ (says <$> es) ++ (says <$> e_rows db).
Proof.
  unfold saves. revert db. induction es as [|e es IH]; intros db; [done|]. csimpl. rewrite IH.
  unfold Save, call. destruct (create_adds e db) as (id & at_ & db' & -> & Hp). cbn [snd]. rewrite Hp. csimpl.
  by rewrite Permutation_middle.
Qed.

(** The trail is complete: when the background saves succeed, in whatever order they reach the
    database, the table has gained exactly one entry for each write request, saying who asked for
    what and with which outcome, and none for other requests; and no response depends on it. *)
Theorem audit_trail_complete conv reqs order db :
  order ≡ₚ entries conv reqs ->
  says <$> e_rows (saves ((fun e => (NoFault, e)) <$> order) db) ≡ₚ
    (says <$> entries conv reqs) ++ (says <$> e_rows db) /\
  Z.of_nat (length (entries conv reqs)) = Z.of_nat (length (List.filter (fun r => audited (Method r.2)) reqs)) /\
  Forall (fun r => (audit_Middleware conv r.1 r.2).1 = r.1 r.2) reqs.
Proof.
  intros Hp. split_and!.
  - rewrite saves_rows. f_equiv. by rewrite Hp.
  - f_equal. unfold entries. clear Hp. induction reqs as [|[next c] reqs IH]; [done|]. csimpl.
    unfold audit_Middleware at 1. destruct (audited (Method c)); simpl; by rewrite IH.
  - apply Forall_forall. intros [next c] _. unfold audit_Middleware. simpl. by destruct (audited (Method c)).
Qed.
End audit.
End DbProps.
