(* ===== verification/Idempotency.v ===== *)
(** * idempotency: keys, the repository and the service

    idempotency.go (keys and hashes), model.go, repo.go ([Repo], on the table interface of
    [SqlSpec]) and service.go ([Service], on the repository interface [Repository]). *)
From S2P Require Import Prelude GoStd Job Sha256 SqlSpec.
Import Sha256.
Open Scope go_scope.

(** ** Keys and hashes *)
Inductive keyErr := ErrInvalidKey | ErrInvalidScope.

Definition MaxKeyLength : Z := 255.
Definition hashPrefix : string := "sha256:".

Record RequestScope := mkRequestScope {
  rs_TenantID : string; rs_PrincipalID : string; rs_Method : string; rs_Path : string; rs_Key : string }.

Definition NormalizeKey (raw : string) : res keyErr string :=
  let key := TrimSpace raw in
  if String.eqb key "" || (MaxKeyLength <? slen key) then Err ErrInvalidKey
  else if existsb (fun r => IsControl r || IsSpace r) (runes key) then Err ErrInvalidKey
  else Ok key.

Definition BodyHash (body : string) : string := hashPrefix +:+ hexEncode (Sum256 body).

(** [r] is what the reader yields before its error, if it ends in one. *)
Definition ReaderHash (r : string * option string) : res string string :=
  match r.2 with
  | Some e => Err e
  | None => Ok (hashPrefix +:+ hexEncode (Sum256 r.1))
  end.

(** The bytes [HashParts] writes: length, colon, part, NUL. *)
Definition frame (part : string) : string :=
  FormatInt (slen part) +:+ ":" +:+ part +:+ String (ascii_of_nat 0) "".
Fixpoint frames (parts : list string) : string :=
  match parts with
  | [] => ""
  | p :: ps => frame p +:+ frames ps
  end.
Definition HashParts (parts : list string) : string := hashPrefix +:+ hexEncode (Sum256 (frames parts)).

Definition trimHashPrefix (hash : string) : string := TrimPrefix hash hashPrefix.

Section keys.
Context `{UnicodeCase}.
(** net/http and net/url: the escaped path of the URL, when the path parses as one and its
    escaped path is not empty. *)
Variable escaped_path : string -> option string.

Definition normalizeMethod (method : string) : string := ToUpper (TrimSpace method).
Definition normalizePath (path : string) : string :=
  let path := TrimSpace path in
  if String.eqb path "" then "" else
  let path := default path (escaped_path path) in
  if negb (HasPrefix path "/") then "/" +:+ path else path.

Definition RequestHash (method path body : string) : string :=
  HashParts [normalizeMethod method; normalizePath path; BodyHash body].

Definition NormalizeScope (scope : RequestScope) : res keyErr RequestScope :=
  key <-? NormalizeKey (rs_Key scope);
  let tenantID := TrimSpace (rs_TenantID scope) in
  let principalID := TrimSpace (rs_PrincipalID scope) in
  let method := normalizeMethod (rs_Method scope) in
  let path := normalizePath (rs_Path scope) in
  if String.eqb tenantID "" || String.eqb principalID "" || String.eqb method "" || String.eqb path ""
  then Err ErrInvalidScope
  else Ok (mkRequestScope tenantID principalID method path key).

Definition StorageKey (scope : RequestScope) : res keyErr string :=
  n <-? NormalizeScope scope;
  Ok ("idem:v1:" +:+ trimHashPrefix (HashParts
        [rs_TenantID n; rs_PrincipalID n; rs_Method n; rs_Path n; rs_Key n])).
End keys.

(** ** The record *)
Definition StatusInProgress : string := "in_progress".
Definition StatusCompleted : string := "completed".
Definition StatusCompletedSensitive : string := "completed_sensitive".

(** The columns of the unique index uk_idempotency_scope. *)
Record scope := mkScope {
  sc_tenant : Z; sc_principal : Z; sc_key : string; sc_method : string; sc_path : string }.
#[export] Instance scope_eq_dec : EqDecision scope.
Proof. solve_decision. Defined.

(** The Go struct Record. *)
Record IdemRecord := mkRecord {
  ID : Z;
  Scope : scope;
  RequestHash_ : string;
  Status : string;
  ResponseStatus : option Z;
  ResponseBody : option string;
  CreatedAt : Time;
  UpdatedAt : Time;
  ExpiresAt : Time;
  RunningExpiresAt : option Time }.

Definition set_ID (id : Z) (r : IdemRecord) : IdemRecord :=
  mkRecord id (Scope r) (RequestHash_ r) (Status r) (ResponseStatus r) (ResponseBody r)
    (CreatedAt r) (UpdatedAt r) (ExpiresAt r) (RunningExpiresAt r).

Record BeginResult := mkBeginResult {
  br_Record : IdemRecord; Started : bool; Replay : bool; br_Status : Z; br_Body : string }.

Inductive idemErr :=
| ErrInvalidInput | ErrNotFound | ErrDuplicate | ErrRequestMismatch | ErrRequestInProcess
| ErrSensitiveResponse | ErrInternal
| ErrDB (e : string).
#[export] Instance idemErr_eq_dec : EqDecision idemErr.
Proof. solve_decision. Defined.

(** The two UPDATE statements of the repository, on one row. *)
Definition completed (status : string) (st : Z) (body : string) (at_ : Time) (r : IdemRecord) : IdemRecord :=
  mkRecord (ID r) (Scope r) (RequestHash_ r) status (Some st) (Some body)
    (CreatedAt r) at_ (ExpiresAt r) None.
Definition restarted (hash : string) (running updated : Time) (r : IdemRecord) : IdemRecord :=
  mkRecord (ID r) (Scope r) hash (Status r) (ResponseStatus r) (ResponseBody r)
    (CreatedAt r) updated (ExpiresAt r) (Some running).

(** ** The repository interface of service.go *)
Class Repository := {
  repo : Type;
  repo_Create : fault -> IdemRecord -> repo -> res idemErr IdemRecord * repo;
  repo_Get : fault -> scope -> repo -> res idemErr IdemRecord;
  (* [at_] is the clock GORM stamps updated_at with *)
  repo_Complete : fault -> Time -> Z -> string -> Z -> string -> repo -> res idemErr unit * repo;
  repo_Restart : fault -> Z -> string -> Time -> Time -> repo -> res idemErr unit * repo;
  repo_DeleteExpired : fault -> Time -> Z -> repo -> res idemErr Z * repo }.

(** What the service relies on.  [look s k] is the record of scope [k]. *)
Class RepositoryLaws (R : Repository) := {
  look : repo -> scope -> option IdemRecord;
  rwf : repo -> Prop;
  look_scope : forall s k r, rwf s -> look s k = Some r -> Scope r = k /\ 0 < ID r;
  look_id : forall s k k' r r', rwf s -> look s k = Some r -> look s k' = Some r' -> ID r = ID r' -> r = r';
  get_look : forall s k, rwf s ->
    repo_Get NoFault k s = match look s k with Some r => Ok r | None => Err ErrNotFound end;
  create_new : forall r s, rwf s -> look s (Scope r) = None ->
    exists id s', repo_Create NoFault r s = (Ok (set_ID id r), s') /\ rwf s' /\ 0 < id /\
      (forall k, look s' k = if decide (k = Scope r) then Some (set_ID id r) else look s k);
  create_dup : forall r s, rwf s -> look s (Scope r) <> None ->
    exists s', repo_Create NoFault r s = (Err ErrDuplicate, s') /\ rwf s' /\
      (forall k, look s' k = look s k);
  complete_look : forall t id status st body s, rwf s -> status <> "" ->
    exists s', repo_Complete NoFault t id status st body s = (Ok (), s') /\ rwf s' /\
      (forall k, look s' k = (fun r => if ID r =? id then completed status st body t r else r) <$> look s k);
  restart_look : forall id hash running updated s, rwf s ->
    exists s', repo_Restart NoFault id hash running updated s = (Ok (), s') /\ rwf s' /\
      (forall k, look s' k =
         (fun r => if (ID r =? id) && String.eqb (Status r) StatusInProgress
                   then restarted hash running updated r else r) <$> look s k);
  delete_look : forall before n s, rwf s ->
    exists d s', repo_DeleteExpired NoFault before n s = (Ok d, s') /\ rwf s' /\ 0 <= d <= 10000 /\
      (forall k, look s' k = look s k \/
         (look s' k = None /\ exists r, look s k = Some r /\ ExpiresAt r < before));
  (* a failed round trip is an error; the statement ran or it did not *)
  get_fault : forall f k s, f <> NoFault -> exists e, repo_Get f k s = Err (ErrDB e);
  create_fault : forall f r s, f <> NoFault -> exists e, (repo_Create f r s).1 = Err e /\
    ((repo_Create f r s).2 = s \/ (repo_Create f r s).2 = (repo_Create NoFault r s).2);
  restart_fault : forall f id h t u s, f <> NoFault -> exists e, (repo_Restart f id h t u s).1 = Err e /\
    ((repo_Restart f id h t u s).2 = s \/ (repo_Restart f id h t u s).2 = (repo_Restart NoFault id h t u s).2);
  complete_fault : forall f t id status st body s,
    (repo_Complete f t id status st body s).2 = s \/
    (repo_Complete f t id status st body s).2 = (repo_Complete NoFault t id status st body s).2;
  delete_fault : forall f before n s,
    (repo_DeleteExpired f before n s).2 = s \/
    (repo_DeleteExpired f before n s).2 = (repo_DeleteExpired NoFault before n s).2 }.

(** ** repo.go *)
Section repo_code.
Context `{UnicodeCase} `{Table IdemRecord}.

Definition isDuplicateKey (e : string) : bool :=
  let msg := ToLower e in
  Contains msg "1062" || Contains msg "duplicate" || Contains msg "unique constraint".

Definition Repo_Create (f : fault) (rec : IdemRecord) (t : tbl) : res idemErr IdemRecord * tbl :=
  let fail e := if isDuplicateKey e then Err ErrDuplicate else Err (ErrDB e) in
  match call f (t_insert rec) t with
  | (Err e, t') | (Ok (Err e), t') => (fail e, t')
  | (Ok (Ok r), t') => (Ok r, t')
  end.

Definition Repo_Get (f : fault) (k : scope) (t : tbl) : res idemErr IdemRecord :=
  match (call f (fun t => (t_select (fun r => bool_decide (Scope r = k)) t, t)) t).1 with
  | Err e => Err (ErrDB e)
  | Ok [] => Err ErrNotFound
  | Ok (r :: _) => Ok r
  end.

Definition Repo_Complete (f : fault) (at_ : Time) (id : Z) (status : string) (responseStatus : Z)
    (responseBody : string) (t : tbl) : res idemErr unit * tbl :=
  let status := if String.eqb status "" then StatusCompleted else status in
  match call f (fun t => ((), t_update (fun r => ID r =? id)
                                (completed status responseStatus responseBody at_) t)) t with
  | (Err e, t') => (Err (ErrDB e), t')
  | (Ok _, t') => (Ok (), t')
  end.

Definition Repo_Restart (f : fault) (id : Z) (requestHash : string) (runningExpiresAt updatedAt : Time)
    (t : tbl) : res idemErr unit * tbl :=
  match call f (fun t => ((), t_update (fun r => (ID r =? id) && String.eqb (Status r) StatusInProgress)
                                (restarted requestHash runningExpiresAt updatedAt) t)) t with
  | (Err e, t') => (Err (ErrDB e), t')
  | (Ok _, t') => (Ok (), t')
  end.

Definition Repo_DeleteExpired (f : fault) (before : Time) (limit : Z) (t : tbl) : res idemErr Z * tbl :=
  let limit := if (limit <=? 0) || (10000 <? limit) then 1000 else limit in
  match call f (t_delete (fun r => ExpiresAt r <? before) limit) t with
  | (Err e, t') => (Err (ErrDB e), t')
  | (Ok n, t') => (Ok n, t')
  end.

#[export] Instance Repo : Repository := {|
  repo := tbl;
  repo_Create := Repo_Create;
  repo_Get := Repo_Get;
  repo_Complete := Repo_Complete;
  repo_Restart := Repo_Restart;
  repo_DeleteExpired := Repo_DeleteExpired |}.
End repo_code.

#[export] Instance record_entity : Entity IdemRecord := {|
  ukey := scope; uk := Scope; auto_id r := Some (ID r); set_id := set_ID |}.
#[export] Instance record_entity_laws : EntityLaws IdemRecord.
Proof. by split; [|left]. Defined.

(** ** service.go *)
Definition runningTimeout : Duration := 60 * Second.

Record Service := mkService { srv_repo : bool; srv_ttl : Duration }.
Definition NewService (repo_ : bool) : Service := mkService repo_ (24 * Hour).

Record BeginInput := mkBeginInput {
  in_TenantID : Z; in_PrincipalID : Z; in_Key : string; in_Method : string; in_Path : string;
  in_RequestHash : string }.

Definition validRequestHash (hash : string) : bool :=
  let hash := TrimPrefix hash hashPrefix in
  (slen hash =? 64) &&
  forallb (fun r => negb (((r <? 48) || (57 <? r)) && ((r <? 97) || (102 <? r)) && ((r <? 65) || (70 <? r))))
    (runes hash).

Section service.
Context `{UnicodeCase} `{Repository}.

(** The trimmed and validated input, as scope and request hash. *)
Definition begin_input (i : BeginInput) : res idemErr (scope * string) :=
  let key := TrimSpace (in_Key i) in
  let method := ToUpper (TrimSpace (in_Method i)) in
  let path := TrimSpace (in_Path i) in
  let hash := TrimSpace (in_RequestHash i) in
  if (in_TenantID i =? 0) || (in_PrincipalID i =? 0) || String.eqb key "" || String.eqb method "" ||
     String.eqb path "" || String.eqb hash "" then Err ErrInvalidInput
  else if (128 <? slen key) || (16 <? slen method) || (255 <? slen path) || negb (validRequestHash hash)
  then Err ErrInvalidInput
  else Ok (mkScope (in_TenantID i) (in_PrincipalID i) key method path, hash).

(** The record [Begin] creates. *)
Definition new_record (s : Service) (k : scope) (hash : string) (now : Time) : IdemRecord :=
  mkRecord 0 k hash StatusInProgress None None now now (Add now (srv_ttl s)) (Some (Add now runningTimeout)).

(** [now1] and [now2] are the two readings of the clock. *)
Definition decisionForExisting (f : fault) (now1 now2 : Time) (rec : IdemRecord) (requestHash : string)
    (st : repo) : res idemErr BeginResult * repo :=
  if negb (String.eqb (RequestHash_ rec) requestHash) then (Err ErrRequestMismatch, st)
  else if String.eqb (Status rec) StatusCompleted then
    (Ok (mkBeginResult rec false true (default 200 (ResponseStatus rec)) (default "" (ResponseBody rec))), st)
  else if String.eqb (Status rec) StatusCompletedSensitive then (Err ErrSensitiveResponse, st)
  else if String.eqb (Status rec) StatusInProgress then
    match RunningExpiresAt rec with
    | Some e =>
        if After now1 e then
          let running := Add now2 runningTimeout in
          match repo_Restart f (ID rec) requestHash running now2 st with
          | (Err er, st') => (Err er, st')
          | (Ok _, st') =>
              let rec' := restarted (RequestHash_ rec) running now2 rec in
              (Ok (mkBeginResult rec' true false 0 ""), st')
          end
        else (Err ErrRequestInProcess, st)
    | None => (Err ErrRequestInProcess, st)
    end
  else (Err ErrRequestInProcess, st).

(** [f1 .. f4] are the faults of the lookup, the insert, the second lookup and the restart. *)
Definition Begin (f1 f2 f3 f4 : fault) (now now1 now2 : Time) (s : Service) (i : BeginInput) (st : repo)
  : res idemErr BeginResult * repo :=
  match begin_input i with
  | Err e => (Err e, st)
  | Ok (k, hash) =>
      if negb (srv_repo s) then (Err ErrInternal, st) else
      match repo_Get f1 k st with
      | Ok existing => decisionForExisting f4 now1 now2 existing hash st
      | Err ErrNotFound =>
          match repo_Create f2 (new_record s k hash now) st with
          | (Ok rec, st1) => (Ok (mkBeginResult rec true false 0 ""), st1)
          | (Err ErrDuplicate, st1) =>
              match repo_Get f3 k st1 with
              | Err e => (Err e, st1)
              | Ok existing => decisionForExisting f4 now1 now2 existing hash st1
              end
          | (Err e, st1) => (Err e, st1)
          end
      | Err e => (Err e, st)
      end
  end.

(** [at_] is the clock of the UPDATE. *)
Definition Complete (f : fault) (at_ : Time) (s : Service) (id responseStatus : Z) (responseBody : string)
    (sensitive : bool) (st : repo) : res idemErr unit * repo :=
  if (id =? 0) || (responseStatus <? 100) || (599 <? responseStatus) then (Err ErrInvalidInput, st) else
  if negb (srv_repo s) then (Err ErrInternal, st) else
  let status := if sensitive then StatusCompletedSensitive else StatusCompleted in
  let body := if sensitive then "" else responseBody in
  repo_Complete f at_ id status responseStatus body st.

(** [oor] is the conversion of an out-of-range float64 in the payload (see [Job.Int]). *)
Definition GCJob (oor : Z) (f : fault) (now : Time) (s : Service) (payload : option (gmap string pvalue))
    (st : repo) : res idemErr unit * repo :=
  let limit := Int oor payload "limit" 1000 in
  if negb (srv_repo s) then (Err ErrInternal, st) else
  match repo_DeleteExpired f now limit st with
  | (Err e, st') => (Err e, st')
  | (Ok _, st') => (Ok (), st')
  end.
End service.

(** ** The repository implements the interface *)
Module RepoFacts.
Section repo_laws.
Context `{UnicodeCase} {T : Table IdemRecord} `{!TableLaws IdemRecord T}.

Definition find_scope (t : tbl) (k : scope) : option IdemRecord :=
  List.find (fun r => bool_decide (Scope r = k)) (rows t).

Lemma distinct_scope (l : list IdemRecord) a b :
  distinct_rows l -> a ∈ l -> b ∈ l -> Scope a = Scope b -> a = b.
Proof. exact (distinct_uk (Row := IdemRecord) l a b). Qed.

Lemma distinct_id (l : list IdemRecord) a b :
  distinct_rows l -> a ∈ l -> b ∈ l -> ID a = ID b -> a = b.
Proof.
  intros (_ & Hn & _). induction l as [|x l IH]; [by intros Ha%elem_of_nil|].
  csimpl in Hn. apply NoDup_cons in Hn as [Hx Hn].
  rewrite !elem_of_cons. intros [->|Ha] [->|Hb] E; [done|..].
  - destruct Hx. apply list_elem_of_omap. exists b. by rewrite E.
  - destruct Hx. apply list_elem_of_omap. exists a. by rewrite <- E.
  - by apply IH.
Qed.

Lemma find_scope_Some t k r :
  twf t -> find_scope t k = Some r <-> r ∈ rows t /\ Scope r = k.
Proof.
  intros W. pose proof (twf_distinct t W) as Hd. unfold find_scope. split.
  - intros [Hin Hk]%List.find_some. apply bool_decide_eq_true in Hk.
    by rewrite list_elem_of_In.
  - intros [Hin Hk]. destruct (List.find _ _) as [r'|] eqn:E.
    + apply List.find_some in E as [Hin' Hk']. apply bool_decide_eq_true in Hk'.
      rewrite <- list_elem_of_In in Hin'. f_equal. apply (distinct_scope (rows t)); congruence.
    + apply list_elem_of_In in Hin. pose proof (List.find_none _ _ E r Hin) as Hf.
      by apply bool_decide_eq_false in Hf.
Qed.
Lemma find_scope_None t k : twf t -> find_scope t k = None <-> k ∉ Scope <$> rows t.
Proof.
  intros W. rewrite eq_None_not_Some. split.
  - intros Hn (r & -> & Hr)%list_elem_of_fmap. apply Hn. exists r. by apply find_scope_Some.
  - intros Hn [r [Hr <-]%(find_scope_Some _ _ _ W)]. apply Hn. by apply list_elem_of_fmap_2.
Qed.

(** A statement whose effect on the rows is a map that keeps scopes. *)
Lemma find_scope_map t t' g k :
  twf t -> twf t' -> rows t' ≡ₚ (g <$> rows t) -> (forall r, Scope (g r) = Scope r) ->
  find_scope t' k = g <$> find_scope t k.
Proof.
  intros W W' Hp Hg. apply option_eq. intros r'. rewrite find_scope_Some, Hp by done.
  rewrite fmap_Some. split.
  - intros [(r & -> & Hr)%list_elem_of_fmap Hk]. exists r. split; [|done].
    apply find_scope_Some; [done|]. by rewrite Hg in Hk.
  - intros (r & [Hr Hk]%(find_scope_Some _ _ _ W) & ->). rewrite Hg. split; [|done].
    by apply list_elem_of_fmap_2.
Qed.
Lemma find_scope_same t t' k :
  twf t -> twf t' -> rows t' ≡ₚ rows t -> find_scope t' k = find_scope t k.
Proof.
  intros W W' Hp. apply option_eq. intros r. by rewrite !find_scope_Some, Hp.
Qed.

Lemma update_find p g t k :
  twf t -> (forall r, Scope (g r) = Scope r /\ ID (g r) = ID r) ->
  twf (t_update p g t) /\
  find_scope (t_update p g t) k = (fun r => if p r then g r else r) <$> find_scope t k.
Proof.
  intros W Hg. destruct (update_rows p g t W) as [W' Hp].
  { intros r. simpl. destruct (Hg r) as [-> ->]. done. }
  split; [done|]. apply find_scope_map; [done..|]. intros r. destruct (p r); [apply Hg|done].
Qed.

Lemma Repo_get_look (t : tbl) k :
  twf t -> Repo_Get NoFault k t = match find_scope t k with Some r => Ok r | None => Err ErrNotFound end.
Proof.
  intros W. unfold Repo_Get. simpl.
  pose proof (select_rows (fun r => bool_decide (Scope r = k)) t W) as Hs.
  destruct (t_select _ t) as [|r l].
  - apply Permutation_nil_l in Hs. destruct (find_scope t k) as [r|] eqn:E; [|done].
    apply find_scope_Some in E as [Hr Hk]; [|done].
    assert (r ∈ ([] : list IdemRecord)) as Hin; [|by apply elem_of_nil in Hin].
    rewrite Hs. apply list_elem_of_In, filter_In. split; [by apply list_elem_of_In|].
    by apply bool_decide_eq_true.
  - assert (r ∈ List.filter (fun r => bool_decide (Scope r = k)) (rows t)) as Hin
      by (rewrite <- Hs; left).
    apply list_elem_of_In, filter_In in Hin as [Hin Hk]. apply list_elem_of_In in Hin.
    apply bool_decide_eq_true in Hk. by rewrite (proj2 (find_scope_Some t k r W)).
Qed.

Lemma Repo_create_new r (t : tbl) :
  twf t -> find_scope t (Scope r) = None ->
  exists id t', Repo_Create NoFault r t = (Ok (set_ID id r), t') /\ twf t' /\ 0 < id /\
    (forall k, find_scope t' k = if decide (k = Scope r) then Some (set_ID id r) else find_scope t k).
Proof.
  intros W Hk%find_scope_None; [|done]. unfold Repo_Create. simpl.
  destruct (insert_new r t W Hk) as (id & t' & -> & W' & Hid & Hfr & Hp).
  exists id, t'. split_and!; [done..|]. intros k. apply option_eq. intros r'.
  rewrite find_scope_Some, Hp, elem_of_cons by done. case_decide as Hd.
  - subst k. split; [|by intros [= <-]; auto]. intros [[->|Hr] Hs]; [done|].
    destruct Hk. rewrite <- Hs. by apply (list_elem_of_fmap_2 Scope).
  - rewrite find_scope_Some by done. split; [|naive_solver].
    intros [[->|Hr] Hs]; [|done]. by simpl in Hs.
Qed.

Lemma Repo_create_dup r (t : tbl) :
  twf t -> find_scope t (Scope r) <> None ->
  exists t', Repo_Create NoFault r t = (Err ErrDuplicate, t') /\ twf t' /\
    (forall k, find_scope t' k = find_scope t k).
Proof.
  intros W Hk. unfold Repo_Create. simpl.
  assert (uk r ∈ uk <$> rows t) as Hin.
  { destruct (find_scope t (Scope r)) as [r'|] eqn:E; [|done].
    apply find_scope_Some in E as [Hr Hs]; [|done]. simpl. rewrite <- Hs.
    by apply (list_elem_of_fmap_2 Scope). }
  destruct (insert_dup r t W Hin) as (e & t' & -> & W' & He & Hp).
  unfold isDuplicateKey. rewrite He. simpl. exists t'. split_and!; [done..|].
  intros k. by apply find_scope_same.
Qed.

(** Deleting rows [gone] out of [gone ++ kept], seen by scope. *)
Lemma find_scope_deleted t t' gone kept k :
  twf t -> twf t' -> rows t ≡ₚ gone ++ kept -> rows t' ≡ₚ kept ->
  find_scope t' k = find_scope t k \/
  (find_scope t' k = None /\ exists r, find_scope t k = Some r /\ r ∈ gone).
Proof.
  intros W W' Hp Hp'. destruct (find_scope t k) as [r|] eqn:E.
  - apply find_scope_Some in E as [Hr Hk]; [|done]. rewrite Hp, elem_of_app in Hr.
    destruct Hr as [Hr|Hr]; [right|left; apply find_scope_Some; [done|by rewrite Hp']].
    split; [|by exists r]. apply find_scope_None; [done|].
    intros (r' & Hk' & Hr')%list_elem_of_fmap. rewrite Hp' in Hr'.
    pose proof (twf_distinct t W) as (Hd & _). rewrite Hp, fmap_app in Hd.
    apply NoDup_app in Hd as (_ & Hd & _). apply (Hd (Scope r)); [by apply (list_elem_of_fmap_2 Scope)|].
    simpl. rewrite Hk, Hk'. by apply (list_elem_of_fmap_2 Scope).
  - left. apply find_scope_None; [done|]. apply find_scope_None in E; [|done].
    rewrite Hp'. rewrite Hp, fmap_app in E. set_solver.
Qed.

Lemma Repo_delete_look before n (t : tbl) :
  twf t ->
  exists d t', Repo_DeleteExpired NoFault before n t = (Ok d, t') /\ twf t' /\ 0 <= d <= 10000 /\
    (forall k, find_scope t' k = find_scope t k \/
       (find_scope t' k = None /\ exists r, find_scope t k = Some r /\ ExpiresAt r < before)).
Proof.
  intros W. unfold Repo_DeleteExpired. simpl.
  set (n' := if (n <=? 0) || (10000 <? n) then 1000 else n).
  assert (0 <= n' <= 10000) as Hn.
  { subst n'. destruct (Z.leb_spec n 0), (Z.ltb_spec 10000 n); simpl; lia. }
  destruct (delete_rows (fun r => ExpiresAt r <? before) n' t W ltac:(lia))
    as (gone & kept & t' & -> & W' & Hp & Hp' & Hg & Hlen & _).
  eexists _, t'. split_and!; [done..|lia|lia|]. intros k.
  destruct (find_scope_deleted t t' gone kept k W W' Hp Hp') as [?|(? & r & Hr & Hin)]; [by left|].
  right. split; [done|]. exists r. split; [done|]. rewrite Forall_forall in Hg.
  by apply Z.ltb_lt, Hg.
Qed.

Lemma Repo_create_fault f r (t : tbl) :
  f <> NoFault -> exists e, (Repo_Create f r t).1 = Err e /\
    ((Repo_Create f r t).2 = t \/ (Repo_Create f r t).2 = (Repo_Create NoFault r t).2).
Proof.
  destruct f as [|e|e]; [done|..]; intros _; unfold Repo_Create; simpl;
    exists (if isDuplicateKey e then ErrDuplicate else ErrDB e); (split; [by destruct (isDuplicateKey e)|]).
  - left. by destruct (isDuplicateKey e).
  - right. destruct (t_insert r t) as [[r'|e'] t']; done.
Qed.

#[export] Instance Repo_laws : RepositoryLaws Repo.
Proof.
  refine {| look := find_scope : @repo Repo -> _; rwf := twf : @repo Repo -> _;
            get_look := Repo_get_look; create_new := Repo_create_new; create_dup := Repo_create_dup;
            delete_look := Repo_delete_look; create_fault := Repo_create_fault |}; simpl.
  - intros t k r W [Hr Hk]%(find_scope_Some _ _ _ W). split; [done|].
    destruct (twf_distinct t W) as (_ & _ & Hp). rewrite Forall_forall in Hp. apply Hp.
    apply list_elem_of_omap. by exists r.
  - intros t k k' r r' W [Hr _]%(find_scope_Some _ _ _ W) [Hr' _]%(find_scope_Some _ _ _ W).
    apply distinct_id with (rows t); [by apply twf_distinct|done..].
  - intros at_ id status st body t W Hst. unfold Repo_Complete. simpl.
    destruct (String.eqb_spec status ""); [done|]. eexists. split; [done|].
    split; [|intros k]; by apply update_find.
  - intros id hash running updated t W. unfold Repo_Restart. simpl. eexists. split; [done|].
    split; [|intros k]; apply update_find; done.
  - intros [|e|e] k t Hf; [done|..]; unfold Repo_Get; simpl; eauto.
  - intros [|e|e] id h u v t Hf; [done|..]; unfold Repo_Restart; simpl; eauto.
  - intros [|e|e] at_ id status st body t; unfold Repo_Complete; simpl; eauto.
  - intros [|e|e] before n t; unfold Repo_DeleteExpired; simpl; [by right|by left|right]. by destruct (t_delete _ _ _).
Defined.
End repo_laws.
End RepoFacts.

(** ** Facts about the service *)
Module IdemFacts.
Section facts.
Context `{UnicodeCase} `{RepositoryLaws}.

(** A record whose run is not over before [w]. *)
Definition running_until (w : Time) (r : IdemRecord) : Prop :=
  Status r = StatusInProgress /\ exists e, RunningExpiresAt r = Some e /\ w <= e.
Definition stale (now : Time) (r : IdemRecord) : bool :=
  String.eqb (Status r) StatusInProgress &&
  match RunningExpiresAt r with Some e => e <? now | None => false end.

Lemma restart_any f id h u v st :
  rwf st ->
  rwf (repo_Restart f id h u v st).2 /\
  ((repo_Restart f id h u v st).2 = st \/
   forall k, look (repo_Restart f id h u v st).2 k =
     (fun r => if (ID r =? id) && String.eqb (Status r) StatusInProgress
               then restarted h u v r else r) <$> look st k).
Proof.
  intros W. destruct (restart_look id h u v st W) as (st' & E & W' & L).
  destruct f as [|e|e].
  - rewrite E. auto.
  - destruct (restart_fault (LostRequest e) id h u v st) as (? & _ & [-> | ->]); [done|auto|].
    rewrite E. auto.
  - destruct (restart_fault (LostReply e) id h u v st) as (? & _ & [-> | ->]); [done|auto|].
    rewrite E. auto.
Qed.

Lemma create_any f r st :
  rwf st ->
  rwf (repo_Create f r st).2 /\
  ((forall k, look (repo_Create f r st).2 k = look st k) \/
   (look st (Scope r) = None /\ exists id,
    forall k, look (repo_Create f r st).2 k = if decide (k = Scope r) then Some (set_ID id r) else look st k)).
Proof.
  intros W. assert (rwf (repo_Create NoFault r st).2 /\
    ((forall k, look (repo_Create NoFault r st).2 k = look st k) \/
     (look st (Scope r) = None /\ exists id, forall k, look (repo_Create NoFault r st).2 k =
        if decide (k = Scope r) then Some (set_ID id r) else look st k))) as HN.
  { destruct (look st (Scope r)) eqn:E.
    - destruct (create_dup r st W) as (s' & -> & ? & ?); [congruence|auto].
    - destruct (create_new r st W E) as (id & s' & -> & ? & ? & ?). simpl. split; [done|].
      right. eauto. }
  destruct f as [|e|e]; [done|..].
  - destruct (create_fault (LostRequest e) r st) as (? & _ & [-> | ->]); [done|auto|done].
  - destruct (create_fault (LostReply e) r st) as (? & _ & [-> | ->]); [done|auto|done].
Qed.

(** A success of the insert is a new record. *)
Lemma create_ok f r st rec :
  rwf st -> (repo_Create f r st).1 = Ok rec -> look st (Scope r) = None /\
  exists id, 0 < id /\ rec = set_ID id r /\ rwf (repo_Create f r st).2 /\
    forall k, look (repo_Create f r st).2 k = if decide (k = Scope r) then Some rec else look st k.
Proof.
  intros W Hok. assert (f = NoFault) as ->.
  { destruct f as [|e|e]; [done|..].
    - destruct (create_fault (LostRequest e) r st) as (? & E & _); [done|congruence].
    - destruct (create_fault (LostReply e) r st) as (? & E & _); [done|congruence]. }
  destruct (look st (Scope r)) eqn:E.
  { destruct (create_dup r st W) as (s' & E' & _); [congruence|]. by rewrite E' in Hok. }
  split; [done|]. destruct (create_new r st W E) as (id & s' & E' & ? & ? & ?).
  rewrite E' in *. simpl in *. simplify_eq. eauto 10.
Qed.

Lemma get_any f k st :
  rwf st ->
  match repo_Get f k st with
  | Ok r => look st k = Some r
  | Err ErrNotFound => look st k = None
  | Err _ => True
  end.
Proof.
  intros W. destruct f as [|e|e].
  - rewrite get_look by done. by destruct (look st k).
  - destruct (get_fault (LostRequest e) k st) as [? ->]; done.
  - destruct (get_fault (LostReply e) k st) as [? ->]; done.
Qed.

(** What a decision does, whatever the faults. *)
Lemma decision_state f now1 now2 r h st :
  (decisionForExisting f now1 now2 r h st).2 = st \/
  (stale now1 r = true /\ RequestHash_ r = h /\
   (decisionForExisting f now1 now2 r h st).2 = (repo_Restart f (ID r) h (Add now2 runningTimeout) now2 st).2).
Proof.
  unfold decisionForExisting, stale, After.
  destruct (String.eqb_spec (RequestHash_ r) h); cbn [negb]; [|by left].
  destruct (String.eqb _ StatusCompleted); [by left|].
  destruct (String.eqb _ StatusCompletedSensitive); [by left|].
  destruct (String.eqb _ StatusInProgress); [|by left].
  destruct (RunningExpiresAt r) as [e0|]; [|by left].
  destruct (e0 <? now1); [|by left]. right.
  destruct (repo_Restart _ _ _ _ _ _) as [[]]; done.
Qed.
Lemma decision_started f now1 now2 r h st br :
  (decisionForExisting f now1 now2 r h st).1 = Ok br -> Started br = true -> stale now1 r = true.
Proof.
  unfold decisionForExisting, stale, After.
  destruct (negb _); [done|].
  destruct (String.eqb _ StatusCompleted); [by intros [= <-]|].
  destruct (String.eqb _ StatusCompletedSensitive); [done|].
  destruct (String.eqb _ StatusInProgress); [|done].
  destruct (RunningExpiresAt r) as [e0|]; [|done]. by destruct (e0 <? now1).
Qed.
Lemma running_not_stale w now r : running_until w r -> now <= w -> stale now r = false.
Proof.
  intros [Hs (e & He & Hw)] Hn. unfold stale. rewrite Hs, He. simpl.
  apply Z.ltb_ge. lia.
Qed.
End facts.

(** *** Framing *)
Lemma sapp_split (a b c d : string) :
  String.length a = String.length c -> a +:+ b = c +:+ d -> a = c /\ b = d.
Proof.
  revert c. induction a as [|x a IH]; intros [|y c]; simpl; try done.
  intros [= Hl]. rewrite !sapp_cons. intros [= -> E]. by destruct (IH c Hl E) as [-> ->].
Qed.
Definition fits_int (p : string) : Prop := slen p <= maxInt64.
(** The parts [StorageKey] hashes. *)
Definition scope_parts (n : RequestScope) : list string :=
  [rs_TenantID n; rs_PrincipalID n; rs_Method n; rs_Path n; rs_Key n].
Lemma frame_split p q a b :
  fits_int p -> fits_int q -> frame p +:+ a = frame q +:+ b -> p = q /\ a = b.
Proof.
  unfold frame, fits_int. intros Hp Hq E. rewrite <- !sapp_assoc in E.
  assert (0 <= slen p /\ 0 <= slen q) as [P0 Q0] by (unfold slen; lia).
  pose proof (cut_at_app ":" (FormatInt (slen p)) (p +:+ (String (ascii_of_nat 0) "" +:+ a))
                (FormatInt_no_colon _ P0)) as C1.
  pose proof (cut_at_app ":" (FormatInt (slen q)) (q +:+ (String (ascii_of_nat 0) "" +:+ b))
                (FormatInt_no_colon _ Q0)) as C2.
  change (String ":" ?x) with (":" +:+ x) in C1, C2.
  rewrite E, C2 in C1. injection C1 as C1 C3.
  apply FormatInt_inj in C1; [|int64..].
  apply sapp_split in C3 as [-> C4]; [|unfold slen in C1; lia].
  split; [done|]. by apply sapp_inj_l in C4.
Qed.
Lemma frame_nonempty p a : frame p +:+ a <> "".
Proof.
  unfold frame. intros E%(f_equal String.length). rewrite !slen_app in E. simpl in E. lia.
Qed.
Lemma frames_inj ps qs :
  Forall fits_int ps -> Forall fits_int qs -> frames ps = frames qs -> ps = qs.
Proof.
  revert qs. induction ps as [|p ps IH]; intros [|q qs] Hp Hq E; [done|..].
  - symmetry in E. by apply frame_nonempty in E.
  - by apply frame_nonempty in E.
  - apply Forall_cons in Hp as [Hp Hps]. apply Forall_cons in Hq as [Hq Hqs].
    simpl in E. apply frame_split in E as [-> E]; [|done..]. f_equal. by apply IH.
Qed.
End IdemFacts.
Import RepoFacts IdemFacts.

Module IdemProps.
Section props.
Context `{UnicodeCase} `{RepositoryLaws}.

(** C28. The decision of [Begin], on every branch, without faults: a new scope starts and stores
    an in-progress record; otherwise the request hash must match, a completed record is
    replayed with its stored response, a sensitive one is refused, a stale run is taken
    over with a new deadline, and any other record is in process.  Only the record of the
    scope changes. *)
Theorem begin_decides now now1 now2 s i st k hash :
  rwf st -> srv_repo s = true -> begin_input i = Ok (k, hash) ->
  let '(r, st') := Begin NoFault NoFault NoFault NoFault now now1 now2 s i st in
  rwf st' /\ (forall k', k' <> k -> look st' k' = look st k') /\
  match look st k with
  | None => exists id, 0 < id /\ let rec := set_ID id (new_record s k hash now) in
      r = Ok (mkBeginResult rec true false 0 "") /\ look st' k = Some rec
  | Some rec =>
      if negb (String.eqb (RequestHash_ rec) hash) then r = Err ErrRequestMismatch /\ st' = st
      else if String.eqb (Status rec) StatusCompleted then
        r = Ok (mkBeginResult rec false true (default 200 (ResponseStatus rec))
                  (default "" (ResponseBody rec))) /\ st' = st
      else if String.eqb (Status rec) StatusCompletedSensitive then
        r = Err ErrSensitiveResponse /\ st' = st
      else if stale now1 rec then
        let rec' := restarted hash (Add now2 runningTimeout) now2 rec in
        r = Ok (mkBeginResult rec' true false 0 "") /\ look st' k = Some rec'
      else r = Err ErrRequestInProcess /\ st' = st
  end.
Proof.
  intros W Hs Hi. unfold Begin. rewrite Hi, Hs. cbn [negb]. rewrite get_look by done.
  destruct (look st k) as [rec|] eqn:E.
  - unfold decisionForExisting, stale, After.
    destruct (String.eqb_spec (RequestHash_ rec) hash) as [<-|]; cbn [negb]; [|done].
    destruct (String.eqb _ StatusCompleted); [done|].
    destruct (String.eqb _ StatusCompletedSensitive); [done|].
    destruct (String.eqb _ StatusInProgress) eqn:Es; cbn [andb]; [|done].
    destruct (RunningExpiresAt rec) as [e|]; [|done]. destruct (e <? now1); [|done].
    destruct (restart_look (ID rec) (RequestHash_ rec) (Add now2 runningTimeout) now2 st W)
      as (st' & -> & W' & L).
    split; [done|]. split.
    + intros k' Hk'. rewrite L. destruct (look st k') as [r'|] eqn:E'; [|done]. simpl.
      destruct (Z.eqb_spec (ID r') (ID rec)) as [Hid|]; [|done].
      destruct (look_scope _ _ _ W E) as [S1 _]. destruct (look_scope _ _ _ W E') as [S2 _].
      rewrite (look_id st k' k r' rec W E' E Hid) in S2. congruence.
    + split; [done|]. rewrite L, E. simpl. by rewrite Z.eqb_refl, Es.
  - destruct (create_new (new_record s k hash now) st W E) as (id & st' & -> & W' & Hid & L).
    split; [done|]. split; [intros k' Hk'; by rewrite L, decide_False|].
    exists id. split; [done|]. split; [done|]. rewrite L. by rewrite decide_True.
Qed.

(** *** Completed records *)
Inductive iop :=
| OpBegin (f1 f2 f3 f4 : fault) (now now1 now2 : Time) (i : BeginInput)
| OpComplete (f : fault) (at_ : Time) (id st : Z) (body : string) (sensitive : bool)
| OpGC (oor : Z) (f : fault) (now : Time) (payload : option (gmap string pvalue)).
Definition iexec (s : Service) (o : iop) (st : repo) : repo :=
  match o with
  | OpBegin f1 f2 f3 f4 now now1 now2 i => (Begin f1 f2 f3 f4 now now1 now2 s i st).2
  | OpComplete f at_ id code body sens => (Complete f at_ s id code body sens st).2
  | OpGC oor f now payload => (GCJob oor f now s payload st).2
  end.
(** The operation does not complete [rec] and, if it collects garbage, runs before [rec] expires. *)
Definition leaves (rec : IdemRecord) (o : iop) : Prop :=
  match o with
  | OpBegin _ _ _ _ _ _ _ _ => True
  | OpComplete _ _ id _ _ _ => id <> ID rec
  | OpGC _ _ now _ => now <= ExpiresAt rec
  end.

Lemma decision_keeps f now1 now2 r0 h st k rec :
  rwf st -> look st k = Some rec -> Status rec <> StatusInProgress ->
  rwf (decisionForExisting f now1 now2 r0 h st).2 /\
  look (decisionForExisting f now1 now2 r0 h st).2 k = Some rec.
Proof.
  intros W L Hst. destruct (decision_state f now1 now2 r0 h st) as [->|(_ & _ & ->)]; [done|].
  destruct (restart_any f (ID r0) h (Add now2 runningTimeout) now2 st W) as [W' [->|L']]; [done|].
  split; [done|]. rewrite L', L. simpl.
  destruct (String.eqb_spec (Status rec) StatusInProgress); [done|]. by rewrite andb_false_r.
Qed.
Lemma iexec_keeps s o st k rec :
  rwf st -> look st k = Some rec -> Status rec <> StatusInProgress -> leaves rec o ->
  rwf (iexec s o st) /\ look (iexec s o st) k = Some rec.
Proof.
  intros W L Hst Ho. destruct o as [f1 f2 f3 f4 now now1 now2 i|f at_ id code body sens|oor f now payload]; simpl in *.
  - unfold Begin. destruct (begin_input i) as [[k' h]|]; [|done].
    destruct (negb _); [done|]. pose proof (get_any f1 k' st W) as G1.
    destruct (repo_Get f1 k' st) as [r1|[]]; try done; [by apply decision_keeps|].
    destruct (create_any f2 (new_record s k' h now) st W) as [W1 L1].
    assert (look (repo_Create f2 (new_record s k' h now) st).2 k = Some rec) as L2.
    { destruct L1 as [L1|(Hn & id & L1)]; rewrite L1; [done|]. simpl in *.
      rewrite decide_False by congruence. done. }
    destruct (repo_Create f2 _ st) as [[r2|[]] st1]; simpl in *; try done.
    destruct (repo_Get f3 k' st1); [by apply decision_keeps|done].
  - unfold Complete. destruct (_ || _); [done|]. destruct (negb _); [done|].
    destruct (complete_fault f at_ id (if sens then StatusCompletedSensitive else StatusCompleted) code
      (if sens then "" else body) st) as [->| ->]; [done|].
    destruct (complete_look at_ id (if sens then StatusCompletedSensitive else StatusCompleted) code
      (if sens then "" else body) st W ltac:(by destruct sens)) as (st' & -> & W' & L').
    split; [done|]. simpl. rewrite L', L. simpl.
    destruct (Z.eqb_spec (ID rec) id); [congruence|done].
  - unfold GCJob. destruct (negb _); [done|]. set (n := Int _ _ _ _).
    replace ((match repo_DeleteExpired f now n st with (Err e, st') => (Err e, st') | (Ok _, st') => (Ok (), st') end).2)
      with ((repo_DeleteExpired f now n st).2) by (by destruct (repo_DeleteExpired f now n st) as [[] ?]).
    destruct (delete_fault f now n st) as [->| ->]; [done|].
    destruct (delete_look now n st W) as (d & st' & -> & W' & _ & L'). split; [done|]. simpl.
    destruct (L' k) as [->|(_ & r & Lr & Hr)]; [done|]. rewrite L in Lr. injection Lr as <-. lia.
Qed.

(** C3. Replay: once a started request has been completed with a status and body, then after any
    further [Begin]s (of any requests), completions of other records and garbage collections up to
    the record's expiry, all with any faults, the same request replays exactly that status and
    body without starting, and a request with the same key and another hash is refused. *)
Theorem completed_request_replays s i k hash rec code body at_ os now now1 now2 i' hash' st :
  rwf st -> srv_repo s = true -> look st k = Some rec -> RequestHash_ rec = hash -> 100 <= code <= 599 ->
  Forall (leaves rec) os ->
  begin_input i = Ok (k, hash) -> begin_input i' = Ok (k, hash') -> hash' <> hash ->
  let st1 := (Complete NoFault at_ s (ID rec) code body false st).2 in
  let st2 := foldl (fun st o => iexec s o st) st1 os in
  (exists br, Begin NoFault NoFault NoFault NoFault now now1 now2 s i st2 = (Ok br, st2) /\
     Started br = false /\ Replay br = true /\ br_Status br = code /\ br_Body br = body) /\
  Begin NoFault NoFault NoFault NoFault now now1 now2 s i' st2 = (Err ErrRequestMismatch, st2).
Proof.
  intros W Hs L Hh Hc Hos Hi Hi' Hne st1 st2.
  destruct (look_scope _ _ _ W L) as [Hk Hid].
  destruct (complete_look at_ (ID rec) StatusCompleted code body st W ltac:(done)) as (st' & E & W1 & L1).
  assert (st1 = st') as E1.
  { subst st1. unfold Complete. rewrite Hs. cbn [negb].
    zdec. by rewrite E. }
  set (rec' := completed StatusCompleted code body at_ rec).
  assert (rwf st2 /\ look st2 k = Some rec') as [W2 L2].
  { subst st2. rewrite E1. clearbody st1. clear E E1. specialize (L1 k).
    rewrite L in L1. simpl in L1. rewrite Z.eqb_refl in L1. fold rec' in L1.
    revert st' W1 L1 Hos. induction os as [|o os IH]; intros st' W1 L1 Hos; [done|].
    apply Forall_cons in Hos as [Ho Hos]. simpl.
    destruct (iexec_keeps s o st' k rec' W1 L1) as [W3 L3]; [done..|]. by apply IH. }
  unfold Begin. rewrite Hi, Hi', Hs. cbn [negb]. rewrite get_look, L2 by done.
  unfold decisionForExisting. cbn [RequestHash_ rec' completed Status].
  rewrite Hh, String.eqb_refl. cbn [negb].
  destruct (String.eqb_spec hash hash'); [congruence|]. cbn [negb]. split; [|done].
  eexists. split; [done|]. done.
Qed.

(** *** Concurrent calls
    A call of [Begin] after validation, cut at its database statements. *)
Inductive bstate :=
| BGet (k : scope) (hash : string)
| BCreate (k : scope) (hash : string)
| BReget (k : scope) (hash : string)
| BDecide (k : scope) (hash : string) (rec : IdemRecord)
| BDone (k : scope) (r : res idemErr BeginResult).

Definition bstep (s : Service) (f : fault) (now1 now2 : Time) (b : bstate) (st : repo) : bstate * repo :=
  match b with
  | BGet k h =>
      match repo_Get f k st with
      | Ok r => (BDecide k h r, st)
      | Err ErrNotFound => (BCreate k h, st)
      | Err e => (BDone k (Err e), st)
      end
  | BCreate k h =>
      match repo_Create f (new_record s k h now1) st with
      | (Ok rec, st1) => (BDone k (Ok (mkBeginResult rec true false 0 "")), st1)
      | (Err ErrDuplicate, st1) => (BReget k h, st1)
      | (Err e, st1) => (BDone k (Err e), st1)
      end
  | BReget k h =>
      match repo_Get f k st with
      | Ok r => (BDecide k h r, st)
      | Err e => (BDone k (Err e), st)
      end
  | BDecide k h r => let '(x, st1) := decisionForExisting f now1 now2 r h st in (BDone k x, st1)
  | BDone _ _ => (b, st)
  end.
Fixpoint bsteps (s : Service) (ts : list (fault * Time * Time)) (b : bstate) (st : repo) : bstate * repo :=
  match ts with
  | [] => (b, st)
  | (f, n1, n2) :: ts' => let '(b', st') := bstep s f n1 n2 b st in bsteps s ts' b' st'
  end.

(** The cut is faithful: a call that is not interleaved with others is [Begin]. *)
Lemma begin_is_its_steps f1 f2 f3 f4 now now1 now2 s i st k h :
  srv_repo s = true -> begin_input i = Ok (k, h) ->
  exists ts, bsteps s ts (BGet k h) st =
    (BDone k (Begin f1 f2 f3 f4 now now1 now2 s i st).1, (Begin f1 f2 f3 f4 now now1 now2 s i st).2).
Proof.
  intros Hs Hi. unfold Begin. rewrite Hi, Hs. cbn [negb].
  destruct (repo_Get f1 k st) as [r|e] eqn:E1.
  { exists [(f1, now, now); (f4, now1, now2)]. simpl. rewrite E1. simpl.
    by destruct (decisionForExisting f4 now1 now2 r h st). }
  destruct (decide (e = ErrNotFound)) as [->|Hne].
  2: { exists [(f1, now, now)]. simpl. rewrite E1. by destruct e. }
  destruct (repo_Create f2 (new_record s k h now) st) as [[rec|e] st1] eqn:E2.
  { exists [(f1, now, now); (f2, now, now)]. simpl. rewrite E1. simpl. by rewrite E2. }
  destruct (decide (e = ErrDuplicate)) as [->|Hne].
  2: { exists [(f1, now, now); (f2, now, now)]. simpl. rewrite E1. simpl. rewrite E2. by destruct e. }
  destruct (repo_Get f3 k st1) as [r|e] eqn:E3.
  - exists [(f1, now, now); (f2, now, now); (f3, now, now); (f4, now1, now2)].
    simpl. rewrite E1. simpl. rewrite E2. simpl. rewrite E3. simpl.
    by destruct (decisionForExisting f4 now1 now2 r h st1).
  - exists [(f1, now, now); (f2, now, now); (f3, now, now)].
    simpl. rewrite E1. simpl. rewrite E2. simpl. by rewrite E3.
Qed.

(** Clients in flight, and who moves next with which fault and clock readings. *)
Fixpoint interleave (s : Service) (sched : list (nat * (fault * Time * Time))) (cs : list bstate)
    (st : repo) : list bstate * repo :=
  match sched with
  | [] => (cs, st)
  | (i, (f, n1, n2)) :: sched' =>
      match cs !! i with
      | Some b => let '(b', st') := bstep s f n1 n2 b st in interleave s sched' (<[i := b']> cs) st'
      | None => interleave s sched' cs st
      end
  end.

Definition started (k : scope) (b : bstate) : Prop :=
  match b with BDone k' (Ok r) => k' = k /\ Started r = true | _ => False end.

(** The invariant of [at_most_one_start], with the window's end [w]. *)
Record inv_ (w : Time) (k : scope) (cs : list bstate) (st : repo) : Prop := {
  inv_wf : rwf st;
  inv_store : forall r, look st k = Some r -> running_until w r;
  inv_held : forall i h r, cs !! i = Some (BDecide k h r) -> running_until w r;
  inv_one : forall i j b c, cs !! i = Some b -> cs !! j = Some c -> started k b -> started k c -> i = j;
  inv_some : forall i b, cs !! i = Some b -> started k b -> look st k <> None }.

(** A move that stores nothing for [k] except what still runs, and starts nothing for [k]. *)
Lemma inv_move w k cs st i b b' st' :
  inv_ w k cs st -> cs !! i = Some b -> ~ started k b' -> rwf st' ->
  (look st k <> None -> look st' k <> None) ->
  (forall r, look st' k = Some r -> running_until w r) ->
  (forall h r, b' = BDecide k h r -> running_until w r) ->
  inv_ w k (<[i := b']> cs) st'.
Proof.
  intros [I1 I2 I3 I4 I5] Hb Hns W' Hl Hr Hd. split; [done..| | |].
  - intros j h r [[-> [-> _]]|[_ Hj]]%list_lookup_insert_Some; [by eapply Hd|by eapply I3].
  - intros j1 j2 c1 c2 [[-> [-> _]]|[_ X1]]%list_lookup_insert_Some; [done|].
    intros [[-> [-> _]]|[_ X2]]%list_lookup_insert_Some; [done|]. by eapply I4.
  - intros j c [[-> [-> _]]|[_ Hj]]%list_lookup_insert_Some Hc; [done|]. eapply Hl, I5; done.
Qed.

Lemma restarted_running w h u v r : running_until w r -> w <= u -> running_until w (restarted h u v r).
Proof. intros [Hs _] Hu. split; [done|]. by exists u. Qed.

Lemma restart_inv w k f id h u v st :
  rwf st -> w <= u -> (forall r, look st k = Some r -> running_until w r) ->
  let st' := (repo_Restart f id h u v st).2 in
  rwf st' /\ (look st k <> None -> look st' k <> None) /\
  (forall r, look st' k = Some r -> running_until w r).
Proof.
  intros W Hu Hr st'. destruct (restart_any f id h u v st W) as [W' Hl]. fold st' in W', Hl.
  split; [done|]. destruct Hl as [->|L]; [done|]. rewrite L.
  destruct (look st k) as [r|]; simpl; [|done]. split; [done|]. intros r' [= <-].
  destruct (_ && _); [apply restarted_running; [by apply Hr|done]|by apply Hr].
Qed.

(** Move client [i], leaving the obligations that are not immediate. *)
Ltac move_client := eapply inv_move; try done; try (intros Hst; by destruct Hst).

Lemma new_record_running w s k h now id :
  w <= now + runningTimeout -> running_until w (set_ID id (new_record s k h now)).
Proof. intros Hw. split; [done|]. eexists. split; [done|]. unfold Add. simpl. lia. Qed.

(** The client whose insert created the record of [k] is its only starter. *)
Lemma inv_start w k cs st i r st' rec :
  inv_ w k cs st -> rwf st' -> look st k = None ->
  look st' k = Some rec -> running_until w rec -> inv_ w k (<[i := BDone k r]> cs) st'.
Proof.
  intros [W I2 I3 I4 I5] W1 Hn L1 Hrec.
  assert (forall j c, cs !! j = Some c -> ~ started k c) as Hno by (intros j c Hj Hc; by eapply I5).
  split; [done|..].
  - intros r'. by rewrite L1; intros [= <-].
  - intros j h0 r' [[_ [? _]]|[_ Hj]]%list_lookup_insert_Some; [done|by eapply I3].
  - intros j1 j2 c1 c2 [[<- [<- _]]|[N1 X1]]%list_lookup_insert_Some.
    + intros [[<- _]|[N2 X2]]%list_lookup_insert_Some; [done|]. intros _ Hc. by destruct (Hno _ _ X2).
    + intros _ Hc. by destruct (Hno _ _ X1).
  - intros j c Hj Hc. by rewrite L1.
Qed.

(** The INSERT of [Begin], with any fault. *)
Lemma create_inv w s k f n1 n2 cs st i k' h :
  inv_ w k cs st -> cs !! i = Some (BCreate k' h) -> w <= n1 + runningTimeout ->
  let '(b', st') := bstep s f n1 n2 (BCreate k' h) st in inv_ w k (<[i := b']> cs) st'.
Proof.
  intros I Hb Hw. pose proof I as [W I2 _ _ _]. simpl. set (rec0 := new_record s k' h n1).
  pose proof (fun id => new_record_running w s k' h n1 id Hw) as Hrun. fold rec0 in Hrun.
  destruct (repo_Create f rec0 st) as [[rec|e] st1] eqn:E.
  - destruct (create_ok f rec0 st rec) as (Hn & id & Hid & -> & W1 & L1); [done|by rewrite E|].
    rewrite E in W1, L1. simpl in *. destruct (decide (k = k')) as [->|Hk].
    + eapply inv_start; [done..|by rewrite L1, decide_True|done].
    + move_client; by rewrite L1, decide_False.
  - destruct (create_any f rec0 st W) as [W1 L1]. rewrite E in W1, L1. simpl in *.
    assert ((look st k <> None -> look st1 k <> None) /\
            (forall r, look st1 k = Some r -> running_until w r)) as [A1 A2].
    { destruct L1 as [L1|(Hn & id & L1)]; rewrite L1; [done|].
      destruct (decide (k = k')); [|done]. split; [done|]. by intros r [= <-]. }
    destruct e; move_client.
Qed.

Lemma bstep_inv w s k f n1 n2 cs st i b :
  inv_ w k cs st -> cs !! i = Some b -> n1 <= w -> w <= n1 + runningTimeout -> w <= n2 + runningTimeout ->
  inv_ w k (<[i := (bstep s f n1 n2 b st).1]> cs) (bstep s f n1 n2 b st).2.
Proof.
  intros I Hb Hn1 Hw1 Hw2. pose proof I as [W I2 I3 I4 I5].
  destruct b as [k' h|k' h|k' h|k' h r|k' x]; simpl.
  - pose proof (get_any f k' st W) as G. destruct (repo_Get f k' st) as [r|e]; simpl.
    + move_client. intros h0 r0 [= -> _ ->]. by apply I2.
    + destruct e; move_client.
  - pose proof (create_inv w s k f n1 n2 cs st i k' h I Hb Hw1) as C. simpl in C.
    by destruct (repo_Create f _ st) as [[rec|[]] st1].
  - pose proof (get_any f k' st W) as G. destruct (repo_Get f k' st) as [r|e]; simpl.
    + move_client. intros h0 r0 [= -> _ ->]. by apply I2.
    + move_client.
  - destruct (decision_state f n1 n2 r h st) as [Hst|(Hs & Hh & Hst)];
      pose proof (decision_started f n1 n2 r h st) as Hstart;
      destruct (decisionForExisting f n1 n2 r h st) as [x st1]; simpl in *; subst st1.
    + move_client. destruct x as [br|]; simpl; [|tauto]. intros [-> Hb'].
      specialize (Hstart br eq_refl Hb').
      rewrite (running_not_stale w) in Hstart; [done|by eapply I3|done].
    + destruct (restart_inv w k f (ID r) h (Add n2 runningTimeout) n2 st W) as (A1 & A2 & A3);
        [unfold Add; lia|done|].
      move_client. destruct x as [br|]; simpl; [|tauto]. intros [-> Hb'].
      rewrite (running_not_stale w) in Hs; [done|by eapply I3|done].
  - rewrite list_insert_id by done. done.
Qed.

(** C1. At most one start: any number of concurrent calls for any requests, interleaved in any
    order at their database statements and with any faults, start a given new scope at
    most once as long as all clock readings fall within one running timeout. *)
Theorem at_most_one_start s k cs st t0 sched :
  rwf st -> look st k = None ->
  Forall (fun b => match b with BGet _ _ => True | _ => False end) cs ->
  Forall (fun x => t0 <= x.2.1.2 <= t0 + runningTimeout /\ t0 <= x.2.2 <= t0 + runningTimeout) sched ->
  let cs' := (interleave s sched cs st).1 in
  forall i j b c, cs' !! i = Some b -> cs' !! j = Some c -> started k b -> started k c -> i = j.
Proof.
  intros W L Hcs Hsched.
  assert (inv_ (t0 + runningTimeout) k cs st) as I.
  { rewrite Forall_lookup in Hcs. split; [done|..].
    - congruence.
    - intros i h r Hi. by specialize (Hcs _ _ Hi).
    - intros i j b c Hi _ Hb. specialize (Hcs _ _ Hi). by destruct b.
    - intros i b Hi Hb. specialize (Hcs _ _ Hi). by destruct b. }
  clear Hcs W L. revert cs st I. induction sched as [|[i [[f n1] n2]] sched IH]; intros cs st I.
  - apply I.
  - apply Forall_cons in Hsched as [[Hn1 Hn2] Hsched]. simpl in *.
    destruct (cs !! i) as [b|] eqn:E; [|by apply IH].
    pose proof (bstep_inv (t0 + runningTimeout) s k f n1 n2 cs st i b I E) as I'.
    destruct (bstep s f n1 n2 b st) as [b' st']. apply IH; [done|]. apply I'; lia.
Qed.
End props.

(** C40. Storage keys separate scopes: what is hashed determines the normalized scope (no two scopes
    have the same framing, whatever bytes their parts hold), and two storage keys are equal exactly
    if the SHA-256 digests of the two framings are.  So scopes that differ once normalized
    share a key only if their own framings collide under SHA-256. *)
Theorem storage_key_separates `{UnicodeCase} ep s1 s2 n1 n2 :
  NormalizeScope ep s1 = Ok n1 -> NormalizeScope ep s2 = Ok n2 ->
  Forall fits_int (scope_parts n1) -> Forall fits_int (scope_parts n2) ->
  (frames (scope_parts n1) = frames (scope_parts n2) <-> n1 = n2) /\
  (StorageKey ep s1 = StorageKey ep s2 <-> Sum256 (frames (scope_parts n1)) = Sum256 (frames (scope_parts n2))) /\
  (n1 <> n2 -> StorageKey ep s1 = StorageKey ep s2 ->
   frames (scope_parts n1) <> frames (scope_parts n2) /\
   Sum256 (frames (scope_parts n1)) = Sum256 (frames (scope_parts n2))).
Proof.
  intros E1 E2 F1 F2.
  assert (frames (scope_parts n1) = frames (scope_parts n2) <-> n1 = n2) as Hf.
  { split; [|by intros ->]. intros E. apply frames_inj in E; [|done..].
    destruct n1, n2. unfold scope_parts in E. simpl in E. congruence. }
  assert (StorageKey ep s1 = StorageKey ep s2 <->
          Sum256 (frames (scope_parts n1)) = Sum256 (frames (scope_parts n2))) as Hk.
  { unfold StorageKey. rewrite E1, E2. cbn [res_bind]. fold (scope_parts n1) (scope_parts n2).
    unfold HashParts, trimHashPrefix. rewrite !TrimPrefix_app. split; [|by intros ->].
    intros E. assert (forall x y : string, @Ok keyErr string x = Ok y -> x = y) as Hok by congruence.
    apply Hok, sapp_inj_l, hexEncode_inj in E. done. }
  split_and!; [done..|]. intros Hne Heq. rewrite Hf. split; [done|]. by apply Hk.
Qed.

(** ** On a concrete table *)
Import MemTable.
#[local] Existing Instance plain_case.
Abbreviation itbl := (@tbl IdemRecord mem_table).

Definition hash1 : string := "sha256:0000000000000000000000000000000000000000000000000000000000000001".
Definition hash2 : string := "sha256:0000000000000000000000000000000000000000000000000000000000000002".
Definition input1 : BeginInput := mkBeginInput 7 9 " key-1 " "post" "/orders" hash1.
Definition input2 : BeginInput := mkBeginInput 7 9 "key-1" "POST" "/orders" hash2.
Definition scope1 : scope := mkScope 7 9 "key-1" "POST" "/orders".
Definition empty_repo : itbl := empty_tbl.
Definition running1 : itbl :=
  (Begin NoFault NoFault NoFault NoFault 100 100 100 (NewService true) input1 empty_repo).2.

Lemma running1_wf : rwf (running1 : @repo Repo).
Proof.
  change (mwf running1). unfold mwf, distinct_rows. vm_compute.
  repeat split; repeat constructor; try set_solver; done.
Qed.

Lemma begin_decides_witness :
  Begin NoFault NoFault NoFault NoFault 200 200 200 (NewService true) input2 running1
  = (Err ErrRequestMismatch, running1).
Proof.
  pose proof (begin_decides 200 200 200 (NewService true) input2 (running1 : @repo Repo) scope1 hash2
    running1_wf eq_refl ltac:(vm_compute; reflexivity)) as H.
  vm_compute in H. destruct H as (_ & _ & H & _). vm_compute. by rewrite H || reflexivity.
Defined.

Definition later_ops : list iop :=
  [OpBegin NoFault NoFault NoFault NoFault 400 400 400 input2; OpComplete (LostReply "eof") 500 2 200 "x" true;
   OpGC 0 NoFault 600 None].
Lemma completed_request_replays_witness :
  exists br, (Begin NoFault NoFault NoFault NoFault 900 900 900 (NewService true) input1
    (foldl (fun st o => iexec (NewService true) o st)
       (Complete NoFault 300 (NewService true) 1 201 "{}" false running1).2 later_ops)).1 = Ok br /\
    Replay br = true /\ br_Status br = 201 /\ br_Body br = "{}".
Proof.
  destruct (completed_request_replays (NewService true) input1 scope1 hash1
    (set_ID 1 (new_record (NewService true) scope1 hash1 100)) 201 "{}" 300 later_ops 900 900 900 input2 hash2
    (running1 : @repo Repo) running1_wf eq_refl ltac:(vm_compute; reflexivity) eq_refl ltac:(lia)
    ltac:(repeat constructor; vm_compute; discriminate) ltac:(vm_compute; reflexivity) ltac:(vm_compute; reflexivity)
    ltac:(vm_compute; discriminate)) as [(br & E & _ & H1 & H2 & H3) _].
  exact (ex_intro _ br (conj (f_equal fst E) (conj H1 (conj H2 H3)))).
Defined.

Definition crowd : list bstate := [BGet scope1 hash1; BGet scope1 hash1; BGet scope1 hash2].
Definition rush : list (nat * (fault * Time * Time)) :=
  [(0%nat, (NoFault, 1, 1)); (1%nat, (NoFault, 2, 2)); (2%nat, (NoFault, 3, 3)); (1%nat, (NoFault, 4, 4));
   (0%nat, (NoFault, 5, 5)); (2%nat, (LostReply "eof", 6, 6)); (0%nat, (NoFault, 7, 7)); (0%nat, (NoFault, 8, 8))].
Lemma at_most_one_start_witness :
  let cs := (interleave (NewService true) rush crowd (empty_repo : @repo Repo)).1 in
  (exists b, cs !! 1%nat = Some b /\ started scope1 b) /\
  forall i b, cs !! i = Some b -> started scope1 b -> i = 1%nat.
Proof.
  intros cs. assert (exists b, cs !! 1%nat = Some b /\ started scope1 b) as [b [Hb Hs]].
  { eexists. split; [vm_compute; reflexivity|]. vm_compute. done. }
  split; [by exists b|]. intros i c Hc Hs'.
  apply (at_most_one_start (NewService true) scope1 crowd (empty_repo : @repo Repo) 0 rush) with c b; try done.
  - exact (empty_mwf (Row := IdemRecord)).
  - by repeat constructor.
  - unfold rush, runningTimeout, Second. repeat constructor; simpl; lia.
Defined.

Definition demo_scope : RequestScope := mkRequestScope " 7" "91" "post" "/orders" "k1 ".
Definition demo_norm : RequestScope := mkRequestScope "7" "91" "POST" "/orders" "k1".
(** The same bytes, cut differently between tenant and principal. *)
Definition other_scope : RequestScope := mkRequestScope "79" "1" "post" "/orders" "k1".
Definition other_norm : RequestScope := mkRequestScope "79" "1" "POST" "/orders" "k1".
Lemma storage_key_separates_witness :
  frames (scope_parts demo_norm) <> frames (scope_parts other_norm) /\
  StorageKey (fun _ => None) demo_scope <> StorageKey (fun _ => None) other_scope.
Proof.
  destruct (storage_key_separates (fun _ => None) demo_scope other_scope demo_norm other_norm) as (Hf & Hk & _).
  - vm_compute. reflexivity.
  - vm_compute. reflexivity.
  - repeat constructor; vm_compute; discriminate.
  - repeat constructor; vm_compute; discriminate.
  - rewrite Hf, Hk. split; vm_compute; discriminate.
Defined.

(** Taking over a stale run is not exclusive: two calls that both read the stale record
    before either restarts it both start. *)
Lemma stale_takeover_starts_twice :
  let late := 100 + 2 * runningTimeout in
  let sched := [(0%nat, (NoFault, late, late)); (1%nat, (NoFault, late, late));
                (0%nat, (NoFault, late, late)); (1%nat, (NoFault, late, late))] in
  Forall (started scope1)
    (interleave (NewService true) sched [BGet scope1 hash1; BGet scope1 hash1] (running1 : @repo Repo)).1.
Proof. vm_compute. repeat constructor. Qed.
End IdemProps.
