(* ===== verification/IdemHttp.v ===== *)
(** * idempotency/middleware.go: recording and replaying write responses

    The Gin context enters as the request data the middleware reads; the handlers behind it
    as a function on the application's state that returns what they wrote. *)
From S2P Require Import Prelude GoStd Sha256 SqlSpec Idempotency.
Import RepoFacts IdemFacts.
Open Scope go_scope.

Definition MaxRequestBodyBytes : Z := 1048576.

(** What the middleware reads of the request. [body] is the bytes the reader yields and the
    error it ends in, if any; claims are present when the context holds a value of the
    expected type that is not nil. *)
Record request := mkRequest {
  q_key : string;                        (* Idempotency-Key *)
  q_method : string;
  q_path : string;
  q_body : string * option string;
  q_tenant_claims : option (Z * Z);      (* TenantID, PrincipalID *)
  q_platform_claims : option Z;          (* PrincipalID *)
  q_param_tenant : string;
  q_query_tenant : string }.

(** What the handlers did: status, the successive writes, and the sensitivity header. *)
Record handled := mkHandled { h_status : Z; h_writes : list string; h_sensitive : bool }.

Inductive response :=
| Passed (h : handled)
| Replayed (status : Z) (body : string)
| Aborted (status : Z).

Inductive bodyErr := errRequestBodyTooLarge | errRead (e : string).

(** io.ReadAll of a reader limited to one byte more than the maximum. *)
Definition readBoundedBody (body : string * option string) : res bodyErr string :=
  let lim := MaxRequestBodyBytes + 1 in
  if lim <=? slen body.1 then Err errRequestBodyTooLarge
  else match body.2 with
       | Some e => Err (errRead e)
       | None => if MaxRequestBodyBytes <? slen body.1 then Err errRequestBodyTooLarge else Ok body.1
       end.

Definition isWriteMethod (method : string) : bool :=
  String.eqb method "POST" || String.eqb method "PUT" || String.eqb method "PATCH" ||
  String.eqb method "DELETE".

Definition responseCapture (writes : list string) : string := foldl (fun b w => b +:+ w) "" writes.

Definition writeMiddlewareError (e : idemErr) : response :=
  match e with
  | ErrInvalidInput => Aborted 400
  | ErrRequestMismatch | ErrRequestInProcess | ErrSensitiveResponse => Aborted 409
  | _ => Aborted 500
  end.

Section middleware.
Context `{UnicodeCase} `{Repository}.
Variable escaped_path : string -> option string.
(** encoding/json: the tenant_id of a JSON body, when it decodes. *)
Variable json_tenant : string -> option Z.

Definition idempotencyScope (q : request) (body : string) : option (Z * Z) :=
  match q_tenant_claims q with
  | Some ids => Some ids
  | None =>
      match q_platform_claims q with
      | None => None
      | Some principal =>
          if principal =? 0 then None else
          let tid := (ParseUint (q_param_tenant q)).1 in
          let tid := if tid =? 0 then (ParseUint (q_query_tenant q)).1 else tid in
          let tid := if (tid =? 0) && (0 <? slen body) then default tid (json_tenant body) else tid in
          if tid =? 0 then None else Some (tid, principal)
      end
  end.

(** Faults and clocks of the service calls made for one request. *)
Record env := mkEnv { e_f1 : fault; e_f2 : fault; e_f3 : fault; e_f4 : fault; e_f5 : fault;
                      e_now : Time; e_now1 : Time; e_now2 : Time; e_at : Time }.

Definition Middleware {A : Type} (e : env) (svc : Service) (next : string -> A -> handled * A)
    (q : request) (st : repo) (a : A) : response * (repo * A) :=
  let pass body := let '(h, a') := next body a in (Passed h, (st, a')) in
  if String.eqb (q_key q) "" || negb (isWriteMethod (q_method q)) then pass (q_body q).1 else
  match readBoundedBody (q_body q) with
  | Err errRequestBodyTooLarge => (Aborted 413, (st, a))
  | Err (errRead _) => (Aborted 400, (st, a))
  | Ok body =>
      match idempotencyScope q body with
      | None => pass body
      | Some (tenantID, principalID) =>
          match Begin (e_f1 e) (e_f2 e) (e_f3 e) (e_f4 e) (e_now e) (e_now1 e) (e_now2 e) svc
                  (mkBeginInput tenantID principalID (q_key q) (q_method q) (q_path q)
                     (RequestHash escaped_path (q_method q) (q_path q) body)) st with
          | (Err er, st1) => (writeMiddlewareError er, (st1, a))
          | (Ok result, st1) =>
              if Replay result then (Replayed (br_Status result) (br_Body result), (st1, a)) else
              let '(h, a') := next body a in
              let '(_, st2) := Complete (e_f5 e) (e_at e) svc (ID (br_Record result)) (h_status h)
                                 (responseCapture (h_writes h)) (h_sensitive h) st1 in
              (Passed h, (st2, a'))
          end
      end
  end.
End middleware.

Module IdemHttpProps.
Section props.
Context `{UnicodeCase} `{RepositoryLaws}.
Variable escaped_path : string -> option string.
Variable json_tenant : string -> option Z.

Definition no_faults (e : env) : Prop :=
  e_f1 e = NoFault /\ e_f2 e = NoFault /\ e_f3 e = NoFault /\ e_f4 e = NoFault /\ e_f5 e = NoFault.

(** The request takes part in idempotency, with scope [k], hash [hash] and body [body]. *)
Definition eligible (q : request) (k : scope) (hash body : string) : Prop :=
  q_key q <> "" /\ isWriteMethod (q_method q) = true /\ readBoundedBody (q_body q) = Ok body /\
  exists tenant principal, idempotencyScope json_tenant q body = Some (tenant, principal) /\
    begin_input (mkBeginInput tenant principal (q_key q) (q_method q) (q_path q)
                   (RequestHash escaped_path (q_method q) (q_path q) body)) = Ok (k, hash).

(** Running the middleware on an eligible request. *)
Lemma middleware_eligible {A} e svc (next : string -> A -> handled * A) q st a k hash body :
  no_faults e -> srv_repo svc = true -> rwf st -> eligible q k hash body ->
  Middleware escaped_path json_tenant e svc next q st a =
  match look st k with
  | None =>
      match repo_Create NoFault (new_record svc k hash (e_now e)) st with
      | (Ok rec, st1) =>
          let '(h, a') := next body a in
          (Passed h, ((Complete NoFault (e_at e) svc (ID rec) (h_status h)
                         (responseCapture (h_writes h)) (h_sensitive h) st1).2, a'))
      | _ => Middleware escaped_path json_tenant e svc next q st a
      end
  | Some rec =>
      match decisionForExisting NoFault (e_now1 e) (e_now2 e) rec hash st with
      | (Err er, st1) => (writeMiddlewareError er, (st1, a))
      | (Ok result, st1) =>
          if Replay result then (Replayed (br_Status result) (br_Body result), (st1, a))
          else Middleware escaped_path json_tenant e svc next q st a
      end
  end.
Proof.
  intros (F1 & F2 & F3 & F4 & F5) Hs W (Hk & Hm & Hb & t & p & Hsc & Hi).
  unfold Middleware. destruct (String.eqb_spec (q_key q) ""); [done|]. rewrite Hm. cbn [negb orb].
  rewrite Hb, Hsc. unfold Begin. rewrite Hi, Hs, F1, F2, F4, F5. cbn [negb].
  rewrite get_look by done.
  destruct (look st k) as [rec|] eqn:E.
  - destruct (decisionForExisting _ _ _ _ _ _) as [[br|er] st1]; [|done]. by destruct (Replay br).
  - destruct (repo_Create _ _ st) as [[rec|er] st1] eqn:Ec; [|done]. cbn [Replay br_Record].
    destruct (next body a) as [h a']. by destruct (Complete _ _ _ _ _ _ _ _).
Qed.

(** C2. Handlers run once: the first eligible request for a new scope runs the handlers; when
    they answer with a valid status, an identical request afterwards does not run them
    again (the application's state is untouched): it replays the recorded status and body,
    or is refused with 409 when the response was marked sensitive. *)
Theorem handlers_run_once {A} e1 e2 svc (next : string -> A -> handled * A) q st a k hash body h a1 :
  no_faults e1 -> no_faults e2 -> srv_repo svc = true -> rwf st ->
  eligible q k hash body -> look st k = None ->
  next body a = (h, a1) -> 100 <= h_status h <= 599 ->
  exists st1 st2,
    Middleware escaped_path json_tenant e1 svc next q st a = (Passed h, (st1, a1)) /\
    Middleware escaped_path json_tenant e2 svc next q st1 a1 =
      (if h_sensitive h then Aborted 409 else Replayed (h_status h) (responseCapture (h_writes h)),
       (st2, a1)).
Proof.
  intros He1 He2 Hs W Hel L Hn Hst.
  rewrite (middleware_eligible e1 svc next q st a k hash body) by done. rewrite L.
  destruct (create_new (new_record svc k hash (e_now e1)) st W L) as (id & st0 & -> & W0 & Hid & L0).
  rewrite Hn. cbn [ID set_ID].
  set (status := if h_sensitive h then StatusCompletedSensitive else StatusCompleted).
  set (out := if h_sensitive h then "" else responseCapture (h_writes h)).
  destruct (complete_look (e_at e1) id status (h_status h) out st0 W0) as (st1 & E1 & W1 & L1);
    [unfold status; by destruct (h_sensitive h)|].
  assert ((Complete NoFault (e_at e1) svc id (h_status h) (responseCapture (h_writes h))
            (h_sensitive h) st0) = (Ok (), st1)) as Ec.
  { unfold Complete. zdec.
    zdec.
    rewrite Hs. exact E1. }
  rewrite Ec. exists st1, st1. split; [done|].
  rewrite (middleware_eligible e2 svc next q st1 a1 k hash body) by done.
  rewrite L1, L0, decide_True by done. simpl. rewrite Z.eqb_refl.
  unfold decisionForExisting. simpl. rewrite String.eqb_refl. cbn [negb].
  unfold status, out. by destruct (h_sensitive h).
Qed.
End props.

Import MemTable.
#[local] Existing Instance plain_case.
Definition demo_req : request :=
  mkRequest "key-1" "POST" "/orders" ("{}", None) None (Some 9) "" "7".
Definition demo_env (t : Time) : env := mkEnv NoFault NoFault NoFault NoFault NoFault t t t t.
Definition demo_next (body : string) (n : nat) : handled * nat := (mkHandled 201 ["{"; "}"] false, S n).

Definition demo_path (p : string) : option string := None.
Definition demo_json (b : string) : option Z := None.
Definition demo_repo : @repo Repo := empty_tbl.
Definition demo_run (t : Time) (st : @repo Repo) (n : nat) : response * (@repo Repo * nat) :=
  Middleware demo_path demo_json (demo_env t) (NewService true) demo_next demo_req st n.

Lemma handlers_run_once_witness :
  let r1 := demo_run 100 demo_repo 0 in
  let r2 := demo_run 200 r1.2.1 r1.2.2 in
  r2.1 = Replayed 201 "{}" /\ r2.2.2 = 1%nat.
Proof.
  intros r1 r2.
  destruct (handlers_run_once demo_path demo_json (demo_env 100) (demo_env 200) (NewService true)
    demo_next demo_req demo_repo 0%nat (mkScope 7 9 "key-1" "POST" "/orders")
    (RequestHash demo_path "POST" "/orders" "{}") "{}" (mkHandled 201 ["{"; "}"] false) 1%nat)
    as (st1 & st2 & E1 & E2).
  - by repeat split.
  - by repeat split.
  - done.
  - exact (empty_mwf (Row := IdemRecord)).
  - split_and!; [done|done|by vm_compute|]. exists 7, 9. split; vm_compute; reflexivity.
  - reflexivity.
  - reflexivity.
  - simpl. lia.
  - assert (r1 = (Passed (mkHandled 201 ["{"; "}"] false), (st1, 1%nat))) as R1 by exact E1.
    subst r2. rewrite R1. cbn [fst snd]. unfold demo_run. rewrite E2. split; reflexivity.
Defined.
End IdemHttpProps.
