(* ===== verification/RedisSpec.v ===== *)
(** * The Redis server and its Lua scripts, as an interface

    Redis is a service the packages talk to.  [Redis] lists the commands they send,
    [RedisLaws] the documented effect of each on the keyspace (https://redis.io/commands),
    and the clients' theorems are proved against these classes.  [MemRedis] is a keyspace
    that satisfies the laws, used to run the clients on concrete inputs.

    Times are the server's clock in milliseconds.  A view [rv db t k] is what key [k]
    holds at time [t]: its bytes and its expiry, if it has one. *)
From S2P Require Import Prelude GoStd.

Definition view := string -> option (string * option Z).

(** Keys disappear when their expiry is reached. *)
Definition expire_at (t : Z) (o : option (string * option Z)) : option (string * option Z) :=
  match o with
  | Some (v, Some e) => if e <=? t then None else o
  | _ => o
  end.

Class Redis := {
  rdb : Type;
  r_get : string -> Z -> rdb -> option string;
  r_pttl : string -> Z -> rdb -> Z;
  (* SET and SETNX as the client library issues them, with the TTL the caller passes *)
  r_set : string -> string -> Duration -> Z -> rdb -> rdb;
  r_setnx : string -> string -> Duration -> Z -> rdb -> bool * rdb;
  r_incrby : string -> Z -> Z -> rdb -> option Z * rdb;   (* None: the INCRBY error *)
  r_pexpire : string -> Z -> Z -> rdb -> Z * rdb;
  r_del : string -> Z -> rdb -> Z * rdb;
  (* the client library's conversion of a TTL to milliseconds *)
  ttl_ms : Duration -> Z;
  (* and of the argument of EXPIRE to seconds *)
  expire_secs : Duration -> Z;
  (* Lua's tonumber on the bytes of a value *)
  tonumber : string -> option Z }.

Definition upd (v : view) (k : string) (x : option (string * option Z)) : view :=
  fun k' => if decide (k' = k) then x else v k'.

Class RedisLaws (R : Redis) := {
  rv : rdb -> Z -> view;
  rv_later : forall db t t' k, t <= t' -> rv db t' k = expire_at t' (rv db t k);
  get_rv : forall k t db, r_get k t db = fst <$> rv db t k;
  pttl_rv : forall k t db,
    r_pttl k t db = match rv db t k with
                    | None => -2
                    | Some (_, None) => -1
                    | Some (_, Some e) => e - t
                    end;
  set_rv : forall k v ttl t db k', 0 < ttl ->
    rv (r_set k v ttl t db) t k' = upd (rv db t) k (Some (v, Some (t + ttl_ms ttl))) k';
  setnx_rv : forall k v ttl t db, 0 < ttl ->
    match rv db t k with
    | None => (r_setnx k v ttl t db).1 = true /\
              forall k', rv (r_setnx k v ttl t db).2 t k' = upd (rv db t) k (Some (v, Some (t + ttl_ms ttl))) k'
    | Some _ => (r_setnx k v ttl t db).1 = false /\
                forall k', rv (r_setnx k v ttl t db).2 t k' = rv db t k'
    end;
  (* a missing key counts as 0; the expiry is kept *)
  incrby_rv : forall k n t db old x,
    match rv db t k with
    | None => old = 0 /\ x = None
    | Some (v, e) => v = FormatInt old /\ x = e
    end ->
    in_int64 old -> in_int64 (old + n) ->
    (r_incrby k n t db).1 = Some (old + n) /\
    forall k', rv (r_incrby k n t db).2 t k' = upd (rv db t) k (Some (FormatInt (old + n), x)) k';
  pexpire_rv : forall k ms t db k', 0 < ms ->
    (r_pexpire k ms t db).1 = (if rv db t k is Some _ then 1 else 0) /\
    rv (r_pexpire k ms t db).2 t k' =
      upd (rv db t) k ((fun '(v, _) => (v, Some (t + ms))) <$> rv db t k) k';
  del_rv : forall k t db k',
    (r_del k t db).1 = (if rv db t k is Some _ then 1 else 0) /\
    rv (r_del k t db).2 t k' = upd (rv db t) k None k';
  ttl_ms_pos : forall d, 0 < d -> 0 < ttl_ms d;
  expire_secs_whole : forall n, 0 < n -> expire_secs (n * Second) = n;
  tonumber_int : forall z, Z.abs z <= 2 ^ 53 -> tonumber (FormatInt z) = Some z }.

(** EXPIRE: PEXPIRE with a number of seconds. *)
Definition r_expire `{Redis} (k : string) (d : Duration) (t : Z) (db : rdb) : Z * rdb :=
  r_pexpire k (1000 * expire_secs d) t db.

(** ** Lua scripts: they run atomically at one server time; [None] is a script error. *)
Definition Script `{Redis} (A : Type) : Type := Z -> rdb -> option A * rdb.

Section script.
Context `{Redis}.
Definition s_ret {A} (a : A) : Script A := fun _ db => (Some a, db).
Definition s_bind {A B} (m : Script A) (f : A -> Script B) : Script B := fun t db =>
  match m t db with
  | (Some a, db') => f a t db'
  | (None, db') => (None, db')
  end.
Definition GET (k : string) : Script (option string) := fun t db => (Some (r_get k t db), db).
Definition PTTL (k : string) : Script Z := fun t db => (Some (r_pttl k t db), db).
Definition INCRBY (k : string) (n : Z) : Script Z := r_incrby k n.
Definition PEXPIRE (k : string) (ms : Z) : Script Z := fun t db =>
  let '(n, db') := r_pexpire k ms t db in (Some n, db').
(** EXPIRE takes seconds. *)
Definition EXPIRE (k : string) (s : Z) : Script Z := PEXPIRE k (s * 1000).
Definition DEL (k : string) : Script Z := fun t db =>
  let '(n, db') := r_del k t db in (Some n, db').
(** [tonumber(redis.call("GET", k) or "0")]; using [nil] as a number is an error. *)
Definition GET_number (k : string) : Script Z := fun t db =>
  (tonumber (default "0" (r_get k t db)), db).
End script.

Notation "x <~ m ; k" := (s_bind m (fun x => k))
  (at level 20, m at level 100, k at level 200, right associativity) : go_scope.

(** ** One round trip of a client *)
(** EVAL: a script error is an error reply. *)
Definition eval `{Redis} {A} (f : fault) (s : Script A) (t : Z) (db : rdb) : res string A * rdb :=
  match call f (s t) db with
  | (Ok (Some a), db') => (Ok a, db')
  | (Ok None, db') => (Err "ERR script", db')
  | (Err e, db') => (Err e, db')
  end.

(** ** Views *)
Section view_facts.
Context `{RedisLaws}.

Lemma upd_eq v k x : upd v k x k = x.
Proof. unfold upd. by rewrite decide_True. Qed.
Lemma upd_ne v k x k' : k' <> k -> upd v k x k' = v k'.
Proof. intros Hk. unfold upd. by rewrite decide_False. Qed.

Lemma rv_live db t k v e : rv db t k = Some (v, Some e) -> t < e.
Proof.
  intros Hk. pose proof (rv_later db t t k ltac:(lia)) as Hl. rewrite Hk in Hl. simpl in Hl.
  destruct (Z.leb_spec e t); [done | lia].
Qed.
Lemma rv_still db t t' k v e :
  t <= t' -> rv db t k = Some (v, Some e) -> t' < e -> rv db t' k = Some (v, Some e).
Proof.
  intros Ht Hk He. rewrite (rv_later db t t' k Ht), Hk. simpl.
  destruct (Z.leb_spec e t'); [lia | done].
Qed.
Lemma rv_gone db t t' k v e :
  t <= t' -> rv db t k = Some (v, Some e) -> e <= t' -> rv db t' k = None.
Proof.
  intros Ht Hk He. rewrite (rv_later db t t' k Ht), Hk. simpl.
  destruct (Z.leb_spec e t'); [done | lia].
Qed.
Lemma rv_stays_none db t t' k : t <= t' -> rv db t k = None -> rv db t' k = None.
Proof. intros Ht Hk. by rewrite (rv_later db t t' k Ht), Hk. Qed.
Lemma rv_same db db' t t' k :
  t <= t' -> rv db t k = rv db' t k -> rv db t' k = rv db' t' k.
Proof. intros Ht Hk. by rewrite !(rv_later _ t t' k Ht), Hk. Qed.

(** Key [k] holds the counter [n] with expiry [x]; a missing key counts as 0. *)
Definition counter (db : rdb) (t : Z) (k : string) (n : Z) (x : option Z) : Prop :=
  match rv db t k with
  | None => n = 0 /\ x = None
  | Some (v, e) => v = FormatInt n /\ x = e
  end.

Lemma counter_number db t k n x :
  counter db t k n x -> Z.abs n <= 2 ^ 53 -> GET_number k t db = (Some n, db).
Proof.
  unfold counter, GET_number. intros Hc Hn. rewrite get_rv.
  destruct (rv db t k) as [[v e]|]; simpl; destruct Hc as [-> _]; [by rewrite tonumber_int|].
  by rewrite (tonumber_int 0).
Qed.
End view_facts.
#[export] Hint Rewrite @upd_eq : go_rw.
#[export] Hint Rewrite @upd_ne using done : go_rw.

(** ** A keyspace that satisfies the laws *)
Module MemRedis.

Definition mdb : Type := gmap string (string * option Z).
Definition mview (db : mdb) (t : Z) : view := fun k => expire_at t ((db : gmap _ _) !! k).
Definition mput (k : string) (x : string * option Z) (db : mdb) : mdb := <[k := x]> (db : gmap _ _).
Definition mint (s : string) : option Z := match ParseInt s with (z, None) => Some z | _ => None end.

Definition mttl (d : Duration) : Z := Z.max 1 (d / Millisecond).
Definition msecs (d : Duration) : Z := if (0 <? d) && (d <? Second) then 1 else Z.quot d Second.
(** A non-positive TTL stores without an expiry. *)
Definition mexpiry (t : Z) (d : Duration) : option Z := if 0 <? d then Some (t + mttl d) else None.

#[export] Instance mem_redis : Redis := {|
  rdb := mdb;
  r_get k t db := fst <$> mview db t k;
  r_pttl k t db := match mview db t k with
                   | None => -2 | Some (_, None) => -1 | Some (_, Some e) => e - t end;
  r_set k v ttl t db := mput k (v, mexpiry t ttl) db;
  r_setnx k v ttl t db := match mview db t k with
                          | None => (true, mput k (v, mexpiry t ttl) db)
                          | Some _ => (false, db) end;
  r_incrby k n t db :=
    let '(v, e) := default ("0", None) (mview db t k) in
    match mint v with
    | Some old => (Some (old + n), mput k (FormatInt (old + n), e) db)
    | None => (None, db)
    end;
  r_pexpire k ms t db := match mview db t k with
                         | Some (v, _) => (1, mput k (v, Some (t + ms)) db)
                         | None => (0, db) end;
  r_del k t db := (if mview db t k is Some _ then 1 else 0, delete k (db : gmap _ _));
  ttl_ms := mttl;
  expire_secs := msecs;
  tonumber := mint |}.

Lemma expire_expire t t' o : t <= t' -> expire_at t' (expire_at t o) = expire_at t' o.
Proof.
  intros Ht. destruct o as [[v [e|]]|]; [|done|done]. simpl.
  destruct (Z.leb_spec e t); simpl; destruct (Z.leb_spec e t'); try done; lia.
Qed.
Lemma mview_put k v x t db k' :
  expire_at t (Some (v, x)) = Some (v, x) ->
  mview (mput k (v, x) db) t k' = upd (mview db t) k (Some (v, x)) k'.
Proof.
  intros Hx. unfold mview, mput, upd. rewrite lookup_insert. repeat case_decide; congruence.
Qed.
Lemma mview_live db t k v e : mview db t k = Some (v, e) -> expire_at t (Some (v, e)) = Some (v, e).
Proof. unfold mview. intros <-. by apply expire_expire. Qed.
Lemma expire_future t v ms : 0 < ms -> expire_at t (Some (v, Some (t + ms))) = Some (v, Some (t + ms)).
Proof. intros Hm. simpl. destruct (Z.leb_spec (t + ms) t); [lia | done]. Qed.
Lemma upd_same db t k k' : mview db t k' = upd (mview db t) k (mview db t k) k'.
Proof. unfold upd. by destruct (decide (k' = k)) as [->|]. Qed.

#[export] Instance mem_redis_laws : RedisLaws mem_redis.
Proof.
  refine {| rv := mview |}; simpl; intros.
  - unfold mview. by rewrite expire_expire.
  - done.
  - done.
  - unfold mexpiry. rewrite (proj2 (Z.ltb_lt _ _)) by done.
    apply mview_put, expire_future. unfold mttl. lia.
  - unfold mexpiry. rewrite (proj2 (Z.ltb_lt _ _)) by done.
    destruct (mview db t k) as [[v0 e0]|]; [by split|]. split; [done|].
    intros k'. apply mview_put, expire_future. unfold mttl. lia.
  - destruct (mview db t k) as [[v0 e0]|] eqn:E; simpl; destruct H as [H ->].
    + rewrite H. unfold mint. rewrite ParseInt_FormatInt by done. split; [done|]. intros k'.
      apply mview_put. apply mview_live in E. destruct e0; [|done]. simpl in *.
      by destruct (_ <=? t).
    + subst. split; [done|]. intros k'. by apply mview_put.
  - destruct (mview db t k) as [[v0 e0]|] eqn:E; simpl; (split; [done|]).
    + by apply mview_put, expire_future.
    + rewrite <- E. apply upd_same.
  - split; [done|]. unfold mview, upd. destruct (decide (k' = k)) as [->|Hne]; [by rewrite lookup_delete_eq | by rewrite lookup_delete_ne].
  - unfold mttl. lia.
  - unfold msecs, Second. rewrite (proj2 (Z.ltb_ge (_ * _) _)), andb_false_r by lia. by rewrite Z.quot_mul.
  - unfold mint. rewrite ParseInt_FormatInt; [done|]. unfold in_int64, minInt64, maxInt64. lia.
Defined.
Definition empty_db : @rdb mem_redis := (∅ : mdb).
End MemRedis.
