(* ===== verification/RedisLocks.v ===== *)
(** * Locks kept in Redis

    lock/lock.go ([Locker]), lock/distributed.go ([Distributed]), the Redis lock manager of
    runtimeguard/redis.go ([Guard]) and idempotent/idempotent.go ([Idempotent]).  All of
    them take a lock with SET NX and a random token and give it back with a script that
    compares the token; the Redis server is the interface of [RedisSpec].  Every function
    takes the faults of its round trips, the tokens the random source produced and the
    server time [t]. *)
From S2P Require Import Prelude GoStd RedisSpec.
Open Scope go_scope.

Inductive lockErr :=
| ErrLockNotAcquired | ErrLocked | ErrNotOwner | ErrAlreadyReleased
| ErrInvalidTTL | ErrEmptyKey | ErrNilClient
| ErrDuplicateRequest | ErrNilStore | ErrNilManager
| ErrToken (e : string)
| ErrRedis (e : string).

Section locks.
Context `{Redis}.

(** Compare-and-delete (the packages keep three copies of this script) and compare-and-expire. *)
Definition luaRelease (key token : string) : Script Z :=
  v <~ GET key;
  if bool_decide (v = Some token) then DEL key else s_ret 0.
Definition unlockScript : string -> string -> Script Z := luaRelease.
Definition redisLockReleaseScript : string -> string -> Script Z := luaRelease.
Definition renewScript (key token : string) (ms : Z) : Script Z :=
  v <~ GET key;
  if bool_decide (v = Some token) then PEXPIRE key ms else s_ret 0.

(** ** lock.Locker *)
(** The unlock closure captures the key and the token. *)
Definition TryLock (f : fault) (token key : string) (ttl : Duration) (t : Z) (db : rdb)
  : res lockErr (string * string) * rdb :=
  match call f (r_setnx key token ttl t) db with
  | (Err e, db') => (Err (ErrRedis e), db')
  | (Ok ok, db') => (if ok then Ok (key, token) else Err ErrLockNotAcquired, db')
  end.
Definition unlock (f : fault) (u : string * string) (t : Z) (db : rdb) : rdb :=
  (eval f (luaRelease u.1 u.2) t db).2.

(** [fn] runs while the lock is held and returns at a later server time. *)
Definition ExecuteWithLock (f1 f2 : fault) (token key : string) (ttl : Duration) (t : Z)
    (fn : rdb -> res lockErr unit * (Z * rdb)) (db : rdb) : res lockErr unit * rdb :=
  match TryLock f1 token key ttl t db with
  | (Err e, db1) => (Err e, db1)
  | (Ok u, db1) =>
      let '(r, (t', db2)) := fn db1 in (r, unlock f2 u t' db2)
  end.

(** ** lock.NewDistributed *)
Record distributedConfig := mkDistConfig { keyPrefix : string; tokenBytes : Z }.
Definition defaultDistributedConfig : distributedConfig := mkDistConfig "synapse:lock:" 16.
Definition WithKeyPrefix (prefix : string) (c : distributedConfig) : distributedConfig :=
  mkDistConfig prefix (tokenBytes c).
Definition WithTokenBytes (n : Z) (c : distributedConfig) : distributedConfig :=
  mkDistConfig (keyPrefix c) (if n <? 8 then 8 else n).

Record redisDistributedLocker := mkDistLocker { l_client : bool; l_cfg : distributedConfig }.
Definition NewDistributed (client : bool) (opts : list (distributedConfig -> distributedConfig))
  : redisDistributedLocker :=
  mkDistLocker client (foldl (fun c opt => opt c) defaultDistributedConfig opts).

(** [rand n] is what the random source returns for [n] bytes. *)
Definition newOwnerToken (rand : Z -> res string string) (n : Z) : res string string :=
  buf <-? rand n; Ok (hexEncode buf).

Record redisDistributedHandle := mkHandle {
  h_client : bool;
  fullKey : string;
  h_key : string;
  h_token : string;
  released : bool }.

Definition Dist_Acquire (f : fault) (rand : Z -> res string string) (l : redisDistributedLocker)
    (key : string) (ttl : Duration) (t : Z) (db : rdb)
  : res lockErr redisDistributedHandle * rdb :=
  if negb (l_client l) then (Err ErrNilClient, db) else
  if String.eqb key "" then (Err ErrEmptyKey, db) else
  if ttl <=? 0 then (Err ErrInvalidTTL, db) else
  match newOwnerToken rand (tokenBytes (l_cfg l)) with
  | Err e => (Err (ErrToken e), db)
  | Ok token =>
      let full := keyPrefix (l_cfg l) +:+ key in
      match call f (r_setnx full token ttl t) db with
      | (Err e, db') => (Err (ErrRedis e), db')
      | (Ok ok, db') =>
          (if ok then Ok (mkHandle (l_client l) full key token false) else Err ErrLocked, db')
      end
  end.

Definition set_released (b : bool) (h : redisDistributedHandle) : redisDistributedHandle :=
  mkHandle (h_client h) (fullKey h) (h_key h) (h_token h) b.

Definition Dist_Release (f : fault) (t : Z) (h : redisDistributedHandle) (db : rdb)
  : res lockErr unit * redisDistributedHandle * rdb :=
  if negb (h_client h) then (Err ErrNilClient, h, db) else
  if released h then (Err ErrAlreadyReleased, h, db) else
  match eval f (unlockScript (fullKey h) (h_token h)) t db with
  | (Err e, db') => (Err (ErrRedis e), set_released false h, db')
  | (Ok n, db') =>
      (if n =? 1 then Ok () else Err ErrNotOwner, set_released true h, db')
  end.

Definition Dist_Renew (f : fault) (ttl : Duration) (t : Z) (h : redisDistributedHandle) (db : rdb)
  : res lockErr unit * rdb :=
  if negb (h_client h) then (Err ErrNilClient, db) else
  if ttl <=? 0 then (Err ErrInvalidTTL, db) else
  if released h then (Err ErrAlreadyReleased, db) else
  let ms0 := ttl / Millisecond in
  let ms := if ms0 <=? 0 then 1 else ms0 in
  match eval f (renewScript (fullKey h) (h_token h) ms) t db with
  | (Err e, db') => (Err (ErrRedis e), db')
  | (Ok n, db') => (if n =? 1 then Ok () else Err ErrNotOwner, db')
  end.

(** ** runtimeguard.RedisLockManager *)
Definition redisKeyPrefix (prefix : string) : string :=
  let prefix := TrimSpace prefix in
  if String.eqb prefix "" then "runtimeguard:"
  else if HasSuffix prefix ":" then prefix
  else prefix +:+ ":".

(** Values of a reply, by dynamic type. *)
Inductive redisValue := VInt64 (z : Z) | VInt (z : Z) | VString (s : string) | VBytes (s : string) | VOther.

Definition redisValueInt (v : redisValue) : res string Z :=
  match v with
  | VInt64 z => Ok z
  | VInt z => Ok z
  | VString s | VBytes s =>
      match ParseInt s with (z, None) => Ok z | (_, Some _) => Err "strconv.ParseInt" end
  | VOther => Err "runtimeguard: redis response is not an integer"
  end.

(** [GoRedisStore.EvalInt]: a script's number comes back as an int64. *)
Definition EvalInt (client : bool) (f : fault) (s : Script Z) (t : Z) (db : rdb) : res string Z * rdb :=
  if negb client then (Err "runtimeguard: redis client is nil", db) else
  let '(r, db') := eval f s t db in
  (value <-? r; redisValueInt (VInt64 value), db').
Definition Store_SetNX (client : bool) (f : fault) (key value : string) (ttl : Duration) (t : Z) (db : rdb)
  : res string bool * rdb :=
  if negb client then (Err "runtimeguard: redis client is nil", db) else
  call f (r_setnx key value ttl t) db.

Record RedisLockManager := mkRLM { rlm_store : bool; rlm_keyPrefix : string }.
Record RedisLock := mkRedisLock { rl_Key : string; rl_Owner : string; rl_Token : string;
                                  rl_manager : option RedisLockManager }.
Definition NewRedisLockManager (store : bool) (prefix : string) : RedisLockManager :=
  mkRLM store (redisKeyPrefix prefix).
Definition lockKey (m : RedisLockManager) (key : string) : string :=
  rlm_keyPrefix m +:+ "lock:" +:+ key.
Definition newLockToken (rand : Z -> res string string) : res string string :=
  token <-? rand 32; Ok (hexEncode token).

(** [Ok None] is the [false, nil] answer. *)
Definition Guard_Acquire (f : fault) (rand : Z -> res string string) (m : RedisLockManager)
    (key owner : string) (ttl : Duration) (t : Z) (db : rdb)
  : res lockErr (option RedisLock) * rdb :=
  let key := TrimSpace key in
  let owner := TrimSpace owner in
  if String.eqb key "" || String.eqb owner "" || (ttl <=? 0) then (Ok None, db) else
  if negb (rlm_store m) then (Err ErrNilStore, db) else
  match newLockToken rand with
  | Err e => (Err (ErrToken e), db)
  | Ok token =>
      match Store_SetNX true f (lockKey m key) token ttl t db with
      | (Err e, db') => (Err (ErrRedis e), db')
      | (Ok acquired, db') =>
          (if acquired then Ok (Some (mkRedisLock key owner token (Some m))) else Ok None, db')
      end
  end.

Definition Guard_Release (f : fault) (m : RedisLockManager) (key token : string) (t : Z) (db : rdb)
  : res lockErr bool * rdb :=
  let key := TrimSpace key in
  let token := TrimSpace token in
  if String.eqb key "" || String.eqb token "" then (Ok false, db) else
  if negb (rlm_store m) then (Err ErrNilStore, db) else
  match EvalInt true f (redisLockReleaseScript (lockKey m key) token) t db with
  | (Err e, db') => (Err (ErrRedis e), db')
  | (Ok deleted, db') => (Ok (deleted =? 1), db')
  end.
Definition RedisLock_Release (f : fault) (l : RedisLock) (t : Z) (db : rdb)
  : res lockErr bool * rdb :=
  match rl_manager l with
  | None => (Err ErrNilManager, db)
  | Some m => Guard_Release f m (rl_Key l) (rl_Token l) t db
  end.

(** ** idempotent *)
Definition Check (f : fault) (token key : string) (ttl : Duration) (t : Z) (db : rdb)
  : res lockErr (string * string) * rdb :=
  match TryLock f token ("idem:" +:+ key) ttl t db with
  | (Err ErrLockNotAcquired, db') => (Err ErrDuplicateRequest, db')
  | (Err e, db') => (Err e, db')
  | (Ok u, db') => (Ok u, db')
  end.

(** What the client of the middleware sees: the handlers behind it ran, or the request
    was aborted with a status. *)
Inductive gateResult := Passed | Aborted (status : Z).

(** [next] is the rest of the handler chain; [key] the Idempotency-Key header. *)
Definition Idem_Middleware (f1 f2 : fault) (token key : string) (ttl : Duration) (t : Z)
    (next : rdb -> Z * rdb) (db : rdb) : gateResult * rdb :=
  if String.eqb key "" then (Passed, (next db).2) else
  match Check f1 token key ttl t db with
  | (Err ErrDuplicateRequest, db1) => (Aborted 409, db1)
  | (Err _, db1) => (Aborted 500, db1)
  | (Ok u, db1) => let '(t', db2) := next db1 in (Passed, unlock f2 u t' db2)
  end.

(** ** Operations of any client, as data *)
Inductive lop :=
| LTry (f : fault) (token key : string) (ttl : Duration)
| LUnlock (f : fault) (key token : string)
| LDistAcquire (f : fault) (rand : Z -> res string string) (l : redisDistributedLocker)
    (key : string) (ttl : Duration)
| LDistRelease (f : fault) (h : redisDistributedHandle)
| LDistRenew (f : fault) (h : redisDistributedHandle) (ttl : Duration)
| LGuardAcquire (f : fault) (rand : Z -> res string string) (m : RedisLockManager)
    (key owner : string) (ttl : Duration)
| LGuardRelease (f : fault) (m : RedisLockManager) (key token : string)
| LCheck (f : fault) (token key : string) (ttl : Duration).

(** The Redis key an operation came to hold, and the new keyspace. *)
Definition lexec (t : Z) (o : lop) (db : rdb) : option string * rdb :=
  match o with
  | LTry f tok k ttl =>
      let '(r, db') := TryLock f tok k ttl t db in (if is_ok r then Some k else None, db')
  | LUnlock f k tok => (None, unlock f (k, tok) t db)
  | LDistAcquire f rand l k ttl =>
      let '(r, db') := Dist_Acquire f rand l k ttl t db in
      (match r with Ok h => Some (fullKey h) | Err _ => None end, db')
  | LDistRelease f h => let '(_, _, db') := Dist_Release f t h db in (None, db')
  | LDistRenew f h ttl => (None, (Dist_Renew f ttl t h db).2)
  | LGuardAcquire f rand m k o ttl =>
      let '(r, db') := Guard_Acquire f rand m k o ttl t db in
      (match r with Ok (Some l) => Some (lockKey m (rl_Key l)) | _ => None end, db')
  | LGuardRelease f m k tok => (None, (Guard_Release f m k tok t db).2)
  | LCheck f tok k ttl =>
      let '(r, db') := Check f tok k ttl t db in
      (if is_ok r then Some ("idem:" +:+ k) else None, db')
  end.

Fixpoint lrun (os : list (Z * lop)) (db : rdb) : list (option string) * rdb :=
  match os with
  | [] => ([], db)
  | (t, o) :: os' =>
      let '(r, db1) := lexec t o db in
      let '(rs, db2) := lrun os' db1 in (r :: rs, db2)
  end.

(** An operation that does not present the token [tok] for the key [k]. *)
Definition foreign (k tok : string) (o : lop) : Prop :=
  match o with
  | LTry _ _ _ ttl | LCheck _ _ _ ttl => 0 < ttl
  | LUnlock _ k' tok' => k' = k -> tok' <> tok
  | LDistRelease _ h | LDistRenew _ h _ => fullKey h = k -> h_token h <> tok
  | LGuardRelease _ m k' tok' => lockKey m (TrimSpace k') = k -> TrimSpace tok' <> tok
  | LDistAcquire _ _ _ _ _ | LGuardAcquire _ _ _ _ _ _ => True
  end.
End locks.

Module LockFacts.
Section facts.
Context `{RedisLaws}.

(** After a round trip the keyspace is the old one or the one the body left. *)
Lemma call_cases {A} f (body : rdb -> A * rdb) db :
  (call f body db).2 = db \/ (call f body db).2 = (body db).2.
Proof. destruct f; simpl; auto. destruct (body db); auto. Qed.
Lemma eval_cases {A} f (s : Script A) t db :
  (eval f s t db).2 = db \/ (eval f s t db).2 = (s t db).2.
Proof.
  unfold eval. pose proof (call_cases f (s t) db) as Hc.
  destruct (call f (s t) db) as [[[a|]|e] db']; done.
Qed.
Lemma call_Ok {A} f (body : rdb -> A * rdb) db a db' :
  call f body db = (Ok a, db') -> body db = (a, db').
Proof. destruct f; simpl; [destruct (body db)|..]; naive_solver. Qed.

Lemma release_mine k tok t db e :
  rv db t k = Some (tok, e) ->
  exists db', luaRelease k tok t db = (Some 1, db') /\
              forall k', rv db' t k' = upd (rv db t) k None k'.
Proof.
  intros Hk. unfold luaRelease, s_bind, GET. rewrite get_rv, Hk. simpl.
  rewrite bool_decide_eq_true_2 by done. unfold DEL.
  pose proof (del_rv k t db) as Hd. destruct (r_del k t db) as [n db'] eqn:E. simpl in Hd.
  exists db'. destruct (Hd k) as [Hn _]. rewrite Hk in Hn. subst n. split; [done|].
  intros k'. apply Hd.
Qed.
Lemma release_foreign k tok t db :
  fst <$> rv db t k <> Some tok -> luaRelease k tok t db = (Some 0, db).
Proof.
  intros Hk. unfold luaRelease, s_bind, GET. rewrite get_rv.
  by rewrite bool_decide_eq_false_2.
Qed.
Lemma renew_mine k tok ms t db e :
  0 < ms -> rv db t k = Some (tok, e) ->
  exists db', renewScript k tok ms t db = (Some 1, db') /\
              forall k', rv db' t k' = upd (rv db t) k (Some (tok, Some (t + ms))) k'.
Proof.
  intros Hms Hk. unfold renewScript, s_bind, GET. rewrite get_rv, Hk. simpl.
  rewrite bool_decide_eq_true_2 by done. unfold PEXPIRE.
  pose proof (fun k' => pexpire_rv k ms t db k' Hms) as Hd.
  destruct (r_pexpire k ms t db) as [n db'] eqn:E. simpl in Hd.
  exists db'. destruct (Hd k) as [Hn _]. rewrite Hk in Hn. subst n. split; [done|].
  intros k'. destruct (Hd k') as [_ Hr]. rewrite Hr, Hk. done.
Qed.
Lemma renew_foreign k tok ms t db :
  fst <$> rv db t k <> Some tok -> renewScript k tok ms t db = (Some 0, db).
Proof.
  intros Hk. unfold renewScript, s_bind, GET. rewrite get_rv.
  by rewrite bool_decide_eq_false_2.
Qed.

(** A script of someone else's token does not touch key [k]. *)
Lemma release_keeps k x k' tok' t db :
  rv db t k = Some x -> (k' = k -> tok' <> x.1) ->
  rv (luaRelease k' tok' t db).2 t k = Some x.
Proof.
  intros Hk Hf. destruct (decide (fst <$> rv db t k' = Some tok')) as [Hm|Hm].
  - destruct (rv db t k') as [[v e]|] eqn:Ek; [|done]. simpl in Hm. simplify_eq.
    destruct (release_mine k' tok' t db e Ek) as (db' & -> & Hv). simpl. rewrite Hv, upd_ne; [done|].
    intros <-. rewrite Hk in Ek. simplify_eq. by apply Hf.
  - by rewrite release_foreign.
Qed.
Lemma renew_keeps k x k' tok' ms t db :
  0 < ms -> rv db t k = Some x -> (k' = k -> tok' <> x.1) ->
  rv (renewScript k' tok' ms t db).2 t k = Some x.
Proof.
  intros Hms Hk Hf. destruct (decide (fst <$> rv db t k' = Some tok')) as [Hm|Hm].
  - destruct (rv db t k') as [[v e]|] eqn:Ek; [|done]. simpl in Hm. simplify_eq.
    destruct (renew_mine k' tok' ms t db e Hms Ek) as (db' & -> & Hv). simpl.
    rewrite Hv, upd_ne; [done|]. intros <-. rewrite Hk in Ek. simplify_eq. by apply Hf.
  - by rewrite renew_foreign.
Qed.

(** SET NX never overwrites, and fails on a key that is held. *)
Lemma setnx_keeps k x k' v ttl t db :
  0 < ttl -> rv db t k = Some x -> rv (r_setnx k' v ttl t db).2 t k = Some x.
Proof.
  intros Httl Hk. pose proof (setnx_rv k' v ttl t db Httl) as Hs.
  destruct (rv db t k') eqn:Ek; destruct Hs as [_ Hs]; rewrite Hs; [done|].
  rewrite upd_ne; [done|]. congruence.
Qed.
Lemma setnx_held k x v ttl t db :
  0 < ttl -> rv db t k = Some x -> (r_setnx k v ttl t db).1 = false.
Proof. intros Httl Hk. pose proof (setnx_rv k v ttl t db Httl) as Hs. rewrite Hk in Hs. apply Hs. Qed.

(** One round trip around a body that keeps [k]. *)
Lemma call_keeps {A} f (body : rdb -> A * rdb) db t k x :
  rv db t k = Some x -> rv (body db).2 t k = Some x -> rv (call f body db).2 t k = Some x.
Proof. intros Hk Hb. by destruct (call_cases f body db) as [-> | ->]. Qed.
Lemma eval_keeps {A} f (s : Script A) db t k x :
  rv db t k = Some x -> rv (s t db).2 t k = Some x -> rv (eval f s t db).2 t k = Some x.
Proof. intros Hk Hb. by destruct (eval_cases f s t db) as [-> | ->]. Qed.

(** The SET NX round trip shared by all acquisitions. *)
Lemma acquire_keeps f k x k' v ttl t db :
  0 < ttl -> rv db t k = Some x ->
  rv (call f (r_setnx k' v ttl t) db).2 t k = Some x /\
  forall db', call f (r_setnx k' v ttl t) db = (Ok true, db') -> k' <> k.
Proof.
  intros Httl Hk. split.
  - apply call_keeps; [done|]. by apply setnx_keeps.
  - intros db' Hc%call_Ok ->. pose proof (setnx_held k x v ttl t db Httl Hk) as Hf.
    by rewrite Hc in Hf.
Qed.

Lemma lexec_keeps k x t o db :
  rv db t k = Some x -> foreign k x.1 o ->
  rv (lexec t o db).2 t k = Some x /\ (lexec t o db).1 <> Some k.
Proof.
  intros Hk Hf. destruct o as [f tok k' ttl|f k' tok|f rand l k' ttl|f h|f h ttl
    |f rand m k' o ttl|f m k' tok|f tok k' ttl]; simpl in *.
  - unfold TryLock. destruct (acquire_keeps f k x k' tok ttl t db Hf Hk) as [H1 H2].
    destruct (call f _ db) as [[[]|e] db']; simpl in *; naive_solver.
  - unfold unlock. simpl. split; [|done]. apply eval_keeps; [done|]. by apply release_keeps.
  - unfold Dist_Acquire. destruct (l_client l); [|done]. simpl.
    destruct (String.eqb k' ""); [done|]. destruct (Z.leb_spec ttl 0); [done|].
    destruct (newOwnerToken _ _) as [token|e]; [|done].
    destruct (acquire_keeps f k x (keyPrefix (l_cfg l) +:+ k') token ttl t db) as [H1 H2];
      [done|done|].
    destruct (call f _ db) as [[[]|e] db']; simpl in *; naive_solver.
  - unfold Dist_Release, unlockScript. destruct (h_client h); [|done]. simpl. destruct (released h); [done|].
    pose proof (eval_keeps f (luaRelease (fullKey h) (h_token h)) db t k x Hk) as He.
    specialize (He (release_keeps _ _ _ _ _ _ Hk Hf)).
    by destruct (eval f _ t db) as [[n|e] db'].
  - unfold Dist_Renew. destruct (h_client h); [|done]. simpl.
    destruct (Z.leb_spec ttl 0); [done|]. destruct (released h); [done|].
    set (ms := if ttl / Millisecond <=? 0 then 1 else ttl / Millisecond).
    assert (0 < ms) as Hms by (subst ms; destruct (Z.leb_spec (ttl / Millisecond) 0); lia).
    pose proof (eval_keeps f (renewScript (fullKey h) (h_token h) ms) db t k x Hk) as He.
    specialize (He (renew_keeps _ _ _ _ _ _ _ Hms Hk Hf)).
    by destruct (eval f _ t db) as [[n|e] db'].
  - unfold Guard_Acquire, Store_SetNX.
    destruct (_ || _ || _) eqn:Eg; [done|]. apply orb_false_iff in Eg as [_ Ht%Z.leb_gt].
    destruct (rlm_store m); [|done]. simpl. destruct (newLockToken rand) as [token|e]; [|done].
    destruct (acquire_keeps f k x (lockKey m (TrimSpace k')) token ttl t db) as [H1 H2];
      [done|done|].
    destruct (call f _ db) as [[[]|e] db']; simpl in *; naive_solver.
  - unfold Guard_Release, EvalInt, redisLockReleaseScript. destruct (_ || _); [done|]. destruct (rlm_store m); [|done]. simpl.
    pose proof (eval_keeps f (luaRelease (lockKey m (TrimSpace k')) (TrimSpace tok)) db t k x Hk) as He.
    specialize (He (release_keeps _ _ _ _ _ _ Hk Hf)).
    by destruct (eval f _ t db) as [[n|e] db'].
  - unfold Check, TryLock.
    destruct (acquire_keeps f k x ("idem:" +:+ k') tok ttl t db Hf Hk) as [H1 H2].
    destruct (call f _ db) as [[[]|e] db']; simpl in *; naive_solver.
Qed.
End facts.
End LockFacts.

Module LockProps.
Import LockFacts.
Section props.
Context `{RedisLaws}.

(** C7. Mutual exclusion: while key [k] holds the token [tok] with an expiry [e], no sequence of
    lock operations by other clients (of any of the four lock APIs, with any network
    faults) before [e] takes the lock, releases it or changes its expiry. *)
Theorem redis_lock_is_exclusive db t0 k tok e os :
  rv db t0 k = Some (tok, Some e) ->
  Forall (fun to => t0 <= to.1 < e /\ foreign k tok to.2) os ->
  StronglySorted (fun a b => a.1 <= b.1) os ->
  Forall (fun r => r <> Some k) (lrun os db).1 /\
  forall t, Forall (fun to => to.1 <= t) os -> t0 <= t < e ->
            rv (lrun os db).2 t k = Some (tok, Some e).
Proof.
  revert db t0. induction os as [|[t1 o] os IH]; intros db t0 Hk Hos Hsort; simpl.
  { split; [constructor|]. intros t _ Ht. apply (rv_still db t0); [lia|done|lia]. }
  apply Forall_cons in Hos as [[Ht1 Hf] Hos]. simpl in Ht1, Hf.
  apply StronglySorted_inv in Hsort as [Hsort Hle].
  assert (rv db t1 k = Some (tok, Some e)) as Hk1 by (apply (rv_still db t0 t1 k tok e); [lia|done|lia]).
  destruct (lexec_keeps k _ t1 o db Hk1 Hf) as [Hk2 Hr].
  destruct (lexec t1 o db) as [r db1]. simpl in *.
  destruct (IH db1 t1 Hk2) as [I1 I2].
  { rewrite Forall_forall in *. intros to Hto. specialize (Hos to Hto). specialize (Hle to Hto).
    simpl in *. naive_solver lia. }
  { done. }
  destruct (lrun os db1) as [rs db2]. simpl in *. split; [by constructor|].
  intros t Hlt Ht. apply Forall_cons in Hlt as [Ht' Hlt]. simpl in Ht'. apply I2; [done|lia].
Qed.

(** Owner-safe release: a handle that still owns its key frees it, so that the next
    acquisition succeeds; a handle whose lock was lost gets [ErrNotOwner] and changes
    nothing; either way the handle is spent, and a failed round trip leaves it usable. *)
Theorem release_is_owner_safe t h db :
  h_client h = true -> released h = false ->
  let '(r, h', db') := Dist_Release NoFault t h db in
  released h' = true /\
  (forall f t' db'', Dist_Release f t' h' db'' = (Err ErrAlreadyReleased, h', db'')) /\
  (forall e, (Dist_Release (LostRequest e) t h db).1 = (Err (ErrRedis e), h)) /\
  if decide (fst <$> rv db t (fullKey h) = Some (h_token h)) is left _ then
    r = Ok () /\ rv db' t (fullKey h) = None /\
    forall v ttl, 0 < ttl -> (r_setnx (fullKey h) v ttl t db').1 = true
  else r = Err ErrNotOwner /\ db' = db.
Proof.
  intros Hc Hr. unfold Dist_Release at 1, unlockScript. rewrite Hc, Hr. cbn [negb].
  assert (forall h', released h' = true -> h_client h' = true -> forall f t' db'',
    Dist_Release f t' h' db'' = (Err ErrAlreadyReleased, h', db'')) as Hspent.
  { intros h' Hr' Hc' f t' db''. unfold Dist_Release. by rewrite Hc', Hr'. }
  assert (forall e, (Dist_Release (LostRequest e) t h db).1 = (Err (ErrRedis e), h)) as Hlost.
  { intros e. unfold Dist_Release. rewrite Hc, Hr. simpl. f_equal. unfold set_released.
    destruct h; simpl in *; by subst. }
  case_decide as Hm.
  - destruct (rv db t (fullKey h)) as [[v e]|] eqn:Ek; [|done]. simpl in Hm. simplify_eq.
    destruct (release_mine _ _ t db e Ek) as (db' & Hs & Hv). unfold eval, call. rewrite Hs. simpl.
    split; [done|]. split; [by apply Hspent|]. split; [done|]. split; [done|].
    assert (rv db' t (fullKey h) = None) as Hn by (rewrite Hv; apply upd_eq).
    split; [done|]. intros v ttl Httl. pose proof (setnx_rv (fullKey h) v ttl t db' Httl) as Hx.
    rewrite Hn in Hx. apply Hx.
  - unfold eval, call. rewrite release_foreign by done. simpl.
    split; [done|]. split; [by apply Hspent|]. done.
Qed.

(** [ExecuteWithLock] runs the function only while it holds the lock and always gives the
    lock back: when the key was free, the function finds its token in it, and after
    the call the token is gone whatever the function returned; when the key was held the
    function does not run and the keyspace is unchanged. *)
Theorem execute_with_lock_brackets tok key ttl t db fn :
  0 < ttl ->
  let '(r, db') := ExecuteWithLock NoFault NoFault tok key ttl t fn db in
  match rv db t key with
  | Some _ => r = Err ErrLockNotAcquired /\ forall k, rv db' t k = rv db t k
  | None =>
      exists db1, rv db1 t key = Some (tok, Some (t + ttl_ms ttl)) /\
        r = (fn db1).1 /\ fst <$> rv db' (fn db1).2.1 key <> Some tok
  end.
Proof.
  intros Httl. unfold ExecuteWithLock, TryLock, call.
  pose proof (setnx_rv key tok ttl t db Httl) as Hs.
  destruct (r_setnx key tok ttl t db) as [ok db1]. simpl in Hs.
  destruct (rv db t key) eqn:Ek; destruct Hs as [-> Hv]; [by split|].
  destruct (fn db1) as [r [t' db2]] eqn:Ef.
  exists db1. rewrite Hv, upd_eq. rewrite Ef. simpl. conj_done.
  unfold unlock, eval, call. simpl.
  destruct (decide (fst <$> rv db2 t' key = Some tok)) as [Hm|Hm].
  - destruct (rv db2 t' key) as [[v e]|] eqn:E2; [|done]. simpl in Hm. simplify_eq.
    destruct (release_mine key tok t' db2 e E2) as (db3 & -> & Hv3). simpl.
    by rewrite Hv3, upd_eq.
  - by rewrite release_foreign.
Qed.
End props.

Import MemRedis.
Definition held_db : rdb := (r_setnx "k" "A" (10 * Second) 0 empty_db).2.

Lemma redis_lock_is_exclusive_witness :
  Forall (fun r => r <> Some "k")
    (lrun [(5, LTry NoFault "B" "k" Second); (6, LUnlock NoFault "k" "B");
           (7, LTry (LostReply "eof") "C" "k" Second)] held_db).1.
Proof.
  apply (redis_lock_is_exclusive held_db 0 "k" "A" 10000).
  - reflexivity.
  - repeat constructor; simpl; try lia. done.
  - repeat constructor; simpl; lia.
Defined.

Lemma release_is_owner_safe_witness :
  let h := mkHandle true "k" "k" "A" false in
  (Dist_Release NoFault 3 h held_db).1.1 = Ok () /\
  released (Dist_Release NoFault 3 h held_db).1.2 = true.
Proof.
  split; [reflexivity|].
  apply (release_is_owner_safe 3 (mkHandle true "k" "k" "A" false) held_db); reflexivity.
Defined.

Lemma execute_with_lock_brackets_witness :
  let fn := fun db : rdb => (Err (ErrRedis "app") : res lockErr unit, (9, db)) in
  fst <$> rv (ExecuteWithLock NoFault NoFault "A" "k" Second 5 fn empty_db).2 9 "k" <> Some "A".
Proof.
  intros fn.
  destruct (execute_with_lock_brackets "A" "k" Second 5 empty_db fn ltac:(reflexivity))
    as (db1 & _ & _ & H).
  exact H.
Defined.
End LockProps.
