(* ===== verification/Scheduler.v ===== *)
(** * scheduler/scheduler.go

    [Scheduler] is the code: tasks, [Register], [Start], the loop [run] and [execute].  A
    goroutine is cut at the points where others can act: it enters the loop, takes the
    cancellation or a tick in the select, and finishes the task function.  [step] interleaves
    the goroutines of any number of scheduler processes that share one Redis server. *)
From S2P Require Import Prelude GoStd RedisSpec RedisLocks.
Open Scope go_scope.

Module Scheduler.
Section scheduler.
Context `{Redis}.

(** [Fn] is whether the function is set; what it does is an argument of [execute]. *)
Record Task := mkTask { Name : string; Interval : Duration; Fn : bool; LockKey : string }.
Record Scheduler := mkScheduler { tasks : list Task; locker : bool }.
Definition New (locker : bool) : Scheduler := mkScheduler [] locker.
Definition Register (s : Scheduler) (task : Task) : Scheduler := mkScheduler (tasks s ++ [task]) (locker s).

Inductive logEntry :=
| InvalidInterval (task : string) | NilFunction (task : string)
| Started (task : string) | TaskStopped (task : string) | TaskFailed (task : string) (e : lockErr).

(** The result of a locked task: another instance running it is not an error. *)
Definition log_locked (task : Task) (r : res lockErr unit) : list logEntry :=
  match r with
  | Ok _ | Err ErrLockNotAcquired => []
  | Err e => [TaskFailed (Name task) e]
  end.
Definition log_plain (task : Task) (r : res lockErr unit) : list logEntry :=
  match r with Ok _ => [] | Err e => [TaskFailed (Name task) e] end.
Definition uses_lock (locker : bool) (task : Task) : bool := negb (String.eqb (LockKey task) "") && locker.

(** [fn] is the task function from the keyspace it finds to its error, the time it returns and the
    keyspace it leaves. *)
Definition execute (f1 f2 : fault) (token : string) (locker : bool) (task : Task) (t : Z)
    (fn : rdb -> res lockErr unit * (Z * rdb)) (db : rdb) : list logEntry * rdb :=
  if uses_lock locker task then
    let '(r, db') := ExecuteWithLock f1 f2 token (LockKey task) (Interval task) t fn db in (log_locked task r, db')
  else let '(r, (_, db')) := fn db in (log_plain task r, db').

(** ** A goroutine *)
Inductive phase :=
| Entering                                  (* before the checks of [run] *)
| Waiting                                   (* in the select *)
| Holding (token : string) (until : Z)      (* in the function, under the lock *)
| Plain                                     (* in the function, no lock *)
| Stopped.                                  (* returned *)
#[export] Instance phase_eq_dec : EqDecision phase.
Proof. solve_decision. Defined.

(** [run] up to its loop. *)
Definition enter (task : Task) : phase * list logEntry :=
  if Interval task <=? 0 then (Stopped, [InvalidInterval (Name task)])
  else if negb (Fn task) then (Stopped, [NilFunction (Name task)])
  else (Waiting, [Started (Name task)]).
(** The select takes a tick: [execute] up to the task function. *)
Definition begin (f : fault) (token : string) (locker : bool) (task : Task) (t : Z) (db : rdb)
  : phase * list logEntry * rdb :=
  if uses_lock locker task then
    match TryLock f token (LockKey task) (Interval task) t db with
    | (Err e, db') => (Waiting, log_locked task (Err e), db')
    | (Ok _, db') => (Holding token (t + ttl_ms (Interval task)), [], db')
    end
  else (Plain, [], db).
(** The task function returned [r]: the rest of [execute]. *)
Definition finish (f : fault) (r : res lockErr unit) (task : Task) (p : phase) (t : Z) (db : rdb)
  : list logEntry * rdb :=
  match p with
  | Holding token _ => (log_locked task r, unlock f (LockKey task, token) t db)
  | _ => (log_plain task r, db)
  end.

(** ** Processes that share the server *)
Record gor := mkGor { g_inst : nat; g_locker : bool; g_task : Task; g_phase : phase; g_tick : bool }.
Record world := mkWorld {
  gs : list gor;                (* the goroutines of all processes *)
  wg : gmap nat Z;              (* each process's WaitGroup *)
  cancelled : gset nat;         (* the processes whose context is done *)
  w_db : rdb;
  w_now : Z;                    (* the server's clock *)
  w_log : list logEntry }.

Definition wg_add (i : nat) (n : Z) (w : world) : world :=
  mkWorld (gs w) (<[i := default 0 (wg w !! i) + n]> (wg w)) (cancelled w) (w_db w) (w_now w) (w_log w).
Definition go_run (i : nat) (locker : bool) (task : Task) (w : world) : world :=
  mkWorld (gs w ++ [mkGor i locker task Entering false]) (wg w) (cancelled w) (w_db w) (w_now w) (w_log w).
(** [Start] of process [i], up to its [wg.Wait()]. *)
Definition Start (i : nat) (s : Scheduler) (w : world) : world :=
  foldl (fun w task => go_run i (locker s) task (wg_add i 1 w)) w (tasks s).
(** [wg.Wait()] returns. *)
Definition returns (i : nat) (w : world) : bool := default 0 (wg w !! i) =? 0.

Definition put (j : nat) (g : gor) (p : phase) (tick : bool) (l : list logEntry) (db : rdb) (w : world) : world :=
  mkWorld (<[j := mkGor (g_inst g) (g_locker g) (g_task g) p tick]> (gs w)) (wg w) (cancelled w) db (w_now w) (w_log w ++ l).
(** The deferred [wg.Done()] of a goroutine that returned. *)
Definition leave (g : gor) (p : phase) (w : world) : world :=
  match p with Stopped => wg_add (g_inst g) (-1) w | _ => w end.

Definition token_of (g : gor) : option (string * string * Z) :=
  match g_phase g with Holding tok e => Some (LockKey (g_task g), tok, e) | _ => None end.
Definition fresh (token : string) (w : world) : Prop :=
  Forall (fun g => match token_of g with Some (_, tok, _) => tok <> token | None => True end) (gs w).
Definition all_foreign (o : lop) (w : world) : Prop :=
  Forall (fun g => match token_of g with Some (k, tok, _) => foreign k tok o | None => True end) (gs w).

(** Steps of goroutine [j]. *)
Inductive gstep (j : nat) (g : gor) (w : world) : world -> Prop :=
| SEnter : g_phase g = Entering ->
    gstep j g w (leave g (enter (g_task g)).1
      (put j g (enter (g_task g)).1 false (enter (g_task g)).2 (w_db w) w))
| SDone : g_phase g = Waiting -> g_inst g ∈ cancelled w ->
    gstep j g w (leave g Stopped (put j g Stopped false [TaskStopped (Name (g_task g))] (w_db w) w))
| STick f token : g_phase g = Waiting -> g_tick g = true -> fresh token w ->
    gstep j g w (let '(p, l, db) := begin f token (g_locker g) (g_task g) (w_now w) (w_db w) in
                 put j g p false l db w)
| SReturn f r : (g_phase g = Plain \/ exists tok e, g_phase g = Holding tok e) ->
    gstep j g w (let '(l, db) := finish f r (g_task g) (g_phase g) (w_now w) (w_db w) in
                 put j g Waiting (g_tick g) l db w).

(** A step of process [i]. *)
Definition own (i : nat) (w w' : world) : Prop :=
  exists j g, gs w !! j = Some g /\ g_inst g = i /\ gstep j g w w'.

(** The environment: a ticker fires (its channel holds one tick), a context is cancelled, time
    passes, and other clients, task functions among them, use locks whose tokens they own. *)
Inductive estep (w : world) : world -> Prop :=
| ETicker j g : gs w !! j = Some g -> g_phase g <> Entering -> g_phase g <> Stopped ->
    estep w (put j g (g_phase g) true [] (w_db w) w)
| ECancel i : estep w (mkWorld (gs w) (wg w) ({[i]} ∪ cancelled w) (w_db w) (w_now w) (w_log w))
| ETime t : w_now w <= t -> estep w (mkWorld (gs w) (wg w) (cancelled w) (w_db w) t (w_log w))
| EOther o : all_foreign o w ->
    estep w (mkWorld (gs w) (wg w) (cancelled w) (lexec (w_now w) o (w_db w)).2 (w_now w) (w_log w)).
Definition step (w w' : world) : Prop := (exists i, own i w w') \/ estep w w'.

(** Processes [0, 1, ...] have called [Start]. *)
Definition boot (ss : list Scheduler) (db : rdb) (t : Z) : world :=
  foldl (fun w '(i, s) => Start i s w) (mkWorld [] ∅ ∅ db t []) (zip (seq 0 (length ss)) ss).
Definition reachable (w : world) : Prop := exists ss db t, rtc step (boot ss db t) w.
End scheduler.
End Scheduler.

Module SchedulerFacts.
Import Scheduler LockFacts.
Section facts.
Context `{RedisLaws}.

(** [begin], the function and [finish] are [execute]. *)
Lemma execute_is_its_steps f1 f2 token locker task t fn db :
  execute f1 f2 token locker task t fn db =
  let '(p, l1, db1) := begin f1 token locker task t db in
  match p with
  | Waiting => (l1, db1)
  | _ => let '(r, (t', db2)) := fn db1 in
         let '(l2, db3) := finish f2 r task p t' db2 in (l1 ++ l2, db3)
  end.
Proof.
  unfold execute, begin, ExecuteWithLock. destruct (uses_lock locker task).
  - destruct (TryLock f1 token (LockKey task) (Interval task) t db) as [[u|e] db1] eqn:E; [|done].
    assert (u = (LockKey task, token)) as ->.
    { unfold TryLock in E. destruct (call _ _ _) as [[[]|] ?]; naive_solver. }
    destruct (fn db1) as [r [t' db2]]. done.
  - destruct (fn db) as [r [t' db2]]. done.
Qed.

(** ** The invariant *)
Definition running (p : phase) : bool := match p with Entering | Stopped => false | _ => true end.
Definition valid (g : gor) : Prop := running (g_phase g) = true -> 0 < Interval (g_task g) /\ Fn (g_task g) = true.
(** While its lock has not expired, a goroutine's token is in its key. *)
Definition holds (db : rdb) (now : Z) (g : gor) : Prop :=
  match token_of g with
  | Some (k, tok, e) => now < e -> rv db now k = Some (tok, Some e)
  | None => True
  end.
Definition live (i : nat) (g : gor) : Z := if decide (g_inst g = i /\ g_phase g <> Stopped) then 1 else 0.
Definition distinct (l : list gor) : Prop :=
  forall j1 j2 g1 g2 k1 k2 tok e1 e2, l !! j1 = Some g1 -> l !! j2 = Some g2 ->
    token_of g1 = Some (k1, tok, e1) -> token_of g2 = Some (k2, tok, e2) -> j1 = j2.

Record Inv (w : world) : Prop := {
  inv_valid : Forall valid (gs w);
  inv_holds : Forall (holds (w_db w) (w_now w)) (gs w);
  inv_distinct : distinct (gs w);
  inv_wg : forall i, default 0 (wg w !! i) = zsum (live i) (gs w) }.

Lemma holds_keeps db db' now g :
  (forall k tok e, token_of g = Some (k, tok, e) -> rv db now k = Some (tok, Some e) -> rv db' now k = Some (tok, Some e)) ->
  holds db now g -> holds db' now g.
Proof. unfold holds. destruct (token_of g) as [[[k tok] e]|]; naive_solver. Qed.
Lemma token_of_phase i lk task p tick :
  token_of (mkGor i lk task p tick) = match p with Holding tok e => Some (LockKey task, tok, e) | _ => None end.
Proof. done. Qed.

Lemma distinct_insert l j g g' :
  distinct l -> l !! j = Some g ->
  (forall k tok e, token_of g' = Some (k, tok, e) ->
     forall j2 g2 k2 e2, j2 <> j -> l !! j2 = Some g2 -> token_of g2 <> Some (k2, tok, e2)) ->
  distinct (<[j := g']> l).
Proof.
  intros Hd Hj Hn j1 j2 g1 g2 k1 k2 tok e1 e2 H1 H2 T1 T2.
  rewrite list_lookup_insert in H1, H2. repeat case_decide; destruct_and?; simplify_eq; try done.
  - exfalso. eapply Hn; [done| |done|done]. naive_solver lia.
  - exfalso. eapply Hn; [done| |done|done]. naive_solver lia.
  - eauto.
Qed.

(** Replacing goroutine [j] by one in phase [p], with the WaitGroup following. *)
Lemma gor_put_inv w j g p tick l db' :
  Inv w -> gs w !! j = Some g ->
  (running p = true -> 0 < Interval (g_task g) /\ Fn (g_task g) = true) ->
  (forall j2 g2, j2 <> j -> gs w !! j2 = Some g2 -> holds (w_db w) (w_now w) g2 -> holds db' (w_now w) g2) ->
  (forall tok e, p = Holding tok e ->
     (w_now w < e -> rv db' (w_now w) (LockKey (g_task g)) = Some (tok, Some e)) /\
     forall j2 g2 k2 e2, j2 <> j -> gs w !! j2 = Some g2 -> token_of g2 <> Some (k2, tok, e2)) ->
  g_phase g <> Stopped ->
  Inv (leave g p (put j g p tick l db' w)).
Proof.
  intros [Hv Hh Hd Hw] Hj Hval Hother Hself Hns.
  set (g' := mkGor (g_inst g) (g_locker g) (g_task g) p tick).
  assert (Forall valid (<[j := g']> (gs w))) as V by by apply Forall_insert.
  assert (Forall (holds db' (w_now w)) (<[j := g']> (gs w))) as Hs.
  { apply Forall_lookup. intros j2 g2 H2. rewrite list_lookup_insert in H2. case_decide as Hc.
    - destruct Hc as [<- _]. simplify_eq. unfold holds. rewrite token_of_phase. destruct p; try done. by apply Hself.
    - apply (Hother j2); [naive_solver eauto using lookup_lt_Some|done|]. rewrite Forall_lookup in Hh. eauto. }
  assert (distinct (<[j := g']> (gs w))) as D.
  { apply (distinct_insert _ _ g); [done|done|]. intros k tok e Ht. unfold g' in Ht. rewrite token_of_phase in Ht.
    destruct p; simplify_eq. intros j2 g2 k2 e2 Hn H2. by eapply (proj2 (Hself tok e eq_refl)). }
  assert (forall i, zsum (live i) (<[j := g']> (gs w)) = zsum (live i) (gs w) - live i g + live i g') as Hz.
  { intros i. by apply zsum_insert. }
  assert (p = Stopped \/ p <> Stopped) as [->|Hp] by (destruct p; auto).
  - split; [exact V|exact Hs|exact D|]. intros i. simpl. rewrite Hz. unfold live at 2 3. simpl.
    rewrite (decide_False (P := _ /\ Stopped <> Stopped)) by naive_solver.
    destruct (decide (g_inst g = i)) as [<-|Hi].
    + rewrite lookup_insert_eq. simpl. rewrite Hw. rewrite decide_True by done. lia.
    + rewrite lookup_insert_ne by done. rewrite decide_False by naive_solver. rewrite Hw. lia.
  - assert (leave g p (put j g p tick l db' w) = put j g p tick l db' w) as -> by by destruct p.
    split; [exact V|exact Hs|exact D|]. intros i. simpl. rewrite Hz, Hw. unfold live. simpl.
    repeat case_decide; naive_solver lia.
Qed.

Lemma TryLock_Ok f tok k ttl t db u db' :
  0 < ttl -> TryLock f tok k ttl t db = (Ok u, db') -> rv db' t k = Some (tok, Some (t + ttl_ms ttl)).
Proof.
  intros Httl. unfold TryLock. destruct (call f (r_setnx k tok ttl t) db) as [[[]|e] db1] eqn:E; [|done..].
  intros [= _ <-]. apply call_Ok in E. pose proof (setnx_rv k tok ttl t db Httl) as Hs. rewrite E in Hs. simpl in Hs.
  destruct (rv db t k); destruct Hs as [? Hs]; [done|]. by rewrite Hs, upd_eq.
Qed.
Lemma TryLock_keeps f tok k ttl t db k' x :
  0 < ttl -> rv db t k' = Some x -> rv (TryLock f tok k ttl t db).2 t k' = Some x.
Proof.
  intros Httl Hk. unfold TryLock. destruct (acquire_keeps f k' x k tok ttl t db Httl Hk) as [Hc _].
  by destruct (call _ _ _) as [[[]|e] db1].
Qed.

Lemma gstep_inv j g w w' : Inv w -> gs w !! j = Some g -> gstep j g w w' -> Inv w'.
Proof.
  intros HI Hj Hs. assert (valid g) as Hval by (eapply Forall_lookup_1; [apply HI|done]).
  destruct Hs as [Hp|Hp Hc|f token Hp Ht Hf|f r Hp].
  - apply gor_put_inv; [done|done| |naive_solver|..|congruence]; unfold enter;
      destruct (Z.leb_spec (Interval (g_task g)) 0); try done; by destruct (Fn (g_task g)).
  - apply gor_put_inv; try done; congruence.
  - unfold valid in Hval. rewrite Hp in Hval. destruct (Hval eq_refl) as [Hi Hfn].
    destruct (begin f token (g_locker g) (g_task g) (w_now w) (w_db w)) as [[p l] db'] eqn:E. unfold begin in E.
    assert (p <> Stopped) as Hps by (repeat case_match; naive_solver).
    replace (put j g p false l db' w) with (leave g p (put j g p false l db' w)) by by destruct p.
    apply gor_put_inv; [done|done|done|..|congruence].
    + intros j2 g2 _ _. apply holds_keeps. intros k tok e _ Hk. destruct (uses_lock _ _); [|by simplify_eq].
      pose proof (TryLock_keeps f token (LockKey (g_task g)) _ _ _ _ _ Hi Hk) as Hk'.
      by destruct (TryLock _ _ _ _ _ _) as [[u|er] db1]; simplify_eq.
    + intros tok e ->. destruct (uses_lock _ _); [|done].
      destruct (TryLock _ _ _ _ _ _) as [[u|er] db1] eqn:El; simplify_eq. split; [intros _; by eapply TryLock_Ok|].
      intros j2 g2 k2 e2 _ H2 Ht2. pose proof (Forall_lookup_1 _ _ _ _ Hf H2) as Hfr. simpl in Hfr. by rewrite Ht2 in Hfr.
  - destruct (finish f r (g_task g) (g_phase g) (w_now w) (w_db w)) as [l db'] eqn:E.
    change (Inv (leave g Waiting (put j g Waiting (g_tick g) l db' w))).
    assert (running (g_phase g) = true /\ g_phase g <> Stopped) as [Hr Hns] by (destruct Hp as [->|(? & ? & ->)]; done).
    apply gor_put_inv; [done|done|by intros _; apply Hval|..|done]; [|by intros].
    intros j2 g2 Hne H2. apply holds_keeps. intros k tok e Ht2 Hk.
    destruct Hp as [Hp|(tok' & e' & Hp)]; rewrite Hp in E; simpl in E; simplify_eq; [done|].
    unfold unlock. apply eval_keeps; [done|]. apply release_keeps; [done|]. simpl. intros <- ->. apply Hne.
    eapply (inv_distinct _ HI); [done|done|exact Ht2|]. unfold token_of. by rewrite Hp.
Qed.

Lemma estep_inv w w' : Inv w -> estep w w' -> Inv w'.
Proof.
  intros HI Hs. destruct Hs as [j g Hj Hne Hns|i|t Ht|o Ho].
  - replace (put j g (g_phase g) true [] (w_db w) w) with (leave g (g_phase g) (put j g (g_phase g) true [] (w_db w) w))
      by by destruct (g_phase g).
    apply gor_put_inv; [done|done| |naive_solver| |done].
    + eapply (Forall_lookup_1 valid); [apply HI|done].
    + intros tok e Hp. assert (token_of g = Some (LockKey (g_task g), tok, e)) as Htk by (unfold token_of; by rewrite Hp). split.
      * pose proof (Forall_lookup_1 _ _ _ _ (inv_holds _ HI) Hj) as Hh. unfold holds in Hh. by rewrite Htk in Hh.
      * intros j2 g2 k2 e2 Hj2 H2 Ht2. apply Hj2. by eapply (inv_distinct _ HI).
  - destruct HI. by constructor.
  - destruct HI as [Hv Hh Hd Hw]. constructor; [done| |done|done]. simpl.
    eapply Forall_impl; [exact Hh|]. unfold holds. intros g Hg. destruct (token_of g) as [[[k tok] e]|]; [|done].
    intros Hlt. apply (rv_still _ (w_now w)); [done|apply Hg; lia|done].
  - destruct HI as [Hv Hh Hd Hw]. constructor; [done| |done|done]. simpl.
    rewrite Forall_lookup in *. intros j g Hj. specialize (Hh j g Hj). revert Hh. apply holds_keeps.
    intros k tok e Htk Hk. unfold all_foreign in Ho. rewrite Forall_lookup in Ho. specialize (Ho j g Hj). rewrite Htk in Ho.
    by apply (lexec_keeps k (tok, Some e)).
Qed.

Lemma go_run_inv i lk task w : Inv w -> Inv (go_run i lk task (wg_add i 1 w)).
Proof.
  intros [Hv Hh Hd Hw]. constructor; simpl.
  - apply Forall_app. split; [done|]. by constructor.
  - apply Forall_app. split; [done|]. by constructor.
  - intros j1 j2 g1 g2 k1 k2 tok e1 e2 H1 H2 T1 T2.
    apply lookup_snoc_Some in H1 as [[_ H1]|[_ <-]]; [|done].
    apply lookup_snoc_Some in H2 as [[_ H2]|[_ <-]]; [|done]. by eapply Hd.
  - intros i'. rewrite zsum_app. unfold zsum at 2. simpl. unfold live at 2. simpl.
    destruct (decide (i = i')) as [->|Hne].
    + rewrite lookup_insert_eq, decide_True by done. simpl. rewrite Hw. lia.
    + rewrite lookup_insert_ne, decide_False, Hw by naive_solver. lia.
Qed.
Lemma boot_inv ss db t : Inv (boot ss db t).
Proof.
  unfold boot. assert (Inv (mkWorld [] ∅ ∅ db t [])) as HI.
  { constructor; simpl; [constructor|constructor|by intros ? ? ? ?|]. intros i. by rewrite lookup_empty. }
  revert HI. generalize (mkWorld [] ∅ ∅ db t []). induction (zip _ _) as [|[i s] l IH]; intros w HI; [done|].
  simpl. apply IH. unfold Start. revert w HI. induction (tasks s) as [|task ts IHt]; intros w HI; [done|].
  simpl. apply IHt. by apply go_run_inv.
Qed.
Lemma reachable_inv w : reachable w -> Inv w.
Proof.
  intros (ss & db & t & Hr). pose proof (boot_inv ss db t) as HI. revert HI.
  induction Hr as [|w w1 w2 Hs _ IH]; [done|]. intros HI. apply IH.
  destruct Hs as [(i & j & g & Hj & _ & Hs)|Hs]; [by eapply gstep_inv|by eapply estep_inv].
Qed.
End facts.
End SchedulerFacts.

Module SchedulerProps.
Import Scheduler SchedulerFacts.
Section props.
Context `{RedisLaws}.

(** C4. A locked task runs in one place at a time: in every reachable state of any number of
    scheduler processes, with any interleaving, faults and other lock users, two goroutines that
    both run a task under the same lock key are the same goroutine, unless the lock of one of them
    (its task's interval) has expired. *)
Theorem locked_task_runs_once w j1 j2 g1 g2 k tok1 tok2 e1 e2 :
  reachable w -> gs w !! j1 = Some g1 -> gs w !! j2 = Some g2 ->
  g_phase g1 = Holding tok1 e1 -> g_phase g2 = Holding tok2 e2 ->
  LockKey (g_task g1) = k -> LockKey (g_task g2) = k ->
  w_now w < e1 -> w_now w < e2 -> j1 = j2.
Proof.
  intros HI%reachable_inv H1 H2 P1 P2 K1 K2 E1 E2.
  assert (token_of g1 = Some (k, tok1, e1)) as T1 by (unfold token_of; by rewrite P1, K1).
  assert (token_of g2 = Some (k, tok2, e2)) as T2 by (unfold token_of; by rewrite P2, K2).
  pose proof (Forall_lookup_1 _ _ _ _ (inv_holds _ HI) H1) as A1.
  pose proof (Forall_lookup_1 _ _ _ _ (inv_holds _ HI) H2) as A2.
  unfold holds in A1, A2. rewrite T1 in A1. rewrite T2 in A2. specialize (A1 E1). specialize (A2 E2).
  rewrite A1 in A2. simplify_eq. by eapply (inv_distinct _ HI).
Qed.

(** C32. The scheduler's accounting: in every reachable state a process's WaitGroup counts exactly its
    goroutines that have not returned, so [Start] returns exactly when all of them have; and a
    goroutine in its loop or in a task function has a positive interval and a function. *)
Theorem waitgroup_counts_goroutines w :
  reachable w ->
  (forall i, default 0 (wg w !! i) = Z.of_nat (length (filter (fun g => g_inst g = i /\ g_phase g <> Stopped) (gs w)))) /\
  (forall i, returns i w = true <-> Forall (fun g => g_inst g = i -> g_phase g = Stopped) (gs w)) /\
  Forall (fun g => g_phase g <> Entering -> g_phase g <> Stopped -> 0 < Interval (g_task g) /\ Fn (g_task g) = true) (gs w).
Proof.
  intros HI%reachable_inv. split_and!.
  - intros i. rewrite (inv_wg _ HI). induction (gs w) as [|g l IH]; [done|]. rewrite filter_cons.
    unfold zsum in *. simpl. rewrite IH. unfold live. destruct (decide _); simpl; lia.
  - intros i. unfold returns. rewrite (inv_wg _ HI), Z.eqb_eq, zsum_zero; unfold live.
    + apply Forall_iff. intros g. destruct (decide _) as [?|Hd]; [naive_solver|].
      destruct (decide (g_phase g = Stopped)); naive_solver.
    + intros g. case_decide; lia.
  - eapply Forall_impl; [apply (inv_valid _ HI)|]. intros g Hg ? ?. apply Hg. by destruct (g_phase g).
Qed.

(** ** Shutdown *)
(** How many steps a goroutine can still take before the next tick. *)
Definition pweight (p : phase) (tick : bool) : Z :=
  match p with
  | Stopped => 0
  | Entering => 2
  | Waiting => if tick then 3 else 1
  | Holding _ _ | Plain => if tick then 4 else 2
  end.
Definition weight (i : nat) (g : gor) : Z := if decide (g_inst g = i) then pweight (g_phase g) (g_tick g) else 0.
Lemma pweight_bounds p tick : 0 <= pweight p tick <= 4.
Proof. destruct p, tick; simpl; lia. Qed.
Lemma weight_bounds i g : 0 <= weight i g <= 4.
Proof. unfold weight. case_decide; [apply pweight_bounds|lia]. Qed.
Lemma put_weight i w j g p tick l db :
  gs w !! j = Some g -> g_inst g = i ->
  zsum (weight i) (gs (put j g p tick l db w)) = zsum (weight i) (gs w) - pweight (g_phase g) (g_tick g) + pweight p tick.
Proof.
  intros Hj Hi. cbn [put gs]. rewrite (zsum_insert _ _ _ g) by done.
  unfold weight at 2 3. cbn [g_inst g_phase g_tick]. by rewrite !decide_True by done.
Qed.
Lemma leave_same g p w : gs (leave g p w) = gs w /\ cancelled (leave g p w) = cancelled w.
Proof. by destruct p. Qed.
Lemma own_decreases i w w' :
  own i w w' -> zsum (weight i) (gs w') + 1 <= zsum (weight i) (gs w) /\ cancelled w' = cancelled w.
Proof.
  intros (j & g & Hj & Hi & Hs). destruct Hs as [Hp|Hp Hc|f token Hp Ht Hf|f r Hp].
  - destruct (leave_same g (enter (g_task g)).1 (put j g (enter (g_task g)).1 false (enter (g_task g)).2 (w_db w) w)) as [-> ->].
    split; [|done]. rewrite put_weight, Hp by done. unfold enter.
    destruct (_ <=? 0); simpl; [lia|]. destruct (Fn _); simpl; lia.
  - destruct (leave_same g Stopped (put j g Stopped false [TaskStopped (Name (g_task g))] (w_db w) w)) as [-> ->].
    split; [|done]. rewrite put_weight, Hp by done. simpl. destruct (g_tick g); lia.
  - destruct (begin f token (g_locker g) (g_task g) (w_now w) (w_db w)) as [[p l] db'] eqn:E. split; [|done].
    rewrite put_weight, Hp, Ht by done. unfold begin in E.
    destruct (uses_lock _ _); [destruct (TryLock _ _ _ _ _ _) as [[]]|]; simplify_eq; simpl; lia.
  - destruct (finish f r (g_task g) (g_phase g) (w_now w) (w_db w)) as [l db']. split; [|done].
    rewrite put_weight by done. destruct Hp as [-> | (? & ? & ->)]; destruct (g_tick g); simpl; lia.
Qed.
(** A cancelled process that has a goroutine left can move. *)
Lemma own_progress i w :
  i ∈ cancelled w -> ~ (exists w', own i w w') -> Forall (fun g => g_inst g = i -> g_phase g = Stopped) (gs w).
Proof.
  intros Hc Hn. apply Forall_lookup. intros j g Hj Hi. destruct (g_phase g) as [| |tok e| |] eqn:Hp; [..|done]; destruct Hn.
  - eexists. exists j, g. split_and!; [done..|]. by apply SEnter.
  - eexists. exists j, g. split_and!; [done..|]. apply SDone; [done|by rewrite Hi].
  - eexists. exists j, g. split_and!; [done..|]. apply (SReturn _ _ _ NoFault (Ok ())). eauto.
  - eexists. exists j, g. split_and!; [done..|]. apply (SReturn _ _ _ NoFault (Ok ())). eauto.
Qed.

(** C30. Shutdown: once a process's context is cancelled, its goroutines can take at most four steps each
    until the next tick of a ticker (whatever the select picks and the task functions
    return), and when they can take none, every one of them has returned and so does [Start]. *)
Theorem cancelled_scheduler_returns i w :
  reachable w -> i ∈ cancelled w ->
  (forall n w', nsteps (own i) n w w' -> Z.of_nat n <= 4 * Z.of_nat (length (gs w))) /\
  (forall w', rtc (own i) w w' -> ~ (exists w'', own i w' w'') ->
     returns i w' = true /\ Forall (fun g => g_inst g = i -> g_phase g = Stopped) (gs w')).
Proof.
  intros Hr Hc. split.
  - intros n w' Hs. assert (Z.of_nat n + zsum (weight i) (gs w') <= zsum (weight i) (gs w)) as Hle.
    { clear Hc Hr. induction Hs as [w|n w w1 w2 Ho _ IH]; [lia|]. apply own_decreases in Ho as [Ho _]. lia. }
    pose proof (zsum_nonneg (weight i) (gs w') (fun g => proj1 (weight_bounds i g))).
    assert (zsum (weight i) (gs w) <= 4 * Z.of_nat (length (gs w))); [|lia].
    apply zsum_le. intros g. apply weight_bounds.
  - intros w' Hs Hn. assert (i ∈ cancelled w' /\ reachable w') as [Hc' Hr'].
    { clear Hn. induction Hs as [w|w w1 w2 Ho _ IH]; [done|]. apply IH.
      - destruct Hr as (ss & db & t & Hr). exists ss, db, t. eapply rtc_r; [done|]. left. by exists i.
      - apply own_decreases in Ho as [_ ->]. done. }
    pose proof (own_progress i w' Hc' Hn) as Hf. split; [|done].
    unfold returns. rewrite (inv_wg _ (reachable_inv _ Hr')), Z.eqb_eq, zsum_zero; unfold live.
    + eapply Forall_impl; [exact Hf|]. intros g Hg. rewrite decide_False; naive_solver.
    + intros g. case_decide; lia.
Qed.
End props.

(** Two processes that registered the same locked task; the first is running it, then its context
    is cancelled. *)
Import MemRedis.
Definition demo_task : Task := mkTask "sync" (10 * Second) true "L".
Definition demo_gor (i : nat) (p : phase) (tick : bool) : gor := mkGor i true demo_task p tick.
Definition demo_world (g : gor) (db : rdb) (c : gset nat) (l : list logEntry) : world :=
  mkWorld [g; demo_gor 1 Entering false] {[0%nat := 1; 1%nat := 1]} c db 0 l.
Definition demo_held : world :=
  demo_world (demo_gor 0 (Holding "A" 10000) false) (r_setnx "L" "A" (10 * Second) 0 empty_db).2 ∅ [Started "sync"].
Definition demo_cancelled : world := mkWorld (gs demo_held) (wg demo_held) {[0%nat]} (w_db demo_held) 0 (w_log demo_held).

Lemma demo_held_reachable : reachable demo_held.
Proof.
  set (s := Register (New true) demo_task). exists [s; s], empty_db, 0.
  apply (rtc_l _ _ (demo_world (demo_gor 0 Waiting false) empty_db ∅ [Started "sync"])).
  { left. exists 0%nat, 0%nat, (demo_gor 0 Entering false). split_and!; [done..|].
    by apply (SEnter 0 (demo_gor 0 Entering false) (boot [s; s] empty_db 0)). }
  apply (rtc_l _ _ (demo_world (demo_gor 0 Waiting true) empty_db ∅ [Started "sync"])).
  { right. by apply (ETicker (demo_world (demo_gor 0 Waiting false) empty_db ∅ [Started "sync"]) 0 (demo_gor 0 Waiting false)). }
  apply rtc_once. left. exists 0%nat, 0%nat, (demo_gor 0 Waiting true). split_and!; [done..|].
  refine (STick 0 (demo_gor 0 Waiting true) _ NoFault "A" _ _ _); [done..|]. by repeat constructor.
Qed.
Lemma demo_cancelled_reachable : reachable demo_cancelled.
Proof.
  destruct demo_held_reachable as (ss & db & t & Hr). exists ss, db, t. eapply rtc_r; [done|]. right. apply (ECancel demo_held 0).
Qed.

(** The function returns, the select takes the cancellation. *)
Definition demo_waiting : world :=
  put 0 (demo_gor 0 (Holding "A" 10000) false) Waiting false [] (unlock NoFault ("L", "A") 0 (w_db demo_held)) demo_cancelled.
Definition demo_over : world :=
  leave (demo_gor 0 Waiting false) Stopped
    (put 0 (demo_gor 0 Waiting false) Stopped false [TaskStopped "sync"] (w_db demo_waiting) demo_waiting).
Lemma demo_shutdown : rtc (own 0) demo_cancelled demo_over.
Proof.
  apply (rtc_l _ _ demo_waiting).
  { exists 0%nat, (demo_gor 0 (Holding "A" 10000) false). split_and!; [done..|].
    refine (SReturn 0 (demo_gor 0 (Holding "A" 10000) false) demo_cancelled NoFault (Ok ()) _). eauto. }
  apply rtc_once. exists 0%nat, (demo_gor 0 Waiting false). split_and!; [done..|].
  apply (SDone 0 (demo_gor 0 Waiting false) demo_waiting); [done|set_solver].
Qed.
Lemma demo_over_stuck : ~ (exists w, own 0 demo_over w).
Proof.
  intros (w & [|[|j]] & g & Hj & Hi & Hs); simpl in Hj; simplify_eq. by inversion Hs; naive_solver.
Qed.

Lemma locked_task_runs_once_witness :
  g_phase <$> gs demo_held !! 0%nat = Some (Holding "A" 10000) /\ 0%nat = 0%nat.
Proof.
  split; [reflexivity|].
  refine (locked_task_runs_once demo_held 0 0 (demo_gor 0 (Holding "A" 10000) false) _ "L" "A" "A" 10000 10000
    demo_held_reachable _ _ _ _ _ _ _ _); reflexivity.
Defined.
Lemma waitgroup_counts_goroutines_witness : returns 0 demo_held = false /\ default 0 (wg demo_held !! 0%nat) = 1.
Proof.
  split; [reflexivity|].
  refine (eq_trans (proj1 (waitgroup_counts_goroutines demo_held demo_held_reachable) 0%nat) _). reflexivity.
Defined.
Lemma cancelled_scheduler_returns_witness : returns 0 demo_over = true.
Proof.
  refine (proj1 (proj2 (cancelled_scheduler_returns 0 demo_cancelled demo_cancelled_reachable _) demo_over demo_shutdown demo_over_stuck)).
  apply elem_of_singleton. reflexivity.
Defined.
End SchedulerProps.
