(* ===== verification/RedisData.v ===== *)
(** * Values kept in Redis: sequence/sequence.go and cache/cache.go

    [Sequence]: daily numbers from an INCR counter.  [RedisCache]: the read-through cache,
    with the [Cache] interface as a record of operations.  Both run on the Redis interface
    of [RedisSpec]; every round trip has its own fault and server time. *)
From S2P Require Import Prelude GoStd RedisSpec.
Open Scope go_scope.

Module Sequence.
Section sequence.
Context `{Redis}.

Record Generator := mkGenerator { keyPrefix : string }.

(** [time.Now().Format("20060102")]; [local] is the local wall clock. *)
Definition date_of (local : Time) : string :=
  let '(y, m, d) := civil local in zero_pad 4 y +:+ zero_pad 2 m +:+ zero_pad 2 d.
Definition seq_key (g : Generator) (bizPrefix date : string) : string :=
  keyPrefix g +:+ ":seq:" +:+ bizPrefix +:+ ":" +:+ date.
Definition seq_number (bizPrefix date : string) (seq : Z) : string :=
  bizPrefix +:+ date +:+ fmt_03d seq.

(** The two round trips of [Next]; an INCR on something else than an integer is an error. *)
Definition next_incr (f : fault) (t : Z) (g : Generator) (local : Time) (bizPrefix : string) (db : rdb)
  : res string string * rdb :=
  match call f (r_incrby (seq_key g bizPrefix (date_of local)) 1 t) db with
  | (Err e, db1) => (Err e, db1)
  | (Ok None, db1) => (Err "ERR value is not an integer or out of range", db1)
  | (Ok (Some seq), db1) => (Ok (seq_number bizPrefix (date_of local) seq), db1)
  end.
Definition next_expire (f : fault) (t : Z) (g : Generator) (local : Time) (bizPrefix : string) (db : rdb) : rdb :=
  (call f (r_expire (seq_key g bizPrefix (date_of local)) (48 * Hour) t) db).2.

Definition Next (f1 : fault) (t1 : Z) (f2 : fault) (t2 : Z) (g : Generator) (local : Time)
    (bizPrefix : string) (db : rdb) : res string string * rdb :=
  match next_incr f1 t1 g local bizPrefix db with
  | (Err e, db1) => (Err e, db1)
  | (Ok number, db1) => (Ok number, next_expire f2 t2 g local bizPrefix db1)
  end.

(** Concurrent callers: their round trips in the order the server takes them. *)
Inductive trip := TIncr (f : fault) (t : Z) (local : Time) | TExpire (f : fault) (t : Z) (local : Time).
Definition trip_time (e : trip) : Z := match e with TIncr _ t _ | TExpire _ t _ => t end.
Definition trip_date (e : trip) : string := match e with TIncr _ _ l | TExpire _ _ l => date_of l end.
Definition trip_year (e : trip) : Z := match e with TIncr _ _ l | TExpire _ _ l => (civil l).1.1 end.

(** The numbers callers receive. *)
Fixpoint issue (g : Generator) (bizPrefix : string) (es : list trip) (db : rdb) : list string :=
  match es with
  | [] => []
  | TIncr f t l :: es' =>
      let '(r, db1) := next_incr f t g l bizPrefix db in
      match r with Ok number => [number] | Err _ => [] end ++ issue g bizPrefix es' db1
  | TExpire f t l :: es' => issue g bizPrefix es' (next_expire f t g l bizPrefix db)
  end.

Fixpoint in_order (t : Z) (es : list trip) : Prop :=
  match es with [] => True | e :: es' => t <= trip_time e /\ in_order (trip_time e) es' end.
End sequence.
End Sequence.

Module SequenceFacts.
Import Sequence.

Lemma date_length local : 0 <= (civil local).1.1 < 10000 -> String.length (date_of local) = 8%nat.
Proof.
  unfold date_of. pose proof (civil_bounds local) as Hb. destruct (civil local) as [[y m] d]. simpl.
  intros Hy. rewrite !slen_app, !zero_pad_length; simpl; lia.
Qed.

Lemma sapp_length_inj a b c d :
  String.length a = String.length b -> a +:+ c = b +:+ d -> a = b /\ c = d.
Proof.
  revert b. induction a as [|x a IH]; intros [|y b] Hl E; simpl in Hl; try done.
  rewrite !sapp_cons in E. injection E as -> E. destruct (IH b) as [-> ->]; [lia|done|done].
Qed.

(** A number determines its date and its count. *)
Lemma seq_number_inj biz d d' k k' :
  String.length d = 8%nat -> String.length d' = 8%nat -> 1 <= k <= maxInt64 -> 1 <= k' <= maxInt64 ->
  seq_number biz d k = seq_number biz d' k' -> d = d' /\ k = k'.
Proof.
  unfold seq_number, maxInt64. intros Hd Hd' Hk Hk' E%sapp_inj_l.
  apply sapp_length_inj in E as [-> E]; [|congruence]. split; [done|]. revert E. unfold fmt_03d. zdec.
  apply zero_pad_inj; unfold maxUint64; lia.
Qed.
Lemma seq_key_inj g biz d d' : seq_key g biz d = seq_key g biz d' -> d = d'.
Proof. unfold seq_key. by intros E%sapp_inj_l%sapp_inj_l%sapp_inj_l%sapp_inj_l. Qed.

Lemma in_order_later t es e : in_order t es -> e ∈ es -> t <= trip_time e.
Proof.
  revert t. induction es as [|x es IH]; intros t; simpl; [by intros _ ?%elem_of_nil|].
  intros [Ht Ho] [->|He]%elem_of_cons; [done|]. specialize (IH _ Ho He). lia.
Qed.

Section facts.
Context `{RedisLaws}.
Variables (g : Generator) (biz : string).

(** The counter of date [d] at time [t], when [es] is still to come and [out] was issued: it is
    alive and at least every issued number, it has not been used, or it is not needed again. *)
Inductive date_ok (db : rdb) (t N : Z) (es : list trip) (out : list string) (d : string) : Prop :=
| date_alive n x :
    rv db t (seq_key g biz d) = Some (FormatInt n, x) -> 1 <= n <= N ->
    (forall e ex, e ∈ es -> trip_date e = d -> x = Some ex -> trip_time e < ex) ->
    (forall k, 1 <= k <= maxInt64 -> seq_number biz d k ∈ out -> k <= n) -> date_ok db t N es out d
| date_unused :
    rv db t (seq_key g biz d) = None ->
    (forall k, 1 <= k <= maxInt64 -> seq_number biz d k ∉ out) -> date_ok db t N es out d
| date_over : (forall e, e ∈ es -> trip_date e <> d) -> date_ok db t N es out d.

(** The passage of time, and steps that leave [d]'s key alone and issue numbers of other dates. *)
Lemma date_ok_frame db db' t t' N N' e es out out' d :
  t <= t' -> N <= N' -> in_order t' es ->
  rv db' t' (seq_key g biz d) = rv db t' (seq_key g biz d) ->
  (forall k, 1 <= k <= maxInt64 -> seq_number biz d k ∈ out' -> seq_number biz d k ∈ out) ->
  date_ok db t N (e :: es) out d -> date_ok db' t' N' es out' d.
Proof.
  intros Ht HN Ho Hk Hout [n x Hv Hn Hx Hle|Hv Hno|Hov].
  - destruct x as [ex|].
    + destruct (decide (ex <= t')) as [Hd|Hd].
      * apply date_over. intros e' He Hde. specialize (Hx e' ex ltac:(set_solver) Hde eq_refl).
        pose proof (in_order_later _ _ _ Ho He). lia.
      * eapply date_alive; [rewrite Hk; apply (rv_still db t t'); [done|done|lia]|lia|set_solver|eauto].
    + eapply (date_alive _ _ _ _ _ _ n None); [|lia|done|eauto].
      by rewrite Hk, (rv_later db t t'), Hv.
  - apply date_unused; [by rewrite Hk; eapply rv_stays_none|naive_solver].
  - apply date_over. set_solver.
Qed.

(** At a round trip of date [d] the counter is what was issued. *)
Lemma date_now db t t' N e es out d :
  t <= t' -> trip_time e = t' -> trip_date e = d -> date_ok db t N (e :: es) out d ->
  exists n x, counter db t' (seq_key g biz d) n x /\ 0 <= n <= Z.max 0 N /\
    (n = 0 -> rv db t' (seq_key g biz d) = None) /\
    (forall e ex, e ∈ es -> trip_date e = d -> x = Some ex -> trip_time e < ex) /\
    (forall k, 1 <= k <= maxInt64 -> seq_number biz d k ∈ out -> k <= n).
Proof.
  intros Ht He Hd [n x Hv Hn Hx Hle|Hv Hno|Hov].
  - exists n, x. assert (rv db t' (seq_key g biz d) = Some (FormatInt n, x)) as Hv'.
    { rewrite (rv_later db t t'), Hv by done. destruct x as [ex|]; [|done]. simpl.
      specialize (Hx e ex ltac:(left) Hd eq_refl). by zdec. }
    unfold counter. rewrite Hv'. split_and!; [done..|lia|lia|lia|set_solver|done].
  - assert (rv db t' (seq_key g biz d) = None) as Hv' by (by eapply rv_stays_none).
    exists 0, None. unfold counter. rewrite Hv'. split_and!; [done..|lia|done|done|].
    intros k Hk Hin. by destruct (Hno k Hk).
  - by destruct (Hov e ltac:(left)).
Qed.
Definition all_ok (db : rdb) (t N : Z) (es : list trip) (out : list string) : Prop :=
  forall d, String.length d = 8%nat -> date_ok db t N es out d.

(** A step that sets the counter of date [d0] to [m] and issues at most the number [m]. *)
Lemma all_ok_touch db db' t t' N N' e es out out' d0 m x :
  t <= t' -> N <= N' -> in_order t' es -> String.length d0 = 8%nat -> 1 <= m <= N' -> N' <= maxInt64 ->
  (forall k, k <> seq_key g biz d0 -> rv db' t' k = rv db t' k) ->
  rv db' t' (seq_key g biz d0) = Some (FormatInt m, x) ->
  (forall e ex, e ∈ es -> trip_date e = d0 -> x = Some ex -> trip_time e < ex) ->
  (forall k, 1 <= k <= maxInt64 -> seq_number biz d0 k ∈ out -> k <= m) ->
  (forall s, s ∈ out' -> s = seq_number biz d0 m \/ s ∈ out) ->
  all_ok db t N (e :: es) out -> all_ok db' t' N' es out'.
Proof.
  intros Ht HN Ho Hl Hm HN' Hsame Hv Hx Hle Hout Hall d Hd. destruct (decide (d = d0)) as [->|Hne].
  - eapply date_alive; [done|done|done|]. intros k Hk [E|Hin]%Hout; [|by apply Hle].
    apply seq_number_inj in E as [_ ->]; [lia|done|done|done|lia].
  - eapply date_ok_frame; [done|done|done|apply Hsame; by intros ?%seq_key_inj| |by apply Hall].
    intros k Hk [E|Hin]%Hout; [|done]. apply seq_number_inj in E as [? _]; [done..|lia].
Qed.

Lemma incr_step f t t' l db N es out :
  t <= t' -> in_order t' es -> 0 <= (civil l).1.1 < 10000 -> 0 <= N < maxInt64 ->
  all_ok db t N (TIncr f t' l :: es) out ->
  let '(r, db') := next_incr f t' g l biz db in
  let new := match r with Ok number => [number] | Err _ => [] end in
  (forall s, s ∈ new -> s ∉ out) /\ all_ok db' t' (N + 1) es (new ++ out).
Proof.
  intros Ht Ho Hy HN Hall. pose proof (date_length l Hy) as Hd. unfold next_incr.
  destruct (date_now db t t' N (TIncr f t' l) es out (date_of l)) as (n & x & Hc & Hn & _ & Hx & Hle);
    [done..|by apply Hall|].
  destruct (incrby_rv (seq_key g biz (date_of l)) 1 t' db n x Hc) as [Hr Hv]; [auto with go..|].
  set (db1 := (r_incrby (seq_key g biz (date_of l)) 1 t' db).2) in *.
  assert (forall out', (forall s, s ∈ out' -> s = seq_number biz (date_of l) (n + 1) \/ s ∈ out) ->
            all_ok db1 t' (N + 1) es out') as Htouch.
  { intros out' Hout.
    apply (all_ok_touch db db1 t t' N (N + 1) (TIncr f t' l) es out out' (date_of l) (n + 1) x);
      try done; try lia.
    - intros k Hk. rewrite Hv. by go_simpl.
    - rewrite Hv. by go_simpl.
    - intros k Hk Hin. specialize (Hle k Hk Hin). lia. }
  destruct f as [|er|er]; unfold call.
  - rewrite (surjective_pairing (r_incrby _ 1 t' db)), Hr. fold db1. split; [|apply Htouch; set_solver].
    intros s ->%list_elem_of_singleton Hin. apply Hle in Hin; lia.
  - split; [set_solver|]. intros d Hd'. apply (date_ok_frame db db t t' N (N + 1) (TIncr (LostRequest er) t' l) es out out d); try done; [lia|].
    by apply Hall.
  - fold db1. split; [set_solver|]. apply Htouch. set_solver.
Qed.

Lemma expire_step f t t' l db N es out :
  t <= t' -> in_order t' es -> 0 <= (civil l).1.1 < 10000 -> 0 <= N <= maxInt64 ->
  (forall e, e ∈ es -> trip_date e = date_of l -> trip_time e < t' + 172800000) ->
  all_ok db t N (TExpire f t' l :: es) out -> all_ok (next_expire f t' g l biz db) t' N es out.
Proof.
  intros Ht Ho Hy HN H48 Hall. pose proof (date_length l Hy) as Hd. unfold next_expire, r_expire.
  change (48 * Hour) with (172800 * Second). rewrite expire_secs_whole by lia.
  set (key := seq_key g biz (date_of l)).
  pose proof (fun k => proj2 (pexpire_rv key (1000 * 172800) t' db k ltac:(lia))) as Hv.
  set (db1 := (r_pexpire key (1000 * 172800) t' db).2) in *.
  assert (all_ok db t' N es out) as Hsame
    by (intros d Hd'; apply (date_ok_frame db db t t' N N (TExpire f t' l) es out out d); try done; by apply Hall).
  assert (all_ok db1 t' N es out) as Hnew.
  { destruct (date_now db t t' N (TExpire f t' l) es out (date_of l)) as (n & x & Hc & Hn & Hz & Hx & Hle);
      [done..|by apply Hall|]. fold key in Hc, Hz. unfold counter in Hc.
    destruct (rv db t' key) as [[v ex]|] eqn:E.
    - destruct Hc as [-> ->].
      assert (n <> 0) by (intros ->; by specialize (Hz eq_refl)).
      apply (all_ok_touch db db1 t t' N N (TExpire f t' l) es out out (date_of l) n (Some (t' + 1000 * 172800)));
        try done; try lia.
      + intros k Hk. rewrite Hv. by go_simpl.
      + fold key. rewrite Hv, upd_eq. done.
      + intros e ex' He Hde [= <-]. apply H48; done.
      + auto.
    - intros d Hd'. apply (date_ok_frame db db1 t t' N N (TExpire f t' l) es out out d); try done; [|by apply Hall].
      rewrite Hv. unfold upd. case_decide as Hk; [|done]. fold key in Hk. by rewrite Hk, E. }
  destruct f; unfold call; simpl; [|done|done].
  by destruct (r_pexpire key (1000 * 172800) t' db).
Qed.

Lemma issue_fresh es t db N out :
  0 <= N -> N + Z.of_nat (length es) <= maxInt64 -> in_order t es ->
  (forall e, e ∈ es -> 0 <= trip_year e < 10000) ->
  (forall e e', e ∈ es -> e' ∈ es -> trip_date e = trip_date e' -> trip_time e' < trip_time e + 172800000) ->
  all_ok db t N es out ->
  NoDup (issue g biz es db) /\ forall s, s ∈ issue g biz es db -> s ∉ out.
Proof.
  revert t db N out. induction es as [|e es IH]; intros t db N out HN Hlen Ho Hy H48 Hall.
  { split; [constructor|set_solver]. }
  destruct Ho as [Ht Ho]. cbn [length] in Hlen.
  assert (0 <= trip_year e < 10000) as Hye by (apply Hy; left).
  assert (forall e, e ∈ es -> 0 <= trip_year e < 10000) as Hy' by (intros ??; apply Hy; by right).
  assert (forall a b, a ∈ es -> b ∈ es -> trip_date a = trip_date b -> trip_time b < trip_time a + 172800000)
    as H48' by (intros a b ??; apply H48; by right).
  destruct e as [f t' l|f t' l]; simpl in Ht, Ho, Hye; cbn [issue].
  - pose proof (incr_step f t t' l db N es out Ht Ho Hye ltac:(lia) Hall) as Hs.
    destruct (next_incr f t' g l biz db) as [r db1]. destruct Hs as [Hnew Hok].
    destruct (IH t' db1 (N + 1) _ ltac:(lia) ltac:(lia) Ho Hy' H48' Hok) as [Hnd Hfr].
    split; [|set_solver]. apply NoDup_app. split; [|split; [set_solver|done]].
    destruct r; [apply NoDup_singleton|constructor].
  - apply (IH t' _ N); [lia|lia|done..|].
    apply (expire_step f t t' l db N es out Ht Ho Hye); [lia| |done].
    intros e He Hd. apply (H48 (TExpire f t' l) e); [left|by right|done].
Qed.
End facts.
End SequenceFacts.

Module SequenceProps.
Import Sequence SequenceFacts.

(** A call of [Next] is its INCR and, when that succeeds, its EXPIRE. *)
Lemma Next_is_its_trips `{Redis} f1 t1 f2 t2 g local biz db :
  match (Next f1 t1 f2 t2 g local biz db).1 with
  | Ok number => issue g biz [TIncr f1 t1 local; TExpire f2 t2 local] db = [number]
  | Err _ => issue g biz [TIncr f1 t1 local] db = []
  end.
Proof. unfold Next. simpl. by destruct (next_incr f1 t1 g local biz db) as [[]]. Qed.

(** C29. Sequence numbers never repeat: for any callers whose round trips reach the server in any
    order and with any faults, all numbers handed out for a business prefix are different, over
    all days, provided the round trips of one date lie within 48 hours of each other. *)
Theorem numbers_never_repeat `{RedisLaws} g biz es db t :
  Z.of_nat (length es) <= maxInt64 -> in_order t es ->
  (forall e, e ∈ es -> 0 <= trip_year e < 10000) ->
  (forall e e', e ∈ es -> e' ∈ es -> trip_date e = trip_date e' -> trip_time e' < trip_time e + 172800000) ->
  (forall d, rv db t (seq_key g biz d) = None) ->
  NoDup (issue g biz es db).
Proof.
  intros Hlen Ho Hy H48 Hnone. apply (issue_fresh g biz es t db 0 []); [lia|lia|done..|].
  intros d Hd. apply date_unused; [done|set_solver].
Qed.

Import MemRedis.
Lemma numbers_never_repeat_witness :
  let g := mkGenerator "cargo" in
  let day := time_Unix 1774915200 in
  let es := [TIncr NoFault 0 day; TIncr NoFault 1 day; TExpire NoFault 2 day; TIncr (LostReply "timeout") 3 day;
             TIncr NoFault 86400000 (day + 24 * Hour); TIncr NoFault 86400001 day] in
  issue g "SH" es empty_db = ["SH20260331001"; "SH20260331002"; "SH20260401001"; "SH20260331004"] /\
  NoDup (issue g "SH" es empty_db).
Proof.
  intros g day es. split; [vm_compute; reflexivity|].
  apply (numbers_never_repeat g "SH" es empty_db 0).
  - done.
  - simpl. lia.
  - intros e He%list_elem_of_In.
    assert (forallb (fun e => (0 <=? trip_year e) && (trip_year e <? 10000)) es = true) as Hb
      by (vm_compute; reflexivity).
    rewrite forallb_forall in Hb. apply Hb in He. lia.
  - intros e e' He He' _. unfold es in He, He'. rewrite !elem_of_cons, elem_of_nil in He, He'.
    destruct_or! He; destruct_or! He'; subst; done.
  - done.
Defined.
End SequenceProps.

Module RedisCache.

(** The [Cache] interface over a store [S]; a call is made with its fault and server time. *)
Record Cache (S : Type) := mkCache {
  c_Get : fault * Z -> string -> S -> res string string * S;
  c_Set : fault * Z -> string -> string -> Duration -> S -> res string unit * S;
  c_Del : fault * Z -> string -> S -> res string unit * S }.
Arguments c_Get {S}.
Arguments c_Set {S}.
Arguments c_Del {S}.

(** [w] is the state the loader works on. *)
Definition GetOrLoad {S W} (c : Cache S) (n1 n2 : fault * Z) (key : string) (ttl : Duration)
    (loader : W -> res string string * W) (st : S * W) : res string string * (S * W) :=
  let '(s, w) := st in
  match c_Get c n1 key s with
  | (Ok val, s1) => (Ok val, (s1, w))
  | (Err _, s1) =>
      match loader w with
      | (Err e, w1) => (Err e, (s1, w1))
      | (Ok result, w1) =>
          match c_Set c n2 key result ttl s1 with
          | (Err _, s2) => (Ok result, (s2, w1))
          | (Ok _, s2) => (Ok result, (s2, w1))
          end
      end
  end.

Section redis_cache.
Context `{Redis}.

Definition prefixedKey (prefix key : string) : string := prefix +:+ ":" +:+ key.

Definition Get (prefix : string) (n : fault * Z) (key : string) (db : rdb) : res string string * rdb :=
  match call n.1 (fun db => (r_get (prefixedKey prefix key) n.2 db, db)) db with
  | (Ok (Some v), db') => (Ok v, db')
  | (Ok None, db') => (Err "redis: nil", db')
  | (Err e, db') => (Err e, db')
  end.
Definition Set_ (prefix : string) (n : fault * Z) (key value : string) (ttl : Duration) (db : rdb)
  : res string unit * rdb :=
  call n.1 (fun db => ((), r_set (prefixedKey prefix key) value ttl n.2 db)) db.
Definition Del (prefix : string) (n : fault * Z) (key : string) (db : rdb) : res string unit * rdb :=
  call n.1 (fun db => ((), (r_del (prefixedKey prefix key) n.2 db).2)) db.

Definition NewRedis (prefix : string) : Cache rdb := mkCache rdb (Get prefix) (Set_ prefix) (Del prefix).
End redis_cache.
End RedisCache.

Module RedisCacheProps.
Import RedisCache.
Section props.
Context `{RedisLaws}.

(** What a read with fault [f] sees. *)
Definition seen (prefix key : string) (f : fault) (t : Z) (db : rdb) : option string :=
  match f with NoFault => fst <$> rv db t (prefixedKey prefix key) | _ => None end.
(** From [t] on, for the time to live, the cache answers [v] and calls no loader. *)
Definition serves (prefix key v : string) (ttl : Duration) (t : Z) (db : rdb) : Prop :=
  forall t' n' ttl' (W : Type) (loader : W -> res string string * W) w, t <= t' < t + ttl_ms ttl ->
    GetOrLoad (NewRedis prefix) (NoFault, t') n' key ttl' loader (db, w) = (Ok v, (db, w)).

Lemma Get_seen prefix key f t db :
  Get prefix (f, t) key db =
    (match seen prefix key f t db with
     | Some v => Ok v
     | None => Err (match f with NoFault => "redis: nil" | LostRequest e | LostReply e => e end)
     end, db).
Proof.
  unfold Get, seen, call. destruct f; simpl; [|done..]. rewrite get_rv. by destruct (rv _ _ _) as [[]|].
Qed.

Lemma stored_serves prefix key v ttl t db :
  rv db t (prefixedKey prefix key) = Some (v, Some (t + ttl_ms ttl)) -> serves prefix key v ttl t db.
Proof.
  intros Hk t' n' ttl' W loader w Ht. unfold GetOrLoad. cbn [c_Get NewRedis].
  rewrite Get_seen. unfold seen. by rewrite (rv_still db t t' _ _ _ ltac:(lia) Hk ltac:(lia)).
Qed.

(** The read-through cache: a live entry is returned without calling the loader; otherwise,
    also when the read fails, the loader is called once and its result or error is returned
    whatever happens to the write.  If the write reached the server, the cache answers the
    loaded value for the time to live without loading.  Other keys never change. *)
Theorem get_or_load_reads_through {W} prefix key ttl (loader : W -> _) f1 t1 f2 t2 db w :
  0 < ttl ->
  let '(r, (db', w')) := GetOrLoad (NewRedis prefix) (f1, t1) (f2, t2) key ttl loader (db, w) in
  (forall k, k <> prefixedKey prefix key -> rv db' t2 k = rv db t2 k) /\
  match seen prefix key f1 t1 db with
  | Some v => r = Ok v /\ db' = db /\ w' = w
  | None => loader w = (r, w') /\
      forall v, r = Ok v -> (forall e, f2 <> LostRequest e) -> serves prefix key v ttl t2 db'
  end.
Proof.
  intros Httl. unfold GetOrLoad. cbn [c_Get c_Set NewRedis]. rewrite Get_seen.
  destruct (seen prefix key f1 t1 db) as [v|]; [done|].
  destruct (loader w) as [[v|er] w1]; [|by split_and!].
  pose proof (fun k => set_rv (prefixedKey prefix key) v ttl t2 db k Httl) as Hset.
  assert (serves prefix key v ttl t2 (r_set (prefixedKey prefix key) v ttl t2 db)) as Hs
    by (apply stored_serves; rewrite Hset; by go_simpl).
  assert (forall k, k <> prefixedKey prefix key ->
            rv (r_set (prefixedKey prefix key) v ttl t2 db) t2 k = rv db t2 k) as Ho
    by (intros k Hk; rewrite Hset; by go_simpl).
  unfold Set_, call. cbn [fst snd]. destruct f2 as [|e2|e2]; split_and!; try done.
  1,3: by intros v' [= <-].
  intros v' _ Hf. by destruct (Hf e2).
Qed.
End props.

Import MemRedis.
Lemma get_or_load_witness :
  let loader := fun n : Z => (Ok "fresh", n + 1) in
  let '(r, (db', w')) := GetOrLoad (NewRedis "app") (LostReply "timeout", 0) (NoFault, 1) "k" Minute loader (empty_db, 0) in
  r = Ok "fresh" /\ w' = 1 /\ serves "app" "k" "fresh" Minute 1 db'.
Proof.
  intros loader.
  pose proof (get_or_load_reads_through "app" "k" Minute loader (LostReply "timeout") 0 NoFault 1 empty_db 0
                ltac:(reflexivity)) as T.
  destruct (GetOrLoad _ _ _ _ _ _ _) as [r [db' w']]. destruct T as (_ & T & S). injection T as <- <-.
  split_and!; [done..|]. by apply S.
Defined.
End RedisCacheProps.
