(* ===== verification/RuntimeGuard.v ===== *)
(** * runtimeguard: fixed-window limiters and process-local locks

    limiter.go ([MemoryLimiter], [GinMiddleware]), lock.go ([LockManager]) and the limiter of
    redis.go ([RedisLimiter]).  The Redis lock manager of that file is in [RedisLocks],
    the functions that build limiter keys from a request in [Gates]. *)
From S2P Require Import Prelude GoStd RedisSpec RedisLocks.
Open Scope go_scope.

(** ** Decisions and the in-process limiter *)
Record Decision := mkDecision {
  Allowed : bool;
  Remaining : Z;
  RetryAfter : Duration }.

Record bucket := mkBucket { windowStart : Time; count : Z }.

Record MemoryLimiter := mkML { buckets : gmap string bucket }.
Definition NewMemoryLimiter : MemoryLimiter := mkML ∅.

(** [None] is a nil limiter. *)
Definition Allow (now : Time) (key : string) (limit : Z) (window : Duration)
    (l : option MemoryLimiter) : Decision * option MemoryLimiter :=
  let key := TrimSpace key in
  match l with
  | None => (mkDecision false 0 window, l)
  | Some m =>
      if String.eqb key "" || (limit <=? 0) || (window <=? 0)
      then (mkDecision false 0 window, l) else
      let b0 := default (mkBucket zeroTime 0) (buckets m !! key) in
      let b := if IsZero (windowStart b0) || (window <=? Sub now (windowStart b0))
               then mkBucket now 0 else b0 in
      if limit <=? count b then
        let retry := Sub (Add (windowStart b) window) now in
        (mkDecision false 0 (if retry <? 0 then 0 else retry),
         Some (mkML (<[key := b]> (buckets m))))
      else
        let b' := mkBucket (windowStart b) (wrap64 (count b + 1)) in
        (mkDecision true (wrap64 (limit - count b')) 0,
         Some (mkML (<[key := b']> (buckets m))))
  end.

(** ** The Gin middleware *)
Record LimitConfig := mkLimitConfig { Name : string; Limit : Z; Window : Duration }.

(** [GinNext]: the handlers behind the middleware run, with X-RateLimit-Remaining set;
    [GinAbort]: status 429, with the Retry-After header when one is written. *)
Inductive ginResult := GinNext (remaining : string) | GinAbort (retryAfter : option string).

Definition c0_999 : f64 := f64_div (f64_of_Z 999) (f64_of_Z 1000).
Definition retry_header (d : Duration) : string :=
  FormatInt (default 0 (f64_trunc (f64_add (Seconds d) c0_999))).

(** [allow] is the limiter's method (None: nil limiter); [key] what [cfg.Key(c)] returned,
    or the empty string without one. *)
Definition GinMiddleware (allow : option (string -> Z -> Duration -> res string unit * Decision))
    (cfg : LimitConfig) (key : string) : ginResult :=
  match allow with
  | None => GinAbort None
  | Some f =>
      let '(err, decision) := f key (Limit cfg) (Window cfg) in
      if negb (is_ok err) || negb (Allowed decision) then
        GinAbort (if 0 <? RetryAfter decision then Some (retry_header (RetryAfter decision)) else None)
      else GinNext (FormatInt (Remaining decision))
  end.

(** ** Process-local locks *)
Record lockEntry := mkLockEntry { owner : string; expiresAt : Time }.
Record LockManager := mkLM { locks : gmap string lockEntry }.
Definition NewLockManager : LockManager := mkLM ∅.

(** The closure returned on success captures the trimmed key and owner; a nil manager ([None])
    refuses. *)
Definition Mem_TryLock (now : Time) (key own : string) (ttl : Duration) (m : option LockManager)
  : option (string * string) * option LockManager :=
  let key := TrimSpace key in
  let own := TrimSpace own in
  match m with
  | None => (None, m)
  | Some lm =>
      if String.eqb key "" || String.eqb own "" || (ttl <=? 0) then (None, m) else
      let busy := match locks lm !! key with
                  | Some current => After (expiresAt current) now && negb (String.eqb (owner current) own)
                  | None => false
                  end in
      if busy then (None, m)
      else (Some (key, own), Some (mkLM (<[key := mkLockEntry own (Add now ttl)]> (locks lm))))
  end.

Definition Mem_unlock (u : string * string) (m : LockManager) : LockManager :=
  match locks m !! u.1 with
  | Some current => if String.eqb (owner current) u.2 then mkLM (delete u.1 (locks m)) else m
  | None => m
  end.

(** ** The Redis limiter *)
Section redis.
Context `{Redis}.

Definition redisLimiterScript (k : string) (window limit : Z) : Script (list Z) :=
  current <~ GET_number k;
  ttl <~ PTTL k;
  if limit <=? current then
    if ttl <? 0 then
      _ <~ PEXPIRE k window;
      s_ret [0; current; window]
    else s_ret [0; current; ttl]
  else
    current <~ INCRBY k 1;
    if (current =? 1) || (ttl <? 0) then
      _ <~ PEXPIRE k window;
      s_ret [1; current; window]
    else s_ret [1; current; ttl].

(** Lua numbers come back as integers. *)
Fixpoint reply_ints (items : list redisValue) : res string (list Z) :=
  match items with
  | [] => Ok []
  | item :: items' => n <-? redisValueInt item; ns <-? reply_ints items'; Ok (n :: ns)
  end.
Definition EvalIntSlice (client : bool) (f : fault) (s : Script (list Z)) (t : Z) (db : rdb)
  : res string (list Z) * rdb :=
  if negb client then (Err "runtimeguard: redis client is nil", db) else
  let '(r, db') := eval f s t db in
  (value <-? r; reply_ints (VInt64 <$> value), db').

Definition durationMillis (d : Duration) : Z :=
  let ms := Z.quot d Millisecond in if ms <=? 0 then 1 else ms.

Definition redisLimiterDecision (result : list Z) (limit : Z) (window : Duration) : Decision :=
  let count := nth 1 result 0 in
  let remaining0 := wrap64 (limit - count) in
  let remaining := if remaining0 <? 0 then 0 else remaining0 in
  let retry0 := wrap64 (nth 2 result 0 * Millisecond) in
  let retry := if retry0 <? 0 then 0 else retry0 in
  if nth 0 result 0 =? 1 then mkDecision true remaining 0
  else mkDecision false 0 (if retry =? 0 then window else retry).

Record RedisLimiter := mkRL { rl_store : bool; rl_keyPrefix : string }.
Definition NewRedisLimiter (store : bool) (prefix : string) : RedisLimiter :=
  mkRL store (redisKeyPrefix prefix).
Definition limiterKey (l : RedisLimiter) (key : string) : string :=
  rl_keyPrefix l +:+ "limiter:" +:+ key.

(** The error, if any, beside the decision. *)
Definition Redis_Allow (f : fault) (key : string) (limit : Z) (window : Duration) (t : Z)
    (l : RedisLimiter) (db : rdb) : (res string unit * Decision) * rdb :=
  let key := TrimSpace key in
  let denied := mkDecision false 0 window in
  if String.eqb key "" || (limit <=? 0) || (window <=? 0) then ((Ok (), denied), db) else
  if negb (rl_store l) then ((Err "runtimeguard: redis limiter store is nil", denied), db) else
  let '(r, db') := EvalIntSlice true f
        (redisLimiterScript (limiterKey l key) (durationMillis window) limit) t db in
  match r with
  | Err e => ((Err e, denied), db')
  | Ok result =>
      if negb (length result =? 3)%nat
      then ((Err "runtimeguard: invalid redis limiter response", denied), db')
      else ((Ok (), redisLimiterDecision result limit window), db')
  end.
End redis.

Module GuardFacts.

(** ** Counting admitted calls *)
(** The times of the admitted calls for key [k], oldest first. *)
Fixpoint hits (limit : Z) (window : Duration) (k : string) (calls : list (Time * string))
    (l : option MemoryLimiter) : list Time :=
  match calls with
  | [] => []
  | (now, key) :: calls' =>
      let '(d, l') := Allow now key limit window l in
      (if Allowed d && String.eqb (TrimSpace key) k then [now] else [])
        ++ hits limit window k calls' l'
  end.

(** How many of [ts] lie in [lo, hi). *)
Definition within (lo hi : Time) (ts : list Time) : Z :=
  Z.of_nat (length (filter (fun t => lo <= t < hi) ts)).

Lemma within_nil lo hi : within lo hi [] = 0.
Proof. done. Qed.
Lemma within_app lo hi a b : within lo hi (a ++ b) = within lo hi a + within lo hi b.
Proof. unfold within. rewrite filter_app, length_app. lia. Qed.
Lemma within_one lo hi t : within lo hi [t] = if bool_decide (lo <= t < hi) then 1 else 0.
Proof.
  unfold within. rewrite filter_cons, filter_nil. case_decide; by case_bool_decide.
Qed.
Lemma within_nonneg lo hi ts : 0 <= within lo hi ts.
Proof. unfold within. lia. Qed.
Lemma within_mono lo hi lo' hi' ts :
  (forall t, t ∈ ts -> lo <= t < hi -> lo' <= t < hi') -> within lo hi ts <= within lo' hi' ts.
Proof.
  induction ts as [|t ts IH]; intros Hsub; [done|].
  change (t :: ts) with ([t] ++ ts). rewrite !within_app, !within_one.
  assert (within lo hi ts <= within lo' hi' ts) by (apply IH; set_solver).
  repeat case_bool_decide; try lia. destruct H1. apply Hsub; [set_solver|done].
Qed.
Lemma within_split lo mid hi ts :
  within lo hi ts <= within lo mid ts + within mid hi ts.
Proof.
  induction ts as [|t ts IH]; [done|]. change (t :: ts) with ([t] ++ ts).
  rewrite !within_app, !within_one. repeat case_bool_decide; lia.
Qed.

Lemma within_zero lo hi ts : (forall t, t ∈ ts -> ~ (lo <= t < hi)) -> within lo hi ts = 0.
Proof.
  induction ts as [|t ts IH]; intros Hn; [done|]. change (t :: ts) with ([t] ++ ts).
  rewrite within_app, within_one, IH by set_solver.
  case_bool_decide; [|done]. destruct (Hn t); [set_solver|done].
Qed.

(** One key's bucket against the admitted times [A] so far: the current window holds
    [count] of them, and an interval of length [window] that reaches into the current
    window holds at most [limit] earlier ones. *)
Record bucket_ok (limit : Z) (window : Duration) (last : Time) (b : bucket) (A : list Time) : Prop := {
  bo_start : 0 < windowStart b <= last;
  bo_past : forall t, t ∈ A -> t <= last /\ t < windowStart b + window;
  bo_count : count b = within (windowStart b) (last + 1) A;
  bo_limit : count b <= limit;
  bo_before : forall s, windowStart b < s + window -> within s (windowStart b) A <= limit;
  bo_all : forall s, within s (s + window) A <= 2 * limit }.

Definition key_ok (limit : Z) (window : Duration) (last : Time) (k : string)
    (m : MemoryLimiter) (A : list Time) : Prop :=
  match buckets m !! k with
  | None => A = []
  | Some b => bucket_ok limit window last b A
  end.

Lemma bucket_ok_later limit window last last' b A :
  last <= last' -> bucket_ok limit window last b A -> bucket_ok limit window last' b A.
Proof.
  intros Hl [H1 H2 H3 H4 H5 H6]. split; try done; try lia.
  - intros t Ht. specialize (H2 t Ht). lia.
  - rewrite H3. apply Z.le_antisymm; apply within_mono; intros t Ht; specialize (H2 t Ht); lia.
Qed.
Lemma bucket_ok_fresh limit window now :
  0 < limit -> 0 < window -> 0 < now -> bucket_ok limit window now (mkBucket now 0) [].
Proof. intros Hl Hw Hn. split; simpl; try done; try lia; set_solver || intros; rewrite within_nil; lia. Qed.

(** Opening a new window once the old one has passed. *)
Lemma bucket_ok_open limit window b A now :
  0 < limit -> 0 < window -> windowStart b + window <= now ->
  bucket_ok limit window now b A -> bucket_ok limit window now (mkBucket now 0) A.
Proof.
  intros Hlim Hwin Hw [H1 H2 H3 H4 H5 H6]. split; simpl; try lia; try done.
  - intros t Ht. specialize (H2 t Ht). lia.
  - symmetry. apply within_zero. intros t Ht. specialize (H2 t Ht). lia.
  - intros s Hs. transitivity (count b); [|done]. rewrite H3. apply within_mono.
    intros t Ht. specialize (H2 t Ht). lia.
Qed.

(** Admitting one more call in the current window. *)
Lemma bucket_ok_admit limit window b A now :
  now < windowStart b + window -> count b < limit ->
  bucket_ok limit window now b A ->
  bucket_ok limit window now (mkBucket (windowStart b) (count b + 1)) (A ++ [now]).
Proof.
  intros Hn Hc [H1 H2 H3 H4 H5 H6].
  assert (forall t, t ∈ A ++ [now] -> t <= now /\ t < windowStart b + window) as Hp.
  { intros t [Ht|Ht]%elem_of_app; [by apply H2|]. apply list_elem_of_singleton in Ht. lia. }
  assert (count b + 1 = within (windowStart b) (now + 1) (A ++ [now])) as Hcnt.
  { rewrite within_app, within_one, bool_decide_eq_true_2, H3 by lia. done. }
  assert (forall s, windowStart b < s + window ->
            within s (windowStart b) (A ++ [now]) <= limit) as Hb.
  { intros s Hs. rewrite within_app, within_one, bool_decide_eq_false_2 by lia.
    specialize (H5 s Hs). lia. }
  split; simpl; try done; try lia. intros s.
  destruct (decide (s <= now < s + window)) as [Hin|Hout].
  - pose proof (within_split s (windowStart b) (s + window) (A ++ [now])) as Hsp.
    specialize (Hb s ltac:(lia)).
    assert (within (windowStart b) (s + window) (A ++ [now]) <= count b + 1); [|lia].
    rewrite Hcnt. apply within_mono. intros t Ht. specialize (Hp t Ht). lia.
  - rewrite within_app, within_one, bool_decide_eq_false_2 by done. specialize (H6 s). lia.
Qed.

Lemma Sub_window now start window :
  0 < window <= maxInt64 -> (window <=? Sub now start) = (start + window <=? now).
Proof.
  unfold Sub, clamp64, minInt64, maxInt64. intros Hw.
  destruct (Z.leb_spec (start + window) now); [apply Z.leb_le | apply Z.leb_gt]; lia.
Qed.

Definition valid_call (limit : Z) (window : Duration) : Prop :=
  0 < limit <= maxInt64 /\ 0 < window <= maxInt64.

(** One call keeps every key's bucket in step with its admitted times. *)
Lemma Allow_ok limit window last k m A now key :
  valid_call limit window -> 0 < now -> last <= now -> key_ok limit window last k m A ->
  exists m', (Allow now key limit window (Some m)).2 = Some m' /\
    key_ok limit window now k m'
      (A ++ if Allowed (Allow now key limit window (Some m)).1 && String.eqb (TrimSpace key) k
            then [now] else []).
Proof.
  intros [Hlim Hwin] Hnow Hlast Hk. unfold Allow.
  assert (forall A', key_ok limit window last k m A' -> key_ok limit window now k m A') as Hlater.
  { unfold key_ok. intros A'. destruct (buckets m !! k); [by apply bucket_ok_later|done]. }
  destruct (String.eqb (TrimSpace key) "") eqn:Ee; simpl.
  { exists m. split; [done|]. rewrite app_nil_r. auto. }
  zdec. simpl.
  set (b0 := default (mkBucket zeroTime 0) (buckets m !! TrimSpace key)).
  rewrite Sub_window by done.
  set (b := if _ || _ then mkBucket now 0 else b0).
  destruct (String.eqb_spec (TrimSpace key) k) as [Heq|Hne]; [subst k|].
  2:{ destruct (limit <=? count b); simpl; eexists; (split; [done|]); rewrite app_nil_r;
      unfold key_ok; simpl; rewrite lookup_insert_ne by done; by apply Hlater. }
  assert (bucket_ok limit window now b A /\ now < windowStart b + window) as [Hb Hin].
  { subst b b0. unfold key_ok in Hk. destruct (buckets m !! TrimSpace key) as [b|] eqn:Eb; simpl.
    - pose proof (bucket_ok_later _ _ _ now _ _ Hlast Hk) as Hk'. unfold IsZero.
      destruct (Z.eqb_spec (windowStart b) 0); [destruct Hk' as [? _ _ _ _ _]; lia|]. simpl.
      destruct (Z.leb_spec (windowStart b + window) now); simpl; [|split; [exact Hk'|lia]].
      split; [|lia]. by apply (bucket_ok_open _ _ b); try lia.
    - subst A. simpl. split; [|lia]. apply bucket_ok_fresh; lia. }
  destruct (Z.leb_spec limit (count b)) as [Hfull|Hroom]; simpl.
  - eexists; split; [done|]. rewrite app_nil_r. unfold key_ok. simpl. by rewrite lookup_insert_eq.
  - eexists; split; [done|]. unfold key_ok. simpl. rewrite lookup_insert_eq.
    rewrite wrap64_id; [by apply bucket_ok_admit|].
    destruct Hb as [_ _ Hc _ _ _]. rewrite Hc in *.
    pose proof (within_nonneg (windowStart b) (now + 1) A).
    unfold in_int64, minInt64, maxInt64 in *. lia.
Qed.

Lemma hits_ok limit window k calls m A last :
  valid_call limit window -> key_ok limit window last k m A ->
  StronglySorted (fun a b => a.1 <= b.1) calls ->
  Forall (fun c => 0 < c.1 /\ last <= c.1) calls ->
  exists last' m', key_ok limit window last' k m' (A ++ hits limit window k calls (Some m)).
Proof.
  intros Hv. revert m A last. induction calls as [|[now key] calls IH]; intros m A last Hk Hs Hf.
  { exists last, m. simpl. by rewrite app_nil_r. }
  apply Forall_cons in Hf as [[Hp Hl] Hf]. apply StronglySorted_inv in Hs as [Hs Hle].
  destruct (Allow_ok limit window last k m A now key Hv Hp Hl Hk) as (m1 & E1 & Hk1). cbn [hits].
  destruct (Allow now key limit window (Some m)) as [d l'] eqn:E. simpl in *. subst l'.
  destruct (IH m1 _ now Hk1 Hs) as (last' & m' & Hfin).
  { rewrite Forall_forall in *. intros c Hc. specialize (Hf c Hc). specialize (Hle c Hc).
    simpl in *. lia. }
  exists last', m'. by rewrite <- app_assoc in Hfin.
Qed.
End GuardFacts.

Module GuardProps.
Import GuardFacts.

(** C8. Fixed-window guarantee: however calls arrive (at non-decreasing times), the limiter
    admits at most [2 * limit] calls for a key in any time interval of length [window]. *)
Theorem memory_limiter_bounds_rate limit window k calls s :
  valid_call limit window ->
  StronglySorted (fun a b => a.1 <= b.1) calls -> Forall (fun c => 0 < c.1) calls ->
  within s (s + window) (hits limit window k calls (Some NewMemoryLimiter)) <= 2 * limit.
Proof.
  intros Hv Hs Hp.
  destruct (hits_ok limit window k calls NewMemoryLimiter [] 0 Hv) as (last & m & Hk).
  - done.
  - done.
  - eapply Forall_impl; [exact Hp|]. intros c Hc. simpl in *. lia.
  - unfold key_ok in Hk. simpl in Hk. destruct (buckets m !! k); [by apply Hk|].
    rewrite Hk. rewrite within_nil. destruct Hv. lia.
Qed.

Lemma memory_limiter_bounds_rate_witness :
  within 5 105 (hits 1 100 "k" [(1, "k"); (90, "k"); (101, " k"); (104, "k")]
                  (Some NewMemoryLimiter)) = 1 /\
  within 5 105 (hits 1 100 "k" [(1, "k"); (90, "k"); (101, " k"); (104, "k")]
                  (Some NewMemoryLimiter)) <= 2 * 1.
Proof.
  split; [reflexivity|].
  apply (memory_limiter_bounds_rate 1 100 "k" [(1, "k"); (90, "k"); (101, " k"); (104, "k")] 5).
  - split; unfold maxInt64; lia.
  - repeat constructor; simpl; lia.
  - repeat constructor; simpl; lia.
Defined.

(** Honest Retry-After: when a call is refused because the window is full, a call made
    exactly [RetryAfter] later is admitted, and the wait is positive and at most [window]. *)
Theorem retry_after_is_honest now key limit window m :
  valid_call limit window -> 0 < now -> TrimSpace key <> "" ->
  map_Forall (fun _ b => 0 < windowStart b <= now) (buckets m) ->
  let '(d, l') := Allow now key limit window (Some m) in
  Allowed d = false ->
  0 < RetryAfter d <= window /\
  Allowed (Allow (now + RetryAfter d) key limit window l').1 = true.
Proof.
  intros [Hlim Hwin] Hnow Hkey Hm. unfold Allow at 1.
  destruct (String.eqb_spec (TrimSpace key) ""); [done|]. simpl.
  zdec. simpl.
  set (b0 := default (mkBucket zeroTime 0) (buckets m !! TrimSpace key)).
  rewrite Sub_window by done. set (b := if _ || _ then mkBucket now 0 else b0).
  destruct (Z.leb_spec limit (count b)) as [Hfull|]; simpl; [intros _|done].
  assert (0 < windowStart b <= now /\ now < windowStart b + window) as Hb.
  { subst b b0. destruct (buckets m !! TrimSpace key) as [b|] eqn:E; simpl in *; [|lia].
    specialize (Hm _ _ E). simpl in Hm. unfold IsZero in *.
    zdec. simpl in *.
    destruct (Z.leb_spec (windowStart b + window) now); simpl in *; lia. }
  assert (Sub (Add (windowStart b) window) now = windowStart b + window - now) as Hr.
  { unfold Sub, Add, clamp64, minInt64, maxInt64 in *. lia. }
  rewrite Hr. zdec.
  split; [lia|]. unfold Allow. simpl.
  destruct (String.eqb_spec (TrimSpace key) ""); [done|]. simpl.
  zdec. simpl.
  rewrite lookup_insert_eq. simpl. rewrite Sub_window by done.
  zdec.
  rewrite orb_true_r. simpl. destruct (Z.leb_spec limit 0); [lia|done].
Qed.

Lemma retry_after_is_honest_witness :
  let d := (Allow 40 "k" 1 100 (Some (mkML {[ "k" := mkBucket 10 1 ]}))).1 in
  Allowed d = false /\ RetryAfter d = 70 /\ 0 < RetryAfter d <= 100.
Proof.
  pose proof (retry_after_is_honest 40 "k" 1 100 (mkML {[ "k" := mkBucket 10 1 ]})
    ltac:(split; unfold maxInt64; lia) ltac:(lia) ltac:(done)
    ltac:(apply map_Forall_singleton; simpl; lia)) as H.
  vm_compute in H. vm_compute. split; [reflexivity|]. split; [reflexivity|]. by apply H.
Defined.

(** ** Process-local locks *)
Inductive mop := MTry (now : Time) (key own : string) (ttl : Duration) | MUnlock (u : string * string).
Definition mexec (o : mop) (m : LockManager) : option (string * string) * LockManager :=
  match o with
  | MTry now key own ttl => let '(u, m') := Mem_TryLock now key own ttl (Some m) in (u, default m m')
  | MUnlock u => (None, Mem_unlock u m)
  end.
Fixpoint mrun (os : list mop) (m : LockManager) : list (option (string * string)) * LockManager :=
  match os with
  | [] => ([], m)
  | o :: os' => let '(r, m1) := mexec o m in let '(rs, m2) := mrun os' m1 in (r :: rs, m2)
  end.
(** Another owner's operation, made before [e]. *)
Definition mforeign (k own : string) (e : Time) (o : mop) : Prop :=
  match o with
  | MTry now _ own' _ => now < e /\ TrimSpace own' <> own
  | MUnlock (k', own') => k' = k -> own' <> own
  end.

Lemma mexec_keeps k en o m :
  locks m !! k = Some en -> mforeign k (owner en) (expiresAt en) o ->
  locks (mexec o m).2 !! k = Some en /\
  (forall u, (mexec o m).1 = Some u -> u.1 <> k).
Proof.
  intros Hk Hf. destruct o as [now key own ttl|[k' own']]; simpl in *.
  - destruct Hf as [Hn Ho]. unfold Mem_TryLock. cbn zeta match. destruct (_ || _ || _); [done|].
    destruct (decide (TrimSpace key = k)) as [Heq|Hne].
    + rewrite Heq, Hk. unfold After. rewrite (proj2 (Z.ltb_lt _ _)) by done.
      destruct (String.eqb_spec (owner en) (TrimSpace own)); [congruence|]. done.
    + destruct (match locks m !! TrimSpace key with Some _ => _ | None => _ end); [done|].
      simpl. rewrite lookup_insert_ne by done. split; [done|]. by intros u [= <-].
  - unfold Mem_unlock. simpl. split; [|done]. destruct (locks m !! k') as [c|] eqn:E; [|done].
    destruct (String.eqb_spec (owner c) own'); [|done]. simpl. rewrite lookup_delete_ne; [done|].
    intros ->. rewrite Hk in E. simplify_eq. by apply Hf.
Qed.

(** Exclusion: while an owner's lease on [k] has not expired, no operation of another
    owner takes the lock, removes it or shortens it. *)
Theorem memory_lock_is_exclusive k en os m :
  locks m !! k = Some en -> Forall (mforeign k (owner en) (expiresAt en)) os ->
  locks (mrun os m).2 !! k = Some en /\
  Forall (fun r => match r with Some u => u.1 <> k | None => True end) (mrun os m).1.
Proof.
  revert m. induction os as [|o os IH]; intros m Hk Hf; simpl; [by split|].
  apply Forall_cons in Hf as [Ho Hf]. destruct (mexec_keeps k en o m Hk Ho) as [Hk1 Hr].
  destruct (mexec o m) as [r m1]. simpl in *. destruct (IH m1 Hk1 Hf) as [I1 I2].
  destruct (mrun os m1) as [rs m2]. simpl in *. split; [done|]. constructor; [|done].
  destruct r as [u|]; [by apply Hr|done].
Qed.

Lemma memory_lock_is_exclusive_witness :
  let m := (mexec (MTry 1 "job" "alice" 50) NewLockManager).2 in
  locks (mrun [MTry 10 "job" "bob" 5; MUnlock ("job", "bob"); MTry 50 " job" "carol " 5] m).2
    !! "job" = Some (mkLockEntry "alice" 51).
Proof.
  apply (memory_lock_is_exclusive "job" (mkLockEntry "alice" 51)); [reflexivity|].
  repeat constructor; simpl; try lia; done.
Defined.

(** ** The Redis limiter *)
Section redis_props.
Context `{RedisLaws}.

Lemma counter_pttl_neg db t k n x :
  counter db t k n x -> (r_pttl k t db <? 0) = (if x is Some _ then false else true).
Proof.
  unfold counter. intros Hc. rewrite pttl_rv.
  destruct (rv db t k) as [[v [e|]]|] eqn:E; destruct Hc as [_ ->]; try done.
  pose proof (rv_live _ _ _ _ _ E). apply Z.ltb_ge. lia.
Qed.

(** The whole script on a counter. *)
Lemma limiter_script_spec k window limit t db n x :
  0 < window -> 0 < limit -> 0 <= n <= 2 ^ 53 -> counter db t k n x ->
  let n' := if n <? limit then n + 1 else n in
  let e := match x with
           | Some e0 => if n' =? 1 then if n <? limit then t + window else e0 else e0
           | None => t + window
           end in
  exists db', redisLimiterScript k window limit t db =
      (Some [if n <? limit then 1 else 0; n'; e - t], db') /\
    forall k', rv db' t k' = upd (rv db t) k (Some (FormatInt n', Some e)) k'.
Proof.
  intros Hw Hl Hn Hc n' e. unfold redisLimiterScript, s_bind.
  rewrite (counter_number _ _ _ n x Hc) by lia.
  unfold PTTL. rewrite (counter_pttl_neg _ _ _ n x Hc).
  assert (r_pttl k t db = match x with Some e0 => e0 - t | None => r_pttl k t db end) as Hp.
  { rewrite pttl_rv. unfold counter in Hc.
    destruct (rv db t k) as [[v [e1|]]|]; destruct Hc as [_ ->]; done. }
  subst n' e. destruct (Z.leb_spec limit n) as [Hfull|Hroom].
  - rewrite (proj2 (Z.ltb_ge n limit)) by lia.
    assert (rv db t k = Some (FormatInt n, x)) as Hk.
    { unfold counter in Hc. destruct (rv db t k) as [[v e1]|]; destruct Hc as [-> ->]; [done|lia]. }
    destruct x as [e0|].
    + exists db. rewrite Hp. split; [unfold s_ret; repeat f_equal; by destruct (n =? 1)|].
      intros k'. unfold upd. case_decide as Hd; [subst k'|done]. rewrite Hk. by destruct (n =? 1).
    + unfold PEXPIRE. pose proof (fun k' => proj2 (pexpire_rv k window t db k' Hw)) as He.
      destruct (r_pexpire k window t db) as [m db']. simpl in He. exists db'.
      split; [unfold s_ret; repeat f_equal; lia|]. intros k'. rewrite He, Hk. done.
  - rewrite (proj2 (Z.ltb_lt n limit)) by lia. unfold INCRBY.
    assert (in_int64 n /\ in_int64 (n + 1)) as [Hi1 Hi2]
      by int64.
    destruct (incrby_rv k 1 t db n x Hc Hi1 Hi2) as [Hr Hv].
    destruct (r_incrby k 1 t db) as [o db1]. simpl in Hr, Hv. subst o.
    assert (rv db1 t k = Some (FormatInt (n + 1), x)) as Hk1 by (by rewrite Hv, upd_eq).
    pose proof (fun k' => proj2 (pexpire_rv k window t db1 k' Hw)) as He.
    unfold PEXPIRE. destruct (Z.eqb_spec (n + 1) 1) as [H1|H1]; simpl.
    + destruct (r_pexpire k window t db1) as [m db2]. simpl in He. exists db2.
      split; [unfold s_ret; repeat f_equal; destruct x; lia|].
      intros k'. rewrite He, Hk1. unfold upd. rewrite Hv. unfold upd.
      destruct (decide (k' = k)); [by destruct x|done].
    + destruct x as [e0|].
      * exists db1. rewrite Hp. done.
      * destruct (r_pexpire k window t db1) as [m db2]. simpl in He. exists db2.
        split; [unfold s_ret; repeat f_equal; lia|].
        intros k'. rewrite He, Hk1. unfold upd. rewrite Hv. unfold upd.
        by destruct (decide (k' = k)).
Qed.

(** C11. The Redis limiter is a fixed window: it admits a call exactly when the counter is
    below the limit, then the counter is one more, so it never exceeds the limit; the
    counter always ends up with an expiry (it is never left without one, and an existing
    window is not extended); no other key changes. *)
Theorem redis_limiter_fixed_window key limit window t l db n x :
  rl_store l = true -> TrimSpace key <> "" -> 0 < limit <= 2 ^ 53 -> 0 < window ->
  0 <= n <= 2 ^ 53 -> counter db t (limiterKey l (TrimSpace key)) n x ->
  let k := limiterKey l (TrimSpace key) in
  let '((err, d), db') := Redis_Allow NoFault key limit window t l db in
  err = Ok () /\ Allowed d = (n <? limit) /\
  (Allowed d = true -> Remaining d = limit - (n + 1)) /\
  (exists e, t < e /\
     rv db' t k = Some (FormatInt (if n <? limit then n + 1 else n), Some e) /\
     (forall e0, x = Some e0 -> 0 < n -> e = e0)) /\
  forall k', k' <> k -> rv db' t k' = rv db t k'.
Proof.
  intros Hst Hkey Hlim Hwin Hn Hc k. unfold Redis_Allow.
  destruct (String.eqb_spec (TrimSpace key) ""); [done|].
  zdec. simpl.
  rewrite Hst. simpl. fold k. fold k in Hc. unfold EvalIntSlice, eval, call. simpl.
  assert (0 < durationMillis window) as Hms.
  { unfold durationMillis. destruct (Z.leb_spec (Z.quot window Millisecond) 0); lia. }
  destruct (limiter_script_spec k (durationMillis window) limit t db n x Hms ltac:(lia) Hn Hc)
    as (db' & -> & Hv). simpl.
  split; [done|]. unfold redisLimiterDecision. simpl.
  split; [by destruct (n <? limit)|]. split; [|split].
  - destruct (Z.ltb_spec n limit); simpl; [|done]. intros _.
    rewrite wrap64_id by auto with go.
    destruct (Z.ltb_spec (limit - (n + 1)) 0); lia.
  - eexists. rewrite Hv, upd_eq. split; [|split; [done|]].
    + destruct x as [e0|]; [|lia]. unfold counter in Hc.
      destruct (rv db t k) as [[v e1]|] eqn:E; destruct Hc as [_ Hc]; simplify_eq.
      pose proof (rv_live _ _ _ _ _ E). destruct (_ =? 1), (n <? limit); lia.
    + intros e0 -> Hpos. destruct (Z.ltb_spec n limit); [|by destruct (n =? 1)].
      destruct (Z.eqb_spec (n + 1) 1); [lia|done].
  - intros k' Hk'. by rewrite Hv, upd_ne.
Qed.

(** Fail closed: whatever goes wrong on the way to Redis, the call is refused, and the
    middleware built on it aborts with 429 instead of running the handlers. *)
Theorem redis_limiter_fails_closed f key limit window t l db e cfg :
  Limit cfg = limit -> Window cfg = window ->
  (Redis_Allow f key limit window t l db).1.1 = Err e ->
  Allowed (Redis_Allow f key limit window t l db).1.2 = false /\
  exists h, GinMiddleware (Some (fun k lim w => (Redis_Allow f k lim w t l db).1)) cfg key = GinAbort h.
Proof.
  intros Hl Hw He. unfold GinMiddleware. rewrite Hl, Hw.
  assert (Allowed (Redis_Allow f key limit window t l db).1.2 = false) as Hd.
  { revert He. unfold Redis_Allow. destruct (_ || _ || _); [done|].
    destruct (negb (rl_store l)); [done|].
    destruct (EvalIntSlice true f _ t db) as [[r|e'] db']; [|done].
    destruct (negb _); done. }
  split; [done|]. destruct (Redis_Allow f key limit window t l db) as [[r d] db'].
  simpl in *. subst r. simpl. eauto.
Qed.
End redis_props.

Import MemRedis.
Lemma redis_limiter_fixed_window_witness :
  let l := NewRedisLimiter true "app" in
  let r := Redis_Allow NoFault "login" 3 (2 * Second) 1000 l empty_db in
  r.1.2 = mkDecision true 2 0 /\
  rv r.2 1000 "app:limiter:login" = Some ("1", Some 3000) /\
  Allowed r.1.2 = true.
Proof.
  split; [vm_compute; reflexivity|]. split; [vm_compute; reflexivity|].
  pose proof (redis_limiter_fixed_window "login" 3 (2 * Second) 1000 (NewRedisLimiter true "app")
    empty_db 0 None eq_refl ltac:(by vm_compute) ltac:(lia) ltac:(unfold Second; lia) ltac:(lia)
    ltac:(split; reflexivity)) as H.
  destruct (Redis_Allow NoFault "login" 3 (2 * Second) 1000 (NewRedisLimiter true "app") empty_db)
    as [[err d] db'] eqn:E. destruct H as (_ & H & _). simpl. exact H.
Defined.

Lemma redis_limiter_fails_closed_witness :
  let l := NewRedisLimiter true "app" in
  Allowed (Redis_Allow (LostReply "eof") "login" 3 Second 1000 l empty_db).1.2 = false.
Proof.
  apply (redis_limiter_fails_closed (LostReply "eof") "login" 3 Second 1000
    (NewRedisLimiter true "app") empty_db "eof" (mkLimitConfig "login" 3 Second));
    vm_compute; reflexivity.
Defined.
End GuardProps.
