(* ===== verification/RateLimit.v ===== *)
(** * ratelimit: requests, tokens and concurrency per identity

    limits.go, limiter.go, the Lua scripts of scripts.go, and estimator.go.  The scripts run
    on the Redis interface of [RedisSpec]; each round trip has its own fault and server time. *)
From S2P Require Import Prelude GoStd RedisSpec.
Open Scope go_scope.

(** ** Data *)
Record RateLimits := mkRateLimits { RPM : Z; TPM : Z; Concurrency : Z }.

Record CheckResult := mkCheckResult {
  Allowed : bool;
  DenyReason : string;
  ConcurrencyAcquired : bool;
  RemainingRequests : Z;
  RemainingTokens : Z;
  LimitRequests : Z;
  LimitTokens : Z;
  ResetAt : Time;
  RetryAfterSeconds : Z;
  MinuteKey : Z }.

Record RequestIdentity := mkIdentity {
  UserID : Z; TenantID : Z; APIKeyID : Z; Model : string; AuthType : string }.

Definition DefaultLimits : RateLimits := mkRateLimits 60 100000 10.

(** ** The scripts *)
(** KEYS[i] with its three ARGV entries. *)
Record slot := mkSlot { s_key : string; s_limit : Z; s_incr : Z; s_ttl : Z }.

Section limiter.
Context `{Redis}.

(** Phase 1, from index [i]: the deny index, if a limit is exceeded, and the results
    filled in before it. *)
Fixpoint check_phase (i : Z) (ks : list slot) : Script (option Z * list Z) :=
  match ks with
  | [] => s_ret (None, [])
  | k :: ks' =>
      current <~ GET_number (s_key k);
      if s_limit k <? current + s_incr k then s_ret (Some i, [])
      else
        r <~ check_phase (i + 1) ks';
        s_ret (r.1, (s_limit k - current - s_incr k) :: r.2)
  end.

(** Phase 2 *)
Fixpoint incr_phase (ks : list slot) : Script (list Z) :=
  match ks with
  | [] => s_ret []
  | k :: ks' =>
      new_val <~ INCRBY (s_key k) (s_incr k);
      _ <~ EXPIRE (s_key k) (s_ttl k);
      rs <~ incr_phase ks';
      s_ret ((s_limit k - new_val) :: rs)
  end.

Definition luaCheckAndIncrement (ks : list slot) : Script (list Z) :=
  c <~ check_phase 0 ks;
  match c.1 with
  | Some deny_index =>
      s_ret (0 :: deny_index :: (c.2 ++ replicate (length ks - length c.2) 0))
  | None =>
      results <~ incr_phase ks;
      s_ret (1 :: -1 :: results)
  end.

Definition luaConcurrencyAcquire (k : string) (limit ttl : Z) : Script Z :=
  current <~ GET_number k;
  if limit <=? current then s_ret 0
  else
    _ <~ INCRBY k 1;
    _ <~ EXPIRE k ttl;
    s_ret 1.

Definition luaConcurrencyRelease (k : string) : Script Z :=
  current <~ GET_number k;
  if 0 <? current then INCRBY k (-1) else s_ret 0.

(** ** The limiter *)
(** [rdb == nil] is [false]. *)
Record Limiter := mkLimiter { l_rdb : bool }.
Definition NewLimiter (rdb : bool) : Limiter := mkLimiter rdb.

Definition keyTTL : Z := 120.

Definition KeyPrefix (identity : RequestIdentity) : string :=
  if 0 <? APIKeyID identity then "apikey:" +:+ FormatInt (APIKeyID identity)
  else if 0 <? TenantID identity then "tenant:" +:+ FormatInt (TenantID identity)
  else "user:" +:+ FormatInt (UserID identity).

Definition rpmKey (prefix : string) (minuteKey : Z) : string :=
  "rl:rpm:" +:+ prefix +:+ ":" +:+ FormatInt minuteKey.
Definition tpmKey (prefix : string) (minuteKey : Z) : string :=
  "rl:tpm:" +:+ prefix +:+ ":" +:+ FormatInt minuteKey.
Definition concKey (prefix : string) : string := "rl:conc:" +:+ prefix.

(** The pipeline of the roll-back: two DECRBY commands; their replies are not read. *)
Definition rollback (rpm tpm : string) (estimatedTokens : Z) (t : Z) (db : rdb) : unit * rdb :=
  let db1 := (r_incrby rpm (-1) t db).2 in
  ((), (r_incrby tpm (- estimatedTokens) t db1).2).

(** [now] and [now'] are the two readings of the client's clock, [n1 n2 n3] the fault and
    server time of the three round trips. *)
Definition CheckPreRequest (now now' : Time) (n1 n2 n3 : fault * Z)
    (identity : RequestIdentity) (limits : RateLimits) (estimatedTokens : Z)
    (l : Limiter) (db : rdb) : CheckResult * rdb :=
  if negb (l_rdb l) then
    (mkCheckResult true "" false (RPM limits) (TPM limits) (RPM limits) (TPM limits) zeroTime 0 0, db)
  else
  let minuteKey := Z.quot (Unix now) 60 in
  let prefix := KeyPrefix identity in
  let rpm := rpmKey prefix minuteKey in
  let tpm := tpmKey prefix minuteKey in
  let keys := [mkSlot rpm (RPM limits) 1 keyTTL; mkSlot tpm (TPM limits) estimatedTokens keyTTL] in
  match eval n1.1 (luaCheckAndIncrement keys) n1.2 db with
  | (Err _, db1) =>
      (mkCheckResult true "" false (RPM limits) (TPM limits) (RPM limits) (TPM limits)
         zeroTime 0 minuteKey, db1)
  | (Ok result, db1) =>
      let resetAt := time_Unix (wrap64 (wrap64 (minuteKey + 1) * 60)) in
      if negb (nth 0 result 0 =? 1) then
        let reason := if nth 1 result 0 =? 1 then "tpm" else "rpm" in
        let retryAfter := default 0 (f64_trunc (Seconds (Sub resetAt now'))) in
        (mkCheckResult false reason false 0 0 (RPM limits) (TPM limits) resetAt
           (if retryAfter <? 1 then 1 else retryAfter) minuteKey, db1)
      else
        let remainingRequests := nth 2 result 0 in
        let remainingTokens := nth 3 result 0 in
        let ok acquired := mkCheckResult true "" acquired remainingRequests remainingTokens
                             (RPM limits) (TPM limits) resetAt 0 minuteKey in
        match eval n2.1 (luaConcurrencyAcquire (concKey prefix) (Concurrency limits) keyTTL) n2.2 db1 with
        | (Err _, db2) => (ok false, db2)
        | (Ok concResult, db2) =>
            if concResult =? 0 then
              let '(_, db3) := call n3.1 (rollback rpm tpm estimatedTokens n3.2) db2 in
              (mkCheckResult false "concurrency" false remainingRequests remainingTokens
                 (RPM limits) (TPM limits) zeroTime 1 minuteKey, db3)
            else (ok (concResult =? 1), db2)
        end
  end.

Definition TrackPostResponse (n1 n2 : fault * Z) (identity : RequestIdentity)
    (estimatedTokens actualTokens minuteKey : Z) (releaseConcurrency : bool)
    (l : Limiter) (db : rdb) : rdb :=
  if negb (l_rdb l) then db else
  let prefix := KeyPrefix identity in
  let db1 := if releaseConcurrency
             then (eval n1.1 (luaConcurrencyRelease (concKey prefix)) n1.2 db).2 else db in
  let delta := wrap64 (actualTokens - estimatedTokens) in
  if negb (delta =? 0)
  then (call n2.1 (r_incrby (tpmKey prefix minuteKey) delta n2.2) db1).2 else db1.

Definition ReleaseConcurrency (n1 : fault * Z) (identity : RequestIdentity)
    (l : Limiter) (db : rdb) : rdb :=
  if negb (l_rdb l) then db
  else (eval n1.1 (luaConcurrencyRelease (concKey (KeyPrefix identity))) n1.2 db).2.
End limiter.

(** ** The token estimate *)
(** encoding/json enters as what it decodes: [None] is a decoding error, a message content
    is a string or another value with the bytes json.Marshal gives for it. *)
Inductive content := CString (s : string) | COther (marshalled : string).

Definition maxInputTokenEstimate : Z := 128000.

Definition estimateInputTokens (messages : option (list content)) (body : string) : Z :=
  let totalChars :=
    match messages with
    | Some ms => fold_left (fun n m => match m with CString c | COther c => n + slen c end) ms 0
    | None => 0
    end in
  let totalChars := if totalChars =? 0 then slen body else totalChars in
  let tokens := Z.quot totalChars 4 in
  let tokens := if tokens <? 1 then 1 else tokens in
  if maxInputTokenEstimate <? tokens then maxInputTokenEstimate else tokens.

Definition estimateOutputTokens (max_tokens : option (option Z)) : Z :=
  match max_tokens with
  | Some (Some n) => if 0 <? n then (if 500 <? n then 500 else n) else 500
  | _ => 500
  end.

Definition EstimateTotalTokens (messages : option (list content)) (max_tokens : option (option Z))
    (body : string) : Z :=
  estimateInputTokens messages body + estimateOutputTokens max_tokens.

(** ** Facts about the scripts *)
Module RateFacts.
Section facts.
Context `{RedisLaws}.

(** Numbers Lua represents exactly. *)
Definition exact (n : Z) : Prop := Z.abs n <= 2 ^ 53.
(** Key [k] counts [n]; a missing key counts 0. *)
Definition holds (db : rdb) (t : Z) (k : string) (n : Z) : Prop := exists x, counter db t k n x.

Lemma exact_int64 n m : exact n -> exact m -> in_int64 n /\ in_int64 (n + m).
Proof. unfold exact, in_int64, minInt64, maxInt64. lia. Qed.

Lemma holds_number db t k n : holds db t k n -> exact n -> GET_number k t db = (Some n, db).
Proof. intros [x Hc] Hn. by eapply counter_number. Qed.
Lemma holds_view db db' t k n : rv db' t k = rv db t k -> holds db t k n -> holds db' t k n.
Proof. intros Hv [x Hc]. exists x. unfold counter in *. by rewrite Hv. Qed.
Lemma holds_some db t k n e : rv db t k = Some (FormatInt n, e) -> holds db t k n.
Proof. intros Hv. exists e. unfold counter. by rewrite Hv. Qed.

(** INCRBY on a counter. *)
Lemma holds_incr db t k n m :
  holds db t k n -> exact n -> exact m ->
  exists db' x, r_incrby k m t db = (Some (n + m), db') /\
    forall k', rv db' t k' = upd (rv db t) k (Some (FormatInt (n + m), x)) k'.
Proof.
  intros [x Hc] Hn Hm. destruct (exact_int64 _ _ Hn Hm) as [I1 I2].
  destruct (incrby_rv k m t db n x Hc I1 I2) as [Hr Hv].
  destruct (r_incrby k m t db) as [o db'] eqn:E. simpl in *. subst o. eauto.
Qed.

(** INCRBY followed by EXPIRE. *)
Lemma holds_incr_expire db t k n m s :
  holds db t k n -> exact n -> exact m -> 0 < s ->
  exists db1 db2 a, r_incrby k m t db = (Some (n + m), db1) /\
    EXPIRE k s t db1 = (Some a, db2) /\
    forall k', rv db2 t k' = upd (rv db t) k (Some (FormatInt (n + m), Some (t + s * 1000))) k'.
Proof.
  intros Hh Hn Hm Hs. destruct (holds_incr _ _ _ _ _ Hh Hn Hm) as (db1 & x & E1 & V1).
  assert (0 < s * 1000) as Hms by lia.
  pose proof (fun k' => proj2 (pexpire_rv k (s * 1000) t db1 k' Hms)) as Hv.
  exists db1. unfold EXPIRE, PEXPIRE. destruct (r_pexpire k (s * 1000) t db1) as [a db2].
  exists db2, a. split_and!; [done..|]. intros k'. rewrite Hv.
  unfold upd. rewrite !V1. unfold upd. rewrite (decide_True _ _ (eq_refl k)).
  by destruct (decide (k' = k)).
Qed.

(** *** Check and increment *)
Definition slot_ok (db : rdb) (t : Z) (k : slot) (n : Z) : Prop :=
  holds db t (s_key k) n /\ exact n /\ exact (s_incr k) /\ 0 < s_ttl k.
Definition fits (k : slot) (n : Z) : Prop := n + s_incr k <= s_limit k.
Definition left_over (k : slot) (n : Z) : Z := s_limit k - (n + s_incr k).

Lemma check_phase_spec ks ns db t i :
  Forall2 (slot_ok db t) ks ns ->
  (Forall2 fits ks ns /\ exists rs, check_phase i ks t db = (Some (None, rs), db)) \/
  (exists (j : nat) k n rs, ks !! j = Some k /\ ns !! j = Some n /\ s_limit k < n + s_incr k /\
     Forall2 fits (take j ks) (take j ns) /\
     check_phase i ks t db = (Some (Some (i + Z.of_nat j), rs), db)).
Proof.
  intros Hf. revert i. induction Hf as [|k n ks ns (Hh & Hn & Hi & Ht) Hf IH]; intros i.
  - left. split; [constructor|]. by exists [].
  - simpl. unfold s_bind. rewrite (holds_number _ _ _ _ Hh Hn).
    destruct (Z.ltb_spec (s_limit k) (n + s_incr k)) as [Hlt|Hge].
    + right. exists 0%nat, k, n, []. split_and!; try done.
      unfold s_ret. repeat f_equal. lia.
    + destruct (IH (i + 1)) as [[Hfit [rs Hrs]] | (j & k' & n' & rs & H1 & H2 & H3 & H4 & H5)].
      * left. split; [by constructor|]. rewrite Hrs. unfold s_ret. simpl. eauto.
      * right. exists (S j), k', n'. rewrite H5. unfold s_ret.
        eexists. split_and!; try done; [by constructor|].
        cbn [fst snd]. by replace (i + 1 + Z.of_nat j) with (i + Z.of_nat (S j)) by lia.
Qed.

Lemma slot_ok_upd db db' t k x ks ns :
  (forall k', rv db' t k' = upd (rv db t) k x k') -> k ∉ s_key <$> ks ->
  Forall2 (slot_ok db t) ks ns -> Forall2 (slot_ok db' t) ks ns.
Proof.
  intros Hv Hk Hf. induction Hf as [|k0 n0 ks ns (Hh & Hr) Hf IH]; [constructor|].
  rewrite fmap_cons in Hk. apply not_elem_of_cons in Hk as [Hne Hk].
  constructor; [|by apply IH]. split; [|done]. eapply holds_view; [|exact Hh].
  by rewrite Hv, upd_ne.
Qed.

Lemma incr_phase_spec ks ns db t :
  NoDup (s_key <$> ks) -> Forall2 (slot_ok db t) ks ns ->
  exists db', incr_phase ks t db = (Some (zip_with left_over ks ns), db') /\
    Forall2 (fun k n => rv db' t (s_key k) =
               Some (FormatInt (n + s_incr k), Some (t + s_ttl k * 1000))) ks ns /\
    forall k', k' ∉ s_key <$> ks -> rv db' t k' = rv db t k'.
Proof.
  intros Hnd Hf. revert db Hf Hnd. induction ks as [|k ks IH] in ns |- *; intros db Hf Hnd.
  { apply Forall2_nil_inv_l in Hf as ->. exists db. by split_and!. }
  apply Forall2_cons_inv_l in Hf as (n & ns' & Hs & Hf & ->).
  destruct Hs as (Hh & Hn & Hi & Ht).
  rewrite fmap_cons in Hnd. apply NoDup_cons in Hnd as [Hk Hnd].
  destruct (holds_incr_expire _ _ _ _ _ _ Hh Hn Hi Ht) as (db1 & db2 & a & E1 & E2 & V).
  destruct (IH ns' db2 (slot_ok_upd _ _ _ _ _ _ _ V Hk Hf) Hnd) as (db' & E3 & F3 & O3).
  exists db'. split_and!.
  - simpl. unfold s_bind, INCRBY. rewrite E1, E2, E3. done.
  - constructor; [|done]. by rewrite O3, V; go_simpl.
  - intros k'. rewrite fmap_cons. intros [Hne Hk']%not_elem_of_cons.
    by rewrite O3, V; go_simpl.
Qed.
Lemma check_script_spec ks ns db t :
  NoDup (s_key <$> ks) -> Forall2 (slot_ok db t) ks ns ->
  exists reply db', luaCheckAndIncrement ks t db = (Some reply, db') /\
    (forall k', k' ∉ s_key <$> ks -> rv db' t k' = rv db t k') /\
    ((Forall2 fits ks ns /\ reply = 1 :: -1 :: zip_with left_over ks ns /\
      Forall2 (fun k n => rv db' t (s_key k) =
                 Some (FormatInt (n + s_incr k), Some (t + s_ttl k * 1000))) ks ns) \/
     (exists (i : nat) k n rest, ks !! i = Some k /\ ns !! i = Some n /\ s_limit k < n + s_incr k /\
        Forall2 fits (take i ks) (take i ns) /\ reply = 0 :: Z.of_nat i :: rest /\ db' = db)).
Proof.
  intros Hnd Hf. unfold luaCheckAndIncrement, s_bind.
  destruct (check_phase_spec ks ns db t 0 Hf) as [[Hfit [rs ->]] | (j & k & n & rs & H1 & H2 & H3 & H4 & ->)].
  - simpl. destruct (incr_phase_spec ks ns db t Hnd Hf) as (db' & -> & HF & HO).
    eexists _, db'. split; [done|]. split; [done|]. left. done.
  - eexists _, db. split; [done|]. split; [done|]. right.
    exists j, k, n. eexists. split_and!; done.
Qed.

(** *** Concurrency slots *)
Lemma acquire_spec db t k c limit ttl :
  holds db t k c -> exact c -> 0 < ttl ->
  exists db', luaConcurrencyAcquire k limit ttl t db = (Some (if c <? limit then 1 else 0), db') /\
    forall k', rv db' t k' =
      (if c <? limit then upd (rv db t) k (Some (FormatInt (c + 1), Some (t + ttl * 1000))) k'
       else rv db t k').
Proof.
  intros Hh Hc Ht. unfold luaConcurrencyAcquire, s_bind. rewrite (holds_number _ _ _ _ Hh Hc).
  destruct (Z.leb_spec limit c).
  - rewrite (proj2 (Z.ltb_ge c limit)) by done. by exists db.
  - rewrite (proj2 (Z.ltb_lt c limit)) by done.
    destruct (holds_incr_expire _ _ _ _ 1 _ Hh Hc ltac:(unfold exact; lia) Ht)
      as (db1 & db2 & a & E1 & E2 & V).
    exists db2. unfold INCRBY. by rewrite E1, E2.
Qed.

Lemma release_spec db t k c :
  holds db t k c -> exact c -> 0 <= c ->
  exists db', luaConcurrencyRelease k t db = (Some (Z.max 0 (c - 1)), db') /\
    holds db' t k (Z.max 0 (c - 1)) /\ (forall k', k' <> k -> rv db' t k' = rv db t k') /\
    (forall v e, rv db t k = Some (v, e) -> exists v', rv db' t k = Some (v', e)).
Proof.
  intros Hh Hc Hpos. unfold luaConcurrencyRelease, s_bind. rewrite (holds_number _ _ _ _ Hh Hc).
  destruct (Z.ltb_spec 0 c).
  - destruct Hh as [x Hx].
    assert (in_int64 c /\ in_int64 (c + -1)) as [I1 I2].
    { apply exact_int64; [done|]. unfold exact. lia. }
    destruct (incrby_rv k (-1) t db c x Hx I1 I2) as [Hr Hv]. unfold INCRBY.
    destruct (r_incrby k (-1) t db) as [o db']. simpl in *. subst o. exists db'.
    rewrite (Z.max_r 0 (c - 1)) by lia. split; [done|].
    assert (rv db' t k = Some (FormatInt (c - 1), x)) as Hk by (by rewrite Hv, upd_eq).
    split_and!.
    + by eapply holds_some.
    + intros k' Hk'. by rewrite Hv, upd_ne.
    + intros v e Hve. unfold counter in Hx. rewrite Hve in Hx. destruct Hx as [_ ->]. eauto.
  - exists db. rewrite (Z.max_l 0 (c - 1)) by lia. split; [done|]. split_and!; [|done|eauto].
    by replace 0 with c by lia.
Qed.

(** *** Keys *)
Lemma rpm_tpm_ne p m q n : rpmKey p m <> tpmKey q n.
Proof. done. Qed.
Lemma rpm_conc_ne p m q : rpmKey p m <> concKey q.
Proof. done. Qed.
Lemma tpm_conc_ne p m q : tpmKey p m <> concKey q.
Proof. done. Qed.

(** The roll-back, on counters that the check has just incremented. *)
Lemma rollback_spec rpm tpm est t db r m :
  rpm <> tpm -> holds db t rpm (r + 1) -> holds db t tpm (m + est) ->
  exact (r + 1) -> exact (m + est) -> exact est ->
  exists db', rollback rpm tpm est t db = ((), db') /\
    holds db' t rpm r /\ holds db' t tpm m /\
    forall k, k <> rpm -> k <> tpm -> rv db' t k = rv db t k.
Proof.
  intros Hne Hr Hm X1 X2 X3. unfold rollback.
  destruct (holds_incr _ _ _ _ (-1) Hr X1 ltac:(unfold exact; lia)) as (db1 & x1 & E1 & V1).
  assert (holds db1 t tpm (m + est)) as Hm1 by (eapply holds_view; [by rewrite V1, upd_ne|done]).
  destruct (holds_incr _ _ _ _ (- est) Hm1 X2 ltac:(unfold exact in *; lia)) as (db2 & x2 & E2 & V2).
  rewrite E1. simpl. rewrite E2. exists db2. split; [done|]. split_and!.
  - apply (holds_some _ _ _ _ x1). rewrite V2. go_simpl. rewrite V1. go_simpl. repeat f_equal. lia.
  - apply (holds_some _ _ _ _ x2). rewrite V2. go_simpl. repeat f_equal. lia.
  - intros k H1 H2. rewrite V2. go_simpl. rewrite V1. by go_simpl.
Qed.

(** *** One check *)
Inductive verdict := VAllow | VRpm | VTpm | VConc.
Definition judge (limits : RateLimits) (est r m c : Z) : verdict :=
  if RPM limits <? r + 1 then VRpm
  else if TPM limits <? m + est then VTpm
  else if c <? Concurrency limits then VAllow else VConc.
Definition reason (v : verdict) : string :=
  match v with VAllow => "" | VRpm => "rpm" | VTpm => "tpm" | VConc => "concurrency" end.

(** A concurrency denial: the counters that the check incremented at [t1] are rolled back at
    [t3]; [db2] is the database after the refused acquisition at [t2]. *)
Lemma denial_restores rk tk est t1 t2 t3 db db1 db2 r m :
  rk <> tk -> t1 <= t2 <= t3 -> t3 < t1 + keyTTL * 1000 ->
  exact (r + 1) -> exact (m + est) -> exact est ->
  rv db1 t1 rk = Some (FormatInt (r + 1), Some (t1 + keyTTL * 1000)) ->
  rv db1 t1 tk = Some (FormatInt (m + est), Some (t1 + keyTTL * 1000)) ->
  (forall k, k <> rk -> k <> tk -> rv db1 t1 k = rv db t1 k) ->
  (forall k, rv db2 t2 k = rv db1 t2 k) ->
  exists db3, rollback rk tk est t3 db2 = ((), db3) /\ holds db3 t3 rk r /\ holds db3 t3 tk m /\
    forall k, k <> rk -> k <> tk -> rv db3 t3 k = rv db t3 k.
Proof.
  intros Hne Ht Httl X2 X4 X5 V1 V2 Hsame W2.
  assert (forall k v, rv db1 t1 k = Some (v, Some (t1 + keyTTL * 1000)) ->
                      rv db2 t3 k = Some (v, Some (t1 + keyTTL * 1000))) as Hkeep.
  { intros k v V. rewrite (rv_same db2 db1 t2 t3 k ltac:(lia) (W2 k)).
    apply (rv_still _ t1); [lia|done|lia]. }
  destruct (rollback_spec rk tk est t3 db2 r m Hne (holds_some _ _ _ _ _ (Hkeep _ _ V1))
    (holds_some _ _ _ _ _ (Hkeep _ _ V2)) X2 X4 X5) as (db3 & E3 & B1 & B2 & B3).
  exists db3. split_and!; try done. intros k N1 N2. rewrite B3 by done.
  rewrite (rv_same db2 db1 t2 t3 k ltac:(lia) (W2 k)). apply (rv_same _ _ t1 t3); [lia|]. by apply Hsame.
Qed.

Lemma check_outcomes now now' t1 t2 t3 identity limits est db r m c :
  let p := KeyPrefix identity in
  let minute := Z.quot (Unix now) 60 in
  let rk := rpmKey p minute in
  let tk := tpmKey p minute in
  let ck := concKey p in
  t1 <= t2 <= t3 -> t3 < t1 + keyTTL * 1000 ->
  exact r -> exact (r + 1) -> exact m -> exact (m + est) -> exact est -> exact c ->
  holds db t1 rk r -> holds db t1 tk m -> holds db t2 ck c ->
  let '(res, db') := CheckPreRequest now now' (NoFault, t1) (NoFault, t2) (NoFault, t3)
                       identity limits est (NewLimiter true) db in
  let v := judge limits est r m c in
  DenyReason res = reason v /\ MinuteKey res = minute /\
  Allowed res = (if v is VAllow then true else false) /\
  ConcurrencyAcquired res = Allowed res /\
  match v with
  | VAllow =>
      r + 1 <= RPM limits /\ m + est <= TPM limits /\ c + 1 <= Concurrency limits /\
      rv db' t2 rk = Some (FormatInt (r + 1), Some (t1 + keyTTL * 1000)) /\
      rv db' t2 tk = Some (FormatInt (m + est), Some (t1 + keyTTL * 1000)) /\
      rv db' t2 ck = Some (FormatInt (c + 1), Some (t2 + keyTTL * 1000))
  | VConc => holds db' t3 rk r /\ holds db' t3 tk m /\ rv db' t3 ck = rv db t3 ck
  | VRpm | VTpm => db' = db
  end /\
  forall k, k <> rk -> k <> tk -> k <> ck -> rv db' t3 k = rv db t3 k.
Proof.
  intros p minute rk tk ck Ht Httl X1 X2 X3 X4 X5 X6 Hr Hm Hc.
  unfold CheckPreRequest. cbn [l_rdb NewLimiter negb fst snd]. fold p minute rk tk.
  set (ks := [mkSlot rk _ _ _; mkSlot tk _ _ _]). unfold eval at 1, call.
  assert (0 < keyTTL) as Hk by (unfold keyTTL; lia).
  assert (Forall2 (slot_ok db t1) ks [r; m]) as Hok.
  { by repeat constructor. }
  assert (NoDup (s_key <$> ks)) as Hnd.
  { simpl. apply NoDup_cons; split; [|apply NoDup_singleton].
    intros E%list_elem_of_singleton. by apply rpm_tpm_ne in E. }
  destruct (check_script_spec ks [r; m] db t1 Hnd Hok)
    as (reply & db1 & -> & Hother & [(Hfit & -> & Hvals) | (i & k & n & rest & Hi & Hn & Hlim & Hpre & -> & ->)]).
  2: { (* a limit is exceeded *)
    unfold judge. destruct i as [|[|i]]; simplify_eq/=.
    - zdec. by split_and!.
    - apply Forall2_cons in Hpre as [Hf1 _]. unfold fits in Hf1. simpl in Hf1. zdec. by split_and!. }
  apply Forall2_cons in Hfit as [F1 [F2 _]%Forall2_cons]. unfold fits in F1, F2. simpl in F1, F2.
  apply Forall2_cons in Hvals as [V1 [V2 _]%Forall2_cons]. simpl in V1, V2.
  unfold judge. zdec. cbn [nth zip_with Z.eqb Pos.eqb negb].
  assert (forall k, k <> rk -> k <> tk -> rv db1 t1 k = rv db t1 k) as Hsame.
  { intros k N1 N2. apply Hother. simpl. in_list. }
  assert (holds db1 t2 ck c) as Hc1.
  { eapply holds_view; [|exact Hc]. apply (rv_same _ _ t1 t2); [lia|]. by apply Hsame. }
  destruct (acquire_spec db1 t2 ck c (Concurrency limits) keyTTL Hc1 X6 Hk) as (db2 & E2 & W2).
  unfold eval, call. fold ck. rewrite E2.
  pose proof (rv_still db1 t1 t2 _ _ (t1 + keyTTL * 1000) ltac:(lia) V1 ltac:(lia)) as V1'.
  pose proof (rv_still db1 t1 t2 _ _ (t1 + keyTTL * 1000) ltac:(lia) V2 ltac:(lia)) as V2'.
  destruct (Z.ltb_spec c (Concurrency limits)) as [Hroom|Hfull].
  - simpl. split_and!; try done; try lia.
    1-3: by rewrite W2; go_simpl.
    intros k N1 N2 N3. apply (rv_same _ _ t2 t3); [lia|]. rewrite W2. go_simpl.
      apply (rv_same _ _ t1 t2); [lia|]. by apply Hsame.
  - destruct (denial_restores rk tk est t1 t2 t3 db db1 db2 r m) as (db3 & E3 & B1 & B2 & Hall); try done.
    cbn [Z.eqb]. rewrite E3. simpl. split_and!; try done; [by apply Hall | intros; by apply Hall].
Qed.

(** *** The response *)
Lemma track_spec t1 t2 identity est act minute db m c :
  let p := KeyPrefix identity in
  t1 <= t2 -> exact m -> exact est -> exact act -> exact (act - est) -> exact c -> 0 <= c ->
  holds db t2 (tpmKey p minute) m -> holds db t1 (concKey p) c ->
  let db' := TrackPostResponse (NoFault, t1) (NoFault, t2) identity est act minute true
               (NewLimiter true) db in
  holds db' t2 (tpmKey p minute) (m + (act - est)) /\
  (exists db1, holds db1 t1 (concKey p) (Z.max 0 (c - 1)) /\
     rv db' t2 (concKey p) = rv db1 t2 (concKey p) /\
     forall v e, rv db t1 (concKey p) = Some (v, e) -> exists v', rv db1 t1 (concKey p) = Some (v', e)) /\
  forall k, k <> tpmKey p minute -> k <> concKey p -> rv db' t2 k = rv db t2 k.
Proof.
  intros p Ht X1 X2 X3 X4 X5 Hc0 Hm Hc. unfold TrackPostResponse. simpl. fold p.
  destruct (release_spec db t1 (concKey p) c Hc X5 Hc0) as (db1 & E1 & H1 & O1 & K1).
  unfold eval, call. rewrite E1. simpl.
  assert (forall k, k <> concKey p -> rv db1 t2 k = rv db t2 k) as Hsame.
  { intros k Hk. apply (rv_same _ _ t1 t2); [done|]. by apply O1. }
  rewrite wrap64_id by (unfold exact, in_int64, minInt64, maxInt64 in *; lia).
  assert (holds db1 t2 (tpmKey p minute) m) as Hm1 by (eapply holds_view; [by apply Hsame|done]).
  destruct (Z.eqb_spec (act - est) 0) as [Hz|Hz]; simpl.
  - split_and!; [by rewrite Hz, Z.add_0_r | by exists db1 | intros; by apply Hsame].
  - destruct (holds_incr _ _ _ _ (act - est) Hm1 X1 X4) as (db2 & x & E2 & V2). rewrite E2. simpl.
    split_and!.
    + apply (holds_some _ _ _ _ x). by rewrite V2, upd_eq.
    + exists db1. split; [done|]. split; [|done]. by rewrite V2, upd_ne.
    + intros k N1 N2. rewrite V2, upd_ne by done. by apply Hsame.
Qed.
End facts.
End RateFacts.
Import RateFacts.

Module RateProps.
Section props.
Context `{RedisLaws}.

(** All or nothing: on distinct counters the script either finds room for every increment,
    adds each one, sets each expiry and answers what is left under each limit; or it names
    the first counter without room and changes nothing. No other key is touched. *)
Theorem check_and_increment_all_or_nothing ks ns db t :
  NoDup (s_key <$> ks) -> Forall2 (slot_ok db t) ks ns ->
  exists reply db', luaCheckAndIncrement ks t db = (Some reply, db') /\
    (forall k', k' ∉ s_key <$> ks -> rv db' t k' = rv db t k') /\
    ((Forall2 fits ks ns /\ reply = 1 :: -1 :: zip_with left_over ks ns /\
      Forall2 (fun k n => rv db' t (s_key k) =
                 Some (FormatInt (n + s_incr k), Some (t + s_ttl k * 1000))) ks ns) \/
     (exists (i : nat) k n rest, ks !! i = Some k /\ ns !! i = Some n /\ s_limit k < n + s_incr k /\
        Forall2 fits (take i ks) (take i ns) /\ reply = 0 :: Z.of_nat i :: rest /\ db' = db)).
Proof. apply check_script_spec. Qed.

(** C12. Without faults, a check decides as [judge] does on the three counters.  When it allows,
    each counter has grown by the request's share and is within its limit; when rpm or tpm
    deny, nothing has changed; when concurrency denies, the request and token counters
    have been rolled back to their values before the check and the slots are as they were.
    No other key changes. *)
Theorem check_pre_request_outcomes now now' t1 t2 t3 identity limits est db r m c :
  let p := KeyPrefix identity in
  let minute := Z.quot (Unix now) 60 in
  let rk := rpmKey p minute in
  let tk := tpmKey p minute in
  let ck := concKey p in
  t1 <= t2 <= t3 -> t3 < t1 + keyTTL * 1000 ->
  exact r -> exact (r + 1) -> exact m -> exact (m + est) -> exact est -> exact c ->
  holds db t1 rk r -> holds db t1 tk m -> holds db t2 ck c ->
  let '(res, db') := CheckPreRequest now now' (NoFault, t1) (NoFault, t2) (NoFault, t3)
                       identity limits est (NewLimiter true) db in
  let v := judge limits est r m c in
  DenyReason res = reason v /\ MinuteKey res = minute /\
  Allowed res = (if v is VAllow then true else false) /\
  ConcurrencyAcquired res = Allowed res /\
  match v with
  | VAllow =>
      r + 1 <= RPM limits /\ m + est <= TPM limits /\ c + 1 <= Concurrency limits /\
      rv db' t2 rk = Some (FormatInt (r + 1), Some (t1 + keyTTL * 1000)) /\
      rv db' t2 tk = Some (FormatInt (m + est), Some (t1 + keyTTL * 1000)) /\
      rv db' t2 ck = Some (FormatInt (c + 1), Some (t2 + keyTTL * 1000))
  | VConc => holds db' t3 rk r /\ holds db' t3 tk m /\ rv db' t3 ck = rv db t3 ck
  | VRpm | VTpm => db' = db
  end /\
  forall k, k <> rk -> k <> tk -> k <> ck -> rv db' t3 k = rv db t3 k.
Proof. apply check_outcomes. Qed.

(** Settlement: a request that was allowed and then reported with its actual tokens leaves
    the request counter one higher, the token counter higher by the actual tokens, and the
    slot count as it was before the request. *)
Theorem check_then_track_settles now now' t1 t2 t3 t4 t5 identity limits est act db r m c :
  let p := KeyPrefix identity in
  let minute := Z.quot (Unix now) 60 in
  t1 <= t2 <= t3 -> t2 <= t4 <= t5 -> t3 < t1 + keyTTL * 1000 -> t5 < t1 + keyTTL * 1000 ->
  exact r -> exact (r + 1) -> exact m -> exact (m + est) -> exact est ->
  exact act -> exact (act - est) -> 0 <= c -> exact (c + 1) ->
  holds db t1 (rpmKey p minute) r -> holds db t1 (tpmKey p minute) m -> holds db t2 (concKey p) c ->
  judge limits est r m c = VAllow ->
  let '(res, db1) := CheckPreRequest now now' (NoFault, t1) (NoFault, t2) (NoFault, t3)
                       identity limits est (NewLimiter true) db in
  let db' := TrackPostResponse (NoFault, t4) (NoFault, t5) identity est act (MinuteKey res)
               (ConcurrencyAcquired res) (NewLimiter true) db1 in
  holds db' t5 (rpmKey p minute) (r + 1) /\ holds db' t5 (tpmKey p minute) (m + act) /\
  holds db' t5 (concKey p) c.
Proof.
  intros p minute Ht Ht' T3 T5 X1 X2 X3 X4 X5 X6 X7 Hc0 X8 Hr Hm Hc Hj.
  assert (exact c) as X9 by (unfold exact in *; lia).
  pose proof (check_outcomes now now' t1 t2 t3 identity limits est db r m c Ht T3 X1 X2 X3 X4 X5 X9
    Hr Hm Hc) as Ho. fold p minute in Ho.
  destruct (CheckPreRequest _ _ _ _ _ _ _ _ _ _) as [res db1]. rewrite Hj in Ho. simpl in Ho.
  destruct Ho as (_ & -> & Ha & -> & (_ & _ & _ & V1 & V2 & V3) & _). rewrite Ha.
  pose proof (rv_still db1 t2 t5 _ _ (t1 + keyTTL * 1000) ltac:(lia) V1 ltac:(lia)) as V1'.
  pose proof (rv_still db1 t2 t5 _ _ (t1 + keyTTL * 1000) ltac:(lia) V2 ltac:(lia)) as V2'.
  pose proof (rv_still db1 t2 t4 _ _ (t2 + keyTTL * 1000) ltac:(lia) V3 ltac:(lia)) as V3'.
  destruct (track_spec t4 t5 identity est act minute db1 (m + est) (c + 1)) as (T & (db2 & C1 & C2 & C3) & O);
    [lia|done..|lia|by eapply holds_some|by eapply holds_some|].
  fold p in T, C1, C2, C3, O. split_and!.
  - apply (holds_some _ _ _ _ (Some (t1 + keyTTL * 1000))). by rewrite O.
  - replace (m + act) with (m + est + (act - est)) by lia. done.
  - destruct (C3 _ _ V3') as [v Hv]. destruct C1 as [x Hx]. unfold counter in Hx. rewrite Hv in Hx.
    destruct Hx as [-> Hx]. apply (holds_some _ _ _ _ (Some (t2 + keyTTL * 1000))).
    rewrite C2. replace (Z.max 0 (c + 1 - 1)) with c in Hv by lia.
    apply (rv_still db2 t4 t5 _ _ (t2 + keyTTL * 1000)); [lia|done|lia].
Qed.

(** Degrade to allow: without a client, when the counter script fails, or when it admits the
    request but the slot script fails, the request is allowed and no slot is reported as
    acquired (so the caller will not release one); a request lost on its way changes nothing. *)
Theorem check_degrades_open now now' n1 n2 n3 identity limits est l db :
  l_rdb l = false \/ n1.1 <> NoFault \/
  (n2.1 <> NoFault /\ DenyReason (CheckPreRequest now now' n1 n2 n3 identity limits est l db).1 <> "rpm" /\
   DenyReason (CheckPreRequest now now' n1 n2 n3 identity limits est l db).1 <> "tpm") ->
  let '(res, db') := CheckPreRequest now now' n1 n2 n3 identity limits est l db in
  Allowed res = true /\ DenyReason res = "" /\ ConcurrencyAcquired res = false /\
  (l_rdb l = false \/ (exists e, n1.1 = LostRequest e) -> db' = db).
Proof.
  unfold CheckPreRequest. destruct (l_rdb l); cbn [negb]; [|by intros].
  unfold eval, call. intros [?|Hf]; [done|].
  destruct n1 as [[|e|e] t1]; cbn [fst snd] in *;
    [| by clear Hf | clear Hf; split_and!; try done; by intros [|[? [=]]]].
  destruct Hf as [Hf|(Hf2 & Hr & Ht)]; [done|]. revert Hr Ht.
  destruct (luaCheckAndIncrement _ _ _) as [[reply|] db1].
  - destruct (nth 0 reply 0 =? 1); cbn [negb].
    + destruct n2 as [[|e|e] t2]; cbn [fst snd] in *; [done|..]; intros _ _; split_and!; try done;
        by intros [|[? [=]]].
    + by destruct (nth 1 reply 0 =? 1).
  - intros _ _. split_and!; try done. by intros [|[? [=]]].
Qed.

(** *** Slots over time *)
Inductive sop := Acq (t : Z) | Rel (t : Z).

(** The abstract component: a counting semaphore with [h] holders. *)
Definition sem_step (limit : Z) (o : sop) (h : Z) : option bool * Z :=
  match o with
  | Acq _ => if h <? limit then (Some true, h + 1) else (Some false, h)
  | Rel _ => (None, h - 1)
  end.
Fixpoint sem_run (limit : Z) (os : list sop) (h : Z) : list (option bool) * Z :=
  match os with
  | [] => ([], h)
  | o :: os' => let '(a, h1) := sem_step limit o h in
                let '(r, h2) := sem_run limit os' h1 in (a :: r, h2)
  end.

(** The scripts on the slot key. *)
Definition slot_step (k : string) (limit : Z) (o : sop) (db : rdb) : option bool * rdb :=
  match o with
  | Acq t => let '(r, db') := eval NoFault (luaConcurrencyAcquire k limit keyTTL) t db in
             (Some (match r with Ok 1 => true | _ => false end), db')
  | Rel t => (None, (eval NoFault (luaConcurrencyRelease k) t db).2)
  end.
Fixpoint slot_run (k : string) (limit : Z) (os : list sop) (db : rdb) : list (option bool) * rdb :=
  match os with
  | [] => ([], db)
  | o :: os' => let '(a, db1) := slot_step k limit o db in
                let '(r, db2) := slot_run k limit os' db1 in (a :: r, db2)
  end.

(** Times do not decrease, only holders release, and while there are holders the key has
    not been idle for [keyTTL] since the last grant, at [last]. *)
Fixpoint timely (limit now last h : Z) (os : list sop) : Prop :=
  match os with
  | [] => True
  | Acq t :: os' =>
      now <= t /\ (0 < h -> t < last + keyTTL * 1000) /\
      (if h <? limit then timely limit t t (h + 1) os' else timely limit t last h os')
  | Rel t :: os' => now <= t /\ 0 < h /\ t < last + keyTTL * 1000 /\ timely limit t last (h - 1) os'
  end.

Definition slot_inv (db : rdb) (k : string) (now last h : Z) : Prop :=
  rv db now k = Some (FormatInt h, Some (last + keyTTL * 1000)) \/ (h = 0 /\ rv db now k = None).

Lemma slot_inv_later db k now t last h :
  now <= t -> (0 < h -> t < last + keyTTL * 1000) -> 0 <= h ->
  slot_inv db k now last h -> slot_inv db k t last h.
Proof.
  intros Ht Hl Hh [Hv|[-> Hv]].
  - destruct (decide (t < last + keyTTL * 1000)).
    + left. by apply (rv_still db now t).
    + right. assert (h = 0) as -> by lia. split; [done|].
      apply (rv_gone db now t k (FormatInt 0) (last + keyTTL * 1000)); [done..|lia].
  - right. split; [done|]. by apply (rv_stays_none db now t).
Qed.
Lemma slot_inv_holds db k t last h : slot_inv db k t last h -> holds db t k h.
Proof.
  intros [Hv|[-> Hv]]; [by eapply holds_some|]. exists None. unfold counter. by rewrite Hv.
Qed.

(** C13. Slots are a semaphore: under timely use, any sequence of acquisitions and releases is
    answered exactly as by a counting semaphore with [limit] permits, and there are never
    more than [limit] holders. *)
Theorem slots_are_a_semaphore k limit os db now last h :
  0 <= h <= limit -> exact (limit + 1) -> slot_inv db k now last h -> timely limit now last h os ->
  (slot_run k limit os db).1 = (sem_run limit os h).1 /\
  0 <= (sem_run limit os h).2 <= limit.
Proof.
  intros Hh Hlim. revert db now last h Hh.
  induction os as [|o os IH]; intros db now last h Hh Hinv Ht; [done|].
  assert (exact h) as Hx by (unfold exact in *; lia). destruct o as [t|t]; cbn [timely] in Ht.
  - destruct Ht as (Hn & Hl & Ht).
    pose proof (slot_inv_later _ _ _ _ _ _ Hn Hl ltac:(lia) Hinv) as Hinv'.
    destruct (acquire_spec db t k h limit keyTTL (slot_inv_holds _ _ _ _ _ Hinv') Hx ltac:(done))
      as (db1 & E1 & V1).
    cbn [slot_run sem_run]. unfold slot_step, sem_step, eval, call. rewrite E1.
    destruct (Z.ltb_spec h limit) as [Hlt|Hge].
    + destruct (IH db1 t t (h + 1)) as [I1 I2]; [lia| |done|].
      { left. by rewrite V1, upd_eq. }
      destruct (slot_run k limit os db1), (sem_run limit os (h + 1)). simpl in *. by rewrite I1.
    + destruct (IH db1 t last h) as [I1 I2]; [lia| |done|].
      { unfold slot_inv. by rewrite V1. }
      destruct (slot_run k limit os db1), (sem_run limit os h). simpl in *. by rewrite I1.
  - destruct Ht as (Hn & Hpos & Hl & Ht).
    pose proof (slot_inv_later db k now t last h Hn ltac:(done) ltac:(lia) Hinv) as Hinv'.
    destruct (release_spec db t k h (slot_inv_holds _ _ _ _ _ Hinv') Hx ltac:(lia))
      as (db1 & E1 & [x C1] & _ & K1).
    cbn [slot_run sem_run]. unfold slot_step, sem_step, eval, call. rewrite E1. cbn [snd].
    destruct (IH db1 t last (h - 1)) as [I1 I2]; [lia| |done|].
    { left. destruct Hinv' as [Hv|[? _]]; [|lia]. destruct (K1 _ _ Hv) as [v' Hv'].
      unfold counter in C1. rewrite Hv' in C1. destruct C1 as [-> _].
      by replace (Z.max 0 (h - 1)) with (h - 1) in Hv' by lia. }
    destruct (slot_run k limit os db1), (sem_run limit os (h - 1)). simpl in *. by rewrite I1.
Qed.
End props.

Import MemRedis.
Lemma check_and_increment_witness :
  exists reply db', luaCheckAndIncrement [mkSlot "a" 5 1 120; mkSlot "b" 10 11 120] 1000 empty_db
    = (Some reply, db') /\ reply = [0; 1; 4; 0].
Proof.
  destruct (check_and_increment_all_or_nothing [mkSlot "a" 5 1 120; mkSlot "b" 10 11 120] [0; 0]
    empty_db 1000) as (reply & db' & E & _).
  - vm_compute. repeat constructor; set_solver.
  - repeat constructor; try done; by exists None.
  - exists reply, db'. split; [done|]. vm_compute in E. congruence.
Defined.

Definition demo_id : RequestIdentity := mkIdentity 7 0 0 "m" "user".
Definition demo_now : Time := time_Unix 1700000000.
Definition demo_db : rdb := {[ "rl:tpm:user:7:28333333" := ("90", Some 50000) ]} : mdb.

Lemma check_pre_request_outcomes_witness :
  DenyReason (CheckPreRequest demo_now demo_now (NoFault, 10) (NoFault, 20) (NoFault, 30)
    demo_id (mkRateLimits 5 100 0) 10 (NewLimiter true) demo_db).1 = "concurrency".
Proof.
  pose proof (check_pre_request_outcomes demo_now demo_now 10 20 30 demo_id (mkRateLimits 5 100 0)
    10 demo_db 0 90 0 ltac:(lia) ltac:(done) ltac:(done) ltac:(done) ltac:(done) ltac:(done)
    ltac:(done) ltac:(done)
    ltac:(exists None; vm_compute; done) ltac:(exists (Some 50000); vm_compute; done)
    ltac:(exists None; vm_compute; done)) as H.
  destruct (CheckPreRequest _ _ _ _ _ _ _ _ _ _) as [res db']. destruct H as [H _]. exact H.
Defined.

Lemma check_then_track_settles_witness :
  let '(res, db1) := CheckPreRequest demo_now demo_now (NoFault, 10) (NoFault, 20) (NoFault, 30)
    demo_id (mkRateLimits 5 100 2) 10 (NewLimiter true) demo_db in
  holds (TrackPostResponse (NoFault, 900) (NoFault, 950) demo_id 10 3 (MinuteKey res)
    (ConcurrencyAcquired res) (NewLimiter true) db1) 950 "rl:tpm:user:7:28333333" 93.
Proof.
  pose proof (check_then_track_settles demo_now demo_now 10 20 30 900 950 demo_id
    (mkRateLimits 5 100 2) 10 3 demo_db 0 90 0 ltac:(lia) ltac:(lia) ltac:(done) ltac:(done)
    ltac:(done) ltac:(done) ltac:(done) ltac:(done) ltac:(done) ltac:(done) ltac:(done) ltac:(done)
    ltac:(done)
    ltac:(exists None; vm_compute; done) ltac:(exists (Some 50000); vm_compute; done)
    ltac:(exists None; vm_compute; done) ltac:(vm_compute; done)) as H.
  destruct (CheckPreRequest _ _ _ _ _ _ _ _ _ _) as [res db1]. apply H.
Defined.

Lemma check_degrades_open_witness :
  Allowed (CheckPreRequest demo_now demo_now (LostReply "eof", 10) (NoFault, 20) (NoFault, 30)
    demo_id (mkRateLimits 0 0 0) 10 (NewLimiter true) empty_db).1 = true.
Proof.
  pose proof (check_degrades_open demo_now demo_now (LostReply "eof", 10) (NoFault, 20) (NoFault, 30)
    demo_id (mkRateLimits 0 0 0) 10 (NewLimiter true) empty_db ltac:(right; left; done)) as H.
  destruct (CheckPreRequest _ _ _ _ _ _ _ _ _ _) as [res db1]. apply H.
Defined.

Lemma slots_are_a_semaphore_witness :
  (slot_run "rl:conc:user:7" 1 [Acq 10; Acq 20; Rel 30; Acq 200000] empty_db).1
  = [Some true; Some false; None; Some true].
Proof.
  apply (slots_are_a_semaphore "rl:conc:user:7" 1 [Acq 10; Acq 20; Rel 30; Acq 200000]
    empty_db 0 0 0); [lia | done | by right | vm_compute; split_and!; done].
Defined.
End RateProps.
