(* ===== verification/Events.v ===== *)
(** * Reliable events: outbox/ and reliableevents/

    outbox.go and inserter.go (the in-process store and the transactional inserter),
    reliableevents/model.go, repo.go (on the table interface of [SqlSpec]) and service.go. *)
From S2P Require Import Prelude GoStd SqlSpec.
Open Scope go_scope.

(** ** outbox: the in-process store *)
Module Outbox.

Inductive outboxErr := ErrInvalidRecord | ErrDuplicateRecord | ErrRecordNotFound.

Record OutboxRecord := mkOutboxRecord {
  ID : string; TenantID : string; AggregateID : string; EventType : string; Payload : string;
  CreatedAt : Time; DispatchedAt : option Time; RetryCount : Z }.

Record MemoryStore := mkStore { records : gmap string OutboxRecord }.
Definition NewMemoryStore : MemoryStore := mkStore ∅.

Definition set_CreatedAt (t : Time) (r : OutboxRecord) : OutboxRecord :=
  mkOutboxRecord (ID r) (TenantID r) (AggregateID r) (EventType r) (Payload r) t (DispatchedAt r) (RetryCount r).
Definition set_DispatchedAt (t : Time) (r : OutboxRecord) : OutboxRecord :=
  mkOutboxRecord (ID r) (TenantID r) (AggregateID r) (EventType r) (Payload r) (CreatedAt r) (Some t) (RetryCount r).

(** [None] is a nil record; the store keeps a copy. *)
Definition Enqueue (now : Time) (rec : option OutboxRecord) (s : MemoryStore)
  : res outboxErr unit * MemoryStore :=
  match rec with
  | None => (Err ErrInvalidRecord, s)
  | Some rec =>
      if String.eqb (ID rec) "" || String.eqb (TenantID rec) "" || String.eqb (EventType rec) ""
      then (Err ErrInvalidRecord, s) else
      match records s !! ID rec with
      | Some _ => (Err ErrDuplicateRecord, s)
      | None =>
          let cp := if IsZero (CreatedAt rec) then set_CreatedAt now rec else rec in
          (Ok (), mkStore (<[ID cp := cp]> (records s)))
      end
  end.

(** [ord] is the order in which this range over the map visits its keys. *)
Definition Pending (ord : list string) (s : MemoryStore) : list OutboxRecord :=
  omap (fun id => match records s !! id with
                  | Some rec => if DispatchedAt rec is None then Some rec else None
                  | None => None
                  end) ord.

Definition MarkDispatched (now : Time) (id : string) (s : MemoryStore) : res outboxErr unit * MemoryStore :=
  match records s !! id with
  | None => (Err ErrRecordNotFound, s)
  | Some rec => (Ok (), mkStore (<[id := set_DispatchedAt now rec]> (records s)))
  end.

(** The loop of [Dispatch]; [now n] is the clock at its [n]-th turn. *)
Fixpoint dispatch_all (now : nat -> Time) (n : nat) (recs : list OutboxRecord) (s : MemoryStore)
  : res outboxErr unit * MemoryStore :=
  match recs with
  | [] => (Ok (), s)
  | rec :: recs' =>
      match MarkDispatched (now n) (ID rec) s with
      | (Err e, s') => (Err e, s')
      | (Ok _, s') => dispatch_all now (S n) recs' s'
      end
  end.
Definition Dispatch (ord : list string) (now : nat -> Time) (s : MemoryStore) : res outboxErr unit * MemoryStore :=
  dispatch_all now 0 (Pending ord s) s.

(** Client calls: the store only ever holds records under their own id. *)
Definition store_wf (s : MemoryStore) : Prop := map_Forall (fun k r => ID r = k) (records s).
Definition order_ok (ord : list string) (s : MemoryStore) : Prop :=
  NoDup ord /\ forall k, k ∈ ord <-> is_Some (records s !! k).

(** ** The inserters *)
(** [RepoInserter]: GORM's Create on the caller's transaction, its error unchanged. *)
Definition InsertTx {Row} `{Table Row} (f : fault) (evt : Row) (tx : tbl) : res string Row * tbl :=
  match call f (t_insert evt) tx with
  | (Ok r, tx') => (r, tx')
  | (Err e, tx') => (Err e, tx')
  end.

Record MockInserter {E : Type} := mkMock { mock_Err : option string; events : list E }.
Arguments MockInserter : clear implicits.
Definition NewMockInserter {E} : MockInserter E := mkMock E None [].
Definition Mock_InsertTx {E} (evt : E) (m : MockInserter E) : res string unit * MockInserter E :=
  match mock_Err m with
  | Some e => (Err e, m)
  | None => (Ok (), mkMock E None (events m ++ [evt]))
  end.
Definition Events {E} (m : MockInserter E) : list E := events m.
Definition Reset {E} (m : MockInserter E) : MockInserter E := mkMock E None [].

(** ** Facts *)
Lemma enqueue_wf now rec s : store_wf s -> store_wf (Enqueue now rec s).2.
Proof.
  intros W. unfold Enqueue. destruct rec as [rec|]; [|done]. destruct (_ || _); [done|].
  destruct (records s !! ID rec); [done|]. simpl. apply map_Forall_insert_2; done.
Qed.

Lemma pending_in ord s r :
  store_wf s -> order_ok ord s ->
  r ∈ Pending ord s <-> (records s !! ID r = Some r /\ DispatchedAt r = None).
Proof.
  intros W [_ Ho]. unfold Pending. rewrite list_elem_of_omap. split.
  - intros (k & Hk & Hr). destruct (records s !! k) as [r'|] eqn:E; [|done].
    destruct (DispatchedAt r') eqn:Ed; [done|]. simplify_eq. specialize (W _ _ E). simpl in W.
    by rewrite W.
  - intros [E Ed]. exists (ID r). rewrite E, Ed. split; [|done]. apply Ho. by eexists.
Qed.
Lemma pending_NoDup ord s : store_wf s -> NoDup ord -> NoDup (ID <$> Pending ord s).
Proof.
  intros W. unfold Pending. induction ord as [|k ord IH]; intros Hn; [constructor|].
  apply NoDup_cons in Hn as [Hk Hn]. csimpl.
  destruct (records s !! k) as [r|] eqn:E; [|by apply IH].
  destruct (DispatchedAt r); [by apply IH|]. csimpl. constructor; [|by apply IH].
  intros (r' & Hr' & Hin)%list_elem_of_fmap. apply list_elem_of_omap in Hin as (k' & Hk' & E').
  destruct (records s !! k') as [r2|] eqn:E2; [|done]. destruct (DispatchedAt r2); simplify_eq.
  specialize (W _ _ E) as W1. specialize (W _ _ E2) as W2. simpl in *. congruence.
Qed.

Lemma dispatch_all_spec now n recs s :
  NoDup (ID <$> recs) -> (forall r, r ∈ recs -> records s !! ID r = Some r) ->
  (dispatch_all now n recs s).1 = Ok () /\
  (forall k, k ∉ ID <$> recs -> records (dispatch_all now n recs s).2 !! k = records s !! k) /\
  (forall r, r ∈ recs -> exists t,
     records (dispatch_all now n recs s).2 !! ID r = Some (set_DispatchedAt t r)).
Proof.
  revert n s. induction recs as [|r recs IH]; intros n s Hn Hr.
  { split_and!; try done. by intros r Hin%elem_of_nil. }
  rewrite fmap_cons in Hn. apply NoDup_cons in Hn as [Hni Hn]. cbn [dispatch_all].
  unfold MarkDispatched. rewrite (Hr r) by left.
  destruct (IH (S n) (mkStore (<[ID r := set_DispatchedAt (now n) r]> (records s))) Hn)
    as (I1 & I2 & I3).
  { intros r' Hr'. simpl. rewrite lookup_insert_ne; [apply Hr; by right|].
    intros E. apply Hni. rewrite E. by apply list_elem_of_fmap_2. }
  split; [done|]. split.
  - intros k. rewrite fmap_cons. intros [Hk1 Hk2]%not_elem_of_cons.
    rewrite I2 by done. simpl. by rewrite lookup_insert_ne.
  - intros r' [->|Hin]%elem_of_cons; [|by apply I3].
    rewrite I2 by done. simpl. rewrite lookup_insert_eq. eauto.
Qed.
End Outbox.

Module OutboxProps.
Import Outbox.

(** Dispatch drains: whatever order the map is visited in, it succeeds, marks exactly the
    pending records (changing nothing else of them), leaves all others as they were, and
    afterwards nothing is pending. *)
Theorem dispatch_drains ord ord' now s :
  store_wf s -> order_ok ord s ->
  let s' := (Dispatch ord now s).2 in
  (Dispatch ord now s).1 = Ok () /\
  (order_ok ord' s' -> Pending ord' s' = []) /\
  forall k, match records s !! k with
            | None => records s' !! k = None
            | Some r => if DispatchedAt r is None
                        then exists t, records s' !! k = Some (set_DispatchedAt t r)
                        else records s' !! k = Some r
            end.
Proof.
  intros W Ho s'. pose proof (pending_in ord s) as Hp.
  destruct (dispatch_all_spec now 0 (Pending ord s) s) as (D1 & D2 & D3).
  { apply pending_NoDup; [done|apply Ho]. }
  { intros r Hr. apply Hp in Hr; [|done..]. apply Hr. }
  assert (forall k, match records s !! k with
            | None => records s' !! k = None
            | Some r => if DispatchedAt r is None
                        then exists t, records s' !! k = Some (set_DispatchedAt t r)
                        else records s' !! k = Some r
            end) as Hall.
  { intros k. subst s'. unfold Dispatch. destruct (records s !! k) as [r|] eqn:E.
    - pose proof (W _ _ E) as Hid. simpl in Hid. destruct (DispatchedAt r) eqn:Ed.
      + rewrite D2; [done|]. intros (r' & Hk & Hr')%list_elem_of_fmap.
        apply Hp in Hr' as [E' Ed']; [|done..]. congruence.
      + rewrite <- Hid. apply D3. apply Hp; [done..|]. by rewrite Hid.
    - rewrite D2; [done|]. intros (r' & Hk & Hr')%list_elem_of_fmap.
      apply Hp in Hr' as [E' _]; [|done..]. congruence. }
  split; [done|]. split; [|done]. intros Ho'.
  destruct (Pending ord' s') as [|r l] eqn:E; [done|]. exfalso.
  assert (r ∈ Pending ord' s') as Hr by (rewrite E; left).
  unfold Pending in Hr. apply list_elem_of_omap in Hr as (k & _ & Hr). specialize (Hall k).
  destruct (records s !! k) as [r0|] eqn:E0.
  - destruct (DispatchedAt r0) eqn:Ed0; [|destruct Hall as [t Hall]]; rewrite Hall in Hr;
      [by rewrite Ed0 in Hr|done].
  - by rewrite Hall in Hr.
Qed.

Definition demo_rec (id : string) : OutboxRecord := mkOutboxRecord id "t1" "" "order.created" "{}" 5 None 0.
Definition demo_store : MemoryStore :=
  (Enqueue 9 (Some (demo_rec "b")) (Enqueue 9 (Some (demo_rec "a")) NewMemoryStore).2).2.
Lemma dispatch_drains_witness :
  (Dispatch ["b"; "a"] (fun n => 10 + Z.of_nat n) demo_store).1 = Ok () /\
  Pending ["a"; "b"] (Dispatch ["b"; "a"] (fun n => 10 + Z.of_nat n) demo_store).2 = [].
Proof.
  assert (store_wf demo_store) as W by (do 2 apply enqueue_wf; apply map_Forall_empty).
  assert (forall o, o ≡ₚ ["a"; "b"] -> forall s, dom (records s) = {["a"; "b"]} -> order_ok o s) as Ho.
  { intros o Hp s Hd. split; [rewrite Hp; repeat constructor; set_solver|].
    intros k. rewrite Hp, <- elem_of_dom, Hd. set_solver. }
  destruct (dispatch_drains ["b"; "a"] ["a"; "b"] (fun n => 10 + Z.of_nat n) demo_store W) as (H1 & H2 & _).
  - apply Ho; [apply Permutation_swap|vm_compute; reflexivity].
  - split; [exact H1|]. apply H2. apply Ho; [done|vm_compute; reflexivity].
Defined.
End OutboxProps.

(** ** reliableevents *)
Module Reliable.

Inductive eventErr := ErrInvalidInput | ErrDuplicateEvent | ErrDB (e : string).

Record Outbox := mkOutbox {
  ID : Z; EventID : string; TenantID : Z; EventType : string; Version : Z; Actor : string;
  CorrelationID : option string; Source : string; Payload : string;
  Status : Z;                            (* 0 pending, 1 sent, 2 failed *)
  RetryCount : Z; NextRetryAt : option Time; OccurredAt : Time; SentAt : option Time }.

Record EventProcessed := mkProcessed {
  ConsumerName : string; p_EventID : string; p_TenantID : Z; ProcessedAt : Time }.

Definition set_ID (id : Z) (e : Outbox) : Outbox :=
  mkOutbox id (EventID e) (TenantID e) (EventType e) (Version e) (Actor e) (CorrelationID e) (Source e)
    (Payload e) (Status e) (RetryCount e) (NextRetryAt e) (OccurredAt e) (SentAt e).

#[export] Instance outbox_entity : Entity Outbox := {|
  ukey := string; uk := EventID; auto_id e := Some (ID e); set_id := set_ID |}.
#[export] Instance outbox_entity_laws : EntityLaws Outbox.
Proof. by split; [|left]. Defined.
Definition consumption (p : EventProcessed) : string * string := (ConsumerName p, p_EventID p).
(** The primary key (consumer_name, event_id) is the unique index; nothing is assigned. *)
#[export] Instance processed_entity : Entity EventProcessed := {|
  ukey := string * string; uk := consumption; auto_id _ := None; set_id _ p := p |}.
#[export] Instance processed_entity_laws : EntityLaws EventProcessed.
Proof. by split; [|right]. Defined.

(** The effect of the two UPDATE statements on a row.  MySQL evaluates the assignments of
    MarkFailed from left to right: the status sees the old retry count, the delay the new one. *)
Definition sent (now : Time) (e : Outbox) : Outbox :=
  mkOutbox (ID e) (EventID e) (TenantID e) (EventType e) (Version e) (Actor e) (CorrelationID e) (Source e)
    (Payload e) 1 (RetryCount e) (NextRetryAt e) (OccurredAt e) (Some now).
Definition failed (now : Time) (e : Outbox) : Outbox :=
  let status := if 5 <=? RetryCount e then 2 else 0 in
  let retry := RetryCount e + 1 in
  let next := now + 2 ^ (Z.min retry 5) * 10 * Second in
  mkOutbox (ID e) (EventID e) (TenantID e) (EventType e) (Version e) (Actor e) (CorrelationID e) (Source e)
    (Payload e) status retry (Some next) (OccurredAt e) (SentAt e).

(** ORDER BY [key] *)
Fixpoint insert_by (le : Outbox -> Outbox -> bool) (x : Outbox) (l : list Outbox) : list Outbox :=
  match l with
  | [] => [x]
  | y :: l' => if le x y then x :: l else y :: insert_by le x l'
  end.
Definition order_by (le : Outbox -> Outbox -> bool) (l : list Outbox) : list Outbox :=
  foldr (insert_by le) [] l.

Definition due (now : Time) (e : Outbox) : bool :=
  (Status e =? 0) && match NextRetryAt e with None => true | Some t => t <=? now end.
Definition older (a b : Outbox) : bool := OccurredAt a <=? OccurredAt b.
(** occurred_at DESC, id DESC *)
Definition newer (a b : Outbox) : bool :=
  (OccurredAt b <? OccurredAt a) || (OccurredAt b =? OccurredAt a) && (ID b <=? ID a).

Section repo.
Context `{UnicodeCase} {TO : Table Outbox} {TP : Table EventProcessed}.

(** The two tables. *)
Record evdb := mkEvdb { outbox : @tbl Outbox TO; processed : @tbl EventProcessed TP }.

Definition isDuplicateKey (e : string) : bool :=
  let msg := ToLower e in
  Contains msg "1062" || Contains msg "duplicate" || Contains msg "unique constraint".

Definition InsertOutbox (f : fault) (e : Outbox) (db : evdb) : res eventErr Outbox * evdb :=
  let fail m := if isDuplicateKey m then Err ErrDuplicateEvent else Err (ErrDB m) in
  match call f (t_insert e) (outbox db) with
  | (Err m, o) | (Ok (Err m), o) => (fail m, mkEvdb o (processed db))
  | (Ok (Ok e'), o) => (Ok e', mkEvdb o (processed db))
  end.
(** The same statement on a caller's transaction. *)
Definition InsertOutboxTx (f : fault) (e : Outbox) (tx : evdb) : res eventErr Outbox * evdb := InsertOutbox f e tx.

Definition Repo_MarkProcessed (f : fault) (ep : EventProcessed) (db : evdb) : res eventErr unit * evdb :=
  let done_ m := if isDuplicateKey m then Ok () else Err (ErrDB m) in
  match call f (t_insert ep) (processed db) with
  | (Err m, p) | (Ok (Err m), p) => (done_ m, mkEvdb (outbox db) p)
  | (Ok (Ok _), p) => (Ok (), mkEvdb (outbox db) p)
  end.

Definition Repo_IsProcessed (f : fault) (consumerName eventID : string) (db : evdb) : res eventErr bool :=
  match (call f (fun t => (t_select (fun p => String.eqb (ConsumerName p) consumerName &&
                                              String.eqb (p_EventID p) eventID) t, t)) (processed db)).1 with
  | Err m => Err (ErrDB m)
  | Ok ps => Ok (0 <? Z.of_nat (length ps))
  end.

Definition FetchPending (f : fault) (now : Time) (limit : Z) (db : evdb) : res eventErr (list Outbox) :=
  match (call f (fun t => (take (Z.to_nat limit) (order_by older (t_select (due now) t)), t)) (outbox db)).1 with
  | Err m => Err (ErrDB m)
  | Ok l => Ok l
  end.

Definition Repo_List (f : fault) (limit offset : Z) (db : evdb) : res eventErr (list Outbox) :=
  match (call f (fun t => (take (Z.to_nat limit) (drop (Z.to_nat offset)
                             (order_by newer (t_select (fun _ => true) t))), t)) (outbox db)).1 with
  | Err m => Err (ErrDB m)
  | Ok l => Ok l
  end.

Definition update_row (f : fault) (id : Z) (g : Outbox -> Outbox) (db : evdb) : res eventErr unit * evdb :=
  match call f (fun t => ((), t_update (fun e => ID e =? id) g t)) (outbox db) with
  | (Err m, o) => (Err (ErrDB m), mkEvdb o (processed db))
  | (Ok _, o) => (Ok (), mkEvdb o (processed db))
  end.
Definition Repo_MarkSent (f : fault) (now : Time) (id : Z) (db : evdb) : res eventErr unit * evdb :=
  update_row f id (sent now) db.
Definition Repo_MarkFailed (f : fault) (now : Time) (id : Z) (db : evdb) : res eventErr unit * evdb :=
  update_row f id (failed now) db.

(** ** service.go *)
(** [Actor] and [Payload] are what json.Marshal returns for the maps. *)
Record PublishInput := mkPublishInput {
  in_EventID : string; in_TenantID : Z; in_EventType : string; in_Source : string;
  in_CorrelationID : string; in_Actor : res string string; in_Payload : res string string }.

(** [uuid] is what uuid.NewString returns. *)
Fixpoint remove_byte (c : ascii) (s : string) : string :=
  match s with
  | "" => ""
  | String a s' => if Ascii.eqb a c then remove_byte c s' else String a (remove_byte c s')
  end.
Definition newEventID (uuid : string) : string := remove_byte "-" uuid.

Definition BuildOutbox (uuid : string) (now : Time) (i : PublishInput) : res eventErr Outbox :=
  let eventID := TrimSpace (in_EventID i) in
  let eventType := TrimSpace (in_EventType i) in
  let source := TrimSpace (in_Source i) in
  if (in_TenantID i =? 0) || String.eqb eventType "" || String.eqb source "" || (32 <? slen eventID)
  then Err ErrInvalidInput else
  match in_Actor i, in_Payload i with
  | Ok actor, Ok payload =>
      let eventID := if String.eqb eventID "" then newEventID uuid else eventID in
      let correlationID := TrimSpace (in_CorrelationID i) in
      Ok (mkOutbox 0 eventID (in_TenantID i) eventType 1 actor
            (if String.eqb correlationID "" then None else Some correlationID) source payload
            0 0 None now None)
  | _, _ => Err ErrInvalidInput
  end.

Definition Publish (f : fault) (uuid : string) (now : Time) (i : PublishInput) (db : evdb)
  : res eventErr Outbox * evdb :=
  match BuildOutbox uuid now i with
  | Err e => (Err e, db)
  | Ok e => InsertOutbox f e db
  end.

Definition normalizeLimit (limit : Z) : Z := if (limit <=? 0) || (100 <? limit) then 50 else limit.

Definition IsProcessed (f : fault) (consumerName eventID : string) (db : evdb) : res eventErr bool :=
  if String.eqb (TrimSpace consumerName) "" || String.eqb (TrimSpace eventID) "" then Err ErrInvalidInput
  else Repo_IsProcessed f consumerName eventID db.
Definition Pending (f : fault) (now : Time) (limit : Z) (db : evdb) : res eventErr (list Outbox) :=
  FetchPending f now (normalizeLimit limit) db.
Definition List_ (f : fault) (limit offset : Z) (db : evdb) : res eventErr (list Outbox) :=
  Repo_List f (normalizeLimit limit) (if offset <? 0 then 0 else offset) db.
Definition MarkSent (f : fault) (now : Time) (id : Z) (db : evdb) : res eventErr unit * evdb :=
  if id =? 0 then (Err ErrInvalidInput, db) else Repo_MarkSent f now id db.
Definition MarkFailed (f : fault) (now : Time) (id : Z) (db : evdb) : res eventErr unit * evdb :=
  if id =? 0 then (Err ErrInvalidInput, db) else Repo_MarkFailed f now id db.

(** [event] is nil or the event's id and tenant. *)
Definition MarkProcessed (f1 f2 : fault) (now : Time) (consumerName : string) (event : option Outbox)
    (db : evdb) : res eventErr unit * evdb :=
  let consumerName := TrimSpace consumerName in
  match event with
  | None => (Err ErrInvalidInput, db)
  | Some e =>
      if String.eqb consumerName "" || String.eqb (EventID e) "" || (TenantID e =? 0)
      then (Err ErrInvalidInput, db) else
      match Repo_IsProcessed f1 consumerName (EventID e) db with
      | Err er => (Err er, db)
      | Ok true => (Ok (), db)
      | Ok false => Repo_MarkProcessed f2 (mkProcessed consumerName (EventID e) (TenantID e) now) db
      end
  end.
End repo.
Arguments evdb : clear implicits.
End Reliable.

Module ReliableFacts.
Import Reliable.

(** *** ORDER BY *)
Section order.
Context (le : Outbox -> Outbox -> bool) (rel : Outbox -> Outbox -> Prop).
Hypothesis le_rel : forall a b, le a b = true -> rel a b.
Hypothesis le_total : forall a b, le a b = false -> rel b a.
Hypothesis rel_trans : forall a b c, rel a b -> rel b c -> rel a c.

Lemma insert_by_perm x l : insert_by le x l ≡ₚ x :: l.
Proof.
  induction l as [|y l IH]; simpl; [done|]. destruct (le x y); [done|].
  rewrite IH. apply Permutation_swap.
Qed.
Lemma order_by_perm l : order_by le l ≡ₚ l.
Proof. induction l as [|x l IH]; simpl; [done|]. by rewrite insert_by_perm, IH. Qed.
Lemma insert_by_sorted x l : StronglySorted rel l -> StronglySorted rel (insert_by le x l).
Proof using le_rel le_total rel_trans.
  induction l as [|y l IH]; intros Hs; simpl; [by repeat constructor|].
  inversion Hs as [|? ? Hs' Hy]; subst. destruct (le x y) eqn:E.
  - constructor; [done|]. constructor; [by apply le_rel|].
    eapply List.Forall_impl; [|exact Hy]. intros z. apply rel_trans. by apply le_rel.
  - constructor; [by apply IH|]. apply List.Forall_forall. intros z Hz.
    rewrite <- list_elem_of_In, insert_by_perm, elem_of_cons in Hz.
    destruct Hz as [->|Hz]; [by apply le_total|].
    apply (proj1 (List.Forall_forall _ _) Hy). by apply list_elem_of_In.
Qed.
Lemma order_by_sorted l : StronglySorted rel (order_by le l).
Proof using le_rel le_total rel_trans.
  induction l as [|x l IH]; simpl; [constructor|]. by apply insert_by_sorted.
Qed.
End order.

Lemma sorted_take_drop {A} (rel : A -> A -> Prop) n (l : list A) a b :
  StronglySorted rel l -> a ∈ take n l -> b ∈ drop n l -> rel a b.
Proof.
  revert n. induction l as [|x l IH]; intros [|n] Hs; simpl.
  - by intros Ha%elem_of_nil.
  - by intros Ha%elem_of_nil.
  - by intros Ha%elem_of_nil.
  - inversion Hs as [|? ? Hs' Hx]; subst. intros [->|Ha]%elem_of_cons Hb; [|by eapply IH].
    apply (proj1 (List.Forall_forall _ _) Hx). apply list_elem_of_In.
    by eapply subseteq_drop.
Qed.
Lemma sorted_take {A} (rel : A -> A -> Prop) n (l : list A) :
  StronglySorted rel l -> StronglySorted rel (take n l).
Proof.
  revert n. induction l as [|x l IH]; intros [|n] Hs; simpl; try constructor.
  - inversion Hs; subst. by apply IH.
  - inversion Hs as [|? ? Hs' Hx]; subst. apply List.Forall_forall. intros z Hz.
    apply (proj1 (List.Forall_forall _ _) Hx). rewrite <- list_elem_of_In in *.
    by eapply subseteq_take.
Qed.

Section tables.
Context `{UnicodeCase} {TO : Table Outbox} {TP : Table EventProcessed}.
Context `{!TableLaws Outbox TO} `{!TableLaws EventProcessed TP}.

Lemma select_in {Row} `{Entity Row} (T : Table Row) `{!TableLaws Row T} p (t : tbl) r :
  twf t -> r ∈ t_select p t <-> r ∈ rows t /\ p r = true.
Proof.
  intros W. rewrite (select_rows p t W), list_elem_of_In, filter_In, list_elem_of_In. done.
Qed.

Lemma update_row_rows id g (db : evdb TO TP) :
  twf (outbox db) -> (forall e, EventID (g e) = EventID e /\ ID (g e) = ID e) ->
  exists o, update_row NoFault id g db = (Ok (), mkEvdb o (processed db)) /\ twf o /\
    rows o ≡ₚ ((fun e => if ID e =? id then g e else e) <$> rows (outbox db)).
Proof.
  intros W Hg. unfold update_row. simpl. eexists. split; [done|].
  apply update_rows; [done|]. intros e. simpl. destruct (Hg e) as [-> ->]. done.
Qed.

Lemma is_processed_iff c ev (db : evdb TO TP) :
  twf (processed db) ->
  Repo_IsProcessed NoFault c ev db = Ok (bool_decide ((c, ev) ∈ consumption <$> rows (processed db))).
Proof.
  intros W. unfold Repo_IsProcessed. simpl. f_equal.
  set (sel := t_select _ _).
  assert ((exists r, r ∈ sel) <-> (c, ev) ∈ consumption <$> rows (processed db)) as Hiff.
  { rewrite (list_elem_of_fmap consumption (rows (processed db)) (c, ev)). subst sel. split.
    - intros [r [Hr Hp]%(select_in TP)]; [|done]. apply andb_prop in Hp as [H1%String.eqb_eq H2%String.eqb_eq].
      exists r. unfold consumption. by rewrite H1, H2.
    - intros (r & Hk & Hr). exists r. apply (select_in TP); [done|]. split; [done|]. unfold consumption in Hk.
      injection Hk as -> ->. by rewrite !String.eqb_refl. }
  destruct sel as [|r l]; simpl.
  - symmetry. apply bool_decide_eq_false. rewrite <- Hiff. intros [r Hr]. by apply elem_of_nil in Hr.
  - rewrite bool_decide_eq_true_2; [apply Z.ltb_lt; lia|]. apply Hiff. exists r. left.
Qed.
End tables.
End ReliableFacts.

Module ReliableProps.
Import Reliable ReliableFacts.
Section props.
Context `{UnicodeCase} {TO : Table Outbox} {TP : Table EventProcessed}.
Context `{!TableLaws Outbox TO} `{!TableLaws EventProcessed TP}.
Implicit Types db : evdb TO TP.

(** Fetching is oldest first and misses nothing: at most [normalizeLimit] rows are returned,
    each one stored and due, in order of occurrence; a due row is left out only when the
    batch is full, and then no returned row occurred after it. *)
Theorem pending_is_oldest_first now limit db :
  twf (outbox db) ->
  exists l, Pending NoFault now limit db = Ok l /\
    Z.of_nat (length l) <= normalizeLimit limit <= 100 /\
    (forall e, e ∈ l -> e ∈ rows (outbox db) /\ due now e = true) /\
    StronglySorted (fun a b => OccurredAt a <= OccurredAt b) l /\
    (forall e, e ∈ rows (outbox db) -> due now e = true -> e ∉ l ->
       Z.of_nat (length l) = normalizeLimit limit /\ forall a, a ∈ l -> OccurredAt a <= OccurredAt e).
Proof.
  intros W. unfold Pending, FetchPending. simpl. eexists. split; [done|].
  set (n := normalizeLimit limit). set (sel := t_select (due now) (outbox db)).
  assert (1 <= n <= 100) as Hn.
  { subst n. unfold normalizeLimit. destruct (Z.leb_spec limit 0), (Z.ltb_spec 100 limit); simpl; lia. }
  pose proof (order_by_perm older sel) as Hp.
  assert (StronglySorted (fun a b => OccurredAt a <= OccurredAt b) (order_by older sel)) as Hs.
  { apply order_by_sorted; unfold older; intros *; rewrite ?Z.leb_le, ?Z.leb_gt; lia. }
  set (l := order_by older sel) in *.
  assert (forall e, e ∈ l <-> e ∈ rows (outbox db) /\ due now e = true) as Hin.
  { intros e. rewrite Hp. apply (select_in TO). done. }
  split_and!; [rewrite length_take; lia|lia| | |].
  - intros e He. apply Hin. by eapply subseteq_take.
  - by apply sorted_take.
  - intros e He Hd Hnot.
    assert (e ∈ drop (Z.to_nat n) l) as Hdrop.
    { assert (e ∈ l) as Hel by (by apply Hin). rewrite <- (take_drop (Z.to_nat n) l), elem_of_app in Hel.
      by destruct Hel. }
    split.
    + rewrite length_take. destruct (decide (Z.to_nat n <= length l)%nat) as [|Hlt]; [lia|].
      rewrite drop_ge in Hdrop by lia. by apply elem_of_nil in Hdrop.
    + intros a Ha. by apply (sorted_take_drop (fun a b => OccurredAt a <= OccurredAt b) _ _ _ _ Hs Ha).
Qed.

(** *** Failures *)
Definition fail_at (id : Z) (db : evdb TO TP) (now : Time) : evdb TO TP := (MarkFailed NoFault now id db).2.

(** The row after [n > 0] failures, the last one at [now]. *)
Definition after_failures (e0 : Outbox) (n : Z) (now : Time) (e : Outbox) : Prop :=
  EventID e = EventID e0 /\ ID e = ID e0 /\ RetryCount e = n /\
  Status e = (if n <=? 5 then 0 else 2) /\ NextRetryAt e = Some (now + 2 ^ (Z.min n 5) * 10 * Second).

Lemma fail_at_row id db now e n :
  twf (outbox db) -> id <> 0 -> e ∈ rows (outbox db) -> ID e = id -> RetryCount e = n ->
  twf (outbox (fail_at id db now)) /\ failed now e ∈ rows (outbox (fail_at id db now)).
Proof.
  intros W Hid He Hi Hn. unfold fail_at, MarkFailed, Repo_MarkFailed.
  destruct (Z.eqb_spec id 0); [done|].
  destruct (update_row_rows id (failed now) db W ltac:(done)) as (o & -> & W' & Hr). simpl.
  split; [done|]. rewrite Hr. apply list_elem_of_fmap. exists e. by rewrite Hi, Z.eqb_refl.
Qed.

(** The retry schedule: after [n] failures in a row a pending row is still pending for
    n <= 5 and failed from the sixth on; its next attempt is [10 * 2^min(n,5)] seconds
    after the last failure.  So it is not fetched before that, and never again after six. *)
Theorem failures_back_off id db e0 ts now later :
  twf (outbox db) -> id <> 0 -> e0 ∈ rows (outbox db) -> ID e0 = id -> RetryCount e0 = 0 ->
  let db' := foldl (fail_at id) db (ts ++ [now]) in
  let n := Z.of_nat (length ts) + 1 in
  exists e, e ∈ rows (outbox db') /\ after_failures e0 n now e /\
    due later e = ((n <=? 5) && (now + 2 ^ (Z.min n 5) * 10 * Second <=? later)).
Proof.
  intros W Hid He Hi H0 db' n.
  assert (forall ts, exists e, twf (outbox (foldl (fail_at id) db ts)) /\
    e ∈ rows (outbox (foldl (fail_at id) db ts)) /\ ID e = id /\ EventID e = EventID e0 /\
    RetryCount e = Z.of_nat (length ts)) as Hall.
  { clear db' n ts. intros ts. induction ts as [|t ts IH] using rev_ind; [by exists e0|].
    destruct IH as (e & W1 & E1 & I1 & V1 & R1). rewrite foldl_app. simpl.
    destruct (fail_at_row id _ t e (RetryCount e) W1 Hid E1 I1 eq_refl) as [W2 E2].
    exists (failed t e). split_and!; try done. simpl. rewrite R1, length_app. simpl. lia. }
  destruct (Hall ts) as (e & W1 & E1 & I1 & V1 & R1). subst db'. rewrite foldl_app. simpl.
  destruct (fail_at_row id _ now e (RetryCount e) W1 Hid E1 I1 eq_refl) as [W2 E2].
  exists (failed now e). split; [done|].
  assert ((if 5 <=? RetryCount e then 2 else 0) = (if n <=? 5 then 0 else 2)) as Hs.
  { rewrite R1. subst n. destruct (Z.leb_spec 5 (Z.of_nat (length ts))),
      (Z.leb_spec (Z.of_nat (length ts) + 1) 5); try done; lia. }
  assert (RetryCount e + 1 = n) as Hn by (subst n; lia).
  split.
  - unfold after_failures. cbn [EventID ID RetryCount Status NextRetryAt failed].
    rewrite Hs, Hn. split_and!; congruence.
  - unfold due. cbn [Status NextRetryAt failed]. rewrite Hs, Hn. by destruct (n <=? 5).
Qed.

(** Consumption is recorded once: marking an event processed succeeds, makes [IsProcessed]
    true for exactly that consumer and event besides what it was true for, and marking it
    again succeeds and changes nothing. *)
Theorem processed_once now now' consumer e db :
  twf (processed db) ->
  TrimSpace consumer <> "" -> EventID e <> "" -> TenantID e <> 0 ->
  let db' := (MarkProcessed NoFault NoFault now consumer (Some e) db).2 in
  (MarkProcessed NoFault NoFault now consumer (Some e) db).1 = Ok () /\
  twf (processed db') /\ outbox db' = outbox db /\
  (forall c ev, Repo_IsProcessed NoFault c ev db' =
     if decide ((c, ev) = (TrimSpace consumer, EventID e)) then Ok true
     else Repo_IsProcessed NoFault c ev db) /\
  MarkProcessed NoFault NoFault now' consumer (Some e) db' = (Ok (), db').
Proof.
  intros W Hc Hev Hten db'.
  assert (forall t d, twf (processed d) -> MarkProcessed NoFault NoFault t consumer (Some e) d =
    if bool_decide ((TrimSpace consumer, EventID e) ∈ consumption <$> rows (processed d)) then (Ok (), d)
    else Repo_MarkProcessed NoFault (mkProcessed (TrimSpace consumer) (EventID e) (TenantID e) t) d) as Hm.
  { intros t d Wd. unfold MarkProcessed. destruct (String.eqb_spec (TrimSpace consumer) ""); [done|].
    destruct (String.eqb_spec (EventID e) ""); [done|]. destruct (Z.eqb_spec (TenantID e) 0); [done|].
    cbn [orb]. rewrite is_processed_iff by done. by destruct (bool_decide _). }
  subst db'. rewrite (Hm now db W). case_bool_decide as Hin.
  - cbn [fst snd]. split_and!; try done.
    + intros c ev. case_decide as Hd; [|done]. injection Hd as -> ->.
      by rewrite is_processed_iff, bool_decide_eq_true_2.
    + rewrite (Hm now' db W). by rewrite bool_decide_eq_true_2.
  - unfold Repo_MarkProcessed. cbn [call].
    destruct (insert_new (mkProcessed (TrimSpace consumer) (EventID e) (TenantID e) now) (processed db) W Hin)
      as (id & p & -> & Wp & _ & _ & Hp). cbn [fst snd outbox processed].
    assert (forall c ev, (c, ev) ∈ consumption <$> rows p <->
      (c, ev) = (TrimSpace consumer, EventID e) \/ (c, ev) ∈ consumption <$> rows (processed db)) as Hk.
    { intros c ev. rewrite Hp, fmap_cons, elem_of_cons. done. }
    split_and!; try done.
    + intros c ev. rewrite !is_processed_iff by done. simpl. case_decide as Hd.
      * rewrite bool_decide_eq_true_2; [done|]. apply Hk. by left.
      * do 2 f_equal. apply bool_decide_ext. rewrite Hk. tauto.
    + rewrite Hm by done. cbn [processed]. rewrite bool_decide_eq_true_2; [done|]. apply Hk. by left.
Qed.
End props.

Import MemTable.
#[local] Existing Instance plain_case.
Definition mdb : Type := evdb mem_table mem_table.
Definition empty_db : mdb := mkEvdb (TO := mem_table) (TP := mem_table) empty_tbl empty_tbl.
Definition demo_input (id : string) : PublishInput :=
  mkPublishInput id 7 "order.created" "orders" "" (Ok "null") (Ok "{}").
Definition demo_db : mdb :=
  (Publish NoFault "u-2" 20 (demo_input "") (Publish NoFault "u-1" 30 (demo_input "e1") empty_db).2).2.

Lemma demo_wf : twf (outbox demo_db).
Proof.
  change (mwf (outbox demo_db)). unfold mwf, distinct_rows. vm_compute.
  repeat split; repeat constructor; try set_solver; done.
Qed.
Definition demo_row : Outbox :=
  mkOutbox 1 "e1" 7 "order.created" 1 "null" None "orders" "{}" 0 0 None 30 None.

Lemma pending_is_oldest_first_witness :
  exists l, Pending NoFault 100 1 demo_db = Ok l /\ Z.of_nat (length l) <= 1 /\
    forall a, a ∈ l -> OccurredAt a <= 30.
Proof.
  destruct (pending_is_oldest_first 100 1 demo_db demo_wf) as (l & E & [H1 _] & _ & _ & H4).
  exists l. split; [exact E|]. split; [exact H1|].
  assert (demo_row ∉ l) as Hno.
  { vm_compute in E. injection E as <-. intros [Hx|Hx%elem_of_nil]%elem_of_cons; done. }
  destruct (H4 demo_row) as [_ H5]; [|reflexivity|exact Hno|exact H5].
  vm_compute. right. left.
Defined.

Lemma failures_back_off_witness :
  exists e, e ∈ rows (outbox (foldl (fail_at 1) demo_db [100; 200])) /\
    after_failures demo_row 2 200 e /\ due (200 + 39 * Second) e = false.
Proof.
  destruct (failures_back_off 1 demo_db demo_row [100] 200 (200 + 39 * Second) demo_wf)
    as (e & H1 & H2 & H3); [done| |done|done|].
  - vm_compute. right. left.
  - exists e. split; [exact H1|]. split; [exact H2|]. rewrite H3. reflexivity.
Defined.

Lemma processed_once_witness :
  (MarkProcessed NoFault NoFault 50 " mailer " (Some demo_row) demo_db).1 = Ok () /\
  Repo_IsProcessed NoFault "mailer" "e1" (MarkProcessed NoFault NoFault 50 " mailer " (Some demo_row) demo_db).2
  = Ok true.
Proof.
  destruct (processed_once 50 60 " mailer " demo_row demo_db) as (H1 & _ & _ & H2 & _).
  - exact (empty_mwf (Row := EventProcessed)).
  - by vm_compute.
  - done.
  - done.
  - split; [exact H1|]. rewrite H2. vm_compute. reflexivity.
Defined.

(** [IsProcessed] validates the trimmed consumer name but looks up the name as given, while
    [MarkProcessed] records the trimmed one: a padded name is never found. *)
Lemma padded_consumer_is_never_processed :
  let db := (MarkProcessed NoFault NoFault 50 "mailer " (Some demo_row) demo_db).2 in
  IsProcessed NoFault "mailer " "e1" db = Ok false /\ IsProcessed NoFault "mailer" "e1" db = Ok true.
Proof. vm_compute. split; reflexivity. Qed.
End ReliableProps.
