(* ===== verification/Consumers.v ===== *)
(** * Concurrent consumers of reliable events

    [MarkProcessed] of reliableevents/service.go makes two round trips, a look-up and an INSERT.  Here
    it is cut between them, and any number of calls, of the same or of different consumers and
    events, are scheduled round trip by round trip against one table. *)
From S2P Require Import Prelude GoStd SqlSpec Events.
Open Scope go_scope.

Module Consumers.
Import Reliable ReliableFacts.

Section calls.
Context `{UnicodeCase} {TO : Table Outbox} {TP : Table EventProcessed}.

(** Before the look-up, before the INSERT, returned. *)
Inductive stage := Looking | Inserting | Finished (r : res eventErr unit).
Record mcall := mkCall { m_now : Time; m_consumer : string; m_event : option Outbox; m_stage : stage }.

(** The arguments pass the checks. *)
Definition usable (consumerName : string) (event : option Outbox) : option Outbox :=
  e ← event;
  if String.eqb (TrimSpace consumerName) "" || String.eqb (EventID e) "" || (TenantID e =? 0) then None else Some e.

(** One round trip of a call, with its fault. *)
Definition advance (f : fault) (c : mcall) (db : evdb TO TP) : stage * evdb TO TP :=
  match usable (m_consumer c) (m_event c), m_stage c with
  | None, Looking => (Finished (Err ErrInvalidInput), db)
  | Some e, Looking =>
      (match Repo_IsProcessed f (TrimSpace (m_consumer c)) (EventID e) db with
       | Err er => Finished (Err er)
       | Ok true => Finished (Ok ())
       | Ok false => Inserting
       end, db)
  | Some e, Inserting =>
      let '(r, db') := Repo_MarkProcessed f (mkProcessed (TrimSpace (m_consumer c)) (EventID e) (TenantID e) (m_now c)) db in
      (Finished r, db')
  | _, s => (s, db)
  end.
Definition set_stage (s : stage) (c : mcall) : mcall := mkCall (m_now c) (m_consumer c) (m_event c) s.

(** Calls scheduled by their number, each turn with a fault. *)
Fixpoint schedule (turns : list (nat * fault)) (cs : list mcall) (db : evdb TO TP) : list mcall * evdb TO TP :=
  match turns with
  | [] => (cs, db)
  | (i, f) :: turns' =>
      match cs !! i with
      | None => schedule turns' cs db
      | Some c => let '(s, db') := advance f c db in schedule turns' (<[i := set_stage s c]> cs) db'
      end
  end.

(** The whole call is its two round trips. *)
Lemma mark_is_its_steps f1 f2 now consumer event db :
  MarkProcessed f1 f2 now consumer event db =
  let '(s, db1) := advance f1 (mkCall now consumer event Looking) db in
  match s with
  | Finished r => (r, db1)
  | _ => match advance f2 (mkCall now consumer event s) db1 with (Finished r, db2) => (r, db2) | (_, db2) => (Err ErrInvalidInput, db2) end
  end.
Proof.
  unfold MarkProcessed, advance, usable. cbn [m_consumer m_event m_stage m_now]. destruct event as [e|]; [|done]. cbn [mbind option_bind].
  destruct (_ || _ || _) eqn:E; [done|]. destruct (Repo_IsProcessed _ _ _ _) as [[]|]; [done| |done].
  by destruct (Repo_MarkProcessed _ _ _).
Qed.

Definition pair_of (c : mcall) : option (string * string) :=
  (fun e => (TrimSpace (m_consumer c), EventID e)) <$> usable (m_consumer c) (m_event c).
(** A fault whose text is not that of a duplicate key. *)
Definition plain (f : fault) : Prop :=
  match f with NoFault => True | LostRequest e | LostReply e => isDuplicateKey e = false end.
Definition noted (db : evdb TO TP) `{!TableLaws EventProcessed TP} : list (string * string) := consumption <$> rows (processed db).
End calls.
End Consumers.

Module ConsumerFacts.
Import Reliable ReliableFacts Consumers.
Section facts.
Context `{UnicodeCase} {TO : Table Outbox} {TP : Table EventProcessed}.
Context `{!TableLaws Outbox TO} `{!TableLaws EventProcessed TP}.
Implicit Types db : evdb TO TP.

(** An INSERT of a pair: the pair is there afterwards if it reports success, nothing else is added,
    nothing is lost, and without a fault it does report success. *)
Lemma insert_notes f ep db :
  plain f -> twf (processed db) ->
  let '(r, db') := Repo_MarkProcessed f ep db in
  twf (processed db') /\ noted db ⊆ noted db' /\ noted db' ⊆ consumption ep :: noted db /\
  (r = Ok () -> consumption ep ∈ noted db') /\ (f = NoFault -> r = Ok ()).
Proof.
  intros Hf W. unfold Repo_MarkProcessed, noted.
  destruct (decide (uk ep ∈ uk <$> rows (processed db))) as [Hd|Hd].
  - destruct (insert_dup ep (processed db) W Hd) as (e & p & E & W' & He & Hp).
    assert (isDuplicateKey e = true) as Hk by (unfold isDuplicateKey; by rewrite He).
    destruct f as [|e0|e0]; cbn [call]; rewrite ?E; cbn [fst snd processed outbox];
      [rewrite Hk|rewrite Hf|rewrite Hf]; rewrite ?Hp; split_and!; try done; set_solver.
  - destruct (insert_new ep (processed db) W Hd) as (id & p & E & W' & _ & _ & Hp).
    destruct f as [|e0|e0]; cbn [call]; rewrite ?E; cbn [fst snd processed outbox]; [|rewrite Hf|rewrite Hf];
      rewrite ?Hp; csimpl; split_and!; try done; set_solver.
Qed.

(** What a round trip does: the table only gains the call's pair, and a call that ends well has it there. *)
Lemma advance_notes f c db :
  plain f -> twf (processed db) ->
  (m_stage c = Finished (Ok ()) -> exists p, pair_of c = Some p /\ p ∈ noted db) ->
  let '(s, db') := advance f c db in
  twf (processed db') /\ noted db ⊆ noted db' /\
  (forall p, p ∈ noted db' -> p ∈ noted db \/ pair_of c = Some p) /\
  (s = Finished (Ok ()) -> exists p, pair_of c = Some p /\ p ∈ noted db') /\
  (f = NoFault -> pair_of c <> None -> (exists r, s = Finished r) -> (forall r, m_stage c = Finished r -> r = Ok ()) -> s = Finished (Ok ())).
Proof.
  intros Hf W Hc. unfold advance, pair_of in *. destruct (usable (m_consumer c) (m_event c)) as [e|] eqn:Eu; cbn [fmap option_fmap option_map] in *.
  - destruct (m_stage c) as [| |r] eqn:Es.
    + destruct f as [|e0|e0]; [|unfold Repo_IsProcessed; simpl; by split_and!; [| |auto|..]..].
      rewrite is_processed_iff by done. fold (noted db). case_bool_decide; split_and!; try done; eauto.
      intros _ _ [r [=]].
    + pose proof (insert_notes f (mkProcessed (TrimSpace (m_consumer c)) (EventID e) (TenantID e) (m_now c)) db Hf W) as Hi.
      destruct (Repo_MarkProcessed _ _ _) as [r db']. destruct Hi as (W' & H1 & H2 & H3 & H4). split_and!; [done|done| | |].
      * intros p Hp. apply H2, elem_of_cons in Hp as [->|Hp]; [by right|by left].
      * intros [= ->]. eexists. split; [done|]. by apply H3.
      * intros E _ _ _. by rewrite H4.
    + split_and!; [done|done|auto|done|]. intros _ _ _ Hr. by rewrite (Hr r).
  - destruct (m_stage c) as [| |r]; split_and!; try done; auto.
Qed.

(** The invariant of a schedule that began with the pairs [start]. *)
Record sound (calm : Prop) (start : list (string * string)) (cs : list mcall) (db : evdb TO TP) : Prop := {
  s_wf : twf (processed db);
  s_kept : start ⊆ noted db;
  s_only : forall p, p ∈ noted db -> p ∈ start \/ exists c, c ∈ cs /\ pair_of c = Some p;
  s_done : forall c, c ∈ cs -> m_stage c = Finished (Ok ()) -> exists p, pair_of c = Some p /\ p ∈ noted db;
  s_calm : calm -> forall c r, c ∈ cs -> pair_of c <> None -> m_stage c = Finished r -> r = Ok () }.

Lemma schedule_sound calm start turns cs db :
  Forall (fun t => plain t.2 /\ (calm -> t.2 = NoFault)) turns -> sound calm start cs db ->
  let '(cs', db') := schedule turns cs db in sound calm start cs' db' /\ (pair_of <$> cs') = (pair_of <$> cs).
Proof.
  revert cs db. induction turns as [|[i f] turns IH]; intros cs db Ht Hs; [done|]. apply Forall_cons in Ht as [[Hf Hcf] Ht].
  cbn [schedule]. destruct (cs !! i) as [c|] eqn:Ei; [|by apply IH]. simpl in Hf, Hcf.
  pose proof (list_elem_of_lookup_2 _ _ _ Ei) as Hin.
  pose proof (advance_notes f c db Hf (s_wf _ _ _ _ Hs) (s_done _ _ _ _ Hs c Hin)) as Ha.
  destruct (advance f c db) as [s db']. destruct Ha as (W' & H1 & H2 & H3 & H4).
  assert (pair_of <$> <[i := set_stage s c]> cs = pair_of <$> cs) as Ep.
  { rewrite list_fmap_insert. apply list_insert_id. by rewrite list_lookup_fmap, Ei. }
  assert (forall c', c' ∈ <[i := set_stage s c]> cs -> c' = set_stage s c \/ c' ∈ cs) as Hel.
  { intros c' [j Hj]%list_elem_of_lookup. destruct (decide (j = i)) as [->|].
    - rewrite list_lookup_insert_eq in Hj by (by eapply lookup_lt_Some). left. congruence.
    - rewrite list_lookup_insert_ne in Hj by done. right. by eapply list_elem_of_lookup_2. }
  assert (forall p, (exists c', c' ∈ cs /\ pair_of c' = Some p) <-> Some p ∈ pair_of <$> cs) as Hp.
  { intros p. rewrite list_elem_of_fmap. naive_solver. }
  assert (sound calm start (<[i := set_stage s c]> cs) db') as Hs'.
  { split.
    - done.
    - etrans; [apply Hs|done].
    - intros p Hp'. assert (Some p ∈ pair_of <$> <[i := set_stage s c]> cs \/ p ∈ start) as [Hq|Hq]; [|right|by left].
      + rewrite Ep, <- Hp. destruct (H2 p Hp') as [Hq|Hq]; [destruct (s_only _ _ _ _ Hs p Hq); auto|left; eauto].
      + apply list_elem_of_fmap in Hq. naive_solver.
    - intros c' [->|Hc']%Hel Es; [by apply H3|]. destruct (s_done _ _ _ _ Hs c' Hc' Es) as (p & ? & ?). eauto.
    - intros Hc c' r [->|Hc']%Hel Hne Es; [|by eapply (s_calm _ _ _ _ Hs)]. simpl in Es.
      assert (s = Finished (Ok ())); [|congruence]. apply H4; [auto|done|eauto|].
      intros r' Hr'. by eapply (s_calm _ _ _ _ Hs). }
  specialize (IH _ db' Ht Hs'). destruct (schedule turns _ db') as [cs' db'']. by rewrite <- Ep.
Qed.
End facts.
End ConsumerFacts.

Module ConsumerProps.
Import Reliable ReliableFacts Consumers ConsumerFacts.
Section props.
Context `{UnicodeCase} {TO : Table Outbox} {TP : Table EventProcessed}.
Context `{!TableLaws Outbox TO} `{!TableLaws EventProcessed TP}.

(** C26. Consumption is recorded exactly once under concurrency: whatever calls of [MarkProcessed] run and
    however their round trips interleave, no consumer and event is recorded twice, nothing recorded
    is lost, only what was asked for is recorded, and a call that succeeded has its record in the
    table, faults or not; and without faults every call with usable arguments that has
    returned has succeeded, also those that lost the race between look-up and INSERT. *)
Theorem marked_once_concurrently turns cs db :
  twf (processed db) -> Forall (fun c => m_stage c = Looking) cs -> Forall (fun t => plain t.2) turns ->
  let '(cs', db') := schedule turns cs db in
  NoDup (noted db') /\ noted db ⊆ noted db' /\
  (forall p, p ∈ noted db' -> p ∈ noted db \/ Some p ∈ pair_of <$> cs) /\
  (forall c, c ∈ cs' -> m_stage c = Finished (Ok ()) -> exists p, pair_of c = Some p /\ p ∈ noted db') /\
  (Forall (fun t => t.2 = NoFault) turns ->
   forall c r, c ∈ cs' -> pair_of c <> None -> m_stage c = Finished r -> r = Ok ()).
Proof.
  intros W Hcs Ht. set (calm := Forall (fun t : nat * fault => t.2 = NoFault) turns).
  assert (forall c, c ∈ cs -> m_stage c = Looking) as Hl by (by apply Forall_forall).
  pose proof (schedule_sound calm (noted db) turns cs db) as Hs. destruct (schedule turns cs db) as [cs' db'].
  destruct Hs as [Hs Ep].
  - apply Forall_forall. intros t Hin. rewrite Forall_forall in Ht. split; [by apply Ht|].
    intros Hc. subst calm. rewrite Forall_forall in Hc. by apply Hc.
  - split; [done|done|auto| |]; intros; naive_solver congruence.
  - split_and!.
    + apply (twf_distinct _ (s_wf _ _ _ _ Hs)).
    + apply Hs.
    + intros p Hp. destruct (s_only _ _ _ _ Hs p Hp) as [?|(c & Hc & Ec)]; [by left|]. right. rewrite <- Ep, <- Ec.
      by apply list_elem_of_fmap_2.
    + apply Hs.
    + apply Hs.
Qed.
End props.

Import MemTable ReliableProps.
#[local] Existing Instance plain_case.
(** Two workers of one consumer race: both look before either writes. *)
Definition racing : list mcall :=
  [mkCall 50 "mailer" (Some demo_row) Looking; mkCall 51 " mailer " (Some demo_row) Looking].
Definition race : list (nat * fault) := [(0%nat, NoFault); (1%nat, NoFault); (1%nat, NoFault); (0%nat, NoFault)].
Lemma marked_once_concurrently_witness :
  let '(cs, db) := schedule race racing demo_db in
  m_stage <$> cs = [Finished (Ok ()); Finished (Ok ())] /\ NoDup (noted db) /\ noted db = [("mailer", "e1")].
Proof.
  pose proof (marked_once_concurrently race racing demo_db) as H.
  assert (exists cs db, schedule race racing demo_db = (cs, db) /\
    m_stage <$> cs = [Finished (Ok ()); Finished (Ok ())] /\ noted db = [("mailer", "e1")]) as (cs & db & E & Hs & Hn).
  { do 2 eexists. split; [vm_compute; reflexivity|]. by split. }
  rewrite E in *. split; [exact Hs|]. split; [|exact Hn]. apply H.
  - exact (empty_mwf (Row := EventProcessed)).
  - by repeat constructor.
  - by repeat constructor.
Defined.
End ConsumerProps.
