(* ===== verification/Delivery.v ===== *)
(** * The contract of reliable events

    What reliableevents promises its callers, without tables, columns or status codes: a ledger of
    letters, each waiting, delivered or abandoned, and a set of (consumer, event) pairs.  A run of
    the service, every call with the faults of its round trips, is a run of the ledger; what the
    ledger keeps, the service keeps. *)
From S2P Require Import Prelude GoStd SqlSpec Events Consumers.
Open Scope go_scope.

(** ** The ledger *)
Module Ledger.
Import Reliable.

Record message := mkMessage {
  m_event : string; m_tenant : Z; m_type : string; m_version : Z; m_actor : string;
  m_correlation : option string; m_source : string; m_payload : string; m_occurred : Time }.

Inductive phase := Waiting (until : option Time) | Delivered | Abandoned.
Record letter := mkLetter { l_msg : message; l_phase : phase; l_failures : Z }.
Record ledger := mkLedger { letters : gmap Z letter; seen : gset (string * string) }.

(** The wait after the [n]-th failure: ten seconds doubled [n] times, at most five. *)
Definition wait (n : Z) : Duration := 10 * Second * 2 ^ Z.min n 5.

Definition deliver (l : letter) : letter := mkLetter (l_msg l) Delivered (l_failures l).
(** The sixth failure is the last.  A failure reported of a delivered letter makes it wait again. *)
Definition miss (now : Time) (l : letter) : letter :=
  let n := l_failures l + 1 in
  mkLetter (l_msg l) (if n <=? 5 then Waiting (Some (now + wait n)) else Abandoned) n.
Definition ready (now : Time) (l : letter) : bool :=
  match l_phase l with Waiting None => true | Waiting (Some t) => t <=? now | _ => false end.

Definition on_letter (id : Z) (g : letter -> letter) (L : ledger) : ledger :=
  mkLedger (alter g id (letters L)) (seen L).
Definition known (ev : string) (L : ledger) : Prop :=
  exists k l, letters L !! k = Some l /\ m_event (l_msg l) = ev.

(** ** Calls and answers *)
(** A call of the service with the faults and clock readings of its round trips. *)
Inductive request :=
  | RPublish (f : fault) (uuid : string) (now : Time) (i : PublishInput)
  | RPending (f : fault) (now : Time) (limit : Z)
  | RList (f : fault) (limit offset : Z)
  | RMarkSent (f : fault) (now : Time) (id : Z)
  | RMarkFailed (f : fault) (now : Time) (id : Z)
  | RMarkProcessed (f1 f2 : fault) (now : Time) (consumer : string) (event : option Outbox)
  | RIsProcessed (f : fault) (consumer event : string).

Inductive reply := Done | Flag (b : bool) | Letters (l : list (Z * letter)).
Definition answer : Type := res eventErr reply.

Definition faults (r : request) : list fault :=
  match r with
  | RPublish f _ _ _ | RPending f _ _ | RList f _ _ | RMarkSent f _ _ | RMarkFailed f _ _ | RIsProcessed f _ _ => [f]
  | RMarkProcessed f1 f2 _ _ _ => [f1; f2]
  end.
(** The INSERT of a consumption takes any error that reads like a duplicate key for success; this
    says that no fault of the connection reads like one. *)
Definition sane `{UnicodeCase} (r : request) : Prop :=
  match r with RMarkProcessed _ f2 _ _ _ => Consumers.plain f2 | _ => True end.

(** Calls refused before any round trip. *)
Definition refused `{UnicodeCase} (r : request) : bool :=
  match r with
  | RPublish _ uuid now i => if BuildOutbox uuid now i is Ok _ then false else true
  | RMarkSent _ _ id | RMarkFailed _ _ id => id =? 0
  | RMarkProcessed _ _ _ c ev => if Consumers.usable c ev is Some _ then false else true
  | RIsProcessed _ c ev => String.eqb (TrimSpace c) "" || String.eqb (TrimSpace ev) ""
  | RPending _ _ _ | RList _ _ _ => false
  end.

Definition message_of (e : Outbox) : message :=
  mkMessage (EventID e) (TenantID e) (EventType e) (Version e) (Actor e) (CorrelationID e) (Source e)
    (Payload e) (OccurredAt e).

(** Oldest first; newest first, the later row before the earlier one of the same instant. *)
Definition no_later (a b : Z * letter) : Prop := m_occurred (l_msg a.2) <= m_occurred (l_msg b.2).
Definition no_earlier (a b : Z * letter) : Prop :=
  m_occurred (l_msg b.2) < m_occurred (l_msg a.2) \/
  m_occurred (l_msg b.2) = m_occurred (l_msg a.2) /\ b.1 <= a.1.

(** A call that is carried out.  A consumption is recorded under the trimmed consumer name and asked for
    under the name as given, as the service does: a padded name is never found
    ([padded_consumer_is_never_processed]). *)
Inductive served `{UnicodeCase} (L : ledger) : request -> answer -> ledger -> Prop :=
  | Served_publish f uuid now i e id (l := mkLetter (message_of e) (Waiting None) 0) :
      BuildOutbox uuid now i = Ok e -> ~ known (EventID e) L -> 0 < id -> letters L !! id = None ->
      served L (RPublish f uuid now i) (Ok (Letters [(id, l)])) (mkLedger (<[id := l]> (letters L)) (seen L))
  | Served_duplicate f uuid now i e :
      BuildOutbox uuid now i = Ok e -> known (EventID e) L ->
      served L (RPublish f uuid now i) (Err ErrDuplicateEvent) L
  | Served_pending f now limit b :
      b ≡ₚ List.filter (fun kl => ready now kl.2) (map_to_list (letters L)) -> StronglySorted no_later b ->
      served L (RPending f now limit) (Ok (Letters (take (Z.to_nat (normalizeLimit limit)) b))) L
  | Served_list f limit offset b :
      b ≡ₚ map_to_list (letters L) -> StronglySorted no_earlier b ->
      served L (RList f limit offset)
        (Ok (Letters (take (Z.to_nat (normalizeLimit limit)) (drop (Z.to_nat offset) b)))) L
  | Served_sent f now id : served L (RMarkSent f now id) (Ok Done) (on_letter id deliver L)
  | Served_failed f now id : served L (RMarkFailed f now id) (Ok Done) (on_letter id (miss now) L)
  | Served_processed f1 f2 now c e :
      served L (RMarkProcessed f1 f2 now c (Some e)) (Ok Done)
        (mkLedger (letters L) ({[(TrimSpace c, EventID e)]} ∪ seen L))
  | Served_asked f c ev : served L (RIsProcessed f c ev) (Ok (Flag (bool_decide ((c, ev) ∈ seen L)))) L.

(** Refused, carried out, or, when a round trip fails, an error with all of the effect or none. *)
Inductive step `{UnicodeCase} (L : ledger) (r : request) : answer -> ledger -> Prop :=
  | Step_refused : refused r = true -> step L r (Err ErrInvalidInput) L
  | Step_served a L' : refused r = false -> served L r a L' -> step L r a L'
  | Step_lost e a L' :
      refused r = false -> Exists (fun f => f <> NoFault) (faults r) -> e <> ErrInvalidInput ->
      served L r a L' \/ L' = L -> step L r (Err e) L'.

Inductive steps `{UnicodeCase} : ledger -> list request -> list answer -> ledger -> Prop :=
  | Steps_nil L : steps L [] [] L
  | Steps_cons L r a L1 rs as_ L2 : step L r a L1 -> steps L1 rs as_ L2 -> steps L (r :: rs) (a :: as_) L2.
End Ledger.

(** ** The service as an implementation of the ledger *)
Module Delivery.
Import Reliable Ledger.

Definition letter_of (e : Outbox) : letter :=
  mkLetter (message_of e)
    (if Status e =? 0 then Waiting (NextRetryAt e) else if Status e =? 1 then Delivered else Abandoned)
    (RetryCount e).
Definition entry (e : Outbox) : Z * letter := (ID e, letter_of e).

Section service.
Context `{UnicodeCase} {TO : Table Outbox} {TP : Table EventProcessed}.

Definition answered {A} (g : A -> reply) (r : res eventErr A) : answer :=
  match r with Ok a => Ok (g a) | Err e => Err e end.

(** The method a request calls. *)
Definition exec (r : request) (db : evdb TO TP) : answer * evdb TO TP :=
  match r with
  | RPublish f uuid now i =>
      let '(a, db') := Publish f uuid now i db in (answered (fun e => Letters [entry e]) a, db')
  | RPending f now limit => (answered (fun l => Letters (entry <$> l)) (Pending f now limit db), db)
  | RList f limit offset => (answered (fun l => Letters (entry <$> l)) (List_ f limit offset db), db)
  | RMarkSent f now id => let '(a, db') := MarkSent f now id db in (answered (fun _ => Done) a, db')
  | RMarkFailed f now id => let '(a, db') := MarkFailed f now id db in (answered (fun _ => Done) a, db')
  | RMarkProcessed f1 f2 now c ev =>
      let '(a, db') := MarkProcessed f1 f2 now c ev db in (answered (fun _ => Done) a, db')
  | RIsProcessed f c ev => (answered Flag (IsProcessed f c ev db), db)
  end.

Fixpoint run (rs : list request) (db : evdb TO TP) : list answer * evdb TO TP :=
  match rs with
  | [] => ([], db)
  | r :: rs' => let '(a, db1) := exec r db in let '(l, db2) := run rs' db1 in (a :: l, db2)
  end.

Context `{!TableLaws Outbox TO} `{!TableLaws EventProcessed TP}.

Definition wf (db : evdb TO TP) : Prop := twf (outbox db) /\ twf (processed db).
(** The ledger a database stands for. *)
Definition ledger_of (db : evdb TO TP) : ledger :=
  mkLedger (list_to_map (entry <$> rows (outbox db)))
           (list_to_set (consumption <$> rows (processed db))).
End service.
End Delivery.

Module DeliveryFacts.
Import Reliable ReliableFacts Ledger Delivery.
Section facts.
Context `{UnicodeCase} {TO : Table Outbox} {TP : Table EventProcessed}.
Context `{!TableLaws Outbox TO} `{!TableLaws EventProcessed TP}.
Implicit Types (db : evdb TO TP) (e : Outbox).

(** *** Rows and letters *)
Lemma omap_ID (l : list Outbox) : omap auto_id l = ID <$> l.
Proof. induction l as [|e l IH]; [done|]. simpl. by f_equal. Qed.
Lemma entry_keys (l : list Outbox) : (entry <$> l).*1 = ID <$> l.
Proof. by rewrite <- list_fmap_compose. Qed.
Lemma row_ids (t : @tbl Outbox TO) : twf t -> NoDup (entry <$> rows t).*1.
Proof. intros W. rewrite entry_keys, <- omap_ID. apply (twf_distinct _ W). Qed.

(** Tables with the same rows stand for the same letters. *)
Lemma letters_perm (t : @tbl Outbox TO) l :
  twf t -> rows t ≡ₚ l -> list_to_map (entry <$> rows t) =@{gmap Z letter} list_to_map (entry <$> l).
Proof. intros W Hp. apply list_to_map_proper; [by apply row_ids|by rewrite Hp]. Qed.
Lemma letters_list db : twf (outbox db) -> map_to_list (letters (ledger_of db)) ≡ₚ entry <$> rows (outbox db).
Proof. intros W. simpl. apply map_to_list_to_map. by apply row_ids. Qed.
Lemma letter_lookup db id l :
  twf (outbox db) ->
  letters (ledger_of db) !! id = Some l <-> exists e, e ∈ rows (outbox db) /\ ID e = id /\ letter_of e = l.
Proof.
  intros W. simpl. rewrite <- elem_of_list_to_map by (by apply row_ids).
  rewrite list_elem_of_fmap. unfold entry. naive_solver.
Qed.
Lemma known_iff ev db : twf (outbox db) -> known ev (ledger_of db) <-> ev ∈ EventID <$> rows (outbox db).
Proof.
  intros W. unfold known. setoid_rewrite letter_lookup; [|done]. rewrite list_elem_of_fmap. naive_solver.
Qed.

(** *** The statements on letters *)
Lemma sent_letter now e : letter_of (sent now e) = deliver (letter_of e).
Proof. done. Qed.
Lemma failed_letter now e : letter_of (failed now e) = miss now (letter_of e).
Proof.
  unfold letter_of, failed, miss, wait. cbn [Status RetryCount NextRetryAt l_failures l_msg].
  destruct (Z.leb_spec 5 (RetryCount e)), (Z.leb_spec (RetryCount e + 1) 5); try lia; [done|].
  simpl. do 4 f_equal. lia.
Qed.
Lemma due_letter now e : due now e = ready now (letter_of e).
Proof.
  unfold due, ready, letter_of. simpl. destruct (Status e =? 0); [by destruct (NextRetryAt e)|].
  by destruct (Status e =? 1).
Qed.

Lemma update_entries id g g' (l : list Outbox) :
  NoDup (ID <$> l) -> (forall e, ID (g e) = ID e) -> (forall e, letter_of (g e) = g' (letter_of e)) ->
  list_to_map (entry <$> ((fun e => if ID e =? id then g e else e) <$> l)) =@{gmap Z letter}
  alter g' id (list_to_map (entry <$> l)).
Proof.
  intros Hn Hi Hl. induction l as [|e l IH]; csimpl; [by rewrite alter_empty|].
  apply NoDup_cons in Hn as [Hx Hn]. rewrite (IH Hn). destruct (Z.eqb_spec (ID e) id) as [<-|Hne].
  - unfold entry at 1. rewrite Hi, Hl. cbn [fst snd]. rewrite alter_insert_eq. f_equal.
    apply alter_id. intros l0 Hl0. exfalso. apply Hx.
    apply elem_of_list_to_map_2, list_elem_of_fmap in Hl0 as (e' & He & Hin).
    unfold entry in He. injection He as -> _. by apply list_elem_of_fmap_2.
  - by rewrite alter_insert_ne.
Qed.

(** *** Each call is a step *)
Definition refines (r : request) (db : evdb TO TP) : Prop :=
  let '(a, db') := exec r db in step (ledger_of db) r a (ledger_of db') /\ wf db'.

Lemma ledger_outbox (o : @tbl Outbox TO) db :
  ledger_of (mkEvdb o (processed db)) = mkLedger (list_to_map (entry <$> rows o)) (seen (ledger_of db)).
Proof. done. Qed.

(** An UPDATE of one row: all of it, or an error with all of it or nothing. *)
Lemma update_refines r f id g g' db :
  wf db -> (forall e, EventID (g e) = EventID e /\ ID (g e) = ID e) ->
  (forall e, letter_of (g e) = g' (letter_of e)) ->
  refused r = false -> faults r = [f] -> (forall L, served L r (Ok Done) (on_letter id g' L)) ->
  let '(a, db') := update_row f id g db in
  step (ledger_of db) r (answered (fun _ => Done) a) (ledger_of db') /\ wf db'.
Proof.
  intros [W Wp] Hg Hl Hr Hf Hs. destruct (update_row_rows id g db W Hg) as (o & E & W' & Hrows).
  assert (ledger_of (mkEvdb o (processed db)) = on_letter id g' (ledger_of db)) as HL.
  { rewrite ledger_outbox. unfold on_letter. f_equal. rewrite (letters_perm o _ W' Hrows).
    apply update_entries; [|apply Hg|done]. rewrite <- omap_ID. apply (twf_distinct _ W). }
  unfold update_row in *. destruct f as [|m|m]; simpl in *; injection E as E; (split; [|by subst o]).
  - subst o. rewrite HL. by apply Step_served.
  - apply Step_lost with (a := Ok Done); [done|rewrite Hf; by left|done|]. right. by destruct db.
  - subst o. rewrite HL. apply Step_lost with (a := Ok Done); [done|rewrite Hf; by left|done|]. by left.
Qed.

Lemma sent_refines f now id db : wf db -> refines (RMarkSent f now id) db.
Proof.
  intros W. unfold refines. simpl. unfold MarkSent, Repo_MarkSent. destruct (Z.eqb_spec id 0) as [->|Hid].
  { split; [by constructor|done]. }
  pose proof (update_refines (RMarkSent f now id) f id (sent now) deliver db W) as Hu.
  destruct (update_row f id (sent now) db). apply Hu; try done; [by apply Z.eqb_neq|constructor].
Qed.
Lemma failed_refines f now id db : wf db -> refines (RMarkFailed f now id) db.
Proof.
  intros W. unfold refines. simpl. unfold MarkFailed, Repo_MarkFailed. destruct (Z.eqb_spec id 0) as [->|Hid].
  { split; [by constructor|done]. }
  pose proof (update_refines (RMarkFailed f now id) f id (failed now) (miss now) db W) as Hu.
  destruct (update_row f id (failed now) db).
  apply Hu; try done; [apply failed_letter|by apply Z.eqb_neq|constructor].
Qed.

(** *** Publishing *)
Lemma build_fresh uuid now i e id :
  BuildOutbox uuid now i = Ok e -> letter_of (set_ID id e) = mkLetter (message_of e) (Waiting None) 0.
Proof.
  unfold BuildOutbox. destruct (_ || _); [done|]. destruct (in_Actor i), (in_Payload i); try done. by intros [= <-].
Qed.
Lemma build_err uuid now i er : BuildOutbox uuid now i = Err er -> er = ErrInvalidInput.
Proof.
  unfold BuildOutbox. destruct (_ || _); [by intros [= <-]|].
  destruct (in_Actor i), (in_Payload i); try done; by intros [= <-].
Qed.

(** The INSERT itself, before the round trip is taken into account. *)
Lemma insert_served f uuid now i e db :
  wf db -> BuildOutbox uuid now i = Ok e ->
  exists a o, t_insert e (outbox db) = (a, o) /\ wf (mkEvdb o (processed db)) /\
    match a with
    | Ok e' => served (ledger_of db) (RPublish f uuid now i) (Ok (Letters [entry e'])) (ledger_of (mkEvdb o (processed db)))
    | Err m => isDuplicateKey m = true /\ ledger_of (mkEvdb o (processed db)) = ledger_of db /\
               served (ledger_of db) (RPublish f uuid now i) (Err ErrDuplicateEvent) (ledger_of db)
    end.
Proof.
  intros [W Wp] Hb. destruct (decide (uk e ∈ uk <$> rows (outbox db))) as [Hd|Hd].
  - destruct (insert_dup e (outbox db) W Hd) as (m & o & E & W' & Hm & Hp).
    exists (Err m), o. split_and!; [done|by split| | |].
    + unfold isDuplicateKey. by rewrite Hm.
    + rewrite ledger_outbox, (letters_perm o _ W' Hp). done.
    + eapply Served_duplicate; [done|]. by apply known_iff.
  - destruct (insert_new e (outbox db) W Hd) as (id & o & E & W' & Hid & Hfresh & Hp).
    exists (Ok (set_ID id e)), o. split_and!; [done|by split|].
    assert (entry (set_ID id e) = (id, mkLetter (message_of e) (Waiting None) 0)) as He
      by (unfold entry; by erewrite build_fresh).
    rewrite ledger_outbox, (letters_perm o _ W' Hp). cbn [set_id outbox_entity]. rewrite fmap_cons, He. cbn [list_to_map foldr curry fst snd].
    apply (Served_publish (ledger_of db) f _ _ _ e); [done|by rewrite known_iff|done|].
    destruct (letters (ledger_of db) !! id) as [l|] eqn:El; [|done]. exfalso. apply Hfresh.
    rewrite letter_lookup in El by done. destruct El as (e' & Hin & <- & _). rewrite omap_ID. by apply list_elem_of_fmap_2.
Qed.

Lemma publish_refines f uuid now i db : wf db -> refines (RPublish f uuid now i) db.
Proof.
  intros W. unfold refines. simpl. unfold Publish. destruct (BuildOutbox uuid now i) as [e|er] eqn:Hb.
  2:{ rewrite (build_err _ _ _ _ Hb). split; [|done]. apply Step_refused. simpl. by rewrite Hb. }
  assert (refused (RPublish f uuid now i) = false) as Hr by (simpl; by rewrite Hb).
  destruct (insert_served f uuid now i e db W Hb) as (a & o & E & W' & Ha).
  unfold InsertOutbox. destruct f as [|m|m]; simpl; rewrite ?E; simpl.
  - destruct a as [e'|m]; (split; [|done]); [by apply Step_served|].
    destruct Ha as (-> & -> & Ha). by apply Step_served.
  - split; [|by destruct db]. replace (mkEvdb (outbox db) (processed db)) with db by (by destruct db).
    destruct (isDuplicateKey m); (eapply (Step_lost _ _ _ (Ok Done)); [done|by left|done|by right]).
  - split; [|done]. destruct (isDuplicateKey m), a as [e'|m'];
      (eapply Step_lost; [done|by left|done|]); (left; exact Ha) || (right; apply Ha).
    Unshelve. all: exact (Ok Done).
Qed.

(** *** Reading *)
#[local] Instance filter_perm {A} (p : A -> bool) : Proper (Permutation ==> Permutation) (List.filter p).
Proof.
  intros l l' Hp. induction Hp as [|x l l' _ IH|x y l|l1 l2 l3 _ I1 _ I2]; simpl; [done|..].
  - destruct (p x); [by rewrite IH|done].
  - destruct (p x), (p y); done || apply Permutation_swap.
  - by transitivity (List.filter p l2).
Qed.
Lemma filter_all {A} (l : list A) : List.filter (fun _ => true) l = l.
Proof. induction l as [|x l IH]; [done|]. simpl. by rewrite IH. Qed.
Lemma sorted_entries (le : Outbox -> Outbox -> bool) (rel : Z * letter -> Z * letter -> Prop) (l : list Outbox) :
  (forall a b, le a b = true -> rel (entry a) (entry b)) -> (forall a b, le a b = false -> rel (entry b) (entry a)) ->
  (forall a b c, rel a b -> rel b c -> rel a c) -> StronglySorted rel (entry <$> order_by le l).
Proof.
  intros H1 H2 H3.
  assert (StronglySorted (fun a b => rel (entry a) (entry b)) (order_by le l)) as Hs
    by (apply order_by_sorted; eauto).
  induction Hs as [|e l' Hs IH Hf]; csimpl; constructor; [done|].
  apply List.Forall_forall. intros x (e' & <- & Hin)%List.in_map_iff. by apply (proj1 (List.Forall_forall _ _) Hf).
Qed.
Lemma filter_entries now (l : list Outbox) :
  entry <$> List.filter (due now) l = List.filter (fun kl => ready now kl.2) (entry <$> l).
Proof.
  induction l as [|e l IH]; [done|]. csimpl. rewrite <- due_letter. destruct (due now e); csimpl; by rewrite IH.
Qed.

(** A SELECT that fails changes nothing. *)
Lemma read_lost r f m db :
  wf db -> refused r = false -> faults r = [f] -> f <> NoFault -> step (ledger_of db) r (Err (ErrDB m)) (ledger_of db).
Proof.
  intros W Hr Hf Hn. apply Step_lost with (a := Ok Done); [done|rewrite Hf; by left|done|by right].
Qed.

Lemma pending_refines f now limit db : wf db -> refines (RPending f now limit) db.
Proof.
  intros W. split; [|done]. simpl. unfold Pending, FetchPending.
  destruct f as [|m|m]; simpl; [|by eapply read_lost..]. rewrite fmap_take.
  apply Step_served; [done|]. apply Served_pending.
  - rewrite letters_list by apply W. rewrite <- filter_entries, order_by_perm. by rewrite select_rows by apply W.
  - apply sorted_entries; unfold older, no_later; simpl; intros *; rewrite ?Z.leb_le, ?Z.leb_gt; lia.
Qed.
Lemma list_refines f limit offset db : wf db -> refines (RList f limit offset) db.
Proof.
  intros W. split; [|done]. simpl. unfold List_, Repo_List.
  destruct f as [|m|m]; simpl; [|by eapply read_lost..]. rewrite fmap_take, fmap_drop.
  replace (Z.to_nat (if offset <? 0 then 0 else offset)) with (Z.to_nat offset)
    by (destruct (Z.ltb_spec offset 0); lia).
  apply Step_served; [done|]. apply Served_list.
  - rewrite letters_list by apply W. rewrite order_by_perm, select_rows by apply W.
    by rewrite filter_all.
  - apply sorted_entries; unfold newer, no_earlier; simpl; intros *;
      rewrite ?orb_true_iff, ?orb_false_iff, ?andb_true_iff, ?andb_false_iff, ?Z.ltb_lt, ?Z.ltb_ge, ?Z.leb_le, ?Z.leb_gt,
        ?Z.eqb_eq, ?Z.eqb_neq; lia.
Qed.

(** *** Consumptions *)
Lemma seen_iff p db : p ∈ seen (ledger_of db) <-> p ∈ consumption <$> rows (processed db).
Proof. simpl. apply elem_of_list_to_set. Qed.
Lemma asked c ev db :
  wf db -> Repo_IsProcessed NoFault c ev db = Ok (bool_decide ((c, ev) ∈ seen (ledger_of db))).
Proof.
  intros [_ W]. rewrite is_processed_iff by done. f_equal. apply bool_decide_ext. by rewrite seen_iff.
Qed.
Lemma asked_refines f c ev db : wf db -> refines (RIsProcessed f c ev) db.
Proof.
  intros W. split; [|done]. simpl. unfold IsProcessed. destruct (_ || _) eqn:E; [by apply Step_refused|].
  destruct f as [|m|m]; [|by eapply read_lost..]. rewrite asked by done.
  apply Step_served; [done|]. constructor.
Qed.

Lemma mark_keeps f ep db :
  outbox (Repo_MarkProcessed f ep db).2 = outbox db /\ (Repo_MarkProcessed f ep db).1 <> Err ErrInvalidInput.
Proof.
  unfold Repo_MarkProcessed. destruct (call f (t_insert ep) (processed db)) as [[[]|m] p]; simpl; [done|..];
    by destruct (isDuplicateKey _).
Qed.
(** The INSERT of a consumption adds its pair or nothing, and adds it if it reports success. *)
Lemma mark_seen f ep db :
  Consumers.plain f -> wf db ->
  let '(a, db') := Repo_MarkProcessed f ep db in
  wf db' /\
  (ledger_of db' = mkLedger (letters (ledger_of db)) ({[consumption ep]} ∪ seen (ledger_of db)) \/
   a <> Ok () /\ ledger_of db' = ledger_of db) /\ (a = Ok () \/ f <> NoFault).
Proof.
  intros Hf [W Wp]. pose proof (ConsumerFacts.insert_notes f ep db Hf Wp) as Hi.
  destruct (mark_keeps f ep db) as [Ho _]. destruct (Repo_MarkProcessed f ep db) as [a db']. simpl in Ho.
  destruct Hi as (W' & H1 & H2 & H3 & H4). split; [by split; [rewrite Ho|]|].
  split; [|destruct f; [left; by apply H4|by right..]].
  unfold ledger_of. rewrite Ho. simpl. fold (Consumers.noted db) (Consumers.noted db').
  destruct (decide (consumption ep ∈ Consumers.noted db')) as [Hin|Hin].
  - left. f_equal. apply set_eq. intros p. rewrite elem_of_union, !elem_of_list_to_set, elem_of_singleton.
    split; [intros Hp%H2; by apply elem_of_cons in Hp|]. intros [->|Hp]; [done|by apply H1].
  - right. split; [naive_solver|]. f_equal. apply set_eq. intros p. rewrite !elem_of_list_to_set.
    split; [|apply H1]. intros Hp. pose proof (H2 p Hp) as Hc. apply elem_of_cons in Hc as [->|]; done.
Qed.

Lemma processed_refines f1 f2 now c ev db :
  Consumers.plain f2 -> wf db -> refines (RMarkProcessed f1 f2 now c ev) db.
Proof.
  intros Hf W. unfold refines. simpl. unfold MarkProcessed.
  destruct ev as [e|]; [|split; [by apply Step_refused|done]].
  destruct (String.eqb (TrimSpace c) "" || String.eqb (EventID e) "" || (TenantID e =? 0)) eqn:Eu.
  { split; [|done]. apply Step_refused. simpl. unfold Consumers.usable. simpl. by rewrite Eu. }
  assert (refused (RMarkProcessed f1 f2 now c (Some e)) = false) as Hr
    by (simpl; unfold Consumers.usable; simpl; by rewrite Eu).
  destruct f1 as [|m|m].
  2,3: split; [|done]; apply Step_lost with (a := Ok Done); [done|by left|done|by right].
  rewrite asked by done. case_bool_decide as Hin.
  { split; [|done]. apply Step_served; [done|].
    replace (ledger_of db) with (mkLedger (letters (ledger_of db)) ({[(TrimSpace c, EventID e)]} ∪ seen (ledger_of db))) at 2.
    - constructor.
    - unfold ledger_of in *. simpl in *. f_equal. apply subseteq_union_1_L. by apply singleton_subseteq_l. }
  set (ep := mkProcessed (TrimSpace c) (EventID e) (TenantID e) now).
  pose proof (mark_seen f2 ep db Hf W) as Hm. destruct (mark_keeps f2 ep db) as [_ Hne].
  destruct (Repo_MarkProcessed f2 ep db) as [a db']. destruct Hm as (W' & HL & Ha). split; [|done].
  destruct a as [[]|er]; simpl in *.
  - destruct HL as [->|[]]; [|done]. apply Step_served; [done|constructor].
  - apply Step_lost with (a := Ok Done); [done|right; left; by destruct Ha|congruence|].
    destruct HL as [->|[_ ->]]; [left; constructor|by right].
Qed.

Lemma exec_refines r db : sane r -> wf db -> refines r db.
Proof.
  intros Hs W. destruct r; [by apply publish_refines|by apply pending_refines|by apply list_refines|
    by apply sent_refines|by apply failed_refines|by apply processed_refines|by apply asked_refines].
Qed.
Lemma run_refines rs db :
  Forall sane rs -> wf db ->
  let '(as_, db') := run rs db in steps (ledger_of db) rs as_ (ledger_of db') /\ wf db'.
Proof.
  revert db. induction rs as [|r rs IH]; intros db Hs W; simpl; [split; [constructor|done]|].
  apply Forall_cons in Hs as [Hr Hs]. pose proof (exec_refines r db Hr W) as He. unfold refines in He.
  destruct (exec r db) as [a db1]. destruct He as [He W1]. specialize (IH db1 Hs W1).
  destruct (run rs db1) as [l db2]. destruct IH as [IH W2]. split; [|done]. by econstructor.
Qed.
End facts.
End DeliveryFacts.

(** ** What the ledger keeps *)
Module LedgerFacts.
Import Reliable ReliableFacts Ledger.
Section facts.
Context `{UnicodeCase}.

(** The calls that say what became of a letter. *)
Definition sends (id : Z) (r : request) : bool :=
  match r with RMarkSent _ _ id' => id' =? id | _ => false end.
Definition fails (id : Z) (r : request) : list Time :=
  match r with RMarkFailed _ now id' => if id' =? id then [now] else [] | _ => [] end.

(** The letter [id] carries [m], failed at most [n] times and is ready at [T]. *)
Definition held (id : Z) (m : message) (n : nat) (T : Time) (L : ledger) : Prop :=
  exists l, letters L !! id = Some l /\ l_msg l = m /\ l_failures l <= Z.of_nat n /\ ready T l = true.

Definition longest : Duration := 320 * Second.
Lemma wait_longest n : wait n <= longest.
Proof.
  unfold wait, longest. assert (2 ^ Z.min n 5 <= 2 ^ 5) by (apply Z.pow_le_mono_r; lia).
  unfold Second, Millisecond in *. lia.
Qed.

Lemma served_keeps L r a L' id m n T :
  served L r a L' -> held id m n T L -> sends id r = false ->
  (n + length (fails id r) <= 5)%nat -> Forall (fun t => t + longest <= T) (fails id r) ->
  held id m (n + length (fails id r)) T L'.
Proof.
  intros Hs (l & El & Em & En & Hr) Hsend Hn HT.
  assert (forall n', (n <= n')%nat -> held id m n' T L) as Hsame by (intros; exists l; split_and!; auto; lia).
  destruct Hs; simpl in *; try (apply Hsame; lia).
  - exists l. split_and!; [|done|lia|done]. simpl. rewrite lookup_insert_ne; [done|]. by intros ->; simplify_eq.
  - exists l. split_and!; [|done|lia|done]. simpl. apply Z.eqb_neq in Hsend. by rewrite lookup_alter_ne.
  - destruct (Z.eqb_spec id0 id) as [->|Hne]; simpl in *.
    + exists (miss now l). split_and!; [simpl; by rewrite lookup_alter_eq, El|done|simpl; lia|].
      unfold ready, miss. cbn [l_phase]. destruct (Z.leb_spec (l_failures l + 1) 5); [|lia].
      apply Forall_cons in HT as [HT _]. pose proof (wait_longest (l_failures l + 1)). apply Z.leb_le. lia.
    + exists l. split_and!; [|done|lia|done]. simpl. by rewrite lookup_alter_ne.
Qed.

Lemma steps_keep L rs as_ L' id m n T :
  steps L rs as_ L' -> held id m n T L -> Forall (fun r => sends id r = false) rs ->
  (n + length (rs ≫= fails id) <= 5)%nat -> Forall (fun t => t + longest <= T) (rs ≫= fails id) ->
  exists n', held id m n' T L'.
Proof.
  intros Hs. revert n. induction Hs as [L|L r a L1 rs as_ L2 H1 _ IH]; intros n Hh Hsend Hn HT; [by eexists|].
  apply Forall_cons in Hsend as [Hr Hsend]. csimpl in *. rewrite length_app in Hn. apply Forall_app in HT as [HT1 HT2].
  assert (forall n', (n <= n')%nat -> held id m n' T L) as Hsame.
  { destruct Hh as (l & ?). intros; exists l; naive_solver lia. }
  apply (IH (n + length (fails id r))%nat); [|done|lia|done].
  destruct H1 as [_|a L1 _ H1|e a L1 _ _ _ [H1| ->]]; try (apply Hsame; lia); (eapply served_keeps; [done..|lia|done]).
Qed.

(** A ready letter is in the next batch, or the batch is full of letters no newer. *)
Lemma ready_is_fetched L f T limit b L' id l :
  served L (RPending f T limit) (Ok (Letters b)) L' -> letters L !! id = Some l -> ready T l = true ->
  (id, l) ∈ b \/
  Z.of_nat (length b) = normalizeLimit limit /\ forall a, a ∈ b -> no_later a (id, l).
Proof.
  inversion 1 as [| |? ? ? full Hp Hs| | | | |]; subst. intros El Hr. set (n := Z.to_nat (normalizeLimit limit)).
  assert (1 <= normalizeLimit limit) as Hlim.
  { unfold normalizeLimit. destruct (Z.leb_spec limit 0), (Z.ltb_spec 100 limit); simpl; lia. }
  assert ((id, l) ∈ full) as Hin.
  { rewrite Hp, list_elem_of_In, filter_In, <- list_elem_of_In. split; [by apply elem_of_map_to_list|done]. }
  rewrite <- (take_drop n full), elem_of_app in Hin. destruct Hin as [Hin|Hin]; [by left|right]. split.
  - rewrite length_take. destruct (decide (n <= length full)%nat) as [|Hlt]; [lia|].
    rewrite drop_ge in Hin by lia. by apply elem_of_nil in Hin.
  - intros a Ha. by eapply sorted_take_drop.
Qed.
End facts.
End LedgerFacts.

Module DeliveryProps.
Import Reliable ReliableFacts Ledger LedgerFacts Delivery DeliveryFacts.
Section props.
Context `{UnicodeCase} {TO : Table Outbox} {TP : Table EventProcessed}.
Context `{!TableLaws Outbox TO} `{!TableLaws EventProcessed TP}.
Implicit Types db : evdb TO TP.

(** C9. The service implements the ledger: any sequence of its calls, each with the faults of its
    round trips, gives answers and a database that a run of the ledger gives too.  A call is
    refused without effect, carried out, or (only if a round trip failed) an error with all
    of its effect or none; in particular an event id is in the ledger once, letters are never
    lost or rewritten, six failures abandon one and the waits double from 20 to 320 seconds. *)
Theorem outbox_refines_ledger rs db :
  Forall sane rs -> wf db ->
  let '(as_, db') := run rs db in steps (ledger_of db) rs as_ (ledger_of db') /\ wf db'.
Proof. apply run_refines. Qed.

(** C10. Delivery is at least once: an event whose publication succeeded comes back, its content
    unchanged, however the service is called meanwhile and whatever round trips fail, as long
    as nobody marks it sent or reports a sixth failure.  From 320 seconds after the
    last reported failure on, every fetch returns it or a full batch of events no newer. *)
Theorem undelivered_events_come_back f uuid t0 i e rs T limit db db1 :
  wf db -> Publish f uuid t0 i db = (Ok e, db1) ->
  Forall sane rs -> Forall (fun r => sends (ID e) r = false) rs ->
  (length (rs ≫= fails (ID e)) <= 5)%nat -> Forall (fun t => t + longest <= T) (rs ≫= fails (ID e)) ->
  exists b, Pending NoFault T limit (run rs db1).2 = Ok b /\
    ((exists e', e' ∈ b /\ ID e' = ID e /\ message_of e' = message_of e) \/
     Z.of_nat (length b) = normalizeLimit limit /\ forall a, a ∈ b -> OccurredAt a <= OccurredAt e).
Proof.
  intros W Hpub Hsane Hsend Hn HT.
  pose proof (run_refines (RPublish f uuid t0 i :: rs) db ltac:(by constructor) W) as Hrun.
  simpl in Hrun. rewrite Hpub in Hrun. destruct (run rs db1) as [as_ db2]. destruct Hrun as [Hrun W2].
  inversion Hrun as [|? ? ? L1 ? ? ? Hstep Hsteps]; subst.
  assert (held (ID e) (message_of e) 0 T L1) as Hheld.
  { inversion Hstep as [|? ? _ Hs|]; subst. inversion Hs; subst.
    eexists. split; [simpl; by rewrite lookup_insert_eq|]. split_and!; [|done|done].
    simpl. unfold message_of. congruence. }
  destruct (steps_keep _ _ _ _ _ _ _ T Hsteps Hheld Hsend Hn HT) as (n & l & El & Em & _ & Hr).
  destruct (pending_refines NoFault T limit db2 W2) as [Hp _]. simpl in Hp.
  eexists. split; [reflexivity|]. simpl in Hp.
  inversion Hp as [|? ? _ Hs|]; subst.
  destruct (ready_is_fetched _ _ _ _ _ _ _ _ Hs El Hr) as [Hin|[Hlen Hold]].
  - left. apply list_elem_of_fmap in Hin as (e' & He & Hin). exists e'. injection He as -> ->. done.
  - right. rewrite length_fmap in Hlen. split; [done|]. intros a Ha.
    specialize (Hold (entry a) (list_elem_of_fmap_2 entry _ _ Ha)). unfold no_later in Hold. simpl in Hold.
    by rewrite Em in Hold.
Qed.
End props.

Import ReliableProps MemTable.
#[local] Existing Instance plain_case.
(** Two failures, a lost report of a third, a duplicate and a consumption. *)
Definition demo_calls : list request :=
  [RMarkFailed NoFault 100 1; RPublish NoFault "u-3" 110 (demo_input "e1");
   RMarkFailed (LostReply "timeout") 200 1; RMarkProcessed NoFault (LostRequest "timeout") 210 "mailer" (Some demo_row);
   RMarkFailed (LostRequest "timeout") 300 1; RMarkSent NoFault 310 0; RList NoFault 1 0].

Lemma empty_wf : wf empty_db.
Proof. split; [exact (empty_mwf (Row := Outbox))|exact (empty_mwf (Row := EventProcessed))]. Qed.

Lemma outbox_refines_ledger_witness :
  steps (ledger_of demo_db) demo_calls
    [Ok Done; Err ErrDuplicateEvent; Err (ErrDB "timeout"); Err (ErrDB "timeout"); Err (ErrDB "timeout");
     Err ErrInvalidInput; Ok (Letters [(1, mkLetter (message_of demo_row) (Waiting (Some (200 + 40 * Second))) 2)])]
    (ledger_of (run demo_calls demo_db).2).
Proof.
  assert (wf demo_db) as W by (split; [exact demo_wf|exact (empty_mwf (Row := EventProcessed))]).
  pose proof (outbox_refines_ledger demo_calls demo_db ltac:(by repeat constructor) W) as Hr.
  destruct (run demo_calls demo_db) as [as_ db'] eqn:E. destruct Hr as [Hr _].
  vm_compute in E. injection E as <- <-. exact Hr.
Defined.

Lemma undelivered_events_come_back_witness :
  exists b, Pending NoFault (400 + longest) 0 (run demo_calls (Publish NoFault "u-1" 30 (demo_input "e1") empty_db).2).2 = Ok b /\
    exists e', e' ∈ b /\ EventID e' = "e1" /\ Payload e' = "{}".
Proof.
  destruct (undelivered_events_come_back NoFault "u-1" 30 (demo_input "e1") demo_row demo_calls (400 + longest) 0
              empty_db (Publish NoFault "u-1" 30 (demo_input "e1") empty_db).2 empty_wf) as (b & Hb & Hor).
  - vm_compute. reflexivity.
  - by repeat constructor.
  - by repeat constructor.
  - vm_compute. lia.
  - repeat constructor; vm_compute; discriminate.
  - exists b. split; [exact Hb|]. destruct Hor as [(e' & Hin & _ & Hm)|[Hlen _]].
    + exists e'. split; [exact Hin|]. injection Hm. intros. split; congruence.
    + vm_compute in Hb. injection Hb as <-. vm_compute in Hlen. discriminate.
Defined.
End DeliveryProps.
