(* ===== verification/Rbac.v ===== *)
(** * rbac/rbac.go and the permission and role guards of middleware/

    Permission matching with suffix wildcards, middleware/permission.go (tenant path and
    permission checks) and middleware/role.go. *)
From S2P Require Import Prelude GoStd.
Open Scope go_scope.

(** ** rbac.go *)
Definition PermissionMatches (granted requested : string) : bool :=
  let granted := TrimSpace granted in
  let requested := TrimSpace requested in
  if String.eqb granted "" || String.eqb requested "" then false
  else if String.eqb granted "*" || String.eqb granted requested then true
  else if HasSuffix granted ".*" then
    let prefix := TrimSuffix granted ".*" in
    String.eqb requested prefix || HasPrefix requested (prefix +:+ ".")
  else false.

Fixpoint IsAllowed (granted : list string) (requested : string) : bool :=
  match granted with
  | [] => false
  | code :: granted' => if PermissionMatches code requested then true else IsAllowed granted' requested
  end.

(** The subject forms [permissionCodes] distinguishes. *)
Inductive subject := Codes (l : list string) | Coder (l : list string) | OtherSubject.
Definition permissionCodes (s : subject) : list string :=
  match s with Codes l => l | Coder l => l | OtherSubject => [] end.

(** [false] is ErrPermissionDenied. *)
Definition CheckPermission (s : subject) (resource action : string) : bool :=
  let resource := Trim (TrimSpace resource) "." in
  let action := Trim (TrimSpace action) "." in
  if String.eqb resource "" || String.eqb action "" then false else
  let requested := resource +:+ "." +:+ action in
  if String.eqb requested "." then false
  else IsAllowed (permissionCodes s) requested.

(** ** middleware/permission.go *)
Record tenantClaims := mkTenantClaims { tc_TenantID : Z; tc_PrincipalID : Z }.

(** A guard lets the request through with the claims, or has written a status. *)
Inductive guard := Through (c : tenantClaims) | Refused (status : Z).

Definition ParseUintID (v : string) : option Z :=
  match ParseUint v with
  | (id, None) => if id =? 0 then None else Some id
  | (_, Some _) => None
  end.

(** [claims] is the context's tenant_claims when it is a non-nil value of the right type;
    [param] gives the path parameters. *)
Definition TenantClaimsForPath (claims : option tenantClaims) (param : string -> string)
    (paramName : string) : guard :=
  let paramName := if String.eqb paramName "" then "tenant_id" else paramName in
  match claims with
  | None => Refused 401
  | Some c =>
      match ParseUintID (param paramName) with
      | Some id => if id =? tc_TenantID c then Through c else Refused 403
      | None => Refused 403
      end
  end.

(** [authz] is nil or the authorizer's HasPermission. *)
Definition RequireTenantPermission (claims : option tenantClaims) (param : string -> string)
    (authz : option (Z -> Z -> string -> res string bool)) (permCode : string) (paramName : list string) : guard :=
  let name := match paramName with p :: _ => if String.eqb p "" then "tenant_id" else p | [] => "tenant_id" end in
  match TenantClaimsForPath claims param name with
  | Refused st => Refused st
  | Through c =>
      match authz with
      | None => Refused 403
      | Some has =>
          match has (tc_TenantID c) (tc_PrincipalID c) permCode with
          | Err _ => Refused 500
          | Ok false => Refused 403
          | Ok true => Through c
          end
      end
  end.

(** ** middleware/role.go: [true] lets the request through. *)
Definition RequireRole (roles : list string) (role : string) : bool :=
  bool_decide (role ∈ (list_to_set roles : gset string)).
Definition RequireHeaderSecret (secret provided : string) : bool :=
  negb (String.eqb provided "" || negb (String.eqb provided secret)).

Module RbacFacts.
Lemma TrimSuffix_split s p t : s = t +:+ p -> TrimSuffix s p = t.
Proof. intros ->. apply TrimSuffix_app. Qed.

Lemma IsAllowed_exists granted requested :
  IsAllowed granted requested = true <-> exists g, g ∈ granted /\ PermissionMatches g requested = true.
Proof.
  induction granted as [|c granted IH]; simpl.
  - split; [done|]. by intros (g & Hg%elem_of_nil & _).
  - destruct (PermissionMatches c requested) eqn:E.
    + split; [|done]. intros _. exists c. split; [left|done].
    + rewrite IH. split; intros (g & Hg & Hm); exists g.
      * split; [by right|done].
      * apply elem_of_cons in Hg as [->|Hg]; [congruence|done].
Qed.

(** What a grant covers. *)
Definition covers (g r : string) : Prop :=
  g <> "" /\ r <> "" /\
  (g = "*" \/ g = r \/ exists p, g = p +:+ ".*" /\ (r = p \/ exists rest, r = p +:+ "." +:+ rest)).

Lemma matches_covers granted requested :
  PermissionMatches granted requested = true <-> covers (TrimSpace granted) (TrimSpace requested).
Proof.
  unfold PermissionMatches, covers. set (g := TrimSpace granted). set (r := TrimSpace requested).
  destruct (String.eqb_spec g ""); [split; [done|by intros []]|].
  destruct (String.eqb_spec r ""); [split; [done|by intros (_ & ? & _)]|]. cbn [orb].
  destruct (String.eqb_spec g "*") as [E1|N1]; [split; [by auto|done]|].
  destruct (String.eqb_spec g r) as [E2|N2]; [split; [by auto|done]|]. cbn [orb].
  destruct (HasSuffix g ".*") eqn:Es.
  - apply HasSuffix_iff in Es as [p Hp]. rewrite (TrimSuffix_split g ".*" p Hp), orb_true_iff, HasPrefix_iff.
    split.
    + intros [E%String.eqb_eq|[rest E]]; (split; [done|split; [done|]]); right; right; exists p; split; auto.
      right. exists rest. by rewrite sapp_assoc.
    + intros (_ & _ & [|[|(p' & Hp' & Hr)]]); [done|done|].
      assert (p' = p) as ->.
      { rewrite Hp in Hp'. apply (f_equal (fun s => TrimSuffix s ".*")) in Hp'.
        by rewrite !TrimSuffix_app in Hp'. }
      destruct Hr as [->|[rest ->]]; [left; by apply String.eqb_eq|right].
      exists rest. by rewrite sapp_assoc.
  - split; [done|]. intros (_ & _ & [|[|(p & Hp & _)]]); [done|done|].
    assert (HasSuffix g ".*" = true) as Hc by (apply HasSuffix_iff; by exists p). congruence.
Qed.
End RbacFacts.
Import RbacFacts.

Module RbacProps.
(** C17. Matching: a grant allows a request exactly when it is ["*"], the same code, or a suffix
    wildcard [p.*] and the request is [p] itself or continues [p] after a dot (so [cargo.*]
    does not reach into [cargox]); blank grants and requests never match. *)
Theorem permission_matches_iff granted requested :
  PermissionMatches granted requested = true <->
  let g := TrimSpace granted in
  let r := TrimSpace requested in
  g <> "" /\ r <> "" /\
  (g = "*" \/ g = r \/ exists p, g = p +:+ ".*" /\ (r = p \/ exists rest, r = p +:+ "." +:+ rest)).
Proof. apply matches_covers. Qed.

(** A permission check passes exactly when some code of the subject covers resource dot
    action; more codes never take a permission away. *)
Theorem check_permission_iff s resource action :
  let rs := Trim (TrimSpace resource) "." in
  let ac := Trim (TrimSpace action) "." in
  (CheckPermission s resource action = true <->
   rs <> "" /\ ac <> "" /\
   exists g, g ∈ permissionCodes s /\ covers (TrimSpace g) (TrimSpace (rs +:+ "." +:+ ac))) /\
  (forall s', (forall g, g ∈ permissionCodes s -> g ∈ permissionCodes s') ->
     CheckPermission s resource action = true -> CheckPermission s' resource action = true).
Proof.
  intros rs ac.
  assert (forall s, CheckPermission s resource action = true <->
   rs <> "" /\ ac <> "" /\
   exists g, g ∈ permissionCodes s /\ covers (TrimSpace g) (TrimSpace (rs +:+ "." +:+ ac))) as Hiff.
  { clear s. intros s. unfold CheckPermission. fold rs ac.
    destruct (String.eqb_spec rs "") as [E|N1]; [split; [done|by intros []]|].
    destruct (String.eqb_spec ac "") as [E|N2]; [split; [done|by intros (_ & ? & _)]|]. cbn [orb].
    destruct (String.eqb_spec (rs +:+ "." +:+ ac) ".") as [E|_].
    { exfalso. apply (f_equal String.length) in E. rewrite !slen_app in E. simpl in E.
      apply N1, slen_zero. lia. }
    rewrite IsAllowed_exists. setoid_rewrite matches_covers. tauto. }
  split; [apply Hiff|]. intros s' Hsub. rewrite !Hiff. naive_solver.
Qed.

(** The tenant guard lets a request through only with claims in the context whose tenant is
    exactly the (non-zero) id in the path and with the permission granted to that tenant and
    principal; everything else is refused with 401, 403 or 500. *)
Theorem tenant_guard_is_exact claims param authz permCode names :
  let name := match names with p :: _ => if String.eqb p "" then "tenant_id" else p | [] => "tenant_id" end in
  match RequireTenantPermission claims param authz permCode names with
  | Through c =>
      claims = Some c /\ ParseUint (param name) = (tc_TenantID c, None) /\ tc_TenantID c <> 0 /\
      exists has, authz = Some has /\ has (tc_TenantID c) (tc_PrincipalID c) permCode = Ok true
  | Refused st =>
      (st = 401 \/ st = 403 \/ st = 500) /\
      ~ exists c has, claims = Some c /\ ParseUint (param name) = (tc_TenantID c, None) /\
          tc_TenantID c <> 0 /\ authz = Some has /\
          has (tc_TenantID c) (tc_PrincipalID c) permCode = Ok true
  end.
Proof.
  intros name. unfold RequireTenantPermission. fold name. unfold TenantClaimsForPath.
  assert ((if String.eqb name "" then "tenant_id" else name) = name) as ->.
  { destruct (String.eqb_spec name "") as [E|]; [|done]. subst name.
    destruct names as [|p ?]; [done|]. by destruct (String.eqb_spec p ""). }
  destruct claims as [c|]; [|split; [auto|by intros (? & ? & ? & _)]].
  unfold ParseUintID. destruct (ParseUint (param name)) as [id [e|]].
  { split; [auto|]. intros (? & ? & _ & ? & _). done. }
  destruct (Z.eqb_spec id 0) as [->|Hid].
  { split; [auto|]. intros (? & ? & _ & ? & ? & _). congruence. }
  destruct (Z.eqb_spec id (tc_TenantID c)) as [->|Hne].
  2: { split; [auto|]. intros (? & ? & [= ->] & ? & _). congruence. }
  destruct authz as [has|]; [|split; [auto|by intros (? & ? & _ & _ & _ & ? & _)]].
  destruct (has (tc_TenantID c) (tc_PrincipalID c) permCode) as [[]|e] eqn:E.
  - eauto 10.
  - split; [auto|]. intros (? & ? & [= <-] & _ & _ & [= <-] & ?). congruence.
  - split; [auto|]. intros (? & ? & [= <-] & _ & _ & [= <-] & ?). congruence.
Qed.
End RbacProps.
