(* ===== verification/Auth.v ===== *)
(** * auth/auth.go: platform, tenant and step-up tokens

    The JWT library signs and verifies; it is the interface [Jwt].  Claims are JSON objects:
    [cmap] has one optional member per name the three claim structs use, and the structs are
    written to and read from it by their json tags (a missing member reads as the zero value). *)
From S2P Require Import Prelude GoStd.
Open Scope go_scope.

(** ** JSON claims *)
Record cmap := mkCmap {
  j_principal_id : option Z; j_principal_type : option string; j_role_codes : option (list string);
  j_token_version : option Z; j_token_type : option string;
  j_tenant_id : option Z; j_tenant_code : option string; j_actor_principal_id : option Z;
  j_scope : option string;
  j_iss : option string; j_aud : option (list string); j_iat : option Z; j_exp : option Z }.

(** jwt.RegisteredClaims, with dates in Unix seconds (the library's precision). *)
Record RegisteredClaims := mkRegistered {
  Issuer : string; Audience : list string; IssuedAt : option Z; ExpiresAt : option Z }.

Record PlatformClaims := mkPlatform {
  p_PrincipalID : Z; p_PrincipalType : string; p_RoleCodes : list string; p_TokenVersion : Z;
  p_TokenType : string; p_Registered : RegisteredClaims }.
Record TenantClaims := mkTenant {
  t_TenantID : Z; t_TenantCode : string; t_PrincipalID : Z; t_PrincipalType : string;
  t_RoleCodes : list string; t_TokenVersion : Z; t_TokenType : string; t_Actor : option Z;
  t_Registered : RegisteredClaims }.
Record StepUpClaims := mkStepUp {
  s_PrincipalID : Z; s_Scope : string; s_TokenType : string; s_Registered : RegisteredClaims }.

Definition read_registered (j : cmap) : RegisteredClaims :=
  mkRegistered (default "" (j_iss j)) (default [] (j_aud j)) (j_iat j) (j_exp j).
Definition write_platform (c : PlatformClaims) : cmap :=
  let r := p_Registered c in
  mkCmap (Some (p_PrincipalID c)) (Some (p_PrincipalType c)) (Some (p_RoleCodes c)) (Some (p_TokenVersion c))
    (Some (p_TokenType c)) None None None None
    (Some (Issuer r)) (Some (Audience r)) (IssuedAt r) (ExpiresAt r).
Definition read_platform (j : cmap) : PlatformClaims :=
  mkPlatform (default 0 (j_principal_id j)) (default "" (j_principal_type j)) (default [] (j_role_codes j))
    (default 0 (j_token_version j)) (default "" (j_token_type j)) (read_registered j).
Definition write_tenant (c : TenantClaims) : cmap :=
  let r := t_Registered c in
  mkCmap (Some (t_PrincipalID c)) (Some (t_PrincipalType c)) (Some (t_RoleCodes c)) (Some (t_TokenVersion c))
    (Some (t_TokenType c)) (Some (t_TenantID c)) (Some (t_TenantCode c)) (t_Actor c) None
    (Some (Issuer r)) (Some (Audience r)) (IssuedAt r) (ExpiresAt r).
Definition read_tenant (j : cmap) : TenantClaims :=
  mkTenant (default 0 (j_tenant_id j)) (default "" (j_tenant_code j)) (default 0 (j_principal_id j))
    (default "" (j_principal_type j)) (default [] (j_role_codes j)) (default 0 (j_token_version j))
    (default "" (j_token_type j)) (j_actor_principal_id j) (read_registered j).
Definition write_stepup (c : StepUpClaims) : cmap :=
  let r := s_Registered c in
  mkCmap (Some (s_PrincipalID c)) None None None (Some (s_TokenType c)) None None None (Some (s_Scope c))
    (Some (Issuer r)) (Some (Audience r)) (IssuedAt r) (ExpiresAt r).
Definition read_stepup (j : cmap) : StepUpClaims :=
  mkStepUp (default 0 (j_principal_id j)) (default "" (j_scope j)) (default "" (j_token_type j)) (read_registered j).

(** ** The JWT library
    [jwt_parse kf tok now] is ParseWithClaims: [kf hmac] is the key function on a token whose
    method is HMAC or not; [None] covers every error and an invalid token. *)
Class Jwt := {
  jtoken : Type;
  jwt_sign : string -> cmap -> res string jtoken;                          (* HS256 *)
  jwt_parse : (bool -> res string string) -> jtoken -> Time -> option cmap;
  jwt_text : cmap -> Prop }.                                              (* members are valid text *)

Class JwtLaws (J : Jwt) := {
  (* a signed object is read back under the same key until it expires *)
  parse_signed : forall key c tok kf now,
    jwt_text c -> jwt_sign key c = Ok tok -> kf true = Ok key ->
    jwt_parse kf tok now =
      match j_exp c with Some e => if now <? time_Unix e then Some c else None | None => Some c end }.

(** ** auth.go *)
Inductive authErr := ErrInvalidToken | ErrWrongType | ErrInvalidStepUp | ErrSign (e : string)
| ErrSecretLength | ErrSecretPlaceholder | ErrAudienceRequired | ErrSelfTest.

Definition DefaultAudience : string := "synapse".
Definition knownBadSecrets : list string := [
  "your_production_jwt_secret_key_here";
  "dev_jwt_secret_key_please_change_in_production";
  "dev_jwt_secret_key_please_change_in_production_32chars";
  "test_jwt_secret_key_32chars_for_testing";
  "change_me"; "secret"; "jwt_secret"; "default_secret"].
Definition minSecretLen : Z := 32.
Definition MaxStepUpTTL : Duration := 5 * Minute.

Definition ValidateSecretStrength `{UnicodeCase} (secret : string) : res authErr unit :=
  if slen secret <? minSecretLen then Err ErrSecretLength
  else if existsb (fun bad => String.eqb (ToLower secret) (ToLower bad)) knownBadSecrets
  then Err ErrSecretPlaceholder else Ok ().

Record TokenService := mkTS {
  ts_secret : string; ts_issuer : string; ts_audience : string; platTTL : Duration; tenTTL : Duration }.

Definition NewTokenServiceWithAudience `{UnicodeCase} (secret issuer audience : string)
    (platTTLSec tenTTLSec : Z) : res authErr TokenService :=
  _ <-? ValidateSecretStrength secret;
  let audience := TrimSpace audience in
  if String.eqb audience "" then Err ErrAudienceRequired
  else Ok (mkTS secret issuer audience (wrap64 (platTTLSec * Second)) (wrap64 (tenTTLSec * Second))).
Definition NewTokenService `{UnicodeCase} (secret issuer : string) (platTTLSec tenTTLSec : Z) :=
  NewTokenServiceWithAudience secret issuer DefaultAudience platTTLSec tenTTLSec.

Definition checkAudienceCompat (aud : list string) (expected : string) : bool :=
  existsb (fun candidate => String.eqb candidate expected) aud.

Definition keyFunc (s : TokenService) (hmac : bool) : res string string :=
  if hmac then Ok (ts_secret s) else Err "unexpected signing method".

(** The registered claims every Issue function writes. *)
Definition registered (s : TokenService) (now : Time) (ttl : Duration) : RegisteredClaims :=
  mkRegistered (ts_issuer s) [ts_audience s] (Some (Unix now)) (Some (Unix (Add now ttl))).

Section tokens.
Context `{Jwt}.

Definition sign (s : TokenService) (c : cmap) : res authErr jtoken :=
  match jwt_sign (ts_secret s) c with Ok t => Ok t | Err e => Err (ErrSign e) end.

Definition platform_claims (s : TokenService) (now : Time) (principalID : Z) (roleCodes : list string)
    (tokenVersion : Z) : PlatformClaims :=
  mkPlatform principalID "platform_admin" roleCodes tokenVersion "platform" (registered s now (platTTL s)).
Definition IssuePlatformToken (s : TokenService) (now : Time) (principalID : Z) (roleCodes : list string)
    (tokenVersion : Z) : res authErr jtoken :=
  sign s (write_platform (platform_claims s now principalID roleCodes tokenVersion)).

Definition tenant_claims (s : TokenService) (now : Time) (tenantID : Z) (tenantCode : string) (principalID : Z)
    (principalType : string) (roleCodes : list string) (tokenVersion : Z) (actor : option Z) : TenantClaims :=
  mkTenant tenantID tenantCode principalID principalType roleCodes tokenVersion "tenant" actor
    (registered s now (tenTTL s)).
Definition IssueTenantToken (s : TokenService) (now : Time) (tenantID : Z) (tenantCode : string) (principalID : Z)
    (principalType : string) (roleCodes : list string) (tokenVersion : Z) (actor : option Z) : res authErr jtoken :=
  sign s (write_tenant (tenant_claims s now tenantID tenantCode principalID principalType roleCodes
                          tokenVersion actor)).

Definition stepup_claims (s : TokenService) (now : Time) (principalID : Z) (scope : string) (ttl : Duration) :=
  mkStepUp principalID scope "step_up" (registered s now ttl).
Definition IssueStepUpToken (s : TokenService) (now : Time) (principalID : Z) (scope : string) (ttl : Duration)
  : res authErr jtoken :=
  let scope := TrimSpace scope in
  if (principalID =? 0) || String.eqb scope "" || (ttl <=? 0) || (MaxStepUpTTL <? ttl)
  then Err ErrInvalidStepUp
  else sign s (write_stepup (stepup_claims s now principalID scope ttl)).

Definition ParsePlatformToken (s : TokenService) (now : Time) (tok : jtoken) : res authErr PlatformClaims :=
  match jwt_parse (keyFunc s) tok now with
  | None => Err ErrInvalidToken
  | Some j =>
      let claims := read_platform j in
      if negb (String.eqb (p_TokenType claims) "platform") || (p_PrincipalID claims =? 0) ||
         negb (String.eqb (p_PrincipalType claims) "platform_admin") then Err ErrWrongType
      else if checkAudienceCompat (Audience (p_Registered claims)) (ts_audience s)
      then Ok claims else Err ErrInvalidToken
  end.
Definition ParseTenantToken (s : TokenService) (now : Time) (tok : jtoken) : res authErr TenantClaims :=
  match jwt_parse (keyFunc s) tok now with
  | None => Err ErrInvalidToken
  | Some j =>
      let claims := read_tenant j in
      if negb (String.eqb (t_TokenType claims) "tenant") || (t_TenantID claims =? 0) ||
         (t_PrincipalID claims =? 0) then Err ErrWrongType
      else if checkAudienceCompat (Audience (t_Registered claims)) (ts_audience s)
      then Ok claims else Err ErrInvalidToken
  end.
Definition ParseStepUpToken (s : TokenService) (now : Time) (tok : jtoken) : res authErr StepUpClaims :=
  match jwt_parse (keyFunc s) tok now with
  | None => Err ErrInvalidToken
  | Some j =>
      let claims := read_stepup j in
      if negb (String.eqb (s_TokenType claims) "step_up") || (s_PrincipalID claims =? 0) ||
         String.eqb (s_Scope claims) "" then Err ErrWrongType
      else if checkAudienceCompat (Audience (s_Registered claims)) (ts_audience s)
      then Ok claims else Err ErrInvalidToken
  end.

(** [exp] is the claims' expiration, when it is set. *)
Definition IsExpiringSoon (exp : option Z) (now : Time) (threshold : Duration) : bool :=
  match exp with None => false | Some e => Sub (time_Unix e) now <? threshold end.

Definition sentinelID : Z := 999999.
Definition SelfTest (s : TokenService) (now now' : Time) : res authErr unit :=
  match IssuePlatformToken s now sentinelID ["_selftest"] 0 with
  | Err _ => Err ErrSelfTest
  | Ok tok =>
      match ParsePlatformToken s now' tok with
      | Err _ => Err ErrSelfTest
      | Ok claims => if p_PrincipalID claims =? sentinelID then Ok () else Err ErrSelfTest
      end
  end.
End tokens.

Module AuthProps.
Section props.
Context `{JwtLaws}.

Inductive kind := KPlatform | KTenant | KStepUp.

(** The token service [s] issued [tok] of kind [k] at [now] with lifetime [ttl]; [c] is the
    signed object. *)
Inductive issued (s : TokenService) (now : Time) : kind -> Duration -> cmap -> jtoken -> Prop :=
| issued_platform id roles v tok :
    IssuePlatformToken s now id roles v = Ok tok ->
    issued s now KPlatform (platTTL s) (write_platform (platform_claims s now id roles v)) tok
| issued_tenant tid code pid ty roles v actor tok :
    IssueTenantToken s now tid code pid ty roles v actor = Ok tok ->
    issued s now KTenant (tenTTL s) (write_tenant (tenant_claims s now tid code pid ty roles v actor)) tok
| issued_stepup id scope ttl tok :
    IssueStepUpToken s now id scope ttl = Ok tok ->
    issued s now KStepUp ttl (write_stepup (stepup_claims s now id (TrimSpace scope) ttl)) tok.

Definition accepted (s : TokenService) (t : Time) (tok : jtoken) (k : kind) : bool :=
  match k with
  | KPlatform => is_ok (ParsePlatformToken s t tok)
  | KTenant => is_ok (ParseTenantToken s t tok)
  | KStepUp => is_ok (ParseStepUpToken s t tok)
  end.

Definition kind_name (k : kind) : string :=
  match k with KPlatform => "platform" | KTenant => "tenant" | KStepUp => "step_up" end.

(** What acceptance as [k] requires of the verified object. *)
Lemma accepted_object s t tok k :
  accepted s t tok k = true ->
  exists j, jwt_parse (keyFunc s) tok t = Some j /\ j_token_type j = Some (kind_name k) /\
    ts_audience s ∈ default [] (j_aud j).
Proof.
  assert (forall l x, checkAudienceCompat l x = true -> x ∈ l) as Haud.
  { intros l x (y & Hy & E%String.eqb_eq)%existsb_exists. subst y. by apply list_elem_of_In. }
  assert (forall (o : option string) n, n <> "" -> String.eqb (default "" o) n = true -> o = Some n) as Hty.
  { intros [x|] n Hn E%String.eqb_eq; simpl in E; congruence. }
  destruct k; simpl; unfold ParsePlatformToken, ParseTenantToken, ParseStepUpToken;
    destruct (jwt_parse (keyFunc s) tok t) as [j|]; try done; simpl.
  - destruct (String.eqb (default "" (j_token_type j)) "platform") eqn:E; [|done]. cbn [negb orb].
    destruct (_ || _); [done|]. destruct (checkAudienceCompat _ _) eqn:A; [|done]. intros _.
    exists j. split_and!; [done|by apply Hty|by apply Haud].
  - destruct (String.eqb (default "" (j_token_type j)) "tenant") eqn:E; [|done]. cbn [negb orb].
    destruct (_ || _); [done|]. destruct (checkAudienceCompat _ _) eqn:A; [|done]. intros _.
    exists j. split_and!; [done|by apply Hty|by apply Haud].
  - destruct (String.eqb (default "" (j_token_type j)) "step_up") eqn:E; [|done]. cbn [negb orb].
    destruct (_ || _); [done|]. destruct (checkAudienceCompat _ _) eqn:A; [|done]. intros _.
    exists j. split_and!; [done|by apply Hty|by apply Haud].
Qed.

Lemma sign_Ok s c tok : sign s c = Ok tok -> jwt_sign (ts_secret s) c = Ok tok.
Proof. unfold sign. destruct (jwt_sign _ _); naive_solver. Qed.

Lemma issued_object s now k ttl c tok :
  issued s now k ttl c tok ->
  jwt_sign (ts_secret s) c = Ok tok /\ j_token_type c = Some (kind_name k) /\
  j_aud c = Some [ts_audience s] /\ j_exp c = Some (Unix (Add now ttl)) /\
  (k = KStepUp -> 0 < ttl <= MaxStepUpTTL).
Proof.
  destruct 1 as [id roles v tok E|tid code pid ty roles v actor tok E|id scope ttl tok E].
  - split_and!; try done. by apply sign_Ok.
  - split_and!; try done. by apply sign_Ok.
  - unfold IssueStepUpToken in E. destruct (_ || _ || _) eqn:E1; [done|].
    apply orb_false_iff in E1 as [[_ E1%Z.leb_gt]%orb_false_iff E2%Z.ltb_ge].
    split_and!; try done. by apply sign_Ok.
Qed.

(** What the library reads back, and what each parser makes of it. *)
Lemma parse_issued s now k ttl c tok t :
  issued s now k ttl c tok -> jwt_text c ->
  jwt_parse (keyFunc s) tok t = if t <? time_Unix (Unix (Add now ttl)) then Some c else None.
Proof.
  intros (Hs & _ & _ & He & _)%issued_object Ht. rewrite (parse_signed (ts_secret s) c tok) by done. by rewrite He.
Qed.
Lemma own_audience a : checkAudienceCompat [a] a = true.
Proof. unfold checkAudienceCompat. simpl. by rewrite String.eqb_refl. Qed.
Lemma platform_round_trip s now t id roles v tok :
  IssuePlatformToken s now id roles v = Ok tok -> id <> 0 ->
  jwt_text (write_platform (platform_claims s now id roles v)) ->
  ParsePlatformToken s t tok =
    (if t <? time_Unix (Unix (Add now (platTTL s))) then Ok (platform_claims s now id roles v)
     else Err ErrInvalidToken).
Proof.
  intros Hi Hid Ht. unfold ParsePlatformToken. rewrite (parse_issued _ _ _ _ _ _ _ (issued_platform _ _ _ _ _ _ Hi) Ht).
  destruct (_ <? _); [|done]. cbn -[checkAudienceCompat]. destruct (Z.eqb_spec id 0); [done|]. cbn -[checkAudienceCompat].
  by rewrite own_audience.
Qed.
Lemma tenant_round_trip s now t tid code pid ty roles v actor tok :
  IssueTenantToken s now tid code pid ty roles v actor = Ok tok -> tid <> 0 -> pid <> 0 ->
  jwt_text (write_tenant (tenant_claims s now tid code pid ty roles v actor)) ->
  ParseTenantToken s t tok =
    (if t <? time_Unix (Unix (Add now (tenTTL s))) then Ok (tenant_claims s now tid code pid ty roles v actor)
     else Err ErrInvalidToken).
Proof.
  intros Hi Htid Hpid Ht. unfold ParseTenantToken.
  rewrite (parse_issued _ _ _ _ _ _ _ (issued_tenant _ _ _ _ _ _ _ _ _ _ Hi) Ht).
  destruct (_ <? _); [|done]. cbn -[checkAudienceCompat]. destruct (Z.eqb_spec tid 0); [done|].
  destruct (Z.eqb_spec pid 0); [done|]. cbn -[checkAudienceCompat]. by rewrite own_audience.
Qed.
Lemma stepup_round_trip s now t id scope ttl tok :
  IssueStepUpToken s now id scope ttl = Ok tok ->
  jwt_text (write_stepup (stepup_claims s now id (TrimSpace scope) ttl)) ->
  ParseStepUpToken s t tok =
    (if t <? time_Unix (Unix (Add now ttl)) then Ok (stepup_claims s now id (TrimSpace scope) ttl)
     else Err ErrInvalidToken).
Proof.
  intros Hi Ht. unfold ParseStepUpToken.
  rewrite (parse_issued _ _ _ _ _ _ _ (issued_stepup _ _ _ _ _ _ Hi) Ht).
  destruct (_ <? _); [|done]. cbn -[checkAudienceCompat TrimSpace]. unfold IssueStepUpToken in Hi.
  destruct (Z.eqb_spec id 0); [done|]. destruct (String.eqb_spec (TrimSpace scope) ""); [done|].
  cbn -[checkAudienceCompat]. by rewrite own_audience.
Qed.

(** C15. Tokens are confined: a token issued by one service and verified by another that shares
    its secret is accepted only as the kind it was issued as, only by a service with the
    same audience, and only before its expiry; step-up tokens live at most five minutes. *)
Theorem issued_tokens_are_confined s1 s2 now k ttl c tok t k' :
  issued s1 now k ttl c tok -> jwt_text c -> ts_secret s2 = ts_secret s1 ->
  accepted s2 t tok k' = true ->
  k' = k /\ ts_audience s2 = ts_audience s1 /\ t < time_Unix (Unix (Add now ttl)) /\
  (k = KStepUp -> ttl <= MaxStepUpTTL).
Proof.
  intros (Hs & Hty & Ha & He & Hup)%issued_object Htext Hsec (j & Hp & Hty' & Ha')%accepted_object.
  rewrite (parse_signed (ts_secret s1) c tok) in Hp; [|done|done|by rewrite <- Hsec].
  rewrite He in Hp. destruct (Z.ltb_spec t (time_Unix (Unix (Add now ttl)))); [|done].
  injection Hp as <-. rewrite Ha in Ha'. rewrite Hty in Hty'. simpl in Ha'.
  apply list_elem_of_singleton in Ha'.
  split_and!; [|done|done|naive_solver]. by destruct k, k'.
Qed.

(** C16. Round trip: before its expiry a token is read back with exactly the claims it was issued
    with (non-zero ids and valid text given), and from its expiry on it is invalid. *)
Theorem issued_tokens_round_trip s now t id roles v tid code ty actor scope ttl ptok ttok stok :
  IssuePlatformToken s now id roles v = Ok ptok ->
  IssueTenantToken s now tid code id ty roles v actor = Ok ttok ->
  IssueStepUpToken s now id scope ttl = Ok stok ->
  id <> 0 -> tid <> 0 ->
  jwt_text (write_platform (platform_claims s now id roles v)) ->
  jwt_text (write_tenant (tenant_claims s now tid code id ty roles v actor)) ->
  jwt_text (write_stepup (stepup_claims s now id (TrimSpace scope) ttl)) ->
  ParsePlatformToken s t ptok =
    (if t <? time_Unix (Unix (Add now (platTTL s))) then Ok (platform_claims s now id roles v)
     else Err ErrInvalidToken) /\
  ParseTenantToken s t ttok =
    (if t <? time_Unix (Unix (Add now (tenTTL s))) then Ok (tenant_claims s now tid code id ty roles v actor)
     else Err ErrInvalidToken) /\
  ParseStepUpToken s t stok =
    (if t <? time_Unix (Unix (Add now ttl)) then Ok (stepup_claims s now id (TrimSpace scope) ttl)
     else Err ErrInvalidToken).
Proof.
  intros. split_and!; [by apply platform_round_trip|by apply tenant_round_trip|by apply stepup_round_trip].
Qed.
End props.

(** A library that satisfies the law: the token is the key and the object. *)
Definition mem_jwt : Jwt := {|
  jtoken := string * cmap;
  jwt_sign k c := Ok (k, c);
  jwt_parse kf tok now :=
    match kf true with
    | Ok k => if String.eqb k tok.1 then
                match j_exp tok.2 with
                | Some e => if now <? time_Unix e then Some tok.2 else None
                | None => Some tok.2
                end
              else None
    | Err _ => None
    end;
  jwt_text _ := True |}.
Definition mem_jwt_laws : JwtLaws mem_jwt.
Proof.
  split. intros key c tok kf now _ [= <-] Hk. simpl. rewrite Hk. by rewrite String.eqb_refl.
Defined.
#[local] Existing Instance mem_jwt.
#[local] Existing Instance mem_jwt_laws.

Definition svc_a : TokenService := mkTS "k" "iss" "a" Hour Hour.
Definition svc_b : TokenService := mkTS "k" "iss" "b" Hour Hour.
Definition t_issue : Time := time_Unix 1700000000.
Definition tok_a : jtoken := ("k", write_platform (platform_claims svc_a t_issue 7 ["admin"] 1)).
Lemma tok_a_issued :
  issued svc_a t_issue KPlatform Hour (write_platform (platform_claims svc_a t_issue 7 ["admin"] 1)) tok_a.
Proof. by apply (issued_platform svc_a t_issue 7 ["admin"] 1 tok_a). Qed.

Lemma issued_tokens_are_confined_witness :
  accepted svc_a (t_issue + Minute) tok_a KPlatform = true /\
  KPlatform = KPlatform /\ t_issue + Minute < time_Unix (Unix (Add t_issue Hour)).
Proof.
  assert (accepted svc_a (t_issue + Minute) tok_a KPlatform = true) as Hacc by (vm_compute; reflexivity).
  destruct (issued_tokens_are_confined svc_a svc_a t_issue KPlatform Hour
    (write_platform (platform_claims svc_a t_issue 7 ["admin"] 1)) tok_a (t_issue + Minute) KPlatform
    tok_a_issued Logic.I eq_refl Hacc) as (H1 & _ & H3 & _).
  split; [exact Hacc|]. split; [exact H1|exact H3].
Defined.

Lemma issued_tokens_round_trip_witness :
  ParsePlatformToken svc_a (t_issue + Minute) tok_a = Ok (platform_claims svc_a t_issue 7 ["admin"] 1).
Proof.
  pose proof (issued_tokens_round_trip svc_a t_issue (t_issue + Minute) 7 ["admin"] 1 5 "acme" "user" None
    "cargo.adjust" Minute tok_a _ _ eq_refl eq_refl eq_refl ltac:(done) ltac:(done)
    Logic.I Logic.I Logic.I) as [H _].
  vm_compute in H. vm_compute. exact H.
Defined.
End AuthProps.
