(* ===== verification/Notify.v ===== *)
(** * notify/ and mailer/: senders and retries

    [Mailer] is mailer/mailer.go, [Notify] notify/notify.go and notify/sms.go.  Sending takes and
    returns the state of the outside world; an HTTP client, an SMTP relay and the construction of a
    request are functions the senders are given. *)
From S2P Require Import Prelude GoStd Job.
Open Scope go_scope.

Definition crlf : string := String "013" (String "010" "").

Module Mailer.
Inductive Mailer := NoopMailer | SMTPMailer (host port user pass from : string).
Definition New (host port user pass from : string) : Mailer :=
  if String.eqb host "" then NoopMailer else SMTPMailer host port user pass from.
(** The text handed to the relay. *)
Definition compose (from to subject body : string) : string :=
  Join ["From: " +:+ from; "To: " +:+ to; "Subject: " +:+ subject; "Content-Type: text/plain; charset=UTF-8"; ""; body] crlf.
(** [sendMail addr auth from to msg] is smtp.SendMail; [auth] is user, password and host. *)
Definition Send {W} (sendMail : string -> option (string * string * string) -> string -> string -> string -> W -> res string unit * W)
    (m : Mailer) (to subject body : string) (w : W) : res string unit * W :=
  match m with
  | NoopMailer => (Ok (), w)
  | SMTPMailer host port user pass from =>
      let auth := if String.eqb user "" then None else Some (user, pass, host) in
      sendMail (host +:+ ":" +:+ port) auth from to (compose from to subject body) w
  end.
(** A line break in the subject adds a header. *)
Example subject_injects :
  compose "a@x" "b@y" ("hi" +:+ crlf +:+ "Bcc: c@z") "text" =
  Join ["From: a@x"; "To: b@y"; "Subject: hi"; "Bcc: c@z"; "Content-Type: text/plain; charset=UTF-8"; ""; "text"] crlf.
Proof. reflexivity. Qed.
End Mailer.

Module Notify.
Record Message := mkMessage { To : string; Subject : string; Body : string }.
Definition newline : string := String "010" "".

(** *** encoding/json: a string, with the characters Go escapes *)
Definition hex_digit (n : Z) : ascii := hex_char (Z.to_nat n).
Definition u_escape (r : Z) : string :=
  "\u" +:+ String (hex_digit (r / 4096)) (String (hex_digit (r / 256 mod 16))
    (String (hex_digit (r / 16 mod 16)) (String (hex_digit (r mod 16)) ""))).
Definition quote_token (t : token) : string :=
  let '(r, bs) := t in
  if r =? 34 then "\" +:+ String "034" ""
  else if r =? 92 then "\\"
  else if r =? 8 then "\b" else if r =? 12 then "\f" else if r =? 10 then "\n" else if r =? 13 then "\r" else if r =? 9 then "\t"
  else if (r <? 32) || (r =? 60) || (r =? 62) || (r =? 38) || (r =? 8232) || (r =? 8233) then u_escape r
  else if (r =? RuneError) && (String.length bs =? 1)%nat then "\ufffd"
  else bs.
Definition json_string (s : string) : string :=
  String "034" (foldr (fun t acc => quote_token t +:+ acc) (String "034" "") (rune_toks s)).
(** A map of strings, its keys already in order. *)
Definition json_map (l : list (string * string)) : string :=
  "{" +:+ Join ((fun '(k, v) => json_string k +:+ ":" +:+ v) <$> l) "," +:+ "}".

(** *** net/url: [QueryEscape] *)
Definition unreserved (c : ascii) : bool :=
  byte_in 48 57 c || byte_in 65 90 c || byte_in 97 122 c || Ascii.eqb c "-" || Ascii.eqb c "_" || Ascii.eqb c "." || Ascii.eqb c "~".
Definition upper_hex (n : nat) : ascii := ascii_of_nat (if (n <? 10)%nat then 48 + n else 55 + n)%nat.
Fixpoint QueryEscape (s : string) : string :=
  match s with
  | "" => ""
  | String c s' =>
      (if unreserved c then String c ""
       else if Ascii.eqb c " " then "+"
       else let n := nat_of_ascii c in String "%" (String (upper_hex (n / 16)) (String (upper_hex (n mod 16)) "")))
      +:+ QueryEscape s'
  end.
Definition form_encode (l : list (string * string)) : string :=
  Join ((fun '(k, v) => QueryEscape k +:+ "=" +:+ QueryEscape v) <$> l) "&".

(** *** HTTP *)
Record httpPost := mkPost { p_url : string; p_type : string; p_body : string }.
Record httpReply := mkReply { StatusCode : Z; r_body : res string string }.

Section senders.
Context {W : Type}.
Abbreviation sender := (Message -> W -> res string unit * W).
(** [http.NewRequestWithContext] fails on a URL it cannot parse. *)
Variable new_request : string -> option string.
Variable do_post : httpPost -> W -> res string httpReply * W.

(** ** notify.go *)
Definition emailNotifier_Send (mail : string -> string -> string -> W -> res string unit * W) : sender :=
  fun msg w => mail (To msg) (Subject msg) (Body msg) w.

Definition default_body (msg : Message) : string :=
  json_map [("body", json_string (Body msg)); ("subject", json_string (Subject msg))].
Definition feishu_body (msg : Message) : string :=
  json_map [("content", json_map [("text", json_string (Subject msg +:+ newline +:+ Body msg))]); ("msg_type", json_string "text")].
Record webhookNotifier := mkWebhook { url : string; bodyFn : option (Message -> res string string) }.
Definition NewFeishu (webhookURL : string) : webhookNotifier :=
  mkWebhook webhookURL (Some (fun msg => Ok (feishu_body msg))).
Definition NewWebhook (url : string) : webhookNotifier := mkWebhook url None.
Definition webhook_Send (n : webhookNotifier) : sender := fun msg w =>
  match (match bodyFn n with Some f => f msg | None => Ok (default_body msg) end) with
  | Err e => (Err ("notify marshal: " +:+ e), w)
  | Ok body =>
      match new_request (url n) with
      | Some e => (Err ("notify request: " +:+ e), w)
      | None =>
          match do_post (mkPost (url n) "application/json" body) w with
          | (Err e, w') => (Err ("notify send: " +:+ e), w')
          | (Ok resp, w') =>
              (if 400 <=? StatusCode resp then Err ("notify: webhook returned " +:+ FormatInt (StatusCode resp)) else Ok (), w')
          end
      end
  end.

Record retryNotifier := mkRetry { inner : sender; maxRetries : Z }.
Definition WithRetry (n : sender) (max : Z) : retryNotifier := mkRetry n (if max <? 0 then 0 else max).
(** [cancelled i] is ctx.Err() when the context is done during the wait after attempt [i]; [oor]
    the conversion of out-of-range floats.  The waits that ran to their end are returned too. *)
Fixpoint retry_loop (oor : Z) (cancelled : Z -> option string) (n : retryNotifier) (msg : Message)
    (fuel : nat) (i : Z) (lastErr : string) (w : W) : res string unit * list Duration * W :=
  match fuel with
  | O => (Err ("notify: all " +:+ FormatInt (maxRetries n) +:+ " retries failed: " +:+ lastErr), [], w)
  | S fuel' =>
      match inner n msg w with
      | (Ok _, w') => (Ok (), [], w')
      | (Err e, w') =>
          if timeutil_ShouldRetry i (maxRetries n) then
            let wait := timeutil_Backoff oor i Second (60 * Second) in
            match cancelled i with
            | Some err => (Err err, [], w')
            | None => let '(r, waits, w'') := retry_loop oor cancelled n msg fuel' (i + 1) e w' in (r, wait :: waits, w'')
            end
          else retry_loop oor cancelled n msg fuel' (i + 1) e w'
      end
  end.
(** The loop makes [maxRetries + 1] turns, for every [maxRetries] below the largest int. *)
Definition retry_Send (oor : Z) (cancelled : Z -> option string) (n : retryNotifier) (msg : Message) (w : W)
  : res string unit * list Duration * W :=
  retry_loop oor cancelled n msg (Z.to_nat (maxRetries n + 1)) 0 "" w.

(** ** sms.go *)
Definition smsNotifier_Send (sendSMS : string -> string -> W -> res string unit * W) : sender :=
  fun msg w => sendSMS (To msg) (Body msg) w.
Record AliyunSMSConfig := mkAliyun {
  AccessKeyID : string; AccessKeySecret : string; SignName : string; TemplateCode : string; Endpoint : string }.
Definition NewAliyunSMS (cfg : AliyunSMSConfig) : AliyunSMSConfig :=
  mkAliyun (AccessKeyID cfg) (AccessKeySecret cfg) (SignName cfg) (TemplateCode cfg)
           (if String.eqb (Endpoint cfg) "" then "https://dysmsapi.aliyuncs.com" else Endpoint cfg).
Definition sms_params (p : AliyunSMSConfig) (phone content : string) : list (string * string) :=
  [("PhoneNumbers", phone); ("SignName", SignName p); ("TemplateCode", TemplateCode p);
   ("TemplateParam", json_map [("code", json_string content)])].
(** [decode] is json.Unmarshal into the Code and Message of the answer. *)
Definition SendSMS (decode : string -> res string (string * string)) (p : AliyunSMSConfig) (phone content : string) (w : W)
  : res string unit * W :=
  match new_request (Endpoint p) with
  | Some e => (Err ("sms request: " +:+ e), w)
  | None =>
      match do_post (mkPost (Endpoint p) "application/x-www-form-urlencoded" (form_encode (sms_params p phone content))) w with
      | (Err e, w') => (Err ("sms send: " +:+ e), w')
      | (Ok resp, w') =>
          (match r_body resp with
           | Err e => Err ("sms: read response: " +:+ e)
           | Ok body =>
               if 400 <=? StatusCode resp then Err ("sms: aliyun returned " +:+ FormatInt (StatusCode resp) +:+ ": " +:+ body)
               else match decode body with
                    | Err e => Err ("sms: unmarshal response: " +:+ e)
                    | Ok (code, message) =>
                        if String.eqb code "OK" then Ok () else Err ("sms: aliyun error " +:+ code +:+ ": " +:+ message)
                    end
           end, w')
      end
  end.
Definition Noop_SendSMS (phone content : string) (w : W) : res string unit * W := (Ok (), w).
End senders.

Example json_escapes :
  json_string ("a" +:+ String "034" ("<" +:+ newline)) = String "034" "a\" +:+ String "034" "\u003c\n" +:+ String "034" "".
Proof. vm_compute. reflexivity. Qed.
Example webhook_body : default_body (mkMessage "" "s" "b") =
  "{" +:+ json_string "body" +:+ ":" +:+ json_string "b" +:+ "," +:+ json_string "subject" +:+ ":" +:+ json_string "s" +:+ "}".
Proof. vm_compute. reflexivity. Qed.
Example form_example : form_encode [("a", "x y&z=1"); ("b", "")] = "a=x+y%26z%3D1&b=".
Proof. vm_compute. reflexivity. Qed.
End Notify.

Module NotifyFacts.
Import Notify.

(** *** Query escaping *)
Definition unhex (c : ascii) : option nat :=
  let n := nat_of_ascii c in
  if ((48 <=? n) && (n <=? 57))%nat then Some (n - 48)%nat
  else if ((65 <=? n) && (n <=? 70))%nat then Some (n - 55)%nat
  else if ((97 <=? n) && (n <=? 102))%nat then Some (n - 87)%nat else None.
(** The receiver's decoding of a form value. *)
Fixpoint QueryUnescape (s : string) : option string :=
  match s with
  | "" => Some ""
  | String "%" (String a (String b s')) =>
      x ← unhex a; y ← unhex b; t ← QueryUnescape s'; Some (String (ascii_of_nat (16 * x + y)) t)
  | String "%" _ => None
  | String "+" s' => t ← QueryUnescape s'; Some (String " " t)
  | String c s' => t ← QueryUnescape s'; Some (String c t)
  end.
(** Statements about one byte are checked on all of them. *)
Lemma byte_cases (P : ascii -> bool) : forallb (fun n => P (ascii_of_nat n)) (seq 0 256) = true -> forall c, P c = true.
Proof.
  intros Hp c. rewrite forallb_forall in Hp. rewrite <- (Stdlib.Strings.Ascii.ascii_nat_embedding c).
  apply Hp, in_seq. pose proof (ascii_bound c). lia.
Qed.
Definition escape_byte (c : ascii) : string :=
  if unreserved c then String c ""
  else if Ascii.eqb c " " then "+"
  else let n := nat_of_ascii c in String "%" (String (upper_hex (n / 16)) (String (upper_hex (n mod 16)) "")).
Definition plain_byte (c : ascii) : bool := negb (Ascii.eqb c "&") && negb (Ascii.eqb c "=").
Lemma escape_byte_plain c : str_all plain_byte (escape_byte c) = true.
Proof. revert c. apply (byte_cases (fun c => str_all plain_byte (escape_byte c))). by vm_compute. Qed.
Lemma QueryEscape_plain s : str_all plain_byte (QueryEscape s) = true.
Proof.
  induction s as [|c s IH]; [done|]. change (QueryEscape (String c s)) with (escape_byte c +:+ QueryEscape s).
  by rewrite str_all_app, IH, escape_byte_plain.
Qed.
(** What an escaped byte looks like to the decoder. *)
Definition byte_ok (c : ascii) : bool :=
  match escape_byte c with
  | String x "" => if Ascii.eqb x "+" then Ascii.eqb c " " else Ascii.eqb x c && negb (Ascii.eqb x "%")
  | String x (String a (String b "")) =>
      Ascii.eqb x "%" && bool_decide ((x ← unhex a; y ← unhex b; Some (ascii_of_nat (16 * x + y))) = Some c)
  | _ => false
  end.
Lemma byte_ok_all c : byte_ok c = true.
Proof. revert c. apply byte_cases. by vm_compute. Qed.
Lemma unescape_char c s :
  Ascii.eqb c "%" = false -> Ascii.eqb c "+" = false ->
  QueryUnescape (String c s) = (t ← QueryUnescape s; Some (String c t)).
Proof. intros H1 H2. destruct c as [[] [] [] [] [] [] [] []]; done. Qed.
Lemma QueryUnescape_Escape s : QueryUnescape (QueryEscape s) = Some s.
Proof.
  induction s as [|c s IH]; [done|]. change (QueryEscape (String c s)) with (escape_byte c +:+ QueryEscape s).
  pose proof (byte_ok_all c) as Hb. unfold byte_ok in Hb. destruct (escape_byte c) as [|x [|a [|b [|]]]]; try done.
  - rewrite sapp_cons, sapp_nil_l. destruct (Ascii.eqb x "+") eqn:Ex.
    + apply Stdlib.Strings.Ascii.eqb_eq in Hb, Ex. subst x c. simpl. by rewrite IH.
    + apply andb_prop in Hb as [Hc%Stdlib.Strings.Ascii.eqb_eq Hn%negb_true_iff]. subst x.
      rewrite unescape_char by done. by rewrite IH.
  - apply andb_prop in Hb as [Hx%Stdlib.Strings.Ascii.eqb_eq Hd%bool_decide_eq_true]. subst x.
    rewrite !sapp_cons, sapp_nil_l. cbn [QueryUnescape]. destruct (unhex a); [|done]. destruct (unhex b); [|done].
    simpl in *. rewrite IH. simpl. by injection Hd as ->.
Qed.
Lemma plain_no s c : (c = "&" \/ c = "=")%char -> str_all plain_byte s = true -> ContainsByte s c = false.
Proof. intros [-> | ->]; by apply str_all_ContainsByte. Qed.

(** *** The attempts of a retrying sender *)
Fixpoint sends {W} (f : Message -> W -> res string unit * W) (msg : Message) (k : nat) (w : W) : list (res string unit) * W :=
  match k with
  | O => ([], w)
  | S k' => let '(o, w1) := f msg w in let '(os, w2) := sends f msg k' w1 in (o :: os, w2)
  end.
Definition unsuccessful (o : res string unit) : Prop := match o with Ok _ => False | Err _ => True end.

Lemma retry_loop_spec {W} oor cancelled (n : retryNotifier (W := W)) msg fuel i last w :
  (0 < fuel)%nat -> Z.of_nat fuel = maxRetries n + 1 - i ->
  let '(r, waits, w') := retry_loop oor cancelled n msg fuel i last w in
  exists (k : nat) os o, (k < fuel)%nat /\ sends (inner n) msg (S k) w = (os ++ [o], w') /\ Forall unsuccessful os /\ length os = k /\
    waits = (fun j => timeutil_Backoff oor (i + Z.of_nat j) Second (60 * Second)) <$> seq 0 k /\
    match o with
    | Ok _ => r = Ok ()
    | Err e => (S k = fuel /\ r = Err ("notify: all " +:+ FormatInt (maxRetries n) +:+ " retries failed: " +:+ e)) \/
               ((S k < fuel)%nat /\ exists err, cancelled (i + Z.of_nat k) = Some err /\ r = Err err)
    end.
Proof.
  revert i last w. induction fuel as [|fuel IH]; intros i last w Hf Hi; [lia|]. cbn [retry_loop].
  destruct (inner n msg w) as [[u|e] w1] eqn:E1.
  { exists 0%nat, [], (Ok u). simpl. rewrite E1. by split_and!. }
  unfold timeutil_ShouldRetry. destruct (Z.ltb_spec i (maxRetries n)) as [Hl|Hl].
  - destruct (cancelled i) as [err|] eqn:Ec.
    { exists 0%nat, [], (Err e). simpl. rewrite E1, Z.add_0_r. split_and!; try done. right. split; [lia|eauto]. }
    specialize (IH (i + 1) e w1 ltac:(lia) ltac:(lia)).
    destruct (retry_loop oor cancelled n msg fuel (i + 1) e w1) as [[r waits] w'].
    destruct IH as (k & os & o & Hk & Hs & Hfail & Hlen & -> & Ho). exists (S k), (Err e :: os), o.
    cbn [sends]. cbn [sends] in Hs. rewrite E1. destruct (inner n msg w1) as [o1 w2]. destruct (sends (inner n) msg k w2) as [os' w3].
    injection Hs as Hs ->. rewrite Hs. split_and!; [lia|done|by constructor|simpl; lia| |].
    + change (seq 0 (S k)) with (0%nat :: seq 1 k). rewrite <- (fmap_S_seq 0 k), fmap_cons, <- list_fmap_compose. f_equal; [by rewrite Z.add_0_r|].
      apply list_fmap_ext. intros _ j _. simpl. f_equal. lia.
    + destruct o as [|e']; [done|]. destruct Ho as [[? ?]|(? & err & ? & ?)]; [left; split; [lia|done]|].
      right. split; [lia|]. exists err. split; [|done]. by replace (i + Z.of_nat (S k)) with (i + 1 + Z.of_nat k) by lia.
  - assert (fuel = 0%nat) as -> by lia. exists 0%nat, [], (Err e). simpl. rewrite E1. split_and!; try done. by left.
Qed.
Lemma backoff_values oor i : 0 <= i <= 33 -> timeutil_Backoff oor i Second (60 * Second) = Z.min (2 ^ i) 60 * Second.
Proof.
  intros Hi. assert (Forall (fun i => timeutil_Backoff oor i Second (60 * Second) = Z.min (2 ^ i) 60 * Second) (seqZ 0 34)) as HF.
  { repeat (constructor; [vm_compute; reflexivity|]). constructor. }
  rewrite Forall_forall in HF. apply HF, elem_of_seqZ. lia.
Qed.
(** From the 35th wait on the product is beyond int64 (and, in the end, beyond float64): its conversion
    is the platform's [oor]. *)
Lemma backoff_overflow oor i :
  34 <= i <= 1000 -> timeutil_Backoff oor i Second (60 * Second) = Z.min oor (60 * Second).
Proof.
  intros Hi. unfold timeutil_Backoff. set (a := f64_mul _ _).
  assert (f64_int64 oor a = oor) as ->.
  { assert (forallb (fun i => match f64_trunc (f64_mul (f64_of_Z Second) (Pow (f64_of_Z 2) i)) with
        | Some z => maxInt64 <? z | None => true end) (seqZ 34 967) = true) as Hall by (vm_compute; reflexivity).
    rewrite forallb_forall in Hall. specialize (Hall i). rewrite <- list_elem_of_In, elem_of_seqZ in Hall.
    specialize (Hall ltac:(lia)). fold a in Hall. unfold f64_int64. destruct (f64_trunc a) as [z|]; [|done].
    apply Z.ltb_lt in Hall. destruct (Z.leb_spec minInt64 z), (Z.leb_spec z maxInt64); simpl; try done; lia. }
  destruct (Z.ltb_spec (60 * Second) oor); lia.
Qed.
Lemma backoff_capped oor i : timeutil_Backoff oor i Second (60 * Second) <= 60 * Second.
Proof. unfold timeutil_Backoff. cbv zeta. destruct (Z.ltb_spec (60 * Second) (f64_int64 oor (f64_mul (f64_of_Z Second) (Pow (f64_of_Z 2) i)))); lia. Qed.
End NotifyFacts.

Module NotifyProps.
Import Notify NotifyFacts Mailer.

(** A sender that fails twice, then succeeds. *)
Definition flaky (msg : Message) (w : nat) : res string unit * nat :=
  match w with O => (Ok (), O) | S w' => (Err "busy", w') end.

(** The SMS form cannot be extended through its values: whatever the phone number and the content are,
    the body splits at its ampersands into exactly the four named fields, and decoding the value of
    each gives back the configured or given text. *)
Theorem sms_form_roundtrip p phone content :
  let body := form_encode (sms_params p phone content) in
  exists f1 f2 f3 f4,
    Split body "&" = [f1; f2; f3; f4] /\
    cut_at "=" f1 = Some ("PhoneNumbers", QueryEscape phone) /\ QueryUnescape (QueryEscape phone) = Some phone /\
    cut_at "=" f2 = Some ("SignName", QueryEscape (SignName p)) /\ QueryUnescape (QueryEscape (SignName p)) = Some (SignName p) /\
    cut_at "=" f3 = Some ("TemplateCode", QueryEscape (TemplateCode p)) /\ QueryUnescape (QueryEscape (TemplateCode p)) = Some (TemplateCode p) /\
    exists v, cut_at "=" f4 = Some ("TemplateParam", v) /\ QueryUnescape v = Some (json_map [("code", json_string content)]).
Proof.
  assert (forall k v, str_all plain_byte k = true -> cut_at "=" (k +:+ "=" +:+ QueryEscape v) = Some (k, QueryEscape v)) as Hcut.
  { intros k v Hk. apply cut_at_app. apply plain_no; [by right|done]. }
  assert (forall k v, str_all plain_byte k = true -> ContainsByte (k +:+ "=" +:+ QueryEscape v) "&" = false) as Hamp.
  { intros k v Hk. by rewrite !ContainsByte_app, (plain_no k "&"), (plain_no (QueryEscape v) "&") by (auto using QueryEscape_plain). }
  set (q := QueryEscape). intros body.
  exists ("PhoneNumbers" +:+ "=" +:+ q phone), ("SignName" +:+ "=" +:+ q (SignName p)),
    ("TemplateCode" +:+ "=" +:+ q (TemplateCode p)), ("TemplateParam" +:+ "=" +:+ q (json_map [("code", json_string content)])).
  split_and!; try apply QueryUnescape_Escape; try by apply Hcut.
  - assert (body = ("PhoneNumbers" +:+ "=" +:+ q phone) +:+ String "&" (("SignName" +:+ "=" +:+ q (SignName p)) +:+
      String "&" (("TemplateCode" +:+ "=" +:+ q (TemplateCode p)) +:+ String "&"
      ("TemplateParam" +:+ "=" +:+ q (json_map [("code", json_string content)]))))) as -> by done.
    rewrite !Split_app by by apply Hamp. by rewrite Split_none by by apply Hamp.
  - eexists. split; [by apply Hcut|]. apply QueryUnescape_Escape.
Qed.

(** A mail whose sender, recipient and subject have no line break consists of exactly the four
    headers, an empty line and the body. *)
Lemma mail_lines from to subject body :
  ContainsByte from "010" = false -> ContainsByte to "010" = false -> ContainsByte subject "010" = false ->
  let cr := String "013" "" in
  Split (compose from to subject body) "010" =
    ["From: " +:+ from +:+ cr; "To: " +:+ to +:+ cr; "Subject: " +:+ subject +:+ cr;
     "Content-Type: text/plain; charset=UTF-8" +:+ cr; cr] ++ Split body "010".
Proof.
  intros Hf Ht Hs cr.
  assert (compose from to subject body =
    ("From: " +:+ from +:+ cr) +:+ String "010" (("To: " +:+ to +:+ cr) +:+ String "010" (("Subject: " +:+ subject +:+ cr) +:+
     String "010" (("Content-Type: text/plain; charset=UTF-8" +:+ cr) +:+ String "010" (cr +:+ String "010" body))))) as ->.
  { unfold compose, cr, crlf. cbn [Join]. rewrite <- !sapp_assoc. done. }
  rewrite !Split_app; [done|..]; rewrite ?ContainsByte_app, ?Hf, ?Ht, ?Hs; done.
Qed.
End NotifyProps.
