(* ===== verification/Files.v ===== *)
(** * files/files.go: upload policies and object keys *)
From S2P Require Import Prelude GoStd.
Open Scope go_scope.

Inductive filesErr := ErrInvalidUploadPolicy | ErrInvalidUpload | ErrUnsupportedType | ErrInvalidObjectKey.

Definition DefaultMaxUploadSizeBytes : Z := 10485760.
Definition VisibilityPrivate : string := "private".
Definition VisibilityPublic : string := "public".

Record Object := mkObject {
  ID : string; o_TenantID : string; ObjectKey : string; o_ContentType : string; o_SizeBytes : Z;
  o_Visibility : string; CreatedAt : Time }.
Record UploadPolicy := mkPolicy {
  MaxSizeBytes : Z; AllowedTypes : list string; AllowedCategories : list string;
  DefaultVisibility : string; ObjectKeyNamespace : string }.
Record UploadRequest := mkRequest {
  TenantID : string; Category : string; Filename : string; ContentType : string; SizeBytes : Z;
  ObjectID : string; Visibility : string; Now : Time }.
Record ObjectKeyInput := mkKeyInput {
  k_Namespace : string; k_TenantID : string; k_Category : string; k_ContentType : string;
  k_ObjectID : string; k_Now : Time }.

(** ** The two patterns: a first byte, then up to [n] more *)
Definition lower_alnum (c : ascii) : bool := byte_in 97 122 c || byte_in 48 57 c.
Definition alnum (c : ascii) : bool := lower_alnum c || byte_in 65 90 c.
Definition pattern (first more : ascii -> bool) (n : Z) (s : string) : bool :=
  match s with
  | "" => false
  | String c s' => first c && str_all more s' && (slen s' <=? n)
  end.
Definition categoryPattern : string -> bool :=
  pattern lower_alnum (fun c => lower_alnum c || Ascii.eqb c "_" || Ascii.eqb c "-") 63.
Definition tenantIDPattern : string -> bool :=
  pattern alnum (fun c => alnum c || Ascii.eqb c "_" || Ascii.eqb c "." || Ascii.eqb c "-") 127.

(** ** Dates: [t.UTC().Format("2006/01/02")] for years up to 9999 *)
Definition date_parts (t : Time) : list string :=
  let '(y, m, d) := civil t in [zero_pad 4 y; zero_pad 2 m; zero_pad 2 d].

(** ** filepath.Clean of a relative path: [.] and empty elements vanish, [..] takes back the
    element before it, if there is one to take. *)
Definition clean_step (out : list string) (e : string) : list string :=
  if String.eqb e "" || String.eqb e "." then out
  else if String.eqb e ".." then
    match out with
    | top :: out' => if String.eqb top ".." then e :: out else out'
    | [] => [e]
    end
  else e :: out.
Definition Clean (path : string) : string :=
  match rev (foldl clean_step [] (Split path "/")) with
  | [] => "."
  | parts => Join parts "/"
  end.

Section files.
Context `{UnicodeCase}.
(** mime.ParseMediaType: the media type, when it parses. *)
Variable parse_media : string -> option string.

Definition NormalizeCategory (category : string) : res filesErr string :=
  let category := ToLower (TrimSpace category) in
  if negb (categoryPattern category) then Err ErrInvalidUpload else Ok category.
Definition NormalizeCategoryOrEmpty (category : string) : string :=
  match NormalizeCategory category with Ok c => c | Err _ => "" end.

Definition NormalizeContentType (contentType : string) : string :=
  match parse_media (TrimSpace contentType) with
  | Some parsed => ToLower parsed
  | None => ToLower (TrimSpace contentType)
  end.
(** [sniffed] is what http.DetectContentType returns for the sample. *)
Definition DetectContentType (sniffed : string) : string := NormalizeContentType sniffed.

Definition ExtensionForContentType (contentType : string) : option string :=
  let t := NormalizeContentType contentType in
  if String.eqb t "image/jpeg" then Some ".jpg"
  else if String.eqb t "image/png" then Some ".png"
  else if String.eqb t "image/webp" then Some ".webp"
  else if String.eqb t "application/pdf" then Some ".pdf"
  else if String.eqb t "text/csv" then Some ".csv"
  else if String.eqb t "application/json" then Some ".json"
  else None.

Definition ValidateVisibility (visibility : string) : res filesErr unit :=
  if String.eqb visibility VisibilityPrivate || String.eqb visibility VisibilityPublic
  then Ok () else Err ErrInvalidUpload.

Definition normalizeNamespace (namespace : string) : res filesErr string :=
  let namespace := Trim (ToLower (TrimSpace namespace)) "/" in
  if String.eqb namespace "" then Ok "files" else
  let clean := Clean namespace in
  if HasPrefix clean "../" || String.eqb clean ".." || ContainsByte clean "\" then Err ErrInvalidObjectKey
  else if forallb categoryPattern (Split clean "/") then Ok clean else Err ErrInvalidObjectKey.

Definition containsNormalized (values : list string) (want : string) : bool :=
  existsb (fun v => String.eqb (NormalizeContentType v) want || String.eqb (ToLower (TrimSpace v)) want) values.

(** The visibility [Validate] and [Plan] settle on. *)
Definition visibility_of (p : UploadPolicy) (req : UploadRequest) : string :=
  let v := if String.eqb (Visibility req) "" then DefaultVisibility p else Visibility req in
  if String.eqb v "" then VisibilityPrivate else v.

Definition Validate (p : UploadPolicy) (req : UploadRequest) : res filesErr unit :=
  if String.eqb (TrimSpace (TenantID req)) "" || (SizeBytes req <? 0) then Err ErrInvalidUpload else
  _ <-? NormalizeCategory (Category req);
  let maxSize := if MaxSizeBytes p =? 0 then DefaultMaxUploadSizeBytes else MaxSizeBytes p in
  if (maxSize <? 0) || bool_decide (AllowedTypes p = []) then Err ErrInvalidUploadPolicy else
  if maxSize <? SizeBytes req then Err ErrInvalidUpload else
  let contentType := NormalizeContentType (ContentType req) in
  if negb (containsNormalized (AllowedTypes p) contentType) then Err ErrUnsupportedType else
  if negb (bool_decide (AllowedCategories p = [])) &&
     negb (containsNormalized (AllowedCategories p) (NormalizeCategoryOrEmpty (Category req)))
  then Err ErrInvalidUpload
  else ValidateVisibility (visibility_of p req).

(** [clock] is time.Now, read when no time is given. *)
Definition BuildObjectKey (clock : Time) (i : ObjectKeyInput) : res filesErr string :=
  let tenantID := TrimSpace (k_TenantID i) in
  let objectID := TrimSpace (k_ObjectID i) in
  category <-? NormalizeCategory (k_Category i);
  if negb (tenantIDPattern tenantID) || String.eqb objectID "" || ContainsByte objectID "/" ||
     ContainsByte objectID "\" then Err ErrInvalidObjectKey else
  namespace <-? normalizeNamespace (k_Namespace i);
  match ExtensionForContentType (k_ContentType i) with
  | None => Err ErrUnsupportedType
  | Some ext =>
      let now := if IsZero (k_Now i) then clock else k_Now i in
      Ok (Join [namespace; "tenants"; tenantID; category; Join (date_parts now) "/"; objectID +:+ ext] "/")
  end.

(** [uuid] is uuid.NewString. *)
Definition Plan (clock : Time) (uuid : string) (p : UploadPolicy) (req : UploadRequest) : res filesErr Object :=
  _ <-? Validate p req;
  let now := if IsZero (Now req) then clock else Now req in
  let objectID := TrimSpace (ObjectID req) in
  let objectID := if String.eqb objectID "" then uuid else objectID in
  key <-? BuildObjectKey clock (mkKeyInput (ObjectKeyNamespace p) (TenantID req) (Category req)
                            (ContentType req) objectID now);
  Ok (mkObject objectID (TrimSpace (TenantID req)) key (NormalizeContentType (ContentType req))
        (SizeBytes req) (visibility_of p req) now).
End files.

Example date_2023 : Join (date_parts (time_Unix 1700000000)) "/" = "2023/11/14".
Proof. vm_compute. reflexivity. Qed.
Example date_leap : Join (date_parts (time_Unix 951782400)) "/" = "2000/02/29".
Proof. vm_compute. reflexivity. Qed.
Example clean_dots : Clean "a/./b//../c" = "a/c" /\ Clean "../a" = "../a" /\ Clean "a/.." = ".".
Proof. vm_compute. done. Qed.

Module FilesFacts.

Lemma Split_cat a b c : Split (a +:+ String c b) c = Split a c ++ Split b c.
Proof.
  induction a as [|x a IH].
  - change ("" +:+ String c b) with (String c b). simpl. by rewrite Stdlib.Strings.Ascii.eqb_refl.
  - rewrite sapp_cons. simpl. rewrite IH. destruct (Ascii.eqb x c); [done|].
    pose proof (Split_nonnil a c). by destruct (Split a c).
Qed.


(** A path segment that names something below its parent. *)
Definition safe_segment (s : string) : Prop :=
  s <> "" /\ s <> "." /\ s <> ".." /\ ContainsByte s "/" = false.

Lemma pattern_safe first more n s :
  (forall c, first c = true -> c <> "."%char /\ c <> "/"%char) ->
  (forall c, more c = true -> c <> "/"%char) ->
  pattern first more n s = true -> safe_segment s.
Proof.
  intros Hf Hm Hp. destruct s as [|c s]; [done|]. simpl in Hp.
  apply andb_prop in Hp as [[Hc Hs]%andb_prop _]. destruct (Hf c Hc) as [N1 N2].
  split_and!; [done|congruence|congruence|]. simpl. apply orb_false_iff. split.
  - apply not_true_iff_false. by intros ->%Stdlib.Strings.Ascii.eqb_eq.
  - eapply (str_all_ContainsByte more); [|done]. destruct (more "/"%char) eqn:E; [|done].
    by destruct (Hm _ E).
Qed.
Lemma byte_in_ne lo hi c c' : byte_in lo hi c = true -> byte_in lo hi c' = false -> c <> c'.
Proof. congruence. Qed.
Lemma lower_alnum_ok c : lower_alnum c = true -> c <> "."%char /\ c <> "/"%char.
Proof. intros Hc. split; intros ->; done. Qed.
Lemma alnum_ok c : alnum c = true -> c <> "."%char /\ c <> "/"%char.
Proof. intros Hc. split; intros ->; done. Qed.
Lemma category_safe s : categoryPattern s = true -> safe_segment s.
Proof. apply pattern_safe; [apply lower_alnum_ok|]. by intros c Hc ->. Qed.
Lemma tenant_safe s : tenantIDPattern s = true -> safe_segment s.
Proof. apply pattern_safe; [apply alnum_ok|]. by intros c Hc ->. Qed.

Lemma digits_safe s : s <> "" -> str_all is_digit s = true -> safe_segment s.
Proof.
  intros Hne Hd. split_and!; [done|by intros ->|by intros ->|].
  by apply (str_all_ContainsByte is_digit).
Qed.
Lemma zero_pad_safe w z : safe_segment (zero_pad w z).
Proof.
  unfold zero_pad. apply digits_safe.
  - intros E. apply (f_equal String.length) in E. rewrite slen_app in E. simpl in E.
    apply (strN_nonempty z), slen_zero. lia.
  - rewrite str_all_app, zeros_digits. simpl.
    replace (strN z) with (strN (Z.max 0 z)); [apply strN_digits; lia|].
    unfold strN. f_equal. lia.
Qed.
Lemma date_safe t : exists y m d, date_parts t = [y; m; d] /\ safe_segment y /\ safe_segment m /\ safe_segment d.
Proof.
  unfold date_parts. destruct (civil t) as [[y m] d]. eexists _, _, _.
  split; [done|]. split_and!; apply zero_pad_safe.
Qed.

Lemma object_file_safe (id ext : string) :
  id <> "" -> ContainsByte id "/" = false -> (4 <= String.length ext)%nat -> ContainsByte ext "/" = false ->
  safe_segment (id +:+ ext).
Proof.
  intros Hid Hs Hlen He.
  assert (5 <= String.length (id +:+ ext))%nat as Hl.
  { rewrite slen_app. destruct id; [done|]. simpl. lia. }
  split_and!; [..|by rewrite ContainsByte_app, Hs, He]; intros E; rewrite E in Hl; simpl in Hl; lia.
Qed.

Lemma app_tail_inj {A} (a b c d : list A) :
  a ++ c = b ++ d -> length c = length d -> a = b /\ c = d.
Proof. intros E Hl. by apply app_inj_2. Qed.

Section facts.
Context `{UnicodeCase}.
Variable parse_media : string -> option string.

Lemma extension_shape ct ext :
  ExtensionForContentType parse_media ct = Some ext ->
  (4 <= String.length ext)%nat /\ ContainsByte ext "/" = false.
Proof.
  unfold ExtensionForContentType.
  repeat (destruct (String.eqb _ _); [intros [= <-]; split; [simpl; lia|done]|]). done.
Qed.

Lemma namespace_segments n ns :
  normalizeNamespace n = Ok ns -> Split ns "/" <> [] /\ Forall safe_segment (Split ns "/").
Proof.
  unfold normalizeNamespace. destruct (String.eqb _ ""); [intros [= <-]|].
  - split; [done|]. repeat constructor; done.
  - destruct (_ || _ || _); [done|]. destruct (forallb _ _) eqn:E; [|done]. intros [= <-].
    split; [apply Split_nonnil|]. rewrite forallb_forall in E. apply Forall_forall. intros s Hs.
    apply category_safe, E. by apply list_elem_of_In.
Qed.

(** The segments of a key. *)
Lemma key_segments clock i key :
  BuildObjectKey parse_media clock i = Ok key ->
  exists ns cat date file,
    Split key "/" = ns ++ ["tenants"; TrimSpace (k_TenantID i); cat] ++ date ++ [file] /\
    length date = 3%nat /\ ns <> [] /\
    Forall safe_segment (Split key "/") /\ normalizeNamespace (k_Namespace i) = Ok (Join ns "/").
Proof.
  unfold BuildObjectKey. destruct (NormalizeCategory (k_Category i)) as [cat|] eqn:Ec; [|done].
  cbn [res_bind].
  assert (categoryPattern cat = true) as Hcat.
  { revert Ec. unfold NormalizeCategory. destruct (categoryPattern _) eqn:E; [|done]. by intros [= <-]. }
  destruct (tenantIDPattern (TrimSpace (k_TenantID i))) eqn:Et; [|done]. cbn [negb orb].
  destruct (String.eqb_spec (TrimSpace (k_ObjectID i)) "") as [|Hid]; [done|]. cbn [orb].
  destruct (ContainsByte (TrimSpace (k_ObjectID i)) "/") eqn:Eo; [done|]. cbn [orb].
  destruct (ContainsByte _ "\"); [done|].
  destruct (normalizeNamespace (k_Namespace i)) as [ns|] eqn:En; [|done]. cbn [res_bind].
  destruct (ExtensionForContentType parse_media (k_ContentType i)) as [ext|] eqn:Ex; [|done].
  intros [= <-]. apply namespace_segments in En as Hns. destruct Hns as [Hne Hns].
  apply category_safe in Hcat. apply tenant_safe in Et. apply extension_shape in Ex as [Hl He].
  pose proof (object_file_safe _ _ Hid Eo Hl He) as Hfile.
  destruct (date_safe (if IsZero (k_Now i) then clock else k_Now i)) as (y & m & d & Ed & Hy & Hm & Hd).
  rewrite Ed. cbn [Join].
  assert (forall s, safe_segment s -> Split s "/" = [s]) as Hone.
  { intros s Hs. apply Split_none, Hs. }
  assert (forall a b, a +:+ "/" +:+ b = a +:+ String "/" b) as Hsl by done.
  exists (Split ns "/"), cat, [y; m; d], (TrimSpace (k_ObjectID i) +:+ ext).
  assert (safe_segment "tenants") as Hten by done.
  match goal with |- Split ?k "/" = _ /\ _ => set (key := k) end.
  assert (Split key "/" = Split ns "/" ++ ["tenants"; TrimSpace (k_TenantID i); cat; y; m; d;
    TrimSpace (k_ObjectID i) +:+ ext]) as Hkey.
  { subst key. rewrite <- !sapp_assoc, !Hsl, !Split_cat.
    by rewrite (Hone _ Hten), (Hone _ Et), (Hone _ Hcat), (Hone _ Hy), (Hone _ Hm), (Hone _ Hd), (Hone _ Hfile). }
  rewrite Hkey. split_and!; try done.
  - apply Forall_app. split; [done|]. repeat (apply Forall_cons_2; [done|]). constructor.
  - f_equal. symmetry. apply (Join_Split ns "/").
Qed.
End facts.
End FilesFacts.
Import FilesFacts.

Module FilesProps.
Section props.
Context `{UnicodeCase}.
Variable parse_media : string -> option string.

(** C38. Object keys are confined: every [/]-separated segment of a planned key is a real name (not
    empty, [.] or [..]), the key lies under [namespace/tenants/tenant/], the size is within
    the policy, and two plans with the same key belong to the same tenant and namespace. *)
Theorem object_keys_are_confined clock uuid p req o :
  Plan parse_media clock uuid p req = Ok o ->
  exists ns cat date file,
    Split (ObjectKey o) "/" = ns ++ ["tenants"; o_TenantID o; cat] ++ date ++ [file] /\
    Forall safe_segment (Split (ObjectKey o) "/") /\
    o_TenantID o = TrimSpace (TenantID req) /\
    0 <= o_SizeBytes o <= (if MaxSizeBytes p =? 0 then DefaultMaxUploadSizeBytes else MaxSizeBytes p) /\
    forall clock' uuid' p' req' o', Plan parse_media clock' uuid' p' req' = Ok o' ->
      ObjectKey o' = ObjectKey o ->
      o_TenantID o' = o_TenantID o /\
      normalizeNamespace (ObjectKeyNamespace p') = normalizeNamespace (ObjectKeyNamespace p).
Proof.
  assert (forall clock uuid p req o, Plan parse_media clock uuid p req = Ok o ->
    0 <= o_SizeBytes o <= (if MaxSizeBytes p =? 0 then DefaultMaxUploadSizeBytes else MaxSizeBytes p) /\
    o_TenantID o = TrimSpace (TenantID req) /\
    exists ns cat date file,
      Split (ObjectKey o) "/" = ns ++ ["tenants"; o_TenantID o; cat] ++ date ++ [file] /\
      length date = 3%nat /\ Forall safe_segment (Split (ObjectKey o) "/") /\
      normalizeNamespace (ObjectKeyNamespace p) = Ok (Join ns "/")) as Hall.
  { clear. intros clock uuid p req o. unfold Plan.
    destruct (Validate parse_media p req) as [[]|] eqn:Ev; [|done]. cbn [res_bind].
    destruct (BuildObjectKey parse_media clock _) as [key|] eqn:Ek; [|done]. cbn [res_bind].
    intros [= <-]. cbn [ObjectKey o_TenantID o_SizeBytes].
    apply key_segments in Ek as (ns & cat & date & file & E1 & E2 & _ & E4 & E5). cbn in E1, E5.
    split; [|split; [done|]; by exists ns, cat, date, file].
    revert Ev. unfold Validate. destruct (Z.ltb_spec (SizeBytes req) 0); [by rewrite orb_true_r|].
    rewrite orb_false_r. destruct (String.eqb _ _); [done|].
    destruct (NormalizeCategory _); [|done]. cbn [res_bind].
    set (mx := if MaxSizeBytes p =? 0 then _ else _). destruct (_ || _); [done|].
    destruct (Z.ltb_spec mx (SizeBytes req)); [done|]. intros _. lia. }
  intros Hp. destruct (Hall _ _ _ _ _ Hp) as (Hsz & Ht & ns & cat & date & file & E1 & L1 & S1 & N1).
  exists ns, cat, date, file. split_and!; try done; [lia|lia|].
  intros clock' uuid' p' req' o' Hp' Hk.
  destruct (Hall _ _ _ _ _ Hp') as (_ & _ & ns' & cat' & date' & file' & E2 & L2 & _ & N2).
  rewrite Hk, E1 in E2. apply app_tail_inj in E2 as [<- E2];
    [|rewrite !length_app; simpl; lia].
  simpl in E2. injection E2 as E2 _ _. rewrite N1, N2. done.
Qed.
End props.

#[local] Existing Instance plain_case.
Lemma object_keys_are_confined_witness :
  exists o, Plan (fun _ => None) 0 "u-1" (mkPolicy 0 ["image/png"] [] "" "Media/x")
    (mkRequest " acme " "Avatars" "a.png" "image/png" 12 "" "" (time_Unix 1700000000)) = Ok o /\
    ObjectKey o = "media/x/tenants/acme/avatars/2023/11/14/u-1.png" /\
    Forall safe_segment (Split (ObjectKey o) "/").
Proof.
  eexists. split; [vm_compute; reflexivity|]. split; [reflexivity|].
  destruct (object_keys_are_confined (fun _ => None) 0 "u-1" (mkPolicy 0 ["image/png"] [] "" "Media/x")
    (mkRequest " acme " "Avatars" "a.png" "image/png" 12 "" "" (time_Unix 1700000000)) _
    ltac:(vm_compute; reflexivity)) as (ns & cat & date & file & _ & H & _).
  exact H.
Defined.
End FilesProps.
