(* ===== verification/Storage.v ===== *)
(** * storage/: object storage on the local file system and on OSS

    [Storage] is storage/storage.go and storage/oss.go.  The file system is the interface
    [FileSystem] with the laws [FileSystemLaws]; an OSS bucket is the functions of its client. *)
From S2P Require Import Prelude GoStd Files.
Open Scope go_scope.

(** ** Files: what a path holds, and the calls storage.go makes *)
Class FileSystem := {
  fs : Type;
  f_read : string -> fs -> option string;                       (* a regular file's bytes *)
  f_mkdir : string -> fs -> res string unit * fs;               (* os.MkdirAll *)
  f_create : string -> fs -> res string unit * fs;              (* os.Create *)
  f_write : string -> string -> fs -> res string unit * fs;     (* writing to the created file *)
  f_remove : string -> fs -> res string unit * fs;              (* os.Remove *)
  is_not_exist : string -> bool }.                              (* os.IsNotExist *)
(** No call touches a file other than the one it names; the effects on that one, when they succeed. *)
(** Distinct paths are distinct files: there are no links.  (Paths reach these calls cleaned, so that two
    spellings of one path do not occur.) *)
Class FileSystemLaws (F : FileSystem) := {
  mkdir_read : forall p q s, f_read q (f_mkdir p s).2 = f_read q s;
  create_other : forall p q s, q <> p -> f_read q (f_create p s).2 = f_read q s;
  create_ok : forall p s s', f_create p s = (Ok (), s') -> f_read p s' = Some "";
  write_other : forall p q d s, q <> p -> f_read q (f_write p d s).2 = f_read q s;
  write_ok : forall p d s s' old, f_read p s = Some old -> f_write p d s = (Ok (), s') -> f_read p s' = Some (old +:+ d);
  remove_other : forall p q s, q <> p -> f_read q (f_remove p s).2 = f_read q s;
  remove_ok : forall p s s', f_remove p s = (Ok (), s') -> f_read p s' = None;
  remove_gone : forall p s e s', f_remove p s = (Err e, s') -> is_not_exist e = true -> f_read p s' = None }.

Module Storage.

(** ** path/filepath on Unix *)
(** The elements of a rooted path; [..] at the root stays there. *)
Definition root_step (out : list string) (e : string) : list string :=
  if String.eqb e "" || String.eqb e "." then out
  else if String.eqb e ".." then match out with _ :: out' => out' | [] => [] end
  else e :: out.
Definition root_elems (path : string) : list string := rev (foldl root_step [] (Split path "/")).
Definition path_Clean (path : string) : string :=
  if HasPrefix path "/" then "/" +:+ Join (root_elems path) "/" else Clean path.
Definition path_Join (a b : string) : string :=
  if String.eqb a "" then (if String.eqb b "" then "" else path_Clean b) else path_Clean (a +:+ "/" +:+ b).
(** [wd] is os.Getwd(). *)
Definition path_Abs (wd : res string string) (path : string) : res string string :=
  if HasPrefix path "/" then Ok (path_Clean path)
  else match wd with Err e => Err e | Ok d => Ok (path_Join d path) end.
(** [filepath.Dir]: the elements but the last. *)
Definition path_Dir (path : string) : string :=
  match rev (Split path "/") with
  | _ :: e :: l => path_Clean (Join (rev (e :: l)) "/" +:+ "/")
  | _ => "."
  end.

(** ** storage.go *)
Inductive storageErr := ErrEscapes | ErrMkdir (e : string) | ErrCreate (e : string) | ErrWrite (e : string)
| ErrDelete (e : string) | ErrOSS (op e : string).
Record LocalStorage := mkLocal { basePath : string; baseURL : string }.
Definition NewLocal (wd : res string string) (base url : string) : LocalStorage :=
  mkLocal (match path_Abs wd base with Ok abs => abs | Err _ => base end) url.
Definition safePath (s : LocalStorage) (key : string) : res storageErr string :=
  let fullPath := path_Join (basePath s) key in
  if negb (HasPrefix fullPath (basePath s +:+ "/")) && negb (String.eqb fullPath (basePath s))
  then Err ErrEscapes else Ok fullPath.

Section local.
Context `{FileSystem}.
(** The reader is the bytes it yields and the error it ends in, if any. *)
Definition Upload (s : LocalStorage) (key : string) (reader : string * option string) (d : fs)
  : res storageErr string * fs :=
  match safePath s key with
  | Err e => (Err e, d)
  | Ok fullPath =>
      match f_mkdir (path_Dir fullPath) d with
      | (Err e, d1) => (Err (ErrMkdir e), d1)
      | (Ok _, d1) =>
          match f_create fullPath d1 with
          | (Err e, d2) => (Err (ErrCreate e), d2)
          | (Ok _, d2) =>
              match f_write fullPath reader.1 d2 with
              | (Err e, d3) => (Err (ErrWrite e), d3)
              | (Ok _, d3) =>
                  match reader.2 with
                  | Some e => (Err (ErrWrite e), d3)
                  | None => (Ok (baseURL s +:+ "/" +:+ key), d3)
                  end
              end
          end
      end
  end.
Definition Delete (s : LocalStorage) (key : string) (d : fs) : res storageErr unit * fs :=
  match safePath s key with
  | Err e => (Err e, d)
  | Ok fullPath =>
      match f_remove fullPath d with
      | (Err e, d1) => (if negb (is_not_exist e) then Err (ErrDelete e) else Ok (), d1)
      | (Ok _, d1) => (Ok (), d1)
      end
  end.
Definition PresignedURL (s : LocalStorage) (key : string) : res storageErr string :=
  match safePath s key with
  | Err e => Err e
  | Ok _ => Ok (baseURL s +:+ "/" +:+ key)
  end.
End local.

(** ** oss.go *)
Record OSSConfig := mkOSSConfig { Endpoint : string; AccessKeyID : string; AccessKeySecret : string; Bucket : string; BaseURL : string }.
(** A bucket of the SDK: errors are [Some]. *)
Record ossBucket := mkBucket {
  PutObject : string -> string -> list (string * string) -> option string;
  DeleteObject : string -> option string;
  SignURL : string -> Z -> res string string }.
Record OSSStorage := mkOSS { o_bucket : ossBucket; o_baseURL : string }.
Definition NewOSS (client : string -> string -> string -> res string (string -> res string ossBucket)) (cfg : OSSConfig)
  : res storageErr OSSStorage :=
  match client (Endpoint cfg) (AccessKeyID cfg) (AccessKeySecret cfg) with
  | Err e => Err (ErrOSS "client" e)
  | Ok bucket_of =>
      match bucket_of (Bucket cfg) with
      | Err e => Err (ErrOSS "bucket" e)
      | Ok b =>
          Ok (mkOSS b (if String.eqb (BaseURL cfg) "" then "https://" +:+ Bucket cfg +:+ "." +:+ Endpoint cfg else BaseURL cfg))
      end
  end.
Definition OSS_Upload (s : OSSStorage) (key data contentType : string) : res storageErr string :=
  let options := if String.eqb contentType "" then [] else [("Content-Type", contentType)] in
  match PutObject (o_bucket s) key data options with
  | Some e => Err (ErrOSS "upload" e)
  | None => Ok (o_baseURL s +:+ "/" +:+ key)
  end.
Definition OSS_Delete (s : OSSStorage) (key : string) : res storageErr unit :=
  match DeleteObject (o_bucket s) key with Some e => Err (ErrOSS "delete" e) | None => Ok () end.
(** Seconds truncate toward zero; every duration's seconds fit. *)
Definition OSS_PresignedURL (s : OSSStorage) (key : string) (expiry : Duration) : res storageErr string :=
  match SignURL (o_bucket s) key (default 0 (f64_trunc (Seconds expiry))) with
  | Err e => Err (ErrOSS "presign" e)
  | Ok url => Ok url
  end.

Definition demo : LocalStorage := NewLocal (Ok "/srv/app") "data/./files" "http://cdn".
Example base_resolved : basePath demo = "/srv/app/data/files".
Proof. vm_compute. reflexivity. Qed.
Example keys_resolved :
  safePath demo "a/b.png" = Ok "/srv/app/data/files/a/b.png" /\ safePath demo "a/../b" = Ok "/srv/app/data/files/b" /\
  safePath demo "../secret" = Err ErrEscapes /\ safePath demo "../files2/x" = Err ErrEscapes /\
  safePath demo "/etc/passwd" = Ok "/srv/app/data/files/etc/passwd" /\ path_Dir "/srv/app/x" = "/srv/app" /\ path_Dir "/x" = "/".
Proof. vm_compute. done. Qed.
(** With the root directory as base no key is accepted. *)
Example root_base_rejects : safePath (NewLocal (Ok "/") "/" "u") "a.png" = Err ErrEscapes.
Proof. vm_compute. reflexivity. Qed.
End Storage.

Module StorageFacts.
Import Storage FilesFacts.

Lemma Split_Join l : l <> [] -> Forall (fun s => ContainsByte s "/" = false) l -> Split (Join l "/") "/" = l.
Proof.
  intros Hne Hl. induction Hl as [|x l Hx Hl IH]; [done|]. destruct l as [|y l]; [by apply Split_none|].
  change (Join (x :: y :: l) "/") with (x +:+ String "/" (Join (y :: l) "/")).
  rewrite Split_app by done. by rewrite IH.
Qed.
Lemma Split_pieces s : Forall (fun x => ContainsByte x "/" = false) (Split s "/").
Proof.
  induction s as [|a s IH]; [by repeat constructor|]. simpl. destruct (Ascii.eqb a "/") eqn:E; [by constructor|].
  pose proof (Split_nonnil s "/"). destruct (Split s "/") as [|h t]; [done|]. apply Forall_cons in IH as [Hh Ht].
  constructor; [|done]. simpl. by rewrite E.
Qed.

Lemma root_step_safe out e :
  ContainsByte e "/" = false -> Forall safe_segment out -> Forall safe_segment (root_step out e).
Proof.
  intros He Ho. unfold root_step. destruct (String.eqb_spec e ""), (String.eqb_spec e "."), (String.eqb_spec e ".."); simpl; try done.
  - destruct out; [done|]. by apply Forall_cons in Ho as [_ ?].
  - by constructor.
Qed.
Lemma root_elems_safe p : Forall safe_segment (root_elems p).
Proof.
  unfold root_elems. apply Forall_rev. assert (Forall safe_segment []) as H0 by constructor. revert H0.
  generalize (@nil string). induction (Split_pieces p) as [|e l He _ IH]; intros out Ho; [done|].
  simpl. apply IH. by apply root_step_safe.
Qed.
(** A cleaned rooted path is the root followed by safe elements. *)
Lemma clean_split p :
  HasPrefix p "/" = true -> root_elems p <> [] -> Split (path_Clean p) "/" = "" :: root_elems p.
Proof.
  intros Hp Hne. unfold path_Clean. rewrite Hp. pose proof (root_elems_safe p) as Hs.
  change ("/" +:+ ?x) with ("" +:+ String "/" x). rewrite Split_app by done. f_equal. apply Split_Join; [done|].
  eapply Forall_impl; [exact Hs|]. by intros x (_ & _ & _ & ?).
Qed.
Lemma HasPrefix_slash_app a b : HasPrefix a "/" = true -> HasPrefix (a +:+ b) "/" = true.
Proof. rewrite !HasPrefix_iff. intros [t ->]. exists (t +:+ b). by rewrite sapp_assoc. Qed.

(** A rooted base directory other than the root: [NewLocal] yields one from an absolute path. *)
Definition proper_base (s : LocalStorage) : Prop :=
  HasPrefix (basePath s) "/" = true /\ exists l, l <> [] /\ Forall safe_segment l /\ basePath s = "/" +:+ Join l "/".
Lemma NewLocal_proper wd base url :
  HasPrefix base "/" = true -> root_elems base <> [] -> proper_base (NewLocal wd base url).
Proof.
  intros Hp Hne. unfold NewLocal, path_Abs. rewrite Hp. split; cbn [basePath]; unfold path_Clean; rewrite Hp.
  - apply HasPrefix_iff. eauto.
  - exists (root_elems base). split_and!; [done|apply root_elems_safe|done].
Qed.

(** The paths at or below the base directory, by elements. *)
Definition below (s : LocalStorage) (p : string) : Prop :=
  exists l, Forall safe_segment l /\ Split p "/" = Split (basePath s) "/" ++ l.

Lemma Join_nil_iff l : Forall safe_segment l -> Join l "/" = "" -> l = [].
Proof. destruct l as [|x [|y l]]; [done|..]; intros [(Hx & _) _]%Forall_cons; simpl; by destruct x. Qed.
Lemma safePath_below s key p : proper_base s -> safePath s key = Ok p -> below s p.
Proof.
  intros (Hr & lb & Hne & Hlb & Eb) Hs. unfold safePath, path_Join in Hs.
  destruct (String.eqb_spec (basePath s) "") as [E|_]; [by rewrite E in Hr|].
  set (full := path_Clean (basePath s +:+ "/" +:+ key)) in Hs.
  destruct (HasPrefix full (basePath s +:+ "/")) eqn:Hp; simpl in Hs.
  - injection Hs as <-. apply HasPrefix_iff in Hp as [rest Er]. exists (Split rest "/").
    assert (full = basePath s +:+ String "/" rest) as Ef by (rewrite Er, <- sapp_assoc; done).
    split; [|by rewrite Ef, Split_cat].
    assert (root_elems (basePath s +:+ "/" +:+ key) <> []) as Hn.
    { intros E. unfold full, path_Clean in Ef. rewrite HasPrefix_slash_app, E in Ef by done.
      apply (f_equal String.length) in Ef. rewrite Eb, !slen_app in Ef. simpl in Ef. lia. }
    pose proof (clean_split _ (HasPrefix_slash_app _ ("/" +:+ key) Hr) Hn) as Es. fold full in Es.
    pose proof (root_elems_safe (basePath s +:+ "/" +:+ key)) as Hsafe. revert Es Hsafe.
    generalize (root_elems (basePath s +:+ "/" +:+ key)). intros elems Es Hsafe.
    rewrite Ef, Split_cat, Eb in Es. change ("/" +:+ ?x) with ("" +:+ String "/" x) in Es.
    rewrite Split_app in Es by done. injection Es as Es. rewrite <- Es in Hsafe. by apply Forall_app in Hsafe as [_ ?].
  - destruct (String.eqb_spec full (basePath s)) as [E|]; [|done]. injection Hs as <-. exists [].
    by rewrite app_nil_r, E.
Qed.
End StorageFacts.

(** ** Files in memory *)
Module MemFiles.
Definition mfs : Type := gmap string string.
#[export] Instance mem_files : FileSystem := {|
  fs := mfs;
  f_read p s := (s : gmap _ _) !! p;
  f_mkdir _ s := (Ok (), s);
  f_create p s := (Ok (), <[p := ""]> (s : gmap _ _));
  f_write p d s := match (s : gmap _ _) !! p with
                   | Some old => (Ok (), <[p := old +:+ d]> (s : gmap _ _))
                   | None => (Err "bad descriptor", s) end;
  f_remove p s := match (s : gmap _ _) !! p with
                  | Some _ => (Ok (), delete p (s : gmap _ _))
                  | None => (Err "no such file", s) end;
  is_not_exist e := String.eqb e "no such file" |}.
#[export] Instance mem_files_laws : FileSystemLaws mem_files.
Proof.
  split; simpl; intros; repeat case_match; simplify_eq/=; try done; by simplify_map_eq.
Qed.
End MemFiles.

Module StorageProps.
Import Storage StorageFacts.
Section props.
Context `{FileSystemLaws}.

(** The two outcomes of a path check. *)
Lemma upload_other s key reader d q :
  (forall p, safePath s key = Ok p -> q <> p) -> f_read q (Upload s key reader d).2 = f_read q d.
Proof.
  intros Hq. unfold Upload. destruct (safePath s key) as [p|e]; [|done]. specialize (Hq p eq_refl).
  pose proof (mkdir_read (path_Dir p) q d) as H1. destruct (f_mkdir (path_Dir p) d) as [[u1|e1] d1]; simpl in *; [|done].
  pose proof (create_other p q d1 Hq) as H2. destruct (f_create p d1) as [[u2|e2] d2]; simpl in *; [|congruence].
  pose proof (write_other p q reader.1 d2 Hq) as H3. destruct (f_write p reader.1 d2) as [[u3|e3] d3]; simpl in *; [|congruence].
  destruct reader.2; simpl; congruence.
Qed.
Lemma delete_other s key d q :
  (forall p, safePath s key = Ok p -> q <> p) -> f_read q (Delete s key d).2 = f_read q d.
Proof.
  intros Hq. unfold Delete. destruct (safePath s key) as [p|e]; [|done]. specialize (Hq p eq_refl).
  pose proof (remove_other p q d Hq) as H1. by destruct (f_remove p d) as [[u|e] d1].
Qed.

(** C24. Confinement: with a base directory other than the root, every path the local storage uses is the base
    directory followed by names that are neither empty nor dots, whatever the key (dot-dot elements,
    absolute keys, repeated slashes); so uploads and deletes, failed ones too, leave every file
    outside the base directory as it was. *)
Theorem storage_confined s :
  proper_base s ->
  (forall key p, safePath s key = Ok p -> below s p) /\
  (forall key reader d q, ~ below s q -> f_read q (Upload s key reader d).2 = f_read q d) /\
  (forall key d q, ~ below s q -> f_read q (Delete s key d).2 = f_read q d).
Proof.
  intros Hb. split_and!.
  - intros key p. by apply safePath_below.
  - intros key reader d q Hq. apply upload_other. intros p Hp ->. by apply Hq, (safePath_below s key).
  - intros key d q Hq. apply delete_other. intros p Hp ->. by apply Hq, (safePath_below s key).
Qed.

(** Stored bytes: a successful upload answers with the URL that [PresignedURL] gives for the key, and the
    file behind the key holds exactly the bytes read; a later successful delete of a key with the
    same path leaves no file there, and other files are untouched by both. *)
Theorem storage_roundtrip s key data url d d1 :
  Upload s key (data, None) d = (Ok url, d1) ->
  PresignedURL s key = Ok url /\
  exists p, safePath s key = Ok p /\ f_read p d1 = Some data /\
    (forall q, q <> p -> f_read q d1 = f_read q d) /\
    forall key' d2, safePath s key' = Ok p -> Delete s key' d1 = (Ok (), d2) ->
      f_read p d2 = None /\ forall q, q <> p -> f_read q d2 = f_read q d.
Proof.
  intros Hu. pose proof (fun q => upload_other s key (data, None) d q) as Hother. rewrite Hu in Hother. cbn [snd] in Hother.
  unfold Upload, PresignedURL in *. destruct (safePath s key) as [p|e] eqn:Ep; [|done].
  destruct (f_mkdir (path_Dir p) d) as [[u1|e1] da]; [|done].
  destruct (f_create p da) as [[[]|e2] db] eqn:Ec; [|done]. apply create_ok in Ec. cbn [fst snd] in Hu.
  destruct (f_write p data db) as [[[]|e3] dc] eqn:Ew; [|done]. apply (write_ok _ _ _ _ "" Ec) in Ew.
  injection Hu as <- <-. split; [done|]. exists p.
  assert (forall q, q <> p -> f_read q dc = f_read q d) as Ho.
  { intros q Hq. apply Hother. by intros ? [= <-]. }
  split_and!; [done|by rewrite Ew, sapp_nil_l|done|].
  intros key' d2 Hk Hd. pose proof (fun q => delete_other s key' dc q) as Hdo. rewrite Hd in Hdo. cbn [snd] in Hdo.
  unfold Delete in Hd. rewrite Hk in Hd. split.
  - destruct (f_remove p dc) as [[[]|e] d'] eqn:Er.
    + injection Hd as <-. by apply remove_ok in Er.
    + destruct (is_not_exist e) eqn:En; [|done]. injection Hd as <-. by eapply remove_gone.
  - intros q Hq. rewrite Hdo; [by apply Ho|]. intros p' Hp'. rewrite Hk in Hp'. by injection Hp' as <-.
Qed.
End props.

Import MemFiles.
Lemma storage_confined_witness :
  f_read "/srv/app/secret" (Upload demo "../secret" ("x", None) (∅ : mfs)).2 = None.
Proof.
  refine (proj1 (proj2 (storage_confined demo _)) "../secret" ("x", None) (∅ : mfs) "/srv/app/secret" _).
  - split; [vm_compute; reflexivity|]. exists ["srv"; "app"; "data"; "files"]. split_and!; [discriminate| |vm_compute; reflexivity].
    repeat constructor; discriminate.
  - intros (l & _ & E). vm_compute in E. discriminate.
Defined.
Lemma storage_roundtrip_witness :
  PresignedURL demo "a/b.txt" = Ok "http://cdn/a/b.txt".
Proof.
  exact (proj1 (storage_roundtrip demo "a/b.txt" "hello" "http://cdn/a/b.txt" (∅ : mfs) _ eq_refl)).
Defined.
End StorageProps.
