(* ===== verification/Gates.v ===== *)
(** * middleware/platform.go and middleware/auth.go: token gates, tenant gates and IP limits;
    the key functions of runtimeguard/limiter.go

    The Gin context enters as the values a gate reads; a gate passes the request on or aborts
    it with a status.  The token service is [Auth]'s, Redis the interface of [RedisSpec], and
    the request context the one of [Gin] and [Obs]. *)
From S2P Require Import Prelude GoStd Gin Obs RedisSpec Auth.
Open Scope go_scope.

Inductive gate (A : Type) := Pass (a : A) | Abort (status : Z) (error : string).
Arguments Pass {A}.
Arguments Abort {A}.

(** ** platform.go *)
Definition DefaultExpiryWarnThreshold : Duration := 30 * Minute.

(** [strings.EqualFold(p, "Bearer")]: no letter of the word folds to a non-ASCII rune. *)
Definition is_bearer (p : string) : bool := String.eqb (str_map lower_byte p) "bearer".
Definition BearerToken (header : string) : string :=
  match Fields header with
  | [p; tok] => if is_bearer p then tok else ""
  | _ => ""
  end.

Definition warn_threshold (expiryWarn : list Duration) : Duration :=
  match expiryWarn with
  | d :: _ => if 0 <? d then d else DefaultExpiryWarnThreshold
  | [] => DefaultExpiryWarnThreshold
  end.

Section tokens.
Context `{Jwt}.
(** The token a header value denotes. *)
Variable wire : string -> jtoken.

(** A token version lookup may be nil, fail, or answer. *)
Definition TokenVersionLookup : Type := option (Z -> res string Z).

Definition version_gate {A} (lookup : TokenVersionLookup) (principal version : Z) (ok : gate A) : gate A :=
  match lookup with
  | None => ok
  | Some f =>
      match f principal with
      | Err _ => Abort 401 "token validation unavailable"
      | Ok current => if negb (version =? current) then Abort 401 "token revoked" else ok
      end
  end.

(** On success: the claims set in the Gin context, the request's context, and whether the expiry
    header is written.  [ctx] is the context of the request as it comes,
    [now] is the time of verification, [now'] the later reading of the expiry warning. *)
Definition PlatformToken (svc : option TokenService) (lookup : TokenVersionLookup) (expiryWarn : list Duration)
    (now now' : Time) (header : string) (ctx : context) : gate (PlatformClaims * context * bool) :=
  let tok := BearerToken header in
  match svc with
  | None => Abort 401 "platform token required"
  | Some s =>
      if String.eqb tok "" then Abort 401 "platform token required" else
      match ParsePlatformToken s now (wire tok) with
      | Err _ => Abort 401 "invalid platform token"
      | Ok claims =>
          version_gate lookup (p_PrincipalID claims) (p_TokenVersion claims)
            (let ctx := Obs.WithPrincipalID ctx (p_PrincipalID claims) in
             Pass (claims, ctx, IsExpiringSoon (ExpiresAt (p_Registered claims)) now' (warn_threshold expiryWarn)))
      end
  end.

Definition TenantToken (svc : option TokenService) (lookup : TokenVersionLookup) (expiryWarn : list Duration)
    (now now' : Time) (header : string) (ctx : context) : gate (TenantClaims * context * bool) :=
  let tok := BearerToken header in
  match svc with
  | None => Abort 401 "tenant token required"
  | Some s =>
      if String.eqb tok "" then Abort 401 "tenant token required" else
      match ParseTenantToken s now (wire tok) with
      | Err _ => Abort 401 "invalid tenant token"
      | Ok claims =>
          version_gate lookup (t_PrincipalID claims) (t_TokenVersion claims)
            (let ctx := Obs.WithTenantID ctx (t_TenantID claims) in
             let ctx := Obs.WithPrincipalID ctx (t_PrincipalID claims) in
             Pass (claims, ctx, IsExpiringSoon (ExpiresAt (t_Registered claims)) now' (warn_threshold expiryWarn)))
      end
  end.
End tokens.

(** What the context holds: platform claims (any non-nil value), tenant claims of the right
    type that are not nil. *)
Record context_claims := mkClaims { c_platform : bool; c_tenant : option TenantClaims }.

Definition PlatformPrincipal (claims : option PlatformClaims) : Z * string :=
  match claims with Some c => (p_PrincipalID c, p_PrincipalType c) | None => (0, "") end.

Definition RequireFeature (svc : option (Z -> string -> res string bool)) (featureCode : string)
    (c : context_claims) : gate unit :=
  if c_platform c then Pass () else
  match c_tenant c with
  | None => Abort 401 "tenant token required"
  | Some claims =>
      if t_TenantID claims =? 0 then Abort 401 "tenant token required" else
      match svc with
      | None => Abort 500 "feature check unavailable"
      | Some enabled =>
          match enabled (t_TenantID claims) featureCode with
          | Err _ => Abort 500 "feature check failed"
          | Ok false => Abort 403 "feature_disabled"
          | Ok true => Pass ()
          end
      end
  end.

Inductive statusErr := ErrTenantGone | ErrLookup (e : string).

(** The status cache is nil or a map. *)
Definition lookupStatus (lookup : Z -> res statusErr Z) (cache : option (gmap Z Z)) (tenantID : Z)
  : res statusErr Z * option (gmap Z Z) :=
  match cache ≫= (fun m => m !! tenantID) with
  | Some v => (Ok v, cache)
  | None =>
      match lookup tenantID with
      | Err e => (Err e, cache)
      | Ok status => (Ok status, (fun m => <[tenantID := status]> m) <$> cache)
      end
  end.

Definition RequireTenantActive (lookup : option (Z -> res statusErr Z)) (cache : option (gmap Z Z))
    (c : context_claims) : gate unit * option (gmap Z Z) :=
  if c_platform c then (Pass (), cache) else
  match c_tenant c with
  | None => (Abort 401 "tenant token required", cache)
  | Some claims =>
      if t_TenantID claims =? 0 then (Abort 401 "tenant token required", cache) else
      match lookup with
      | None => (Abort 500 "tenant status check unavailable", cache)
      | Some f =>
          match lookupStatus f cache (t_TenantID claims) with
          | (Err ErrTenantGone, cache') => (Abort 403 "tenant_gone", cache')
          | (Err _, cache') => (Abort 500 "tenant status check failed", cache')
          | (Ok status, cache') =>
              if negb (status =? 0) then (Abort 403 "tenant_suspended", cache') else (Pass (), cache')
          end
      end
  end.

(** ** middleware/auth.go *)
(** [strings.SplitN(header, " ", 2)] with two parts, the first of them [Bearer]. *)
Definition ExtractBearerToken (header : string) : option string :=
  match cut_at " " header with
  | Some (p, rest) => if String.eqb p "Bearer" then Some rest else None
  | None => None
  end.

(** *** Tokens of arbitrary claims
    golang-jwt on [jwt.MapClaims]: HS256 signing, and parsing with a fixed key, where [None] covers
    every error and an invalid token. *)
Inductive claim := CNum (z : Z) | CText (s : string) | COther (json : string).
Abbreviation MapClaims := (gmap string claim) (only parsing).
Class MapJwt := {
  mtoken : Type;
  map_sign : string -> MapClaims -> res string mtoken;
  map_parse : string -> mtoken -> Time -> option MapClaims;
  map_exact : MapClaims -> Prop }.          (* JSON reads the members back as they were *)
Class MapJwtLaws (J : MapJwt) := {
  (* a signed object is accepted under its key until it expires, unless it says when it starts *)
  map_parse_signed : forall key c tok e now,
    map_exact c -> map_sign key c = Ok tok -> c !! "exp" = Some (CNum e) -> c !! "nbf" = None ->
    map_parse key tok now = if now <? time_Unix e then Some c else None }.

Section map_tokens.
Context `{MapJwt}.
(** The caller's map is changed: it is returned beside the token.  The clock is read twice.  (A nil
    map, to which Go cannot write, is no [MapClaims] here.) *)
Definition GenerateToken (claims : MapClaims) (secret : string) (expiry : Duration) (now now' : Time)
  : res string mtoken * MapClaims :=
  let claims := <["exp" := CNum (Unix (Add now expiry))]> claims in
  let claims := <["iat" := CNum (Unix now')]> claims in
  (map_sign secret claims, claims).
Definition ParseJWT (token : mtoken) (secret : string) (now : Time) : res string MapClaims :=
  match map_parse secret token now with Some claims => Ok claims | None => Err "invalid token" end.
End map_tokens.

Section limits.
Context `{Redis}.

(** [n1], [n2], [n3]: fault and server time of the read, of the pipeline (two commands sent
    together) and of the delete; [status] the status the handlers wrote. *)
Definition LoginRateLimit (rdb_ : bool) (maxAttempts : Z) (window : Duration) (n1 n2 n3 : fault * Z)
    (ip : string) (status : Z) (db : rdb) : bool * rdb :=
  if negb rdb_ then (true, db) else
  let key := "login_fail:" +:+ ip in
  let count := match (call n1.1 (fun db => (r_get key n1.2 db, db)) db).1 with
               | Ok (Some v) => (ParseInt v).1
               | _ => 0
               end in
  if maxAttempts <=? count then (false, db) else
  if status =? 401 then
    (true, (call n2.1 (fun db => ((), (r_expire key window n2.2 (r_incrby key 1 n2.2 db).2).2)) db).2)
  else if status =? 200 then (true, (call n3.1 (r_del key n3.2) db).2)
  else (true, db).

(** [true] passes the request on; an error of INCR reads as a count of zero. *)
Definition IPRateLimit (rdb_ : bool) (rpm : Z) (n1 n2 : fault * Z) (ip : string) (db : rdb) : bool * rdb :=
  if negb rdb_ then (true, db) else
  let key := "ip_rl:" +:+ ip in
  let '(r, db1) := call n1.1 (r_incrby key 1 n1.2) db in
  let count := match r with Ok (Some n) => n | _ => 0 end in
  let db2 := (call n2.1 (fun db => ((), (r_expire key (60 * Second) n2.2 db).2)) db1).2 in
  (negb (rpm <? count), db2).
End limits.

(** ** runtimeguard/limiter.go: the keys requests are counted under
    [tenant] and [platform] are the context's claims where they have the expected type and are
    not nil; [ip] is the client's address. *)
Definition claimIDs (tenant : option TenantClaims) (platform : option PlatformClaims) : string * string :=
  match tenant with
  | Some claims => (FormatInt (t_TenantID claims), FormatInt (t_PrincipalID claims))
  | None =>
      match platform with
      | Some claims => ("", FormatInt (p_PrincipalID claims))
      | None => ("", "")
      end
  end.
Definition IPKey (scope ip : string) : string := scope +:+ ":ip:" +:+ ip.
Definition TenantPrincipalIPKey (scope : string) (tenant : option TenantClaims)
    (platform : option PlatformClaims) (ip : string) : string :=
  let '(tenantID, principalID) := claimIDs tenant platform in
  if negb (String.eqb tenantID "") || negb (String.eqb principalID "")
  then scope +:+ ":tenant:" +:+ tenantID +:+ ":principal:" +:+ principalID +:+ ":ip:" +:+ ip
  else IPKey scope ip.

Module GateProps.

(** The token gate: a request passes the platform gate exactly when its bearer token parses as
    a platform token of the service and, where a version lookup is configured, the principal's
    current version is the token's; everything else is refused with 401. *)
Theorem platform_gate_is_exact `{Jwt} wire svc lookup warn now now' header ctx :
  match PlatformToken wire svc lookup warn now now' header ctx with
  | Pass (claims, ctx', _) =>
      ctx' = Obs.WithPrincipalID ctx (p_PrincipalID claims) /\
      exists s tok, svc = Some s /\ BearerToken header = tok /\ tok <> "" /\
        ParsePlatformToken s now (wire tok) = Ok claims /\
        p_PrincipalID claims <> 0 /\ p_TokenType claims = "platform" /\
        (forall f, lookup = Some f -> f (p_PrincipalID claims) = Ok (p_TokenVersion claims))
  | Abort st _ =>
      st = 401 /\
      ~ exists s claims, svc = Some s /\ BearerToken header <> "" /\
          ParsePlatformToken s now (wire (BearerToken header)) = Ok claims /\
          (forall f, lookup = Some f -> f (p_PrincipalID claims) = Ok (p_TokenVersion claims))
  end.
Proof.
  unfold PlatformToken. destruct svc as [s|]; [|split; [done|by intros (? & ? & ? & _)]].
  destruct (String.eqb_spec (BearerToken header) "") as [E|Hne].
  { split; [done|]. by intros (? & ? & _ & ? & _). }
  destruct (ParsePlatformToken s now (wire (BearerToken header))) as [claims|e] eqn:Ep.
  2: { split; [done|]. intros (? & ? & [= <-] & _ & Ec & _). congruence. }
  assert (p_PrincipalID claims <> 0 /\ p_TokenType claims = "platform") as [Hid Hty].
  { revert Ep. unfold ParsePlatformToken. destruct (jwt_parse _ _ _) as [j|]; [|done].
    destruct (String.eqb_spec (p_TokenType (read_platform j)) "platform"); [|done]. cbn [negb orb].
    destruct (Z.eqb_spec (p_PrincipalID (read_platform j)) 0); [done|]. cbn [orb].
    destruct (negb _); [done|]. destruct (checkAudienceCompat _ _); [|done]. by intros [= <-]. }
  unfold version_gate. destruct lookup as [f|].
  - destruct (f (p_PrincipalID claims)) as [cur|e] eqn:Ef.
    + destruct (Z.eqb_spec (p_TokenVersion claims) cur) as [Hv|Hv]; cbn [negb].
      * split; [done|]. exists s, (BearerToken header). split_and!; try done. intros g [= <-]. by rewrite Ef, Hv.
      * split; [done|]. intros (? & c & [= <-] & _ & Ec & Hl). rewrite Ep in Ec. injection Ec as <-.
        specialize (Hl f eq_refl). congruence.
    + split; [done|]. intros (? & c & [= <-] & _ & Ec & Hl). rewrite Ep in Ec. injection Ec as <-.
      specialize (Hl f eq_refl). congruence.
  - split; [done|]. exists s, (BearerToken header). split_and!; done.
Qed.

(** A generated token carries its claims until its expiry, to the second: before it the parser gives
    back the caller's claims with the two times set, from it on the token is invalid. *)
Theorem generated_token_expires `{MapJwtLaws} claims secret expiry now now' tok c t :
  GenerateToken claims secret expiry now now' = (Ok tok, c) -> map_exact c -> claims !! "nbf" = None ->
  ParseJWT tok secret t =
    (if t <? time_Unix (Unix (now + expiry)) then Ok c else Err "invalid token") /\
  (forall k, k <> "exp" -> k <> "iat" -> c !! k = claims !! k).
Proof.
  unfold GenerateToken, Add. intros [= Hs <-] Hx Hn. split.
  - unfold ParseJWT. rewrite (map_parse_signed secret _ tok (Unix (now + expiry)) t Hx Hs);
      [by destruct (_ <? _)|by rewrite lookup_insert_ne, lookup_insert_eq|by rewrite !lookup_insert_ne].
  - intros k H1 H2. by simplify_map_eq.
Qed.
#[local] Instance open_jwt : MapJwt := {|
  mtoken := string * MapClaims;
  map_sign key c := Ok (key, c);
  map_parse key tok now :=
    if String.eqb key tok.1 then
      match tok.2 !! "exp" with Some (CNum e) => if now <? time_Unix e then Some tok.2 else None | _ => Some tok.2 end
    else None;
  map_exact _ := True |}.
#[local] Instance open_jwt_laws : MapJwtLaws open_jwt.
Proof. split. intros key c tok e now _ [= <-] He _. simpl. by rewrite String.eqb_refl, He. Qed.
Lemma generated_token_expires_witness :
  let '(tok, c) := GenerateToken {["sub" := CText "7"]} "k" Hour (time_Unix 1000) (time_Unix 1000) in
  match tok with Ok tok => ParseJWT tok "k" (time_Unix 4599) = Ok c | Err _ => False end.
Proof.
  destruct (GenerateToken {["sub" := CText "7"]} "k" Hour (time_Unix 1000) (time_Unix 1000)) as [tok c] eqn:E.
  destruct tok as [tok|]; [|done]. by destruct (generated_token_expires _ _ _ _ _ tok c (time_Unix 4599) E I eq_refl) as [-> _].
Defined.

(** Claims carry unsigned identifiers. *)
Definition ids_ok (tenant : option TenantClaims) (platform : option PlatformClaims) : Prop :=
  (forall c, tenant = Some c -> 0 <= t_TenantID c /\ 0 <= t_PrincipalID c) /\
  (forall c, platform = Some c -> 0 <= p_PrincipalID c).

Lemma claimIDs_no_colon tenant platform :
  ids_ok tenant platform ->
  ContainsByte (claimIDs tenant platform).1 ":" = false /\ ContainsByte (claimIDs tenant platform).2 ":" = false.
Proof.
  intros [Ht Hp]. destruct tenant as [c|]; [|destruct platform as [c|]; [|done]]; simpl.
  - destruct (Ht c eq_refl). split; by apply FormatInt_no_colon.
  - split; [done|]. by apply FormatInt_no_colon, Hp.
Qed.

(** Requests of one scope share a limiter key exactly when they carry the same tenant and
    principal and come from the same address: one principal's calls never use up another's
    quota, nor those of anonymous callers behind the same address. *)
Lemma keys_separate_iff scope t1 p1 ip1 t2 p2 ip2 :
  ids_ok t1 p1 -> ids_ok t2 p2 ->
  TenantPrincipalIPKey scope t1 p1 ip1 = TenantPrincipalIPKey scope t2 p2 ip2 <->
  claimIDs t1 p1 = claimIDs t2 p2 /\ ip1 = ip2.
Proof.
  intros H1 H2. split; [|intros [E ->]; unfold TenantPrincipalIPKey; by rewrite E].
  apply claimIDs_no_colon in H1, H2. unfold TenantPrincipalIPKey, IPKey.
  destruct (claimIDs t1 p1) as [a1 b1], (claimIDs t2 p2) as [a2 b2]. simpl in H1, H2.
  destruct H1 as [Ha1 Hb1], H2 as [Ha2 Hb2].
  destruct (String.eqb_spec a1 ""), (String.eqb_spec b1 ""), (String.eqb_spec a2 ""), (String.eqb_spec b2 "");
    simpl; intros E%sapp_inj_l; simpl in E; rewrite ?sapp_cons in E; simplify_eq; try done.
  all: try (apply first_cut_inj in E as [? E]; [|done..]); simplify_eq; try done.
  all: rewrite ?sapp_cons in E; simplify_eq; apply first_cut_inj in E as [? E]; [|done..]; by simplify_eq.
Qed.

Section ip.
Context `{RedisLaws}.

(** One client's requests, without faults. *)
Fixpoint ip_run (rpm : Z) (ip : string) (ts : list Z) (db : rdb) : list bool * rdb :=
  match ts with
  | [] => ([], db)
  | t :: ts' => let '(b, db1) := IPRateLimit true rpm (NoFault, t) (NoFault, t) ip db in
                let '(bs, db2) := ip_run rpm ip ts' db1 in (b :: bs, db2)
  end.
(** Each request comes less than a minute after the one before, at [last]. *)
Fixpoint steady (last : Z) (ts : list Z) : Prop :=
  match ts with [] => True | t :: ts' => last <= t < last + 60000 /\ steady t ts' end.

(** One request on a counter of [n]: it is counted, the minute starts again, and it passes
    when the new count is at most [rpm]. *)
Lemma ip_step rpm ip t db n x :
  0 <= n < maxInt64 -> counter db t ("ip_rl:" +:+ ip) n x ->
  exists db', IPRateLimit true rpm (NoFault, t) (NoFault, t) ip db = (n + 1 <=? rpm, db') /\
    rv db' t ("ip_rl:" +:+ ip) = Some (FormatInt (n + 1), Some (t + 60000)).
Proof.
  intros Hn Hc. unfold IPRateLimit, call. cbn [negb fst snd]. set (key := "ip_rl:" +:+ ip) in *.
  destruct (incrby_rv key 1 t db n x) as [Hr Hv]; [exact Hc|auto with go..|].
  destruct (r_incrby key 1 t db) as [o db1]. simpl in Hr, Hv. subst o.
  unfold r_expire. rewrite expire_secs_whole by lia. change (1000 * 60) with 60000.
  pose proof (proj2 (pexpire_rv key 60000 t db1 key ltac:(lia))) as He.
  rewrite upd_eq, Hv, upd_eq in He. rewrite Z.leb_antisym. eauto.
Qed.

Lemma ip_run_counts rpm ip ts db n last :
  0 <= n -> n + Z.of_nat (length ts) <= maxInt64 -> steady last ts ->
  rv db last ("ip_rl:" +:+ ip) = Some (FormatInt n, Some (last + 60000)) ->
  (ip_run rpm ip ts db).1 = (fun i => Z.of_nat i <=? rpm) <$> seq (Z.to_nat n + 1) (length ts).
Proof.
  revert db n last. induction ts as [|t ts IH]; intros db n last Hn Hmax Hst Hk; [done|]. destruct Hst as [Ht Hst].
  cbn [ip_run length] in *. apply (rv_still db last t) in Hk; [|lia|lia].
  destruct (ip_step rpm ip t db n (Some (last + 60000))) as (db1 & -> & Hk1);
    [lia|unfold counter; by rewrite Hk|].
  specialize (IH db1 (n + 1) t ltac:(lia) ltac:(lia) Hst Hk1).
  destruct (ip_run rpm ip ts db1) as [bs db2]. simpl in IH |- *. rewrite IH.
  replace (Z.to_nat (n + 1) + 1)%nat with (S (Z.to_nat n + 1)) by lia. f_equal. f_equal. lia.
Qed.

(** The per-IP limit never opens for a steady client: as long as each request comes less than
    a minute after the one before, exactly the first [rpm] requests pass and all later ones
    are refused, however much time has gone by (every request, refused ones included, renews
    the key's expiry). *)
Theorem ip_limit_never_reopens rpm ip t ts db :
  1 + Z.of_nat (length ts) <= maxInt64 -> steady t ts -> rv db t ("ip_rl:" +:+ ip) = None ->
  (ip_run rpm ip (t :: ts) db).1 = (fun i => Z.of_nat i <=? rpm) <$> seq 1 (S (length ts)).
Proof.
  intros Hmax Hst Hk. cbn [ip_run].
  destruct (ip_step rpm ip t db 0 None) as (db1 & -> & Hk1); [lia|unfold counter; by rewrite Hk|].
  pose proof (ip_run_counts rpm ip ts db1 1 t ltac:(lia) Hmax Hst Hk1) as IH.
  destruct (ip_run rpm ip ts db1) as [bs db2]. simpl in IH |- *. by rewrite IH.
Qed.
End ip.

Import MemRedis.
Lemma ip_limit_never_reopens_witness :
  (ip_run 2 "10.0.0.1" [0; 50000; 100000; 150000] empty_db).1 = [true; true; false; false].
Proof.
  apply (ip_limit_never_reopens 2 "10.0.0.1" 0 [50000; 100000; 150000] empty_db);
    [done|simpl; lia|reflexivity].
Defined.
End GateProps.
