(* ===== verification/Flows.v ===== *)
(** * Requests across components

    What holds of a request on its way through several packages: the tenant header through
    middleware/platform.go and tenant/ down to the statements of a handler, the keys and the
    limiter of runtimeguard/ over a stream of requests from many callers, and a token of auth/
    through the gate to the log lines, metadata and limiter keys of the request it came with. *)
From S2P Require Import Prelude GoStd Job SqlSpec Gin Obs Web Tenant RedisLocks RuntimeGuard Auth Gates.
Open Scope go_scope.

Module TenantFlow.
Import Tenant TenantFacts.

Section flow.
Context `{GinLaws}.
Context {Row : Type} `{UnicodeCase} `{EntityLaws Row} `{!TenantColumn Row} `{!TenantColumnLaws Row}.
Context `{!Where Row} `{!WhereLaws Row} {T : Table Row} `{!TableLaws Row T}.

(** The two middlewares in front of a handler. *)
Definition tenant_chain (handler : gctx -> gctx) : gctx -> gctx :=
  Mw.TenantContext (Middleware Mw.tenantCtxKey handler).

(** C19. A request's tenant header decides what its handler can reach.  Without one the handler does not
    run and the answer is 400; with tenant [a] the handler runs on a context under which statements
    leave all rows of other tenants as they were, queries return exactly the rows of [a] that meet
    their conditions, and created rows belong to [a].  Conditions: nothing has set the tenant key
    of the Gin context or written a body before; the statements chain their conditions by Where and
    not by Or ([TenantProps.or_escapes_tenant]), inserts have no ON CONFLICT clause, and updates do
    not assign the unique key, the id or the tenant column. *)
Theorem tenant_header_scopes_statements c :
  v_bodies (g_view c) = [] -> GetString Mw.tenantCtxKey c = "" ->
  let a := GetHeader "X-Tenant-ID" c in
  if String.eqb a "" then
    forall handler, v_status (g_view (tenant_chain handler c)) = 400 /\ v_aborted (g_view (tenant_chain handler c)) = true /\
                    forall handler', tenant_chain handler c = tenant_chain handler' c
  else exists c1, (forall handler, tenant_chain handler c = handler c1) /\
    forall os t, twf t -> Forall tame_op os ->
      (forall b, b <> a -> rows_of b (srun (Request_Context c1) os t) ≡ₚ rows_of b t) /\
      (forall ps, Forall is_and ps -> exists l, Query (session (Request_Context c1) ps) t = Ok l /\ l ≡ₚ List.filter (where_ ps) (rows_of a t)) /\
      (forall r r' t', Create (session (Request_Context c1) []) r t = (Ok r', t') -> column r' = a).
Proof.
  intros Hb Hk a. unfold tenant_chain, Mw.TenantContext. fold a. destruct (String.eqb_spec a "") as [Ea|Ha].
  - intros handler. unfold Middleware. rewrite Hk. simpl. rewrite abort_view. cbn.
    destruct (WebFacts.error_view c 400 Resp.CodeBadRequest "missing tenant context" Hb) as (-> & _). done.
  - set (c0 := g_set _ _ _).
    assert (GetString Mw.tenantCtxKey c0 = a) as Hc0.
    { subst c0. unfold GetString, Get. rewrite set_view. cbn. by rewrite lookup_insert_eq. }
    unfold Middleware. rewrite Hc0. destruct (String.eqb_spec a ""); [done|].
    set (c1 := g_with_context _ c0). exists c1. split; [done|].
    assert (FromContext (Request_Context c1) = a) as Hf.
    { subst c1. unfold Request_Context, FromContext. rewrite with_context_view. cbn [v_context].
      unfold InjectToContext. by rewrite Value_eq. }
    intros os t Hw Hos. split_and!.
    + intros b Hne. by apply (srun_others _ a b).
    + intros ps Hps. by apply query_scoped.
    + intros r r' t'. unfold Create, create_callback, session. cbn [s_context s_error]. rewrite Hf.
      destruct (String.eqb_spec a ""); [done|]. cbn [s_error].
      destruct (decide (uk (set_column a r) ∈ uk <$> rows t)) as [Hd|Hd].
      * by destruct (insert_dup _ t Hw Hd) as (e & t2 & -> & _).
      * destruct (insert_new _ t Hw Hd) as (id & t2 & -> & _). intros [= <- _]. by rewrite column_set_id, column_set.
Qed.
End flow.

Import MemGin MemTable TenantProps SqlWhere.
#[local] Existing Instance plain_case.
Lemma tenant_header_scopes_statements_witness :
  let c := get_request {["X-Tenant-ID" := "acme"]} ∅ ∅ in
  exists c1, tenant_chain (fun x => x) c = c1 /\
    rows_of "corp" (srun (Request_Context c1) [ODelete [] 10; OCreate (mkNote 0 "corp" "z")] notes) ≡ₚ [mkNote 2 "corp" "y"].
Proof.
  intros c.
  destruct (tenant_header_scopes_statements (Row := note) c eq_refl eq_refl) as (c1 & Hc & Hs).
  exists c1. split; [apply Hc|].
  destruct (Hs [ODelete [] 10; OCreate (mkNote 0 "corp" "z")] notes notes_wf) as (Hr & _).
  - repeat constructor; simpl; lia.
  - by apply (Hr "corp").
Defined.
End TenantFlow.

Module LimiterFlow.
(** One request: when it comes, the claims in its context and its address. *)
Record call := mkCall { at_ : Time; tenant : option TenantClaims; platform : option PlatformClaims; ip : string }.
Definition key_of (scope : string) (r : call) : string := TenantPrincipalIPKey scope (tenant r) (platform r) (ip r).
(** The caller: tenant and principal as they appear in the key, and the address. *)
Definition caller (r : call) : string * string * string := (claimIDs (tenant r) (platform r), ip r).

(** [GinMiddleware] with a [MemoryLimiter] and [TenantPrincipalIPKey], over a stream of requests:
    each request's caller and answer. *)
Fixpoint serve (scope : string) (cfg : LimitConfig) (reqs : list call) (l : option MemoryLimiter)
  : list (string * string * string * ginResult) :=
  match reqs with
  | [] => []
  | r :: reqs' =>
      let allow := fun k limit window => (Ok (), (Allow (at_ r) k limit window l).1) in
      (caller r, GinMiddleware (Some allow) cfg (key_of scope r)) ::
      serve scope cfg reqs' (Allow (at_ r) (key_of scope r) (Limit cfg) (Window cfg) l).2
  end.
Definition by_caller {A} (who : string * string * string) (l : list (string * string * string * A)) :=
  List.filter (fun x => bool_decide (x.1 = who)) l.
Definition requests_of (who : string * string * string) (reqs : list call) : list call :=
  List.filter (fun r => bool_decide (caller r = who)) reqs.

(** Keys as the limiter keeps them, and text as it appears in keys. *)
Definition bucket_at (k : string) (l : option MemoryLimiter) : option (option bucket) :=
  (fun m => buckets m !! k) <$> l.
Definition clean_call (scope : string) (r : call) : Prop :=
  str_all visible scope = true /\ str_all visible (ip r) = true /\ GateProps.ids_ok (tenant r) (platform r).

(** A call looks at its own key only ... *)
Lemma allow_own now key limit window l l' :
  bucket_at (TrimSpace key) l = bucket_at (TrimSpace key) l' ->
  (Allow now key limit window l).1 = (Allow now key limit window l').1 /\
  bucket_at (TrimSpace key) (Allow now key limit window l).2 = bucket_at (TrimSpace key) (Allow now key limit window l').2.
Proof.
  unfold Allow, bucket_at. destruct l as [m|], l' as [m'|]; simpl; try done. intros [= E].
  destruct (_ || _ || _); simpl; [by rewrite E|]. rewrite E.
  destruct (limit <=? count _); simpl; by rewrite !lookup_insert_eq.
Qed.
(** ... and changes no other. *)
Lemma allow_foreign now key limit window l k :
  k <> TrimSpace key -> bucket_at k (Allow now key limit window l).2 = bucket_at k l.
Proof.
  intros Hk. unfold Allow, bucket_at. destruct l as [m|]; simpl; [|done].
  destruct (_ || _ || _); simpl; [done|].
  destruct (limit <=? count _); simpl; by rewrite lookup_insert_ne.
Qed.

Lemma claimIDs_visible t p :
  GateProps.ids_ok t p -> str_all visible (claimIDs t p).1 = true /\ str_all visible (claimIDs t p).2 = true.
Proof.
  assert (forall z, 0 <= z -> str_all visible (FormatInt z) = true) as Hz.
  { intros z Hz. rewrite FormatInt_nonneg by done. eapply str_all_impl; [|by apply strN_digits].
    intros c. apply digit_visible. }
  intros [Ht Hp]. destruct t as [c|]; [|destruct p as [c|]; [|done]]; simpl.
  - destruct (Ht c eq_refl). split; by apply Hz.
  - split; [done|]. by apply Hz, Hp.
Qed.
Lemma key_trimmed scope r : clean_call scope r -> TrimSpace (key_of scope r) = key_of scope r.
Proof.
  intros (Hs & Hi & Hc). apply TrimSpace_visible. unfold key_of, TenantPrincipalIPKey, IPKey.
  apply claimIDs_visible in Hc. destruct (claimIDs _ _) as [a b]. simpl in Hc. destruct Hc as [Ha Hb].
  destruct (_ || _); rewrite !str_all_app, Hs, Hi, ?Ha, ?Hb; done.
Qed.
Lemma same_key scope r who_r :
  clean_call scope r -> clean_call scope who_r ->
  TrimSpace (key_of scope r) = TrimSpace (key_of scope who_r) <-> caller r = caller who_r.
Proof.
  intros Hr Hw. rewrite !key_trimmed by done. unfold key_of, caller.
  destruct Hr as (_ & _ & Hr), Hw as (_ & _ & Hw).
  rewrite (GateProps.keys_separate_iff scope _ _ (ip r) _ _ (ip who_r) Hr Hw).
  split; [by intros [-> ->]|]. intros E. by injection E as -> ->.
Qed.

Lemma serve_own scope cfg who reqs l l' :
  clean_call scope who -> Forall (clean_call scope) reqs ->
  bucket_at (TrimSpace (key_of scope who)) l = bucket_at (TrimSpace (key_of scope who)) l' ->
  by_caller (caller who) (serve scope cfg reqs l) = serve scope cfg (requests_of (caller who) reqs) l'.
Proof.
  intros Hw. revert l l'. induction reqs as [|r reqs IH]; intros l l' Hr Hb; [done|].
  apply Forall_cons in Hr as [Hr Hrs]. cbn [serve by_caller requests_of List.filter fst].
  pose proof (same_key scope r who Hr Hw) as Hk. case_bool_decide as Hc.
  - apply Hk in Hc as Ek. rewrite <- Ek in Hb.
    destruct (allow_own (at_ r) (key_of scope r) (Limit cfg) (Window cfg) l l' Hb) as [E1 E2].
    cbn [serve]. unfold GinMiddleware. rewrite E1. f_equal. apply IH; [done|]. by rewrite <- Ek.
  - apply IH; [done|]. rewrite allow_foreign; [done|]. intros E. apply Hc, Hk. done.
Qed.

(** C27. Callers do not share a quota: the answers one caller gets in any stream of requests, tenants,
    platform users and anonymous callers mixed, are the answers it would get alone. *)
Theorem callers_do_not_share_quota scope cfg who reqs l :
  clean_call scope who -> Forall (clean_call scope) reqs ->
  by_caller (caller who) (serve scope cfg reqs l) = serve scope cfg (requests_of (caller who) reqs) l.
Proof. intros Hw Hr. by apply serve_own. Qed.

Definition anonymous (t : Time) (addr : string) : call := mkCall t None None addr.
Definition signed_in (t : Time) (id : Z) (addr : string) : call :=
  mkCall t None (Some (mkPlatform id "user" [] 1 "platform" (mkRegistered "" [] None None))) addr.
Lemma callers_do_not_share_quota_witness :
  let cfg := mkLimitConfig "api" 1 Minute in
  let reqs := [anonymous 5 "10.0.0.1"; signed_in 6 7 "10.0.0.1"; signed_in 7 7 "10.0.0.1"; anonymous 8 "10.0.0.1"] in
  by_caller ("", "7", "10.0.0.1") (serve "api" cfg reqs (Some NewMemoryLimiter)) =
    serve "api" cfg [signed_in 6 7 "10.0.0.1"; signed_in 7 7 "10.0.0.1"] (Some NewMemoryLimiter).
Proof.
  intros cfg reqs.
  assert (forall t, clean_call "api" (anonymous t "10.0.0.1")) as Ha by (intros t; split_and!; try done; split; by intros).
  assert (forall t, clean_call "api" (signed_in t 7 "10.0.0.1")) as Hs.
  { intros t. split_and!; try done. split; [by intros|]. intros c E. injection E as <-. simpl. lia. }
  apply (callers_do_not_share_quota "api" cfg (signed_in 6 7 "10.0.0.1")); [apply Hs|]. subst reqs.
  repeat (apply Forall_cons_2; [apply Ha || apply Hs|]). apply Forall_nil_2.
Defined.
End LimiterFlow.

Module AttributionFlow.
Import Obs AuthProps ObsProps.

Definition bearer (txt : string) : string := "Bearer " +:+ txt.
Lemma bearer_token txt : JobFacts.clean_field txt -> BearerToken (bearer txt) = txt.
Proof.
  intros Hc. unfold BearerToken. change (bearer txt) with (Join ["Bearer"; txt] " ").
  rewrite JobFacts.Fields_Join; [done|]. apply Forall_cons_2; [|by apply Forall_cons_2].
  exact (Forall_inv (JobFacts.Fields_clean "Bearer")).
Qed.

Section flow.
Context `{JwtLaws}.
Variable wire : string -> jtoken.

(** What the gate leaves in the context of a request. *)
Definition attributed (tid pid : Z) (ctx ctx' : context) : Prop :=
  TenantIDFromContext ctx' = (tid, true) /\ PrincipalIDFromContext ctx' = (pid, true) /\
  (forall k, k <> tenantIDKey -> k <> principalIDKey -> Value ctx' k = Value ctx k).

(** From such a context to the log and the metadata. *)
Lemma attributed_reports tid pid ctx ctx' :
  attributed tid pid ctx ctx' -> 0 <= tid <= maxUint64 -> 0 <= pid <= maxUint64 ->
  (exists m, RequestMetadataFromContext ctx' = Some m /\
     m !! FieldTenantID = Some (FormatInt tid) /\ m !! FieldPrincipalID = Some (FormatInt pid) /\
     m !! FieldRequestID = match RequestIDFromContext ctx with (r, true) => Some r | _ => None end) /\
  (forall en, attrs (WithRequest (mkLogger en []) (Some ctx')) =
     (match RequestIDFromContext ctx with (r, true) => [(FieldRequestID, VStr r)] | _ => [] end) ++
     [(FieldTenantID, VU64 tid); (FieldPrincipalID, VU64 pid)]).
Proof.
  intros (Ht & Hp & Hv) Hti Hpi.
  assert (RequestIDFromContext ctx' = RequestIDFromContext ctx) as Hr.
  { unfold RequestIDFromContext. by rewrite Hv. }
  split.
  - destruct (metadata_exact ctx') as (m & Hm & M1 & M2 & M3).
    + rewrite Ht. by intros ? [= <-].
    + rewrite Hp. by intros ? [= <-].
    + exists m. rewrite Ht in M2. rewrite Hp in M3. by rewrite Hr in M1.
  - intros en. unfold WithRequest, request_args. simpl default. rewrite Hr, Ht, Hp.
    by destruct (RequestIDFromContext ctx) as [r []].
Qed.

(** C20. A request is attributed to the holder of its token.  A tenant token, sent as a bearer token
    before it expires and while its version is current, passes the tenant gate with the claims
    it was issued with; the request's log lines and metadata then name exactly the token's tenant
    and principal beside the request id it came with, and the limiter counts it under them.  With
    another current version, or from its expiry on, it is refused; and the platform gate refuses it
    always. *)
Theorem requests_are_attributed txt s now t t' tid code pid ty roles v actor lookup warn ctx scope ip :
  IssueTenantToken s now tid code pid ty roles v actor = Ok (wire txt) ->
  jwt_text (write_tenant (tenant_claims s now tid code pid ty roles v actor)) ->
  JobFacts.clean_field txt -> 0 < tid <= maxUint64 -> 0 < pid <= maxUint64 ->
  let claims := tenant_claims s now tid code pid ty roles v actor in
  match TenantToken wire (Some s) lookup warn t t' (bearer txt) ctx with
  | Pass (c, ctx', _) =>
      t < time_Unix (Unix (Add now (tenTTL s))) /\ (forall f, lookup = Some f -> f pid = Ok v) /\ c = claims /\
      (exists m, RequestMetadataFromContext ctx' = Some m /\
         m !! FieldTenantID = Some (FormatInt tid) /\ m !! FieldPrincipalID = Some (FormatInt pid) /\
         m !! FieldRequestID = match RequestIDFromContext ctx with (r, true) => Some r | _ => None end) /\
      (forall en, attrs (WithRequest (mkLogger en []) (Some ctx')) =
         (match RequestIDFromContext ctx with (r, true) => [(FieldRequestID, VStr r)] | _ => [] end) ++
         [(FieldTenantID, VU64 tid); (FieldPrincipalID, VU64 pid)]) /\
      TenantPrincipalIPKey scope (Some c) None ip =
        scope +:+ ":tenant:" +:+ FormatInt tid +:+ ":principal:" +:+ FormatInt pid +:+ ":ip:" +:+ ip
  | Abort st _ =>
      st = 401 /\ (time_Unix (Unix (Add now (tenTTL s))) <= t \/ exists f, lookup = Some f /\ f pid <> Ok v)
  end /\
  exists msg, PlatformToken wire (Some s) lookup warn t t' (bearer txt) ctx = Abort 401 msg.
Proof.
  intros Hi Htext Hc Htid Hpid claims.
  assert (txt <> "") as Hne by apply Hc.
  pose proof (tenant_round_trip s now t tid code pid ty roles v actor (wire txt) Hi ltac:(lia) ltac:(lia) Htext) as Hp.
  fold claims in Hp. split.
  - unfold TenantToken. rewrite bearer_token by done. destruct (String.eqb_spec txt ""); [done|]. rewrite Hp.
    destruct (Z.ltb_spec t (time_Unix (Unix (Add now (tenTTL s))))) as [Hlt|Hge]; [|by split; [|left]].
    cbn zeta.
    set (ctx' := WithPrincipalID _ _).
    assert (attributed tid pid ctx ctx') as Hatt.
    { split_and!; [done..|]. intros k K1 K2. subst ctx'. unfold WithPrincipalID, WithTenantID. by rewrite !Value_ne. }
    destruct (attributed_reports tid pid ctx ctx' Hatt ltac:(lia) ltac:(lia)) as [Hm Ha].
    assert (TenantPrincipalIPKey scope (Some claims) None ip =
      scope +:+ ":tenant:" +:+ FormatInt tid +:+ ":principal:" +:+ FormatInt pid +:+ ":ip:" +:+ ip) as Hkey.
    { unfold TenantPrincipalIPKey, claimIDs. cbn [t_TenantID t_PrincipalID claims tenant_claims].
      rewrite FormatInt_nonneg by lia. pose proof (strN_nonempty tid). by destruct (String.eqb_spec (strN tid) ""). }
    unfold version_gate. destruct lookup as [f|]; [|by split_and!].
    cbn [t_PrincipalID t_TokenVersion claims tenant_claims].
    destruct (f pid) as [cur|e] eqn:Ef; [|split; [done|]; right; exists f; rewrite Ef; done].
    destruct (Z.eqb_spec v cur) as [<-|Hv]; cbn [negb].
    + split_and!; try done. by intros g [= <-].
    + split; [done|]. right. exists f. rewrite Ef. split; [done|congruence].
  - unfold PlatformToken. rewrite bearer_token by done. destruct (String.eqb_spec txt ""); [done|].
    unfold ParsePlatformToken. rewrite (parse_issued _ _ _ _ _ _ _ (issued_tenant _ _ _ _ _ _ _ _ _ _ Hi) Htext).
    destruct (_ <? _); simpl; eauto.
Qed.
End flow.

#[local] Existing Instance mem_jwt.
#[local] Existing Instance mem_jwt_laws.
Definition demo_wire (_ : string) : jtoken :=
  ("k", write_tenant (tenant_claims svc_a t_issue 5 "acme" 7 "user" ["admin"] 2 None)).
Lemma requests_are_attributed_witness :
  let gate := TenantToken demo_wire (Some svc_a) (Some (fun _ => Ok 2)) [] (t_issue + Minute) (t_issue + Minute)
                (bearer "abc.def.ghi") (WithRequestID Background "r1") in
  match gate with
  | Pass (c, ctx', _) =>
      (exists m, RequestMetadataFromContext ctx' = Some m /\ m !! FieldTenantID = Some "5" /\
         m !! FieldPrincipalID = Some "7" /\ m !! FieldRequestID = Some "r1") /\
      TenantPrincipalIPKey "api" (Some c) None "10.0.0.1" = "api:tenant:5:principal:7:ip:10.0.0.1"
  | Abort _ _ => False
  end.
Proof.
  intros gate.
  pose proof (requests_are_attributed demo_wire "abc.def.ghi" svc_a t_issue (t_issue + Minute) (t_issue + Minute)
    5 "acme" 7 "user" ["admin"] 2 None (Some (fun _ => Ok 2)) [] (WithRequestID Background "r1") "api" "10.0.0.1"
    eq_refl Logic.I (Forall_inv (JobFacts.Fields_clean "abc.def.ghi")) ltac:(split; [|unfold maxUint64]; lia)
    ltac:(split; [|unfold maxUint64]; lia)) as [Hg _].
  fold gate in Hg. destruct gate as [[[c ctx'] soon]|st msg].
  - destruct Hg as (_ & _ & _ & Hm & _ & Hk). split; [exact Hm|exact Hk].
  - destruct Hg as (_ & [Hx|(f & [= <-] & Hx)]); [by vm_compute in Hx|by apply Hx].
Defined.
End AttributionFlow.
